(** * repal: logic extraction from an EPROM dump of a PAL device

    A shallow embedding of the logic-extraction engine of [repal.py]
    and the verification of its specification.

    Python integers are unbounded, so they are modelled by [Z] and the
    bitwise operators by [Z.land], [Z.lor], [Z.lxor], [Z.lnot],
    [Z.shiftl] and [Z.shiftr].  Python lists are [list]s, read with
    [py_getitem], which raises [IndexError] out of range.  Code that can
    raise returns a [result].  A Python string is the [string] of the
    bytes of its UTF-8 encoding, and [py_len] counts its characters.  The
    equations file is the list of the strings passed to
    [equations.write], in order. *)

From Stdlib Require Import ZArith List Bool Lia String Ascii Permutation Sorted.
From Stdlib Require Import DecimalString.
Import ListNotations.

Local Open Scope Z_scope.

(** ** Exceptions and results *)

Inductive exn : Type :=
| IndexError
| KeyError
| ValueError
| TypeError
| RuntimeError (msg : string).

Inductive result (A : Type) : Type :=
| Ok (a : A)
| Raise (e : exn).

Arguments Ok {A} a.
Arguments Raise {A} e.

Definition bind {A B : Type} (r : result A) (k : A -> result B) : result B :=
  match r with
  | Ok a => k a
  | Raise e => Raise e
  end.

Notation "x <- r ;; k" := (bind r (fun x => k))
  (at level 61, r at next level, right associativity).

(** [for x in l: acc = body(acc, x)] where the body may raise. *)
Fixpoint for_each {A S : Type} (body : S -> A -> result S) (l : list A) (s : S)
  : result S :=
  match l with
  | [] => Ok s
  | x :: l' => s' <- body s x ;; for_each body l' s'
  end.

(** [l[i]] on a Python list: a negative index counts from the end. *)
Definition py_getitem {A : Type} (l : list A) (i : Z) : result A :=
  let len := Z.of_nat (List.length l) in
  let j := if i <? 0 then i + len else i in
  if (j <? 0) || (len <=? j) then Raise IndexError
  else match nth_error l (Z.to_nat j) with
       | Some a => Ok a
       | None => Raise IndexError
       end.

(** [range(n)] *)
Definition range (n : Z) : list Z :=
  map Z.of_nat (seq 0 (Z.to_nat n)).

(** ** Pin classes *)

Record PinDependencies : Type := mkDeps {
  bitmap : Z;
  bits : list Z;
  pinnames : list string
}.

Definition no_dependencies : PinDependencies := mkDeps 0 [] [].

Record Pin : Type := mkPin {
  name : string;
  number : Z;
  bitpos : Z;
  bitmask : Z;
  hizprobebitpos : option Z;
  hizprobebitmask : Z;
  seenlow : bool;
  seenhigh : bool;
  depends : PinDependencies;
  oe_depends : PinDependencies;
  dontcareconditions : list (list string);
  negativeconditions : list (list string);
  positiveconditions : list (list string);
  dontcareterms : list Z;
  negminterms : list Z;
  posminterms : list Z;
  oenegativeconditions : list (list string);
  oepositiveconditions : list (list string);
  oenegminterms : list Z;
  oeposminterms : list Z
}.

(** [Pin()]: the flags [seenlow] and [seenhigh] hold 0 or 1 in the
    source and are only tested for truth, hence [bool]. *)
Definition new_pin : Pin :=
  mkPin "" 0 0 0 (Some 0) 0 false false no_dependencies no_dependencies
        [] [] [] [] [] [] [] [] [] [].

(** ** The device profile *)

Record Device : Type := mkDevice {
  pal_device_name : string;
  eprom_address_width : Z;
  eprom_data_width : Z;
  eprom_hiz_probe_pins : Z;
  eprom_address_pins : list Z;
  eprom_data_pins : list Z;
  pal_pin_names : list (string * string);
  pal_output_pins : Z
}.

(** ** iterate_mask *)

(** The loop [while bit <= mask] of [iterate_mask]; [None] when the fuel
    runs out before the loop exits. *)
Fixpoint collect_bits (fuel : nat) (mask bit : Z) (acc : list Z)
  : option (list Z) :=
  if bit <=? mask then
    match fuel with
    | O => None
    | S fuel' =>
        collect_bits fuel' mask (Z.shiftl bit 1)
          (if Z.land mask bit =? 0 then acc else acc ++ [bit])
    end
  else Some acc.

(** The inner loop [for bit in bits] that builds one combination. *)
Fixpoint deposit (n : Z) (bits : list Z) (srcmask r : Z) : Z :=
  match bits with
  | [] => r
  | bit :: bits' =>
      deposit n bits' (Z.shiftl srcmask 1)
        (if Z.land n srcmask =? 0 then r else Z.lor r bit)
  end.

Definition iterate_mask_fuel (fuel : nat) (mask : Z) : option (list Z) :=
  if mask <? 1 then Some []
  else match collect_bits fuel mask 1 [] with
       | Some bits =>
           Some (map (fun n => deposit n bits 1 0)
                     (range (2 ^ Z.of_nat (List.length bits))))
       | None => None
       end.

(** The values yielded by the generator, in order.  The loop over the
    bits of [mask] runs [Z.log2 mask + 1] times; [iterate_mask_fuel_enough]
    shows that the fuel given here lets it exit. *)
Definition iterate_mask (mask : Z) : list Z :=
  match iterate_mask_fuel (S (Z.to_nat (Z.log2 mask))) mask with
  | Some l => l
  | None => []
  end.

(** ** get_set_bits *)

Fixpoint get_set_bits_loop (count : nat) (bitnum bit bits : Z) : list Z :=
  match count with
  | O => []
  | S count' =>
      (if Z.land bits bit =? 0 then [] else [bitnum])
      ++ get_set_bits_loop count' (bitnum + 1) (Z.shiftl bit 1) bits
  end.

Definition get_set_bits (bitcount bits : Z) : list Z :=
  get_set_bits_loop (Z.to_nat bitcount) 0 1 bits.

(** ** build_outputpin_conditions and build_outputpin_minterm *)

Definition NOTSTR : string := "!".
Definition ANDSTR : string := "&".
Definition ORSTR : string := "#".

Fixpoint conditions_loop (bits : list Z) (names : list string) (epromaddr : Z)
  : result (list string) :=
  match bits with
  | [] => Ok []
  | bit :: bits' =>
      match names with
      | [] => Raise IndexError
      | nm :: names' =>
          rest <- conditions_loop bits' names' epromaddr ;;
          Ok ((if Z.land epromaddr bit =? 0
               then (NOTSTR ++ nm)%string else (" " ++ nm)%string)
              :: rest)
      end
  end.

Definition build_outputpin_conditions (dependencies : PinDependencies)
  (epromaddr : Z) : result (list string) :=
  conditions_loop (bits dependencies) (pinnames dependencies) epromaddr.

Fixpoint minterm_loop (bits : list Z) (epromaddr pinidx minterm : Z) : Z :=
  match bits with
  | [] => minterm
  | bit :: bits' =>
      minterm_loop bits' epromaddr (pinidx + 1)
        (if Z.land epromaddr bit =? 0 then minterm
         else Z.lor minterm (Z.shiftl 1 pinidx))
  end.

Definition build_outputpin_minterm (dependencies : PinDependencies)
  (epromaddr : Z) : Z :=
  minterm_loop (bits dependencies) epromaddr 0 0.

(** ** Pin model *)

Definition set_oe_depends (p : Pin) (d : PinDependencies) : Pin :=
  mkPin (name p) (number p) (bitpos p) (bitmask p) (hizprobebitpos p)
        (hizprobebitmask p) (seenlow p) (seenhigh p) (depends p) d
        (dontcareconditions p) (negativeconditions p) (positiveconditions p)
        (dontcareterms p) (negminterms p) (posminterms p)
        (oenegativeconditions p) (oepositiveconditions p)
        (oenegminterms p) (oeposminterms p).

Definition set_depends (p : Pin) (d : PinDependencies) : Pin :=
  mkPin (name p) (number p) (bitpos p) (bitmask p) (hizprobebitpos p)
        (hizprobebitmask p) (seenlow p) (seenhigh p) d (oe_depends p)
        (dontcareconditions p) (negativeconditions p) (positiveconditions p)
        (dontcareterms p) (negminterms p) (posminterms p)
        (oenegativeconditions p) (oepositiveconditions p)
        (oenegminterms p) (oeposminterms p).

Definition set_seenlow (p : Pin) : Pin :=
  mkPin (name p) (number p) (bitpos p) (bitmask p) (hizprobebitpos p)
        (hizprobebitmask p) true (seenhigh p) (depends p) (oe_depends p)
        (dontcareconditions p) (negativeconditions p) (positiveconditions p)
        (dontcareterms p) (negminterms p) (posminterms p)
        (oenegativeconditions p) (oepositiveconditions p)
        (oenegminterms p) (oeposminterms p).

Definition set_seenhigh (p : Pin) : Pin :=
  mkPin (name p) (number p) (bitpos p) (bitmask p) (hizprobebitpos p)
        (hizprobebitmask p) (seenlow p) true (depends p) (oe_depends p)
        (dontcareconditions p) (negativeconditions p) (positiveconditions p)
        (dontcareterms p) (negminterms p) (posminterms p)
        (oenegativeconditions p) (oepositiveconditions p)
        (oenegminterms p) (oeposminterms p).

Definition add_dontcare (p : Pin) (conditions : list string) (minterm : Z) : Pin :=
  mkPin (name p) (number p) (bitpos p) (bitmask p) (hizprobebitpos p)
        (hizprobebitmask p) (seenlow p) (seenhigh p) (depends p) (oe_depends p)
        (dontcareconditions p ++ [conditions]) (negativeconditions p)
        (positiveconditions p)
        (dontcareterms p ++ [minterm]) (negminterms p) (posminterms p)
        (oenegativeconditions p) (oepositiveconditions p)
        (oenegminterms p) (oeposminterms p).

Definition add_negative (p : Pin) (conditions : list string) (minterm : Z) : Pin :=
  mkPin (name p) (number p) (bitpos p) (bitmask p) (hizprobebitpos p)
        (hizprobebitmask p) (seenlow p) (seenhigh p) (depends p) (oe_depends p)
        (dontcareconditions p) (negativeconditions p ++ [conditions])
        (positiveconditions p)
        (dontcareterms p) (negminterms p ++ [minterm]) (posminterms p)
        (oenegativeconditions p) (oepositiveconditions p)
        (oenegminterms p) (oeposminterms p).

Definition add_positive (p : Pin) (conditions : list string) (minterm : Z) : Pin :=
  mkPin (name p) (number p) (bitpos p) (bitmask p) (hizprobebitpos p)
        (hizprobebitmask p) (seenlow p) (seenhigh p) (depends p) (oe_depends p)
        (dontcareconditions p) (negativeconditions p)
        (positiveconditions p ++ [conditions])
        (dontcareterms p) (negminterms p) (posminterms p ++ [minterm])
        (oenegativeconditions p) (oepositiveconditions p)
        (oenegminterms p) (oeposminterms p).

Definition add_oe_negative (p : Pin) (conditions : list string) (minterm : Z) : Pin :=
  mkPin (name p) (number p) (bitpos p) (bitmask p) (hizprobebitpos p)
        (hizprobebitmask p) (seenlow p) (seenhigh p) (depends p) (oe_depends p)
        (dontcareconditions p) (negativeconditions p) (positiveconditions p)
        (dontcareterms p) (negminterms p) (posminterms p)
        (oenegativeconditions p ++ [conditions]) (oepositiveconditions p)
        (oenegminterms p ++ [minterm]) (oeposminterms p).

Definition add_oe_positive (p : Pin) (conditions : list string) (minterm : Z) : Pin :=
  mkPin (name p) (number p) (bitpos p) (bitmask p) (hizprobebitpos p)
        (hizprobebitmask p) (seenlow p) (seenhigh p) (depends p) (oe_depends p)
        (dontcareconditions p) (negativeconditions p) (positiveconditions p)
        (dontcareterms p) (negminterms p) (posminterms p)
        (oenegativeconditions p) (oepositiveconditions p ++ [conditions])
        (oenegminterms p) (oeposminterms p ++ [minterm]).

(** ** Strings *)

(** [len(s)]: the number of characters of a string, that is the bytes of
    its UTF-8 encoding that do not continue a character. *)
Definition is_continuation (c : ascii) : bool :=
  let n := nat_of_ascii c in ((128 <=? n) && (n <? 192))%nat.

Fixpoint py_len (s : string) : nat :=
  match s with
  | EmptyString => O
  | String c s' => ((if is_continuation c then 0 else 1) + py_len s')%nat
  end.

(** [str(n)] for an integer. *)
Definition py_str (n : Z) : string := NilZero.string_of_int (Z.to_int n).

(** The blanks that [int] skips around a numeral: tab, line feed,
    vertical tab, form feed, carriage return and space. *)
Definition is_space (c : ascii) : bool :=
  let n := nat_of_ascii c in
  (((9 <=? n) && (n <=? 13)) || (n =? 32))%nat.

Fixpoint lstrip (s : string) : string :=
  match s with
  | EmptyString => EmptyString
  | String c s' => if is_space c then lstrip s' else s
  end.

Definition digit_value (c : ascii) : option Z :=
  let n := nat_of_ascii c in
  if ((48 <=? n) && (n <=? 57))%nat then Some (Z.of_nat (n - 48)) else None.

(** The digits of a numeral, with single underscores between them: the
    value read, the number of digits and the text that follows.  Two
    underscores in a row or an underscore at the end are refused. *)
Fixpoint scan_digits (s : string) (after_underscore : bool) (digits : nat)
  (value : Z) : option (Z * nat * string) :=
  match s with
  | EmptyString =>
      if after_underscore then None else Some (value, digits, EmptyString)
  | String c s' =>
      if Ascii.eqb c "_" then
        if after_underscore then None else scan_digits s' true digits value
      else
        match digit_value c with
        | Some d => scan_digits s' false (S digits) (10 * value + d)
        | None =>
            if after_underscore then None else Some (value, digits, s)
        end
  end.

(** The most digits that [int] converts, by default. *)
Definition int_max_str_digits : nat := 4300.

(** [int(s)] for a string of ASCII characters, [None] standing for
    [ValueError]: blanks, an optional sign, at least one decimal digit
    with single underscores between digits, blanks.  Decimal digits and
    blanks outside ASCII, which Python reads too, are refused here. *)
Definition py_int (s : string) : option Z :=
  let s1 := lstrip s in
  let signed :=
    match s1 with
    | String "+" s2 => (1, s2)
    | String "-" s2 => (-1, s2)
    | _ => (1, s1)
    end in
  match snd signed with
  | String "_" _ => None
  | s2 =>
      match scan_digits s2 false 0 0 with
      | None => None
      | Some (value, digits, rest) =>
          match digits, lstrip rest with
          | O, _ => None
          | _, String _ _ => None
          | _, EmptyString =>
              if (int_max_str_digits <? digits)%nat then None
              else Some (fst signed * value)
          end
      end
  end.

(** [d[k]] on the JSON object [pal_pin_names], kept in insertion order;
    its keys are distinct. *)
Fixpoint dict_getitem (d : list (string * string)) (k : string) : result string :=
  match d with
  | [] => Raise KeyError
  | (k', v) :: d' => if String.eqb k' k then Ok v else dict_getitem d' k
  end.

(** [l.index(x)]: the first position of [x], [None] for [ValueError]. *)
Fixpoint list_index (l : list Z) (x : Z) (pos : Z) : option Z :=
  match l with
  | [] => None
  | y :: l' => if y =? x then Some pos else list_index l' x (pos + 1)
  end.

Definition epromaddrbitpos_to_palpinnum (device : Device) (epromaddrbitpos : Z)
  : result Z :=
  py_getitem (eprom_address_pins device) epromaddrbitpos.

Definition epromdatabitpos_to_palpinnum (device : Device) (epromdatabitpos : Z)
  : result Z :=
  py_getitem (eprom_data_pins device) epromdatabitpos.

Definition palpinnum_to_epromaddrbitpos (device : Device) (palpinnum : Z)
  : option Z :=
  list_index (eprom_address_pins device) palpinnum 0.

Definition palpinnum_to_epromdatabitpos (device : Device) (palpinnum : string)
  : option Z :=
  match py_int palpinnum with
  | Some n => list_index (eprom_data_pins device) n 0
  | None => None
  end.

Fixpoint map_result {A B : Type} (f : A -> result B) (l : list A)
  : result (list B) :=
  match l with
  | [] => Ok []
  | x :: l' => y <- f x ;; ys <- map_result f l' ;; Ok (y :: ys)
  end.

Definition build_inputpin (device : Device) (inputpinbitpos : Z) : result Pin :=
  num <- epromaddrbitpos_to_palpinnum device inputpinbitpos ;;
  nm <- dict_getitem (pal_pin_names device) (py_str num) ;;
  Ok (mkPin nm num inputpinbitpos (Z.shiftl 1 inputpinbitpos) (Some 0) 0
            false false no_dependencies no_dependencies
            [] [] [] [] [] [] [] [] [] []).

Definition build_inputpins_configuration (device : Device) : result (list Pin) :=
  map_result (build_inputpin device) (range (eprom_address_width device)).

Definition build_outputpin (device : Device) (outputpinbitpos : Z) : result Pin :=
  num <- epromdatabitpos_to_palpinnum device outputpinbitpos ;;
  nm <- dict_getitem (pal_pin_names device) (py_str num) ;;
  let probe := palpinnum_to_epromaddrbitpos device num in
  Ok (mkPin nm num outputpinbitpos (Z.shiftl 1 outputpinbitpos) probe
            (match probe with Some pos => Z.shiftl 1 pos | None => 0 end)
            false false no_dependencies no_dependencies
            [] [] [] [] [] [] [] [] [] []).

Definition build_outputpins_configuration (device : Device) : result (list Pin) :=
  map_result (build_outputpin device) (range (pal_output_pins device)).

(** ** build_outputpins_dependencies *)

Definition name_in (nm : string) (names : list string) : bool :=
  existsb (String.eqb nm) names.

Definition add_dependency (d : PinDependencies) (inputpin : Pin) : PinDependencies :=
  mkDeps (Z.lor (bitmap d) (bitmask inputpin))
         (bits d ++ [bitmask inputpin])
         (pinnames d ++ [name inputpin]).

(** The hi-z states of [outputpin] at the two addresses of a pair. *)
Definition hiz_states (dumpdata : list Z) (outputpin : Pin)
  (addr0 addr1 data0 data1 : Z) : result (bool * bool) :=
  match hizprobebitpos outputpin with
  | None => Ok (false, false)
  | Some _ =>
      data0_hiz <- py_getitem dumpdata (Z.lxor addr0 (hizprobebitmask outputpin)) ;;
      data1_hiz <- py_getitem dumpdata (Z.lxor addr1 (hizprobebitmask outputpin)) ;;
      Ok (negb (Z.land data0 (bitmask outputpin)
                =? Z.land data0_hiz (bitmask outputpin)),
          negb (Z.land data1 (bitmask outputpin)
                =? Z.land data1_hiz (bitmask outputpin)))
  end.

Definition record_seen (outputpin : Pin) (is_hiz : bool) (output : Z) : Pin :=
  if is_hiz then outputpin
  else if output =? 0 then set_seenlow outputpin else set_seenhigh outputpin.

(** The body of the loop over the output pins, for one input pin and
    one address pair. *)
Definition scan_outputpin (dumpdata : list Z) (inputpin : Pin)
  (addr0 addr1 data0 data1 : Z) (outputpin : Pin) : result Pin :=
  if Z.land addr0 (hizprobebitmask outputpin) >? 0 then Ok outputpin
  else if Z.land addr1 (hizprobebitmask outputpin) >? 0 then Ok outputpin
  else
    let output0 := Z.land data0 (bitmask outputpin) in
    let output1 := Z.land data1 (bitmask outputpin) in
    hiz <- hiz_states dumpdata outputpin addr0 addr1 data0 data1 ;;
    let p1 :=
      if negb (Bool.eqb (fst hiz) (snd hiz))
         && negb (name_in (name inputpin) (pinnames (oe_depends outputpin)))
      then set_oe_depends outputpin (add_dependency (oe_depends outputpin) inputpin)
      else outputpin in
    let p2 :=
      if negb (fst hiz) && negb (snd hiz) && negb (output0 =? output1)
         && negb (name_in (name inputpin) (pinnames (depends p1)))
      then set_depends p1 (add_dependency (depends p1) inputpin)
      else p1 in
    Ok (record_seen (record_seen p2 (fst hiz) output0) (snd hiz) output1).

(** The body of the loop over the input pins, for one address. *)
Definition scan_inputpin (dumpdata : list Z) (eprom_address : Z)
  (outputpins : list Pin) (inputpin : Pin) : result (list Pin) :=
  if Z.land eprom_address (bitmask inputpin) >? 0 then Ok outputpins
  else
    let addr0 := eprom_address in
    let addr1 := Z.lor eprom_address (bitmask inputpin) in
    data0 <- py_getitem dumpdata addr0 ;;
    data1 <- py_getitem dumpdata addr1 ;;
    map_result (scan_outputpin dumpdata inputpin addr0 addr1 data0 data1)
               outputpins.

(** The output pins after the full scan.  [2 ** w] is a float for a
    negative [w], which [range] refuses. *)
Definition build_outputpins_dependencies (device : Device) (dumpdata : list Z)
  (input_pin_mappings output_pin_mappings : list Pin) : result (list Pin) :=
  if eprom_address_width device <? 0 then Raise TypeError
  else
    for_each
      (fun outputpins eprom_address =>
         for_each (scan_inputpin dumpdata eprom_address)
                  input_pin_mappings outputpins)
      (range (2 ^ eprom_address_width device)) output_pin_mappings.

(** ** check_input_combination_is_relevent *)

(** [((2 ** h) - 1) << (a - h)]: a negative exponent gives a float, which
    [<<] refuses; a negative shift count is a [ValueError]. *)
Definition hiz_input_mask (device : Device) : result Z :=
  let h := eprom_hiz_probe_pins device in
  let a := eprom_address_width device in
  if h <? 0 then Raise TypeError
  else if a - h <? 0 then Raise ValueError
  else Ok (Z.shiftl (2 ^ h - 1) (a - h)).

Definition hiz_data_mask (device : Device) : result Z :=
  let h := eprom_hiz_probe_pins device in
  let d := eprom_data_width device in
  if d - h <? 0 then Raise TypeError
  else if h <? 0 then Raise ValueError
  else Ok (Z.shiftl (2 ^ (d - h) - 1) h).

Definition inversebitmap (device : Device) (outputpin : Pin) : result Z :=
  if eprom_address_width device <? 0 then Raise TypeError
  else Ok (Z.lxor (2 ^ eprom_address_width device - 1)
                  (bitmap (depends outputpin))).

Fixpoint relevant_loop (device : Device) (dumpdata : list Z)
  (input_mask data_mask epromaddr : Z) (others : list Z) : result bool :=
  match others with
  | [] => Ok false
  | otherepromaddrbits :: others' =>
      let epromaddr2 := Z.lor epromaddr otherepromaddrbits in
      let hiz_data :=
        Z.shiftr (Z.land epromaddr2 input_mask)
                 (eprom_address_width device - eprom_hiz_probe_pins device) in
      data <- py_getitem dumpdata epromaddr2 ;;
      let relevant_data := Z.land data (Z.lnot data_mask) in
      if hiz_data =? relevant_data then Ok true
      else relevant_loop device dumpdata input_mask data_mask epromaddr others'
  end.

Definition check_input_combination_is_relevent (device : Device)
  (dumpdata : list Z) (outputpin : Pin) (epromaddr : Z) : result bool :=
  input_mask <- hiz_input_mask device ;;
  data_mask <- hiz_data_mask device ;;
  inverse <- inversebitmap device outputpin ;;
  relevant_loop device dumpdata input_mask data_mask epromaddr
                (iterate_mask (Z.land inverse input_mask)).

(** ** get_output_pin_data *)

(** Toggling the hi-z probe leaves the bit of [outputpin] unchanged. *)
Definition is_driven (dumpdata : list Z) (outputpin : Pin) (epromaddr : Z)
  : result bool :=
  data <- py_getitem dumpdata epromaddr ;;
  data_hiz <- py_getitem dumpdata (Z.lxor epromaddr (hizprobebitmask outputpin)) ;;
  Ok (Z.land data (bitmask outputpin) =? Z.land data_hiz (bitmask outputpin)).

Definition no_drive_message (outputpin : Pin) : string :=
  ("Could not find input combination which does not lead to hi-z for pin "
   ++ name outputpin)%string.

Fixpoint drive_search (dumpdata : list Z) (outputpin : Pin) (epromaddr : Z)
  (others : list Z) : result Z :=
  match others with
  | [] => Raise (RuntimeError (no_drive_message outputpin))
  | otherepromaddrbits :: others' =>
      let epromaddr2 := Z.lor epromaddr otherepromaddrbits in
      driven <- is_driven dumpdata outputpin epromaddr2 ;;
      if driven then py_getitem dumpdata epromaddr2
      else drive_search dumpdata outputpin epromaddr others'
  end.

Definition get_output_pin_data (dumpdata : list Z) (outputpin : Pin)
  (epromaddr : Z) : result Z :=
  driven <- is_driven dumpdata outputpin epromaddr ;;
  if driven then py_getitem dumpdata epromaddr
  else drive_search dumpdata outputpin epromaddr
                    (iterate_mask (bitmap (oe_depends outputpin))).

(** ** build_outputpins_equations *)

(** [sorted(l)] for a total preorder [leb]: insertion sort, stable like
    Python's sort. *)
Fixpoint insert_sorted {A : Type} (leb : A -> A -> bool) (x : A) (l : list A)
  : list A :=
  match l with
  | [] => [x]
  | y :: l' => if leb x y then x :: l else y :: insert_sorted leb x l'
  end.

Definition sorted {A : Type} (leb : A -> A -> bool) (l : list A) : list A :=
  fold_right (insert_sorted leb) [] l.

(** The order of Python on tuples [(int, str)]. *)
Definition pair_leb (x y : Z * string) : bool :=
  (fst x <? fst y) || ((fst x =? fst y) && String.leb (snd x) (snd y)).

(** The two parallel lists are zipped, sorted as pairs and unzipped,
    only when [bits] is not empty; unpacking an empty zip is a
    [ValueError]. *)
Definition sort_dependencies (d : PinDependencies) : result PinDependencies :=
  if (0 <? Z.of_nat (List.length (bits d))) then
    match sorted pair_leb (combine (bits d) (pinnames d)) with
    | [] => Raise ValueError
    | z => Ok (mkDeps (bitmap d) (map fst z) (map snd z))
    end
  else Ok d.

(** The body of the loop over the combinations of the dependencies. *)
Definition classify_combination (device : Device) (dumpdata : list Z)
  (outputpin : Pin) (epromaddr : Z) : result Pin :=
  conditions <- build_outputpin_conditions (depends outputpin) epromaddr ;;
  let minterm := build_outputpin_minterm (depends outputpin) epromaddr in
  relevant <- check_input_combination_is_relevent device dumpdata outputpin
                                                  epromaddr ;;
  if negb relevant then Ok (add_dontcare outputpin conditions minterm)
  else
    data <- get_output_pin_data dumpdata outputpin epromaddr ;;
    if Z.land data (bitmask outputpin) =? 0
    then Ok (add_negative outputpin conditions minterm)
    else Ok (add_positive outputpin conditions minterm).

(** The body of the loop over the combinations of the output-enable
    dependencies. *)
Definition classify_oe_combination (dumpdata : list Z) (outputpin : Pin)
  (epromaddr : Z) : result Pin :=
  conditions <- build_outputpin_conditions (oe_depends outputpin) epromaddr ;;
  let minterm := build_outputpin_minterm (oe_depends outputpin) epromaddr in
  driven <- is_driven dumpdata outputpin epromaddr ;;
  if negb driven then Ok (add_oe_negative outputpin conditions minterm)
  else Ok (add_oe_positive outputpin conditions minterm).

(** The body of the loop over the output pins. *)
Definition build_outputpin_equations (device : Device) (dumpdata : list Z)
  (outputpin : Pin) : result Pin :=
  deps <- sort_dependencies (depends outputpin) ;;
  let p1 := set_depends outputpin deps in
  oe_deps <- sort_dependencies (oe_depends p1) ;;
  let p2 := set_oe_depends p1 oe_deps in
  p3 <- (if bitmap (depends p2) =? 0 then Ok p2
         else for_each (classify_combination device dumpdata)
                       (iterate_mask (bitmap (depends p2))) p2) ;;
  if bitmap (oe_depends p3) =? 0 then Ok p3
  else for_each (classify_oe_combination dumpdata)
                (iterate_mask (bitmap (oe_depends p3))) p3.

Definition build_outputpins_equations (device : Device) (dumpdata : list Z)
  (outputpins : list Pin) : result (list Pin) :=
  map_result (build_outputpin_equations device dumpdata) outputpins.

(** ** The equations file *)

Inductive Polarity : Type := Auto | Both | Positive | Negative.

Record Args : Type := mkArgs {
  polarity : Polarity;
  oepolarity : Polarity
}.

(** Modelled from the spec: the result of the minimizer
    [boolexprsimplifier.simplify_minterms], which is not part of the
    sources: the literal [True], the literal [False], or a value whose
    first component is a sequence of products [(value_bits, care_mask)]. *)
Inductive simplified : Type :=
| STrue
| SFalse
| SProducts (products : list (Z * Z)).

Definition nl : string := String (ascii_of_nat 10) EmptyString.

Fixpoint spaces (n : nat) : string :=
  match n with
  | O => EmptyString
  | S n' => String " "%char (spaces n')
  end.

Definition write_equations_newline : list string := [nl].

Definition write_equations_section_title (title : string) : list string :=
  [nl; ("/* " ++ title ++ " */" ++ nl)%string; nl].

(** The order of Python on tuples of integers. *)
Fixpoint tuple_leb (a b : list Z) : bool :=
  match a, b with
  | [], _ => true
  | _ :: _, [] => false
  | x :: a', y :: b' => (x <? y) || ((x =? y) && tuple_leb a' b')
  end.

Fixpoint product_symbols (pinnames : list string) (bits mask bit : Z)
  : list string :=
  match pinnames with
  | [] => []
  | pinname :: pinnames' =>
      (if Z.land mask bit =? 0 then []
       else if Z.land bits bit =? 0 then [("!" ++ pinname)%string]
            else [pinname])
      ++ product_symbols pinnames' bits mask (Z.shiftl bit 1)
  end.

Fixpoint write_products (signedname : string) (pinnames : list string)
  (result : list (Z * Z)) (i len : Z) (isfirstproduct : bool) : list string :=
  match result with
  | [] => []
  | p :: result' =>
      let line := String.concat " & " (product_symbols pinnames (fst p) (snd p) 1) in
      let eol := if i =? len - 1 then ";"%string else ""%string in
      (if isfirstproduct
       then (signedname ++ " = " ++ line ++ eol ++ nl)%string
       else (spaces (py_len signedname) ++ " " ++ ORSTR ++ " "
             ++ line ++ eol ++ nl)%string)
      :: write_products signedname pinnames result' (i + 1) len false
  end.

(** The strings written for one equation; the second argument of the
    source is only ever ["positive"] or ["negative"]. *)
Definition write_pin_equations (name : string) (pinnames : list string)
  (results : simplified) (polarity : Polarity) : list string :=
  let signedname :=
    match polarity with
    | Positive => name
    | _ => (NOTSTR ++ name)%string
    end in
  match results with
  | STrue => [(signedname ++ " = 'b'1;" ++ nl)%string]
  | SFalse => [(signedname ++ " = 'b'0;" ++ nl)%string]
  | SProducts products =>
      let key := fun r : Z * Z =>
        get_set_bits (Z.of_nat (List.length pinnames)) (snd r) in
      let result := sorted (fun r1 r2 => tuple_leb (key r1) (key r2)) products in
      write_products signedname pinnames result 0
                     (Z.of_nat (List.length result)) true
  end.

(** The date is the string [datetime.datetime.now().strftime("%x")] of
    the run. *)
Definition write_equations_file_header (filename devicename date : string)
  : list string :=
  [ ("Name " ++ filename ++ ";" ++ nl)%string;
    ("Device " ++ devicename ++ ";" ++ nl)%string;
    ("Partno ;" ++ nl)%string;
    ("Revision ;" ++ nl)%string;
    ("Date " ++ date ++ ";" ++ nl)%string;
    ("Designer ;" ++ nl)%string;
    ("Company ;" ++ nl)%string;
    ("Assembly ;" ++ nl)%string;
    ("Location ;" ++ nl)%string;
    nl ].

Definition pin_alias_line (number name comment : string) : string :=
  ("pin " ++ number ++ " = " ++ name ++ ";  /* " ++ comment ++ " */ " ++ nl)%string.

Definition write_pin_alias (device : Device) (outputpins : list Pin)
  (item : string * string) : result (list string) :=
  let '(number, name) := item in
  match palpinnum_to_epromdatabitpos device number with
  | None => Ok [pin_alias_line number name "Dedicated input"]
  | Some outputindex =>
      outputpin <- py_getitem outputpins outputindex ;;
      Ok [pin_alias_line number name
            (if bitmap (oe_depends outputpin) =? 0 then
               if bitmap (depends outputpin) =? 0 then
                 if seenhigh outputpin then "Fixed high output"
                 else if seenlow outputpin then "Fixed low output"
                 else "Input"
               else "Combinatorial output"
             else
               if bitmap (depends outputpin) =? 0 then
                 if seenhigh outputpin then "Fixed high output w/ output enable"
                 else "Fixed low output w/ output enable"
               else "Combinatorial output w/ output enable")]
  end.

Definition write_equations_pin_aliases (device : Device)
  (pinnames : list (string * string)) (outputpins : list Pin)
  : result (list string) :=
  lines <- map_result (write_pin_alias device outputpins) pinnames ;;
  Ok (write_equations_section_title "Pin mappings"
      ++ List.concat lines ++ write_equations_newline).

(** The writes to the equations file; those to the truth-table file are
    left out. *)
Definition write_equations_pin_name_value (name : string) (value : Z)
  (polarity : Polarity) : list string :=
  if value =? 0 then
    match polarity with
    | Auto | Positive => [(name ++ " = 'b'0;" ++ nl)%string]
    | Negative => [(NOTSTR ++ name ++ " = 'b'1;" ++ nl)%string]
    | Both => [(name ++ " = 'b'0;" ++ nl)%string;
               (NOTSTR ++ name ++ " = 'b'1;" ++ nl)%string]
    end
  else if value =? 1 then
    match polarity with
    | Auto | Positive => [(name ++ " = 'b'1;" ++ nl)%string]
    | Negative => [(NOTSTR ++ name ++ " = 'b'0;" ++ nl)%string]
    | Both => [(name ++ " = 'b'1;" ++ nl)%string;
               (NOTSTR ++ name ++ " = 'b'0;" ++ nl)%string]
    end
  else [].

Section Emitter.

(** The minimizer, an external collaborator. *)
Variable simplify : Z -> list Z -> list Z -> simplified.

Definition simplify_minterms (pin_names : list string)
  (minterms dontcareminterms : list Z) : simplified :=
  simplify (Z.of_nat (List.length pin_names)) minterms dontcareminterms.

(** The equation or equations chosen by the polarity option.  Under
    [auto], [len(neg[0])] is evaluated when the positive result is not a
    boolean, and fails on a boolean. *)
Definition write_polarity_equations (name : string) (pinnames : list string)
  (simplified_terms_pos simplified_terms_neg : simplified)
  (polarity : Polarity) : result (list string) :=
  match polarity with
  | Both =>
      Ok (write_pin_equations name pinnames simplified_terms_pos Positive
          ++ write_pin_equations name pinnames simplified_terms_neg Negative)
  | Positive =>
      Ok (write_pin_equations name pinnames simplified_terms_pos Positive)
  | Auto =>
      match simplified_terms_pos with
      | STrue | SFalse =>
          Ok (write_pin_equations name pinnames simplified_terms_pos Positive)
      | SProducts pos =>
          match simplified_terms_neg with
          | STrue | SFalse => Raise TypeError
          | SProducts neg =>
              if Z.of_nat (List.length pos) <=? Z.of_nat (List.length neg)
              then Ok (write_pin_equations name pinnames simplified_terms_pos
                                           Positive)
              else Ok (write_pin_equations name pinnames simplified_terms_neg
                                           Negative)
          end
      end
  | Negative =>
      Ok (write_pin_equations name pinnames simplified_terms_neg Negative)
  end.

(** The body of the loop of [write_equations_pin_output_equations]. *)
Definition write_pin_output_equation (args : Args) (outputpin : Pin)
  : result (list string) :=
  if bitmap (depends outputpin) =? 0 then
    if seenhigh outputpin then
      Ok (write_equations_pin_name_value (name outputpin) 1 (polarity args)
          ++ write_equations_newline)
    else if seenlow outputpin then
      Ok (write_equations_pin_name_value (name outputpin) 0 (polarity args)
          ++ write_equations_newline)
    else Ok []
  else
    let simplified_terms_pos :=
      simplify_minterms (pinnames (depends outputpin)) (posminterms outputpin)
                        (dontcareterms outputpin) in
    let simplified_terms_neg :=
      simplify_minterms (pinnames (depends outputpin)) (negminterms outputpin)
                        (dontcareterms outputpin) in
    eqs <- write_polarity_equations (name outputpin)
             (pinnames (depends outputpin))
             simplified_terms_pos simplified_terms_neg (polarity args) ;;
    Ok (eqs ++ write_equations_newline).

Definition write_equations_pin_output_equations (args : Args)
  (outputpins : list Pin) : result (list string) :=
  eqs <- map_result (write_pin_output_equation args) outputpins ;;
  Ok (write_equations_section_title "Output equations" ++ List.concat eqs).

(** The body of the loop of [write_equations_pin_output_enable_equations]. *)
Definition write_pin_output_enable_equation (args : Args) (outputpin : Pin)
  : result (list string) :=
  if bitmap (oe_depends outputpin) =? 0 then
    if seenhigh outputpin || seenlow outputpin then
      Ok (write_equations_pin_name_value (name outputpin ++ ".oe") 1
                                         (oepolarity args)
          ++ write_equations_newline)
    else
      Ok (write_equations_pin_name_value (name outputpin ++ ".oe") 0
                                         (oepolarity args)
          ++ write_equations_newline)
  else
    let simplified_terms_pos :=
      simplify_minterms (pinnames (oe_depends outputpin))
                        (oeposminterms outputpin) [] in
    let simplified_terms_neg :=
      simplify_minterms (pinnames (oe_depends outputpin))
                        (oenegminterms outputpin) [] in
    eqs <- write_polarity_equations (name outputpin ++ ".oe")
             (pinnames (oe_depends outputpin))
             simplified_terms_pos simplified_terms_neg (oepolarity args) ;;
    Ok (eqs ++ write_equations_newline).

Definition write_equations_pin_output_enable_equations (args : Args)
  (outputpins : list Pin) : result (list string) :=
  eqs <- map_result (write_pin_output_enable_equation args) outputpins ;;
  Ok (write_equations_section_title "Output enable equations"
      ++ List.concat eqs).

(** The size check of [read_eprom_dump] on the decoded words, with
    [databytes = int(width / 8)].  For a negative address width [2 ** w]
    is a fraction: the two sizes are then equal only when both are zero,
    and the message prints a float, which is left out here. *)
Definition check_dump_size (device : Device) (dumpdata : list Z) : result unit :=
  let databytes := Z.quot (eprom_data_width device) 8 in
  if eprom_address_width device <? 0 then
    if databytes =? 0 then Ok tt
    else Raise (RuntimeError "File with a fraction of bytes expected")
  else
    let expected_file_size := 2 ^ eprom_address_width device * databytes in
    if Z.of_nat (List.length dumpdata) * databytes =? expected_file_size
    then Ok tt
    else Raise (RuntimeError ("File with " ++ py_str expected_file_size
                              ++ " bytes expected")).

(** The main program from the decoded dump on: the strings written to
    the equations file, in order.  [stem] is the name of the dump without
    its extension and [date] the date string of the run. *)
Definition repal (device : Device) (dumpdata : list Z) (args : Args)
  (stem date : string) : result (list string) :=
  _ <- check_dump_size device dumpdata ;;
  inputpins <- build_inputpins_configuration device ;;
  outputpins0 <- build_outputpins_configuration device ;;
  outputpins1 <- build_outputpins_dependencies device dumpdata inputpins
                                               outputpins0 ;;
  outputpins <- build_outputpins_equations device dumpdata outputpins1 ;;
  aliases <- write_equations_pin_aliases device (pal_pin_names device)
                                         outputpins ;;
  outputs <- write_equations_pin_output_equations args outputpins ;;
  enables <- write_equations_pin_output_enable_equations args outputpins ;;
  Ok (write_equations_file_header stem (pal_device_name device) date
      ++ aliases ++ outputs ++ enables).

(** The bytes of the equations file. *)
Definition file_contents (writes : list string) : string :=
  String.concat "" writes.

End Emitter.


(** ** read_eprom_dump *)

(** [int.from_bytes(data, byteorder)], unsigned: the bytes are the digits
    in base 256, least significant first for ["little"] and last for
    ["big"]; any other byte order is a [ValueError]. *)
Fixpoint from_little (data : list Byte.byte) : Z :=
  match data with
  | [] => 0
  | b :: data' => Z.of_N (Byte.to_N b) + 256 * from_little data'
  end.

Definition int_from_bytes (data : list Byte.byte) (byteorder : string)
  : result Z :=
  if String.eqb byteorder "little" then Ok (from_little data)
  else if String.eqb byteorder "big" then Ok (from_little (rev data))
  else Raise ValueError.

(** [f.read(size)] on a file opened with ["rb"], [rest] being the bytes
    not read yet: the bytes read and the bytes left.  The size [-1] reads
    to the end of the file and a lower size is a [ValueError]. *)
Definition file_read (rest : list Byte.byte) (size : Z)
  : result (list Byte.byte * list Byte.byte) :=
  if size <? -1 then Raise ValueError
  else if size =? -1 then Ok (rest, [])
  else Ok (firstn (Z.to_nat size) rest, skipn (Z.to_nat size) rest).

(** The loop [while True] of [read_eprom_dump], which exits on an empty
    read; [None] when the fuel runs out before it exits. *)
Fixpoint read_loop (fuel : nat) (rest : list Byte.byte) (databytes : Z)
  (byteorder : string) : option (result (list Z)) :=
  match fuel with
  | O => None
  | S fuel' =>
      match file_read rest databytes with
      | Raise e => Some (Raise e)
      | Ok ([], _) => Some (Ok [])
      | Ok (data, rest') =>
          match int_from_bytes data byteorder with
          | Raise e => Some (Raise e)
          | Ok word =>
              match read_loop fuel' rest' databytes byteorder with
              | Some (Ok words) => Some (Ok (word :: words))
              | other => other
              end
          end
      end
  end.

(** The decoded words of the dump [file], whose bytes are given; the byte
    order is the entry [eprom_endianness] of the profile.  Every read but
    the last takes at least one byte, so the loop exits within
    [length file + 1] reads: [read_loop_fuel_enough] shows that the fuel
    given here is enough.  [int(width / 8)] goes through a float, which
    is exact for the widths of a profile. *)
Definition read_eprom_dump (device : Device) (eprom_endianness : string)
  (file : list Byte.byte) : result (list Z) :=
  let databytes := Z.quot (eprom_data_width device) 8 in
  dataarray <- match read_loop (S (List.length file)) file databytes
                               eprom_endianness with
               | Some r => r
               | None => Ok []
               end ;;
  _ <- check_dump_size device dataarray ;;
  Ok dataarray.

(** ** select_device *)

(** The device profiles, a JSON object, in the order of the file; its
    keys are distinct. *)
Fixpoint profiles_get (devices : list (string * Device)) (devicetype : string)
  : option Device :=
  match devices with
  | [] => None
  | (k, d) :: devices' =>
      if String.eqb k devicetype then Some d else profiles_get devices' devicetype
  end.

(** [(2 ** datawidth) * databytes == dumpsize]; for a negative width the
    power is a fraction, and the product equals the integer [dumpsize]
    exactly when [databytes] is [dumpsize * 2 ** -datawidth]. *)
Definition expected_size_is (device : Device) (dumpsize : Z) : bool :=
  let databytes := Z.quot (eprom_data_width device) 8 in
  let datawidth := eprom_address_width device in
  if datawidth <? 0 then databytes =? dumpsize * 2 ^ (- datawidth)
  else 2 ^ datawidth * databytes =? dumpsize.

(** [dumpsize] is the size of the dump file in bytes. *)
Definition select_device (devices : list (string * Device))
  (devicetype : string) (dumpsize : Z) : result Device :=
  if negb (String.eqb devicetype "auto") then
    match profiles_get devices devicetype with
    | None =>
        Raise (RuntimeError
                 ("Device detection failed, no device profile with device type '"
                  ++ devicetype ++ "' found"))
    | Some device => Ok device
    end
  else
    match find (fun item => expected_size_is (snd item) dumpsize) devices with
    | Some item => Ok (snd item)
    | None =>
        Raise (RuntimeError
                 ("Device detection failed or bad dump, device with "
                  ++ py_str dumpsize ++ " 'eprom_filesize' expected"))
    end.

(** ** The truth table of a pin *)

(** [str.ljust]: the string padded with spaces on the right up to [width]
    characters, and unchanged when it is that long already. *)
Definition ljust (s : string) (width : Z) : string :=
  (s ++ spaces (Z.to_nat (width - Z.of_nat (py_len s))))%string.

(** [get_max_pin_name_length]: the length of the longest pin name of the
    profile; [max] of no name raises [ValueError]. *)
Definition get_max_pin_name_length (device : Device) : result Z :=
  match map (fun item => Z.of_nat (py_len (snd item)))
            (pal_pin_names device) with
  | [] => Raise ValueError
  | n :: ns => Ok (fold_left Z.max ns n)
  end.

(** The inner loop of [write_pin_truthtable] over the conditions of one
    line, [len] being the number of conditions of the line. *)
Fixpoint truthtable_conditions (conditions : list string)
  (cond_i len pin_name_maxlen : Z) (line : string) : string :=
  match conditions with
  | [] => line
  | cond :: rest =>
      let line1 := if cond_i =? 0 then line
                   else (line ++ " " ++ ANDSTR ++ " ")%string in
      let line2 := if cond_i <? len - 1
                   then (line1 ++ ljust cond (pin_name_maxlen + 1))%string
                   else (line1 ++ cond)%string in
      truthtable_conditions rest (cond_i + 1) len pin_name_maxlen line2
  end.

(** The outer loop of [write_pin_truthtable]: the strings written to the
    truth-table file, one for each condition list. *)
Fixpoint truthtable_lines (signedname : string)
  (conditionslist : list (list string)) (list_i len pin_name_maxlen : Z)
  (isfirstline : bool) : list string :=
  match conditionslist with
  | [] => []
  | conditions :: rest =>
      let indent := py_len signedname in
      let line0 := if isfirstline
                   then (ljust signedname (Z.of_nat indent) ++ " = ")%string
                   else (spaces indent ++ " " ++ ORSTR ++ " ")%string in
      let line := truthtable_conditions conditions 0
                    (Z.of_nat (List.length conditions)) pin_name_maxlen
                    line0 in
      (if list_i <? len - 1 then (line ++ " " ++ nl)%string
       else (line ++ ";" ++ nl)%string)
      :: truthtable_lines signedname rest (list_i + 1) len pin_name_maxlen
                          false
  end.

Definition write_pin_truthtable (device : Device) (signedname : string)
  (conditionslist : list (list string)) : result (list string) :=
  pin_name_maxlen <- get_max_pin_name_length device ;;
  Ok (truthtable_lines signedname conditionslist 0
        (Z.of_nat (List.length conditionslist)) pin_name_maxlen true).

(** * Vocabulary of the specification *)

(** The exponents of the bits set in [mask], ascending. *)
Definition set_exponents (mask : Z) : list Z :=
  filter (Z.testbit mask) (range (Z.log2 mask + 1)).

Definition pow2 (e : Z) : Z := 2 ^ e.

(** Bit [e] of the combination built from [n] over the bits [2 ^ es],
    the first of which is read at position [j] of [n]. *)
Fixpoint deposit_bit (n : Z) (es : list Z) (j e : Z) : bool :=
  match es with
  | [] => false
  | e' :: es' => ((e' =? e) && Z.testbit n j) || deposit_bit n es' (j + 1) e
  end.

(** Bit [i] of the minterm of [addr] over the bits [2 ^ es], the first
    of which is written at position [j]. *)
Fixpoint minterm_bit (addr : Z) (es : list Z) (j i : Z) : bool :=
  match es with
  | [] => false
  | e :: es' => ((j =? i) && Z.testbit addr e) || minterm_bit addr es' (j + 1) i
  end.

(** The number of bits set in a positive integer. *)
Fixpoint Pos_popcount (p : positive) : nat :=
  match p with
  | xH => 1%nat
  | xO q => Pos_popcount q
  | xI q => S (Pos_popcount q)
  end.

Definition popcount (m : Z) : nat :=
  match m with
  | Zpos p => Pos_popcount p
  | _ => 0%nat
  end.

(** [x] is a non-negative integer whose 1-bits are 1-bits of [m]. *)
Definition submask (x m : Z) : Prop := 0 <= x /\ Z.land x m = x.

(** The bits of [mask] as the loop of [iterate_mask] lists them. *)
Definition mask_bits (mask : Z) : list Z := map pow2 (set_exponents mask).

(** The encoding of a sub-mask [x] of [mask] on [popcount mask] bits:
    bit [i] is the value in [x] of the [i]-th bit set in [mask]. *)
Definition encoding (mask x : Z) : Z :=
  build_outputpin_minterm (mkDeps mask (mask_bits mask) []) x.

Definition single_bit (b : Z) : Prop := exists e, 0 <= e /\ b = 2 ^ e.

Definition or_of (bits : list Z) : Z := fold_right Z.lor 0 bits.

(** A dependency set as the analysis leaves it once sorted: single-bit
    masks, strictly ascending, whose OR is the bitmap. *)
Record sorted_dependencies (d : PinDependencies) : Prop := {
  deps_single_bits : Forall single_bit (bits d);
  deps_ascending : StronglySorted Z.lt (bits d);
  deps_bitmap : bitmap d = or_of (bits d)
}.

(** The word of the image at an address within it. *)
Definition image_at (dumpdata : list Z) (addr : Z) : Z :=
  nth (Z.to_nat addr) dumpdata 0.

(** The output pin is driven at [addr]: toggling its hi-z probe does not
    change its bit. *)
Definition driven_at (dumpdata : list Z) (outputpin : Pin) (addr : Z) : bool :=
  Z.land (image_at dumpdata addr) (bitmask outputpin)
  =? Z.land (image_at dumpdata (Z.lxor addr (hizprobebitmask outputpin)))
            (bitmask outputpin).

(** The masks of the relevance test for a well-formed profile. *)
Definition probe_input_mask (device : Device) : Z :=
  Z.shiftl (2 ^ eprom_hiz_probe_pins device - 1)
           (eprom_address_width device - eprom_hiz_probe_pins device).

Definition probe_data_mask (device : Device) : Z :=
  Z.shiftl (2 ^ (eprom_data_width device - eprom_hiz_probe_pins device) - 1)
           (eprom_hiz_probe_pins device).

(** The hi-z probe bits of the address that are not dependencies of the
    output pin. *)
Definition free_probe_bits (device : Device) (outputpin : Pin) : Z :=
  Z.land (Z.lnot (bitmap (depends outputpin))) (probe_input_mask device).

(** The hi-z probe word of the address [a] equals the masked data word
    read at [a]. *)
Definition probe_matches (device : Device) (dumpdata : list Z) (a : Z) : bool :=
  Z.shiftr (Z.land a (probe_input_mask device))
           (eprom_address_width device - eprom_hiz_probe_pins device)
  =? Z.land (image_at dumpdata a) (Z.lnot (probe_data_mask device)).

(** A pin whose driven value depends on some input was seen low and
    high. *)
Definition seen_if_dependent (p : Pin) : Prop :=
  single_bit (bitmask p)
  /\ (bitmap (depends p) <> 0 -> seenlow p = true /\ seenhigh p = true).

(** The fields of a pin that the minterm builder only reads. *)
Definition same_analysis (p p' : Pin) : Prop :=
  name p' = name p /\ bitmask p' = bitmask p
  /\ hizprobebitpos p' = hizprobebitpos p
  /\ hizprobebitmask p' = hizprobebitmask p
  /\ seenlow p' = seenlow p /\ seenhigh p' = seenhigh p
  /\ depends p' = depends p /\ oe_depends p' = oe_depends p.

(** The pin after the sort of its two dependency sets. *)
Definition sorted_pin (p : Pin) (deps oe_deps : PinDependencies) : Pin :=
  set_oe_depends (set_depends p deps) oe_deps.

(** * Example devices *)

(** A device with one input [I] (address bit 0), one enable [E]
    (address bit 1) and one output [O] (data bit 0) whose hi-z probe is
    address bit 2: [O] follows [I] when [E] is high and floats, echoing
    the probe, when [E] is low. *)
Definition demo_device : Device :=
  mkDevice "demo" 3 8 1 [2; 3; 12] [12]
           [("2", "I"); ("3", "E"); ("12", "O")]%string 1.

Definition demo_image : list Z := [0; 0; 0; 1; 1; 1; 0; 1].

(** The output pin of [demo_device] after the dependency scan. *)
Definition demo_output : Pin :=
  mkPin "O" 12 0 1 (Some 2) 4 true true
        (mkDeps 1 [1] ["I"%string]) (mkDeps 2 [2] ["E"%string])
        [] [] [] [] [] [] [] [] [] [].

(** A device with one input [I] (address bit 0), a bidirectional pin [B]
    (data bit 0, probed by address bit 1) that is never driven, and an
    output [O] (data bit 1) without probe that follows [B]. *)
Definition feedback_device : Device :=
  mkDevice "feedback" 2 8 1 [2; 13] [13; 12]
           [("2", "I"); ("12", "O"); ("13", "B")]%string 2.

Definition feedback_image : list Z := [0; 0; 3; 3].

(** The pins [B] and [O] of [feedback_device] after the dependency scan. *)
Definition feedback_B : Pin :=
  mkPin "B" 13 0 1 (Some 1) 2 false false no_dependencies no_dependencies
        [] [] [] [] [] [] [] [] [] [].

Definition feedback_O : Pin :=
  mkPin "O" 12 1 2 None 0 true true
        (mkDeps 2 [2] ["B"%string]) no_dependencies
        [] [] [] [] [] [] [] [] [] [].

(** The pin models and the dependency scan of the main program. *)
Definition analyse (device : Device) (dumpdata : list Z) : result (list Pin) :=
  inputpins <- build_inputpins_configuration device ;;
  outputpins <- build_outputpins_configuration device ;;
  build_outputpins_dependencies device dumpdata inputpins outputpins.

(** A minimizer for the examples: it returns the on-minterms themselves as
    products that care for every input, and [False] when there is none. *)
Definition demo_simplify (k : Z) (minterms dontcares : list Z) : simplified :=
  match minterms with
  | [] => SFalse
  | _ => SProducts (map (fun m => (m, 2 ^ k - 1)) minterms)
  end.

(** The output pin of [demo_device] after the minterms are built. *)
Definition demo_built : Pin :=
  mkPin "O" 12 0 1 (Some 2) 4 true true
        (mkDeps 1 [1] ["I"%string]) (mkDeps 2 [2] ["E"%string])
        [] [["!I"%string]] [[" I"%string]] [] [0] [1]
        [["!E"%string]] [[" E"%string]] [0] [1].

Definition demo_args : Args := mkArgs Auto Auto.

(** The pin models of [feedback_device] and its pins after the minterms
    are built. *)
Definition feedback_inputs : list Pin :=
  [ mkPin "I" 2 0 1 (Some 0) 0 false false no_dependencies no_dependencies
          [] [] [] [] [] [] [] [] [] [];
    mkPin "B" 13 1 2 (Some 0) 0 false false no_dependencies no_dependencies
          [] [] [] [] [] [] [] [] [] [] ].

Definition feedback_outputs : list Pin :=
  [ mkPin "B" 13 0 1 (Some 1) 2 false false no_dependencies no_dependencies
          [] [] [] [] [] [] [] [] [] [];
    mkPin "O" 12 1 2 None 0 false false no_dependencies no_dependencies
          [] [] [] [] [] [] [] [] [] [] ].

Definition feedback_built : list Pin :=
  [ feedback_B;
    mkPin "O" 12 1 2 None 0 true true
          (mkDeps 2 [2] ["B"%string]) no_dependencies
          [["!B"%string]; [" B"%string]] [] [] [0; 1] [] [] [] [] [] [] ].

(** A dependency set as the scan builds it: distinct single-bit masks in
    the order of discovery, with their OR and as many names. *)
Record scanned_dependencies (d : PinDependencies) : Prop := {
  scanned_single_bits : Forall single_bit (bits d);
  scanned_distinct : NoDup (bits d);
  scanned_bitmap : bitmap d = or_of (bits d);
  scanned_names : List.length (pinnames d) = List.length (bits d)
}.

(** The dependency set made of the input pins [added], in that order. *)
Definition deps_of (added : list Pin) : PinDependencies :=
  mkDeps (or_of (map bitmask added)) (map bitmask added) (map name added).

(** The minterm lists of the output equation are still empty. *)
Definition no_terms (p : Pin) : Prop :=
  posminterms p = [] /\ negminterms p = [] /\ dontcareterms p = [].

(** All the minterms of the output equation of a pin. *)
Definition all_terms (p : Pin) : list Z :=
  posminterms p ++ negminterms p ++ dontcareterms p.

(** The dependency set [d] was built by the scan from input pins of
    [inputpins] with distinct names. *)
Definition deps_from (inputpins : list Pin) (d : PinDependencies) : Prop :=
  exists added,
    d = deps_of added /\ incl added inputpins /\ NoDup (map name added).

(** An output pin during the dependency scan over [inputpins]. *)
Definition scanning (inputpins : list Pin) (p : Pin) : Prop :=
  deps_from inputpins (depends p) /\ deps_from inputpins (oe_depends p)
  /\ no_terms p.

(** The pin models of [demo_device]. *)
Definition demo_inputs : list Pin :=
  [ mkPin "I" 2 0 1 (Some 0) 0 false false no_dependencies no_dependencies
          [] [] [] [] [] [] [] [] [] [];
    mkPin "E" 3 1 2 (Some 0) 0 false false no_dependencies no_dependencies
          [] [] [] [] [] [] [] [] [] [];
    mkPin "O" 12 2 4 (Some 0) 0 false false no_dependencies no_dependencies
          [] [] [] [] [] [] [] [] [] [] ].

Definition demo_outputs : list Pin :=
  [ mkPin "O" 12 0 1 (Some 2) 4 false false no_dependencies no_dependencies
          [] [] [] [] [] [] [] [] [] [] ].

(** The output pin is in hi-z at [addr]: it has a probe and toggling it
    changes the bit of the pin. *)
Definition hiz_at (dumpdata : list Z) (outputpin : Pin) (addr : Z) : bool :=
  match hizprobebitpos outputpin with
  | None => false
  | Some _ => negb (driven_at dumpdata outputpin addr)
  end.

(** The pair of addresses [addr], [addr | inputpin.mask] is one that the
    scan examines for [outputpin]: the bit of the input pin is clear in
    [addr] and the probe bit of the output pin is clear in both. *)
Definition examined (outputpin inputpin : Pin) (addr : Z) : Prop :=
  Z.land addr (bitmask inputpin) = 0
  /\ Z.land addr (hizprobebitmask outputpin) = 0
  /\ Z.land (Z.lor addr (bitmask inputpin)) (hizprobebitmask outputpin) = 0.

(** The hi-z states of the output pin differ on the pair. *)
Definition enable_differs (dumpdata : list Z) (outputpin inputpin : Pin)
  (addr : Z) : Prop :=
  examined outputpin inputpin addr
  /\ hiz_at dumpdata outputpin addr
     <> hiz_at dumpdata outputpin (Z.lor addr (bitmask inputpin)).

(** The output pin is driven at both addresses of the pair, with
    different values. *)
Definition value_differs (dumpdata : list Z) (outputpin inputpin : Pin)
  (addr : Z) : Prop :=
  examined outputpin inputpin addr
  /\ hiz_at dumpdata outputpin addr = false
  /\ hiz_at dumpdata outputpin (Z.lor addr (bitmask inputpin)) = false
  /\ Z.land (image_at dumpdata addr) (bitmask outputpin)
     <> Z.land (image_at dumpdata (Z.lor addr (bitmask inputpin)))
               (bitmask outputpin).

(** The body of the scan for one address, one input pin and one output
    pin, on an image that holds every address read. *)
Definition scan_pin (dumpdata : list Z) (addr : Z) (inputpin outputpin : Pin)
  : Pin :=
  let addr1 := Z.lor addr (bitmask inputpin) in
  if Z.land addr (bitmask inputpin) >? 0 then outputpin
  else if Z.land addr (hizprobebitmask outputpin) >? 0 then outputpin
  else if Z.land addr1 (hizprobebitmask outputpin) >? 0 then outputpin
  else
    let output0 := Z.land (image_at dumpdata addr) (bitmask outputpin) in
    let output1 := Z.land (image_at dumpdata addr1) (bitmask outputpin) in
    let hiz0 := hiz_at dumpdata outputpin addr in
    let hiz1 := hiz_at dumpdata outputpin addr1 in
    let p1 :=
      if negb (Bool.eqb hiz0 hiz1)
         && negb (name_in (name inputpin) (pinnames (oe_depends outputpin)))
      then set_oe_depends outputpin (add_dependency (oe_depends outputpin) inputpin)
      else outputpin in
    let p2 :=
      if negb hiz0 && negb hiz1 && negb (output0 =? output1)
         && negb (name_in (name inputpin) (pinnames (depends p1)))
      then set_depends p1 (add_dependency (depends p1) inputpin)
      else p1 in
    record_seen (record_seen p2 hiz0 output0) hiz1 output1.

(** The scan of one output pin over the addresses [addrs]. *)
Definition scan_pin_all (dumpdata : list Z) (addrs : list Z)
  (inputpins : list Pin) (outputpin : Pin) : Pin :=
  fold_left
    (fun p addr => fold_left (fun q ip => scan_pin dumpdata addr ip q) inputpins p)
    addrs outputpin.

(** Two pins with the same mask and the same hi-z probe. *)
Definition same_model (p q : Pin) : Prop :=
  bitmask p = bitmask q /\ hizprobebitpos p = hizprobebitpos q
  /\ hizprobebitmask p = hizprobebitmask q.

(** A pin as the model builders leave it: nothing seen, no dependency, no
    term. *)
Definition fresh_pin (p : Pin) : Prop :=
  seenlow p = false /\ seenhigh p = false
  /\ depends p = no_dependencies /\ oe_depends p = no_dependencies
  /\ no_terms p /\ oeposminterms p = [] /\ oenegminterms p = [].

(** The scan sees the output pin driven at the level [high] on the pair of
    addresses it examines at [addr] for [inputpin]. *)
Definition observed (dumpdata : list Z) (outputpin inputpin : Pin)
  (high : bool) (addr : Z) : Prop :=
  examined outputpin inputpin addr
  /\ ((hiz_at dumpdata outputpin addr = false
       /\ negb (Z.land (image_at dumpdata addr) (bitmask outputpin) =? 0)
          = high)
      \/ (hiz_at dumpdata outputpin (Z.lor addr (bitmask inputpin)) = false
          /\ negb (Z.land (image_at dumpdata (Z.lor addr (bitmask inputpin)))
                          (bitmask outputpin) =? 0)
             = high)).

(** One of the two observation flags of a pin. *)
Definition seen (high : bool) (p : Pin) : bool :=
  if high then seenhigh p else seenlow p.

(** The dependency set [d'] is [d] with input pins appended. *)
Definition grows (d d' : PinDependencies) : Prop :=
  exists added,
    bits d' = bits d ++ map bitmask added
    /\ pinnames d' = pinnames d ++ map name added
    /\ bitmap d' = Z.lor (bitmap d) (or_of (map bitmask added)).

(** The condition and minterm lists of two pins are the same. *)
Definition same_terms (p p' : Pin) : Prop :=
  dontcareconditions p' = dontcareconditions p
  /\ negativeconditions p' = negativeconditions p
  /\ positiveconditions p' = positiveconditions p
  /\ dontcareterms p' = dontcareterms p
  /\ negminterms p' = negminterms p
  /\ posminterms p' = posminterms p
  /\ oenegativeconditions p' = oenegativeconditions p
  /\ oepositiveconditions p' = oepositiveconditions p
  /\ oenegminterms p' = oenegminterms p
  /\ oeposminterms p' = oeposminterms p.

(** What the dependency scan may do to an output pin: set observation
    flags and append dependencies, nothing else. *)
Definition scan_extends (p p' : Pin) : Prop :=
  name p' = name p /\ number p' = number p /\ bitpos p' = bitpos p
  /\ same_model p' p
  /\ (seenlow p = true -> seenlow p' = true)
  /\ (seenhigh p = true -> seenhigh p' = true)
  /\ grows (depends p) (depends p')
  /\ grows (oe_depends p) (oe_depends p')
  /\ same_terms p p'.

(** The verdict of the minterm builder on one combination: [None] for a
    don't-care, otherwise the level of the output pin. *)
Definition verdict (device : Device) (dumpdata : list Z) (outputpin : Pin)
  (epromaddr : Z) : result (option bool) :=
  relevant <- check_input_combination_is_relevent device dumpdata outputpin
                                                  epromaddr ;;
  if negb relevant then Ok None
  else
    data <- get_output_pin_data dumpdata outputpin epromaddr ;;
    Ok (Some (negb (Z.land data (bitmask outputpin) =? 0))).

Definition has_verdict (device : Device) (dumpdata : list Z) (outputpin : Pin)
  (v : option bool) (epromaddr : Z) : bool :=
  match verdict device dumpdata outputpin epromaddr, v with
  | Ok None, None => true
  | Ok (Some b), Some b' => Bool.eqb b b'
  | _, _ => false
  end.

(** The minterm list of a verdict. *)
Definition terms_of (v : option bool) (p : Pin) : list Z :=
  match v with
  | None => dontcareterms p
  | Some false => negminterms p
  | Some true => posminterms p
  end.

(** The hi-z test of the output-enable loop answers [b]. *)
Definition drives (dumpdata : list Z) (outputpin : Pin) (b : bool)
  (epromaddr : Z) : bool :=
  match is_driven dumpdata outputpin epromaddr with
  | Ok b' => Bool.eqb b' b
  | Raise _ => false
  end.

Definition oe_terms_of (b : bool) (p : Pin) : list Z :=
  if b then oeposminterms p else oenegminterms p.

(** The number of bytes of a data word, [int(eprom_data_width / 8)]. *)
Definition databytes_of (device : Device) : Z :=
  Z.quot (eprom_data_width device) 8.

Definition valid_byteorder (byteorder : string) : Prop :=
  byteorder = "little"%string \/ byteorder = "big"%string.

(** The byte of value [v], for [0 <= v < 256]. *)
Definition byte_of (v : Z) : Byte.byte :=
  match Byte.of_N (Z.to_N v) with
  | Some b => b
  | None => Byte.x00
  end.

(** The [n] bytes of the word [w], least significant first. *)
Fixpoint to_little (n : nat) (w : Z) : list Byte.byte :=
  match n with
  | O => []
  | S n' => byte_of (w mod 256) :: to_little n' (w / 256)
  end.

(** The bytes of a word in a dump, and the dump of a list of words. *)
Definition word_bytes (byteorder : string) (n : nat) (w : Z)
  : list Byte.byte :=
  if String.eqb byteorder "little" then to_little n w
  else rev (to_little n w).

Definition dump_of (byteorder : string) (n : nat) (words : list Z)
  : list Byte.byte :=
  List.concat (map (word_bytes byteorder n) words).

(** An image for [demo_device] in which the output [O] is the exclusive or
    of [I] and [E] and floats, echoing the probe, when both are high. *)
Definition floating_image : list Z := [0; 1; 1; 0; 0; 1; 1; 1].

(** The condition list at each position is that of a combination whose
    minterm stands at the same position. *)
Definition paired (d : PinDependencies) (conditions : list (list string))
  (terms : list Z) : Prop :=
  Forall2 (fun c m => exists a, build_outputpin_conditions d a = Ok c
                                /\ build_outputpin_minterm d a = m)
          conditions terms.

(** The string holds ASCII characters only. *)
Definition is_ascii (s : string) : bool :=
  forallb (fun c => (nat_of_ascii c <? 128)%nat) (list_ascii_of_string s).

(** A device without hi-z probe: one input [I] (address bit 0) and one
    output [O] (data bit 0), with the image of [O = I] and the image of
    [O = !I]. *)
Definition noprobe_device : Device :=
  mkDevice "noprobe" 1 8 0 [2] [12] [("2", "I"); ("12", "O")]%string 1.

Definition identity_image : list Z := [0; 1].

Definition inverter_image : list Z := [1; 0].

(** The output pin of [noprobe_device] after the dependency scan and after
    the minterms are built, on either image. *)
Definition noprobe_output : Pin :=
  mkPin "O" 12 0 1 None 0 true true
        (mkDeps 1 [1] ["I"%string]) no_dependencies
        [] [] [] [] [] [] [] [] [] [].

Definition noprobe_built : Pin :=
  mkPin "O" 12 0 1 None 0 true true
        (mkDeps 1 [1] ["I"%string]) no_dependencies
        [["!I"%string]; [" I"%string]] [] [] [0; 1] [] [] [] [] [] [].

(** The analysis of the main program: the pin models, the dependency
    scan and the minterms. *)
Definition build_pins (device : Device) (dumpdata : list Z)
  : result (list Pin) :=
  outputpins <- analyse device dumpdata ;;
  build_outputpins_equations device dumpdata outputpins.

(** The dependency set [d] records input pins of [inputpins] with
    distinct names, each of which satisfies [differs]: their names, their
    masks in the same order and the OR of the masks.  A name is recorded
    as soon as an input pin of that name satisfies [differs], and an
    input pin that shares its name with no other is recorded exactly when
    it satisfies [differs]. *)
Definition records (inputpins : list Pin) (differs : Pin -> Prop)
  (d : PinDependencies) : Prop :=
  exists added,
    d = deps_of added /\ NoDup (map name added)
    /\ (forall ip, In ip added -> In ip inputpins /\ differs ip)
    /\ (forall ip, In ip inputpins -> differs ip ->
          In (name ip) (pinnames d))
    /\ (forall ip, In ip inputpins ->
          (forall ip', In ip' inputpins -> name ip' = name ip -> ip' = ip) ->
          (In ip added <-> differs ip)).

(** A device whose three inputs all bear the name [I] (address bits 0, 1
    and 2), with one output [O] (data bit 0) without probe, and the image
    of [O = bit 1 or bit 2]. *)
Definition shared_device : Device :=
  mkDevice "shared" 3 8 0 [2; 3; 4] [12]
           [("2", "I"); ("3", "I"); ("4", "I"); ("12", "O")]%string 1.

Definition shared_image : list Z := [0; 0; 1; 1; 1; 1; 1; 1].

Definition shared_input (number bitpos : Z) : Pin :=
  mkPin "I" number bitpos (2 ^ bitpos) (Some 0) 0 false false
        no_dependencies no_dependencies [] [] [] [] [] [] [] [] [] [].

Definition shared_fresh : Pin :=
  mkPin "O" 12 0 1 None 0 false false no_dependencies no_dependencies
        [] [] [] [] [] [] [] [] [] [].

Definition shared_output : Pin :=
  mkPin "O" 12 0 1 None 0 true true
        (mkDeps 2 [2] ["I"%string]) no_dependencies
        [] [] [] [] [] [] [] [] [] [].

(** Under [auto] the positive equation is written when the positive
    cover is a literal or has no more products than the negative one. *)
Definition prefers_positive (pos neg : simplified) : bool :=
  match pos, neg with
  | SProducts ps, SProducts ns => (List.length ps <=? List.length ns)%nat
  | _, _ => true
  end.

(** The output-enable equation of an output pin: a constant for a pin
    without output-enable dependencies, and otherwise the equation or
    equations of the minimized covers of its output-enable minterms, as
    the polarity option selects them. *)
Definition oe_equation_of (simplify : Z -> list Z -> list Z -> simplified)
  (args : Args) (p : Pin) (equation : list string) : Prop :=
  if bitmap (oe_depends p) =? 0 then
    equation
    = write_equations_pin_name_value
        (name p ++ ".oe") (if seenhigh p || seenlow p then 1 else 0)
        (oepolarity args)
  else
    let names := pinnames (oe_depends p) in
    let pos := simplify_minterms simplify names (oeposminterms p) [] in
    let neg := simplify_minterms simplify names (oenegminterms p) [] in
    let positive :=
      write_pin_equations (name p ++ ".oe") names pos Positive in
    let negative :=
      write_pin_equations (name p ++ ".oe") names neg Negative in
    match oepolarity args with
    | Both => equation = positive ++ negative
    | Positive => equation = positive
    | Negative => equation = negative
    | Auto =>
        equation = if prefers_positive pos neg then positive else negative
    end.

(** The strings written for an output pin in the section of the
    output-enable equations: its equation, which is not empty unless the
    minimizer returns an empty list of products, and an empty line. *)
Definition oe_block (simplify : Z -> list Z -> list Z -> simplified)
  (args : Args) (p : Pin) (block : list string) : Prop :=
  exists equation,
    block = equation ++ write_equations_newline
    /\ oe_equation_of simplify args p equation
    /\ (bitmap (oe_depends p) = 0
        \/ (simplify_minterms simplify (pinnames (oe_depends p))
                              (oeposminterms p) [] <> SProducts []
            /\ simplify_minterms simplify (pinnames (oe_depends p))
                                 (oenegminterms p) [] <> SProducts []) ->
        equation <> []).

(** Two results of the minimizer are the same cover: the same result,
    or the same products in another order when no two of them care for
    the same set of the [k] pins. *)
Definition same_cover (k : Z) (s1 s2 : simplified) : Prop :=
  s1 = s2
  \/ exists products1 products2,
       s1 = SProducts products1 /\ s2 = SProducts products2
       /\ Permutation products1 products2
       /\ NoDup (map (fun r => get_set_bits k (snd r)) products1).

(** A device with two inputs [A] and [B] (address bits 0 and 1) and one
    output [O] (data bit 0, probed by address bit 2) that is always
    driven, with the image of [O = A or B]. *)
Definition or_device : Device :=
  mkDevice "or" 3 8 1 [2; 3; 12] [12]
           [("2", "A"); ("3", "B"); ("12", "O")]%string 1.

Definition or_image : list Z := [0; 1; 1; 1; 0; 1; 1; 1].

(** A minimizer for [or_device]: it covers the minterms of [A or B] by
    the two products [A] and [B], listed in either order, and works as
    [demo_simplify] otherwise. *)
Definition or_simplify (swap : bool) (k : Z) (minterms dontcares : list Z)
  : simplified :=
  match minterms with
  | [a; b; c] =>
      if (k =? 2) && (a =? 1) && (b =? 2) && (c =? 3)
      then SProducts (if swap then [(2, 2); (1, 1)] else [(1, 1); (2, 2)])
      else demo_simplify k minterms dontcares
  | _ => demo_simplify k minterms dontcares
  end.

(** * Verification *)

Example iterate_mask_1010 : iterate_mask 10 = [0; 2; 8; 10].
Proof. reflexivity. Qed.

Example iterate_mask_0 : iterate_mask 0 = [].
Proof. reflexivity. Qed.

Example minterm_example :
  build_outputpin_minterm (mkDeps 120 [8; 16; 32; 64] ["i4"; "i5"; "i6"; "i7"]%string) 88 = 11.
Proof. reflexivity. Qed.


(** ** Results and loops *)

Lemma bind_Ok {A B : Type} (r : result A) (k : A -> result B) (b : B) :
  bind r k = Ok b -> exists a, r = Ok a /\ k a = Ok b.
Proof.
  destruct r as [a|e]; simpl; intros H; [exists a; auto | discriminate].
Qed.

Lemma py_getitem_in_range {A : Type} (l : list A) (i : Z) :
  0 <= i < Z.of_nat (List.length l) ->
  exists a, py_getitem l i = Ok a /\ nth_error l (Z.to_nat i) = Some a.
Proof.
  intros Hi. unfold py_getitem.
  destruct (i <? 0) eqn:E1; [apply Z.ltb_lt in E1; lia|].
  rewrite E1. simpl.
  destruct (Z.of_nat (List.length l) <=? i) eqn:E2; [apply Z.leb_le in E2; lia|].
  destruct (nth_error l (Z.to_nat i)) as [a|] eqn:E3.
  - exists a; auto.
  - apply nth_error_None in E3. lia.
Qed.

Lemma in_range (n x : Z) : In x (range n) <-> 0 <= x < n.
Proof.
  unfold range. rewrite in_map_iff. split.
  - intros [k [<- Hk]]. apply in_seq in Hk. lia.
  - intros Hx. exists (Z.to_nat x). split; [lia|]. apply in_seq. lia.
Qed.

Lemma length_range (n : Z) : List.length (range n) = Z.to_nat n.
Proof. unfold range. now rewrite length_map, length_seq. Qed.

Lemma nth_error_range (n : Z) (k : nat) :
  (k < Z.to_nat n)%nat -> nth_error (range n) k = Some (Z.of_nat k).
Proof.
  intros Hk. unfold range.
  rewrite nth_error_map, nth_error_seq.
  destruct (Nat.ltb_spec k (Z.to_nat n)); [reflexivity | lia].
Qed.

(** ** Bits *)

Lemma land_pow2 (a i : Z) :
  0 <= i -> Z.land a (2 ^ i) = if Z.testbit a i then 2 ^ i else 0.
Proof.
  intros Hi. apply Z.bits_inj'. intros n Hn.
  rewrite Z.land_spec, Z.pow2_bits_eqb by lia.
  destruct (Z.eqb_spec i n) as [->|Hne].
  - destruct (Z.testbit a n); rewrite ?Z.pow2_bits_eqb, ?Z.bits_0 by lia;
      rewrite ?Z.eqb_refl; reflexivity.
  - rewrite andb_false_r.
    destruct (Z.testbit a i); rewrite ?Z.pow2_bits_eqb, ?Z.bits_0 by lia; auto.
    symmetry. now apply Z.eqb_neq.
Qed.

Lemma land_pow2_eqb (a i : Z) :
  0 <= i -> (Z.land a (2 ^ i) =? 0) = negb (Z.testbit a i).
Proof.
  intros Hi. rewrite land_pow2 by lia.
  destruct (Z.testbit a i); simpl; [|reflexivity].
  apply Z.eqb_neq. pose proof (Z.pow_pos_nonneg 2 i). lia.
Qed.

Lemma shiftl_pow2 (i : Z) : 0 <= i -> Z.shiftl (2 ^ i) 1 = 2 ^ (i + 1).
Proof.
  intros Hi. rewrite Z.shiftl_mul_pow2, Z.pow_add_r by lia. reflexivity.
Qed.

Lemma collect_bits_spec (mask : Z) (d : nat) :
  1 <= mask ->
  forall (i fuel : nat) (acc : list Z),
    Z.of_nat (i + d) = Z.log2 mask + 1 ->
    (d <= fuel)%nat ->
    collect_bits fuel mask (2 ^ Z.of_nat i) acc
    = Some (acc ++ map pow2 (filter (Z.testbit mask) (map Z.of_nat (seq i d)))).
Proof.
  intros Hm. induction d as [|d IH]; intros i fuel acc Hid Hfuel.
  - simpl. rewrite app_nil_r.
    assert (Hlt : mask < 2 ^ Z.of_nat i).
    { replace (Z.of_nat i) with (Z.succ (Z.log2 mask)) by lia.
      apply Z.log2_spec. lia. }
    destruct fuel; simpl;
      (destruct (2 ^ Z.of_nat i <=? mask) eqn:E;
       [apply Z.leb_le in E; lia | reflexivity]).
  - destruct fuel as [|fuel]; [lia|].
    assert (Hle : 2 ^ Z.of_nat i <= mask).
    { apply Z.log2_le_pow2; lia. }
    cbn [collect_bits]. apply Z.leb_le in Hle. rewrite Hle.
    rewrite shiftl_pow2 by lia.
    replace (Z.of_nat i + 1) with (Z.of_nat (S i)) by lia.
    rewrite IH by lia.
    rewrite land_pow2_eqb by lia.
    cbn [seq map filter].
    destruct (Z.testbit mask (Z.of_nat i)); simpl.
    + now rewrite <- app_assoc.
    + reflexivity.
Qed.

Lemma collect_bits_enough (mask : Z) (fuel : nat) :
  1 <= mask -> (Z.to_nat (Z.log2 mask) < fuel)%nat ->
  collect_bits fuel mask 1 [] = Some (map pow2 (set_exponents mask)).
Proof.
  intros Hm Hfuel.
  pose proof (Z.log2_nonneg mask) as Hl.
  change 1 with (2 ^ Z.of_nat 0) at 1.
  rewrite (collect_bits_spec mask (Z.to_nat (Z.log2 mask + 1))) by lia.
  reflexivity.
Qed.

(** The fuel of [iterate_mask] is enough, and so is any larger one. *)
Lemma iterate_mask_fuel_enough (mask : Z) (fuel : nat) :
  (Z.to_nat (Z.log2 mask) < fuel)%nat ->
  iterate_mask_fuel fuel mask = Some (iterate_mask mask).
Proof.
  intros Hfuel. unfold iterate_mask, iterate_mask_fuel.
  destruct (mask <? 1) eqn:E; [reflexivity|].
  apply Z.ltb_ge in E.
  rewrite !collect_bits_enough by lia. reflexivity.
Qed.

Lemma iterate_mask_unfold (mask : Z) :
  1 <= mask ->
  iterate_mask mask
  = map (fun n => deposit n (map pow2 (set_exponents mask)) 1 0)
        (range (2 ^ Z.of_nat (List.length (set_exponents mask)))).
Proof.
  intros Hm. unfold iterate_mask, iterate_mask_fuel.
  destruct (mask <? 1) eqn:E; [apply Z.ltb_lt in E; lia|].
  rewrite collect_bits_enough by lia. now rewrite length_map.
Qed.

Lemma iterate_mask_empty (mask : Z) : mask < 1 -> iterate_mask mask = [].
Proof.
  intros Hm. unfold iterate_mask, iterate_mask_fuel.
  apply Z.ltb_lt in Hm. now rewrite Hm.
Qed.

(** ** Combinations and minterms, bit by bit *)

Lemma deposit_testbit (n : Z) (es : list Z) :
  Forall (fun e => 0 <= e) es ->
  forall j r e, 0 <= j -> 0 <= e ->
    Z.testbit (deposit n (map pow2 es) (2 ^ j) r) e
    = Z.testbit r e || deposit_bit n es j e.
Proof.
  induction 1 as [|e' es He' Hes IH]; intros j r e Hj He;
    cbn [deposit map deposit_bit].
  - now rewrite orb_false_r.
  - rewrite shiftl_pow2, IH by lia.
    rewrite land_pow2_eqb by lia. unfold pow2.
    destruct (Z.testbit n j); simpl.
    + rewrite Z.lor_spec, Z.pow2_bits_eqb by lia.
      rewrite andb_true_r. now rewrite orb_assoc.
    + now rewrite andb_false_r.
Qed.

Lemma minterm_testbit (addr : Z) (es : list Z) :
  Forall (fun e => 0 <= e) es ->
  forall j m i, 0 <= j -> 0 <= i ->
    Z.testbit (minterm_loop (map pow2 es) addr j m) i
    = Z.testbit m i || minterm_bit addr es j i.
Proof.
  induction 1 as [|e es He Hes IH]; intros j m i Hj Hi;
    cbn [minterm_loop map minterm_bit].
  - now rewrite orb_false_r.
  - rewrite IH by lia. unfold pow2.
    rewrite land_pow2_eqb by lia.
    destruct (Z.testbit addr e); simpl.
    + rewrite Z.lor_spec, Z.shiftl_1_l, Z.pow2_bits_eqb by lia.
      rewrite andb_true_r. now rewrite orb_assoc.
    + now rewrite andb_false_r.
Qed.

Lemma deposit_bit_true (n : Z) (es : list Z) (j e : Z) :
  deposit_bit n es j e = true
  <-> exists k, nth_error es k = Some e /\ Z.testbit n (j + Z.of_nat k) = true.
Proof.
  revert j. induction es as [|e' es IH]; intros j; simpl.
  - split; [discriminate|]. intros [[|k] [Hk _]]; discriminate.
  - rewrite orb_true_iff, andb_true_iff, IH, Z.eqb_eq. split.
    + intros [[-> Hn] | [k [Hk Hn]]].
      * exists 0%nat. simpl. now rewrite Z.add_0_r.
      * exists (S k). cbn [nth_error]. split; [assumption|].
        now replace (j + Z.of_nat (S k)) with (j + 1 + Z.of_nat k) by lia.
    + intros [[|k] [Hk Hn]]; simpl in Hk.
      * left. injection Hk as ->. now rewrite Z.add_0_r in Hn.
      * right. exists k. split; [assumption|].
        now replace (j + 1 + Z.of_nat k) with (j + Z.of_nat (S k)) by lia.
Qed.

Lemma minterm_bit_true (addr : Z) (es : list Z) (j i : Z) :
  minterm_bit addr es j i = true
  <-> exists k e, nth_error es k = Some e /\ j + Z.of_nat k = i
                  /\ Z.testbit addr e = true.
Proof.
  revert j. induction es as [|e' es IH]; intros j; simpl.
  - split; [discriminate|]. intros [[|k] [e [Hk _]]]; discriminate.
  - rewrite orb_true_iff, andb_true_iff, IH, Z.eqb_eq. split.
    + intros [[<- Ha] | [k [e [Hk [Hj Ha]]]]].
      * exists 0%nat, e'. cbn [nth_error]. repeat split; [lia | assumption].
      * exists (S k), e. cbn [nth_error]. repeat split; [assumption | lia | assumption].
    + intros [[|k] [e [Hk [Hj Ha]]]]; simpl in Hk.
      * left. injection Hk as ->. split; [lia | assumption].
      * right. exists k, e. repeat split; [assumption | lia | assumption].
Qed.

Lemma deposit_nonneg (n : Z) (bs : list Z) :
  Forall (fun b => 0 <= b) bs ->
  forall s r, 0 <= r -> 0 <= deposit n bs s r.
Proof.
  induction 1 as [|b bs Hb Hbs IH]; intros s r Hr; simpl; [assumption|].
  apply IH. destruct (Z.land n s =? 0); [assumption|].
  apply Z.lor_nonneg. lia.
Qed.

Lemma minterm_loop_nonneg (addr : Z) (bs : list Z) :
  forall j m, 0 <= j -> 0 <= m -> 0 <= minterm_loop bs addr j m.
Proof.
  induction bs as [|b bs IH]; intros j m Hj Hm; simpl; [assumption|].
  apply IH; [lia|]. destruct (Z.land addr b =? 0); [assumption|].
  apply Z.lor_nonneg. split; [assumption|].
  rewrite Z.shiftl_1_l. apply Z.pow_nonneg. lia.
Qed.

Lemma Forall_pow2_nonneg (es : list Z) :
  Forall (fun b => 0 <= b) (map pow2 es).
Proof.
  apply Forall_forall. intros b Hb. apply in_map_iff in Hb.
  destruct Hb as [e [<- _]]. unfold pow2. apply Z.pow_nonneg. lia.
Qed.

(** A non-negative integer with no bit at or above [k] is below [2 ^ k]. *)
Lemma bits_below_lt (a k : Z) :
  0 <= a -> 0 <= k ->
  (forall i, 0 <= i -> Z.testbit a i = true -> i < k) -> a < 2 ^ k.
Proof.
  intros Ha Hk Hbits.
  destruct (Z.eq_dec a 0) as [->|Hne].
  - apply Z.pow_pos_nonneg; lia.
  - apply Z.log2_lt_pow2; [lia|].
    apply Hbits; [apply Z.log2_nonneg | apply Z.bit_log2; lia].
Qed.

Lemma lt_pow2_bits (a k i : Z) :
  0 <= a < 2 ^ k -> Z.testbit a i = true -> i < k.
Proof.
  intros Ha Hi.
  destruct (Z.lt_ge_cases i k) as [Hlt|Hge]; [assumption|].
  assert (Hk : 0 <= k).
  { destruct (Z.lt_ge_cases k 0) as [Hneg|]; [|assumption].
    rewrite Z.pow_neg_r in Ha by assumption. lia. }
  destruct (Z.eq_dec a 0) as [->|Hne]; [now rewrite Z.bits_0 in Hi|].
  rewrite Z.bits_above_log2 in Hi; [discriminate | lia |].
  assert (Z.log2 a < k) by (apply Z.log2_lt_pow2; lia). lia.
Qed.

(** Encoding the combination built from [n] gives [n] back. *)
Lemma minterm_deposit (es : list Z) (n : Z) :
  Forall (fun e => 0 <= e) es -> NoDup es ->
  0 <= n < 2 ^ Z.of_nat (List.length es) ->
  minterm_loop (map pow2 es) (deposit n (map pow2 es) 1 0) 0 0 = n.
Proof.
  intros Hes Hnd Hn. apply Z.bits_inj'. intros i Hi.
  rewrite minterm_testbit by (auto; lia). rewrite Z.bits_0. simpl.
  apply eq_true_iff_eq. rewrite minterm_bit_true. split.
  - intros [k [e [Hk [Hki Hbit]]]].
    assert (He : 0 <= e).
    { eapply Forall_forall in Hes; [exact Hes | eapply nth_error_In; eauto]. }
    change 1 with (2 ^ 0) in Hbit.
    rewrite deposit_testbit in Hbit by (auto; lia).
    rewrite Z.bits_0 in Hbit. simpl in Hbit.
    apply deposit_bit_true in Hbit. destruct Hbit as [k' [Hk' Hbit]].
    assert (k' = k).
    { eapply NoDup_nth_error; eauto.
      - apply nth_error_Some. congruence.
      - congruence. }
    subst k'. simpl in Hbit, Hki. now subst i.
  - intros Hbit.
    assert (Hlt : i < Z.of_nat (List.length es)) by (eapply lt_pow2_bits; eauto).
    destruct (nth_error es (Z.to_nat i)) as [e|] eqn:Hk.
    2:{ apply nth_error_None in Hk. lia. }
    assert (He : 0 <= e).
    { eapply Forall_forall in Hes; [exact Hes | eapply nth_error_In; eauto]. }
    exists (Z.to_nat i), e. repeat split; [assumption | lia |].
    change 1 with (2 ^ 0).
    rewrite deposit_testbit by (auto; lia).
    rewrite Z.bits_0. simpl. apply deposit_bit_true.
    exists (Z.to_nat i). split; [assumption|].
    simpl. now rewrite Z2Nat.id by lia.
Qed.

Lemma minterm_loop_lt (es : list Z) (addr : Z) :
  Forall (fun e => 0 <= e) es ->
  0 <= minterm_loop (map pow2 es) addr 0 0 < 2 ^ Z.of_nat (List.length es).
Proof.
  intros Hes. split; [apply minterm_loop_nonneg; lia|].
  apply bits_below_lt; [apply minterm_loop_nonneg; lia | lia |].
  intros i Hi Hbit.
  rewrite minterm_testbit in Hbit by (auto; lia).
  rewrite Z.bits_0 in Hbit. simpl in Hbit.
  apply minterm_bit_true in Hbit. destruct Hbit as [k [e [Hk [Hki _]]]].
  assert (k < List.length es)%nat by (apply nth_error_Some; congruence).
  lia.
Qed.

(** Building the combination of the minterm of [x] gives [x] back when
    every bit of [x] is one of the bits [2 ^ es]. *)
Lemma deposit_minterm (es : list Z) (x : Z) :
  Forall (fun e => 0 <= e) es -> 0 <= x ->
  (forall e, 0 <= e -> Z.testbit x e = true -> In e es) ->
  deposit (minterm_loop (map pow2 es) x 0 0) (map pow2 es) 1 0 = x.
Proof.
  intros Hes Hx Hsub. apply Z.bits_inj'. intros e He.
  change 1 with (2 ^ 0).
  rewrite deposit_testbit by (auto; lia). rewrite Z.bits_0. simpl.
  apply eq_true_iff_eq. rewrite deposit_bit_true. split.
  - intros [k [Hk Hbit]]. simpl in Hbit.
    rewrite minterm_testbit in Hbit by (auto; lia).
    rewrite Z.bits_0 in Hbit. simpl in Hbit.
    apply minterm_bit_true in Hbit. destruct Hbit as [k' [e' [Hk' [Hkk Hbit]]]].
    assert (k' = k) by lia. subst k'. congruence.
  - intros Hbit. destruct (In_nth_error _ _ (Hsub e He Hbit)) as [k Hk].
    exists k. split; [assumption|]. simpl.
    rewrite minterm_testbit by (auto; lia).
    rewrite Z.bits_0. simpl. apply minterm_bit_true.
    exists k, e. split; [assumption | split; [lia | assumption]].
Qed.

(** ** Sorted lists of integers *)

Lemma StronglySorted_seq (a k : nat) :
  StronglySorted Z.lt (map Z.of_nat (seq a k)).
Proof.
  revert a. induction k as [|k IH]; intros a; simpl; constructor.
  - apply IH.
  - apply Forall_forall. intros x Hx. apply in_map_iff in Hx.
    destruct Hx as [j [<- Hj]]. apply in_seq in Hj. lia.
Qed.

Lemma StronglySorted_filter (f : Z -> bool) (l : list Z) :
  StronglySorted Z.lt l -> StronglySorted Z.lt (filter f l).
Proof.
  induction 1 as [|a l Hl IH Ha]; simpl; [constructor|].
  destruct (f a); [|assumption]. constructor; [assumption|].
  apply Forall_forall. intros x Hx. apply filter_In in Hx.
  eapply Forall_forall in Ha; [exact Ha | tauto].
Qed.

Lemma StronglySorted_NoDup (l : list Z) : StronglySorted Z.lt l -> NoDup l.
Proof.
  induction 1 as [|a l Hl IH Ha]; constructor; [|assumption].
  intros Hin. eapply Forall_forall in Ha; [|exact Hin]. lia.
Qed.

Lemma StronglySorted_ext (l1 l2 : list Z) :
  StronglySorted Z.lt l1 -> StronglySorted Z.lt l2 ->
  (forall x, In x l1 <-> In x l2) -> l1 = l2.
Proof.
  intros H1. revert l2. induction H1 as [|a l1 Hl1 IH Ha]; intros l2 H2 Hext.
  - destruct l2 as [|b l2]; [reflexivity|].
    destruct (proj2 (Hext b) (or_introl eq_refl)).
  - destruct H2 as [|b l2 Hl2 Hb].
    + destruct (proj1 (Hext a) (or_introl eq_refl)).
    + rewrite Forall_forall in Ha, Hb.
      assert (a = b).
      { destruct (proj1 (Hext a) (or_introl eq_refl)) as [|Hin]; [auto|].
        destruct (proj2 (Hext b) (or_introl eq_refl)) as [|Hin']; [auto|].
        specialize (Ha _ Hin'). specialize (Hb _ Hin). lia. }
      subst b. f_equal. apply IH; [assumption|].
      intros x. split; intros Hin.
      * destruct (proj1 (Hext x) (or_intror Hin)) as [<-|]; [|assumption].
        specialize (Ha _ Hin). lia.
      * destruct (proj2 (Hext x) (or_intror Hin)) as [<-|]; [|assumption].
        specialize (Hb _ Hin). lia.
Qed.

(** ** The bits of a mask *)

Lemma in_set_exponents (mask e : Z) :
  1 <= mask ->
  In e (set_exponents mask) <-> 0 <= e /\ Z.testbit mask e = true.
Proof.
  intros Hm. unfold set_exponents. rewrite filter_In, in_range. split.
  - intros [He Hbit]. split; [lia | assumption].
  - intros [He Hbit]. split; [|assumption]. split; [assumption|].
    destruct (Z.lt_ge_cases (Z.log2 mask) e) as [Hlt|]; [|lia].
    rewrite Z.bits_above_log2 in Hbit by lia. discriminate.
Qed.

Lemma set_exponents_nonneg (mask : Z) :
  Forall (fun e => 0 <= e) (set_exponents mask).
Proof.
  apply Forall_forall. intros e He. unfold set_exponents in He.
  apply filter_In in He. destruct He as [He _]. apply in_range in He. lia.
Qed.

Lemma set_exponents_sorted (mask : Z) :
  StronglySorted Z.lt (set_exponents mask).
Proof. apply StronglySorted_filter, StronglySorted_seq. Qed.

Lemma filter_seq_shift (f : Z -> bool) (k : nat) :
  List.length (filter f (map Z.of_nat (seq 1 k)))
  = List.length (filter (fun i => f (Z.succ i)) (map Z.of_nat (seq 0 k))).
Proof.
  rewrite <- seq_shift, map_map.
  induction (seq 0 k) as [|j l IH]; [reflexivity|].
  cbn [map filter]. rewrite Nat2Z.inj_succ.
  destruct (f (Z.succ (Z.of_nat j))); cbn [List.length]; now rewrite IH.
Qed.

Lemma filter_length_ext_in (f g : Z -> bool) (l : list Z) :
  (forall x, In x l -> f x = g x) ->
  List.length (filter f l) = List.length (filter g l).
Proof.
  intros H. f_equal. now apply filter_ext_in.
Qed.

Lemma popcount_filter (p : positive) :
  forall k : nat, Z.log2 (Zpos p) < Z.of_nat k ->
    List.length (filter (Z.testbit (Zpos p)) (map Z.of_nat (seq 0 k)))
    = Pos_popcount p.
Proof.
  induction p as [q IH|q IH|]; intros k Hk.
  - destruct k as [|k]; [pose proof (Z.log2_nonneg (Zpos q~1)); lia|].
    change (seq 0 (S k)) with (0%nat :: seq 1 k).
    cbn [map filter Z.of_nat]. change (Z.testbit (Z.pos q~1) 0) with true.
    cbn [List.length Pos_popcount]. f_equal.
    rewrite filter_seq_shift.
    rewrite <- (IH k).
    + apply filter_length_ext_in. intros x Hx. apply in_map_iff in Hx.
      destruct Hx as [j [<- _]].
      change (Z.pos q~1) with (2 * Z.pos q + 1).
      apply Z.testbit_odd_succ. lia.
    + change (Z.pos q~1) with (2 * Z.pos q + 1) in Hk.
      rewrite Z.log2_succ_double in Hk by lia. lia.
  - destruct k as [|k]; [pose proof (Z.log2_nonneg (Zpos q~0)); lia|].
    change (seq 0 (S k)) with (0%nat :: seq 1 k).
    cbn [map filter Z.of_nat]. change (Z.testbit (Z.pos q~0) 0) with false.
    cbn [Pos_popcount].
    rewrite filter_seq_shift.
    rewrite <- (IH k).
    + apply filter_length_ext_in. intros x Hx. apply in_map_iff in Hx.
      destruct Hx as [j [<- _]].
      change (Z.pos q~0) with (2 * Z.pos q).
      apply Z.testbit_even_succ. lia.
    + change (Z.pos q~0) with (2 * Z.pos q) in Hk.
      rewrite Z.log2_double in Hk by lia. lia.
  - destruct k as [|k]; [simpl in Hk; lia|].
    change (seq 0 (S k)) with (0%nat :: seq 1 k).
    cbn [map filter Z.of_nat]. change (Z.testbit 1 0) with true.
    cbn [List.length Pos_popcount]. f_equal.
    rewrite filter_seq_shift.
    rewrite (filter_length_ext_in _ (fun _ => false)).
    + induction (map Z.of_nat (seq 0 k)); simpl; auto.
    + intros x Hx. apply in_map_iff in Hx. destruct Hx as [j [<- _]].
      change 1 with (2 ^ 0). rewrite Z.pow2_bits_eqb by lia.
      apply Z.eqb_neq. lia.
Qed.

Lemma length_set_exponents (mask : Z) :
  1 <= mask -> List.length (set_exponents mask) = popcount mask.
Proof.
  intros Hm. destruct mask as [|p|p]; try lia.
  unfold set_exponents, range. simpl popcount.
  apply popcount_filter. pose proof (Z.log2_nonneg (Zpos p)). lia.
Qed.

(** ** iterate_mask *)

Lemma deposit_bits_in (es : list Z) (n e : Z) :
  Forall (fun e => 0 <= e) es -> 0 <= e ->
  Z.testbit (deposit n (map pow2 es) 1 0) e = true -> In e es.
Proof.
  intros Hes He Hbit. change 1 with (2 ^ 0) in Hbit.
  rewrite deposit_testbit in Hbit by (auto; lia).
  rewrite Z.bits_0 in Hbit. simpl in Hbit.
  apply deposit_bit_true in Hbit. destruct Hbit as [k [Hk _]].
  eapply nth_error_In; eauto.
Qed.

Lemma submask_bits (x m e : Z) :
  submask x m -> Z.testbit x e = true -> Z.testbit m e = true.
Proof.
  intros [_ Hland] Hbit. rewrite <- Hland, Z.land_spec in Hbit.
  now apply andb_true_iff in Hbit.
Qed.

Lemma in_iterate_mask (mask x : Z) :
  1 <= mask -> In x (iterate_mask mask) <-> submask x mask.
Proof.
  intros Hm. rewrite iterate_mask_unfold by assumption.
  pose proof (set_exponents_nonneg mask) as Hes.
  rewrite in_map_iff. split.
  - intros [n [<- _]]. split.
    + apply deposit_nonneg; [apply Forall_pow2_nonneg | lia].
    + apply Z.bits_inj'. intros e He. rewrite Z.land_spec.
      destruct (Z.testbit (deposit n (map pow2 (set_exponents mask)) 1 0) e)
        eqn:Hbit; [|reflexivity].
      apply deposit_bits_in in Hbit; [|assumption|assumption].
      apply in_set_exponents in Hbit; [|assumption]. simpl. tauto.
  - intros Hsub.
    exists (minterm_loop (map pow2 (set_exponents mask)) x 0 0). split.
    + apply deposit_minterm; [assumption | apply Hsub |].
      intros e He Hbit. apply in_set_exponents; [assumption|].
      split; [assumption|]. eapply submask_bits; eauto.
    + apply in_range. now apply minterm_loop_lt.
Qed.

Lemma to_nat_pow2 (k : nat) : Z.to_nat (2 ^ Z.of_nat k) = (2 ^ k)%nat.
Proof.
  change 2 with (Z.of_nat 2). now rewrite <- Nat2Z.inj_pow, Nat2Z.id.
Qed.

Lemma length_iterate_mask (mask : Z) :
  1 <= mask -> List.length (iterate_mask mask) = (2 ^ popcount mask)%nat.
Proof.
  intros Hm. rewrite iterate_mask_unfold by assumption.
  rewrite length_map, length_range, to_nat_pow2.
  now rewrite length_set_exponents.
Qed.

Lemma nth_iterate_mask (mask n : Z) :
  1 <= mask -> 0 <= n < 2 ^ Z.of_nat (popcount mask) ->
  nth_error (iterate_mask mask) (Z.to_nat n)
  = Some (deposit n (mask_bits mask) 1 0).
Proof.
  intros Hm Hn. rewrite iterate_mask_unfold by assumption.
  rewrite nth_error_map, nth_error_range.
  - simpl. now rewrite Z2Nat.id by lia.
  - rewrite length_set_exponents by assumption. lia.
Qed.

Lemma encoding_deposit (mask n : Z) :
  1 <= mask -> 0 <= n < 2 ^ Z.of_nat (popcount mask) ->
  encoding mask (deposit n (mask_bits mask) 1 0) = n.
Proof.
  intros Hm Hn. unfold encoding, build_outputpin_minterm, mask_bits. simpl.
  apply minterm_deposit.
  - apply set_exponents_nonneg.
  - apply StronglySorted_NoDup, set_exponents_sorted.
  - now rewrite length_set_exponents.
Qed.

Lemma NoDup_iterate_mask (mask : Z) : NoDup (iterate_mask mask).
Proof.
  destruct (Z.lt_ge_cases mask 1) as [Hlt|Hm].
  - rewrite iterate_mask_empty by assumption. constructor.
  - rewrite iterate_mask_unfold by assumption.
    apply NoDup_map_NoDup_ForallPairs.
    + intros n n' Hn Hn' Heq. apply in_range in Hn, Hn'.
      rewrite length_set_exponents in Hn, Hn' by assumption.
      rewrite <- (encoding_deposit mask n), <- (encoding_deposit mask n')
        by assumption.
      unfold mask_bits. now rewrite Heq.
    + apply StronglySorted_NoDup, StronglySorted_seq.
Qed.

(** C5, as the code has it: for a bitmap [M >= 1] the iteration yields
    exactly the integers whose 1-bits are 1-bits of [M], each once,
    [2 ^ popcount M] of them, and the [n]-th one is the sub-mask whose
    encoding on [popcount M] bits is [n]; for [M < 1] it yields
    nothing. *)
Theorem iterate_mask_submasks (M : Z) :
  (M < 1 -> iterate_mask M = [])
  /\ (1 <= M ->
      (forall x, In x (iterate_mask M) <-> submask x M)
      /\ NoDup (iterate_mask M)
      /\ List.length (iterate_mask M) = (2 ^ popcount M)%nat
      /\ (forall n, 0 <= n < 2 ^ Z.of_nat (popcount M) ->
            exists x, nth_error (iterate_mask M) (Z.to_nat n) = Some x
                      /\ encoding M x = n)).
Proof.
  split; [apply iterate_mask_empty|].
  intros Hm. split; [|split; [|split]].
  - intros x. now apply in_iterate_mask.
  - apply NoDup_iterate_mask.
  - now apply length_iterate_mask.
  - intros n Hn. exists (deposit n (mask_bits M) 1 0). split.
    + now apply nth_iterate_mask.
    + now apply encoding_deposit.
Qed.

Lemma iterate_mask_submasks_witness :
  1 <= 10 /\ List.length (iterate_mask 10) = 4%nat
  /\ exists x, nth_error (iterate_mask 10) 2 = Some x /\ encoding 10 x = 2.
Proof.
  split; [lia|].
  destruct (iterate_mask_submasks 10) as [_ Hspec].
  destruct (Hspec ltac:(lia)) as (_ & _ & Hlen & Hnth).
  split; [exact Hlen|]. apply (Hnth 2). simpl. lia.
Defined.

(** C5 as stated fails at [M = 0]: nothing is generated, so [0], a
    sub-mask of [0], is not, and the count is [0] and not [2 ^ 0]. *)
Lemma iterate_mask_zero_counterexample :
  ~ (forall M x, submask x M -> In x (iterate_mask M))
  /\ submask 0 0 /\ ~ In 0 (iterate_mask 0)
  /\ List.length (iterate_mask 0) <> (2 ^ popcount 0)%nat.
Proof.
  assert (Hsub : submask 0 0) by (split; [lia | reflexivity]).
  split; [|split; [exact Hsub | split]].
  - intros H. exact (H 0 0 Hsub).
  - intros H. exact H.
  - simpl. lia.
Qed.

(** ** Sorted dependency sets *)

Lemma single_bits_exponents (bs : list Z) :
  Forall single_bit bs ->
  exists es, bs = map pow2 es /\ Forall (fun e => 0 <= e) es.
Proof.
  induction 1 as [|b bs [e [He ->]] _ [es [-> Hes]]].
  - exists []. split; [reflexivity | constructor].
  - exists (e :: es). split; [reflexivity | now constructor].
Qed.

Lemma or_of_nonneg (es : list Z) : 0 <= or_of (map pow2 es).
Proof.
  induction es as [|e es IH]; simpl; [lia|].
  apply Z.lor_nonneg. split; [apply Z.pow_nonneg; lia | exact IH].
Qed.

Lemma or_of_testbit (es : list Z) (e : Z) :
  Forall (fun e => 0 <= e) es -> 0 <= e ->
  Z.testbit (or_of (map pow2 es)) e = true <-> In e es.
Proof.
  intros Hes He. induction Hes as [|e' es He' Hes IH]; simpl.
  - rewrite Z.bits_0. split; [discriminate | tauto].
  - rewrite Z.lor_spec, orb_true_iff, IH. unfold pow2.
    rewrite Z.pow2_bits_eqb, Z.eqb_eq by lia. tauto.
Qed.

Lemma pow2_sorted (es : list Z) :
  Forall (fun e => 0 <= e) es ->
  StronglySorted Z.lt (map pow2 es) -> StronglySorted Z.lt es.
Proof.
  induction 1 as [|e es He Hes IH]; intros Hs; [constructor|].
  simpl in Hs. apply StronglySorted_inv in Hs. destruct Hs as [Hs Hall].
  constructor; [now apply IH|].
  rewrite Forall_forall in *. intros e' Hin.
  specialize (Hall (pow2 e') (in_map pow2 _ _ Hin)). unfold pow2 in Hall.
  apply Z.pow_lt_mono_r_iff in Hall; [assumption | lia | auto].
Qed.

(** The bits of a sorted, non-empty dependency set are the bits that
    [iterate_mask] collects from its bitmap. *)
Lemma sorted_dependencies_bits (d : PinDependencies) :
  sorted_dependencies d -> bits d <> [] ->
  1 <= bitmap d /\ bits d = mask_bits (bitmap d).
Proof.
  intros [Hsingle Hsorted Hbitmap] Hne.
  destruct (single_bits_exponents _ Hsingle) as [es [Hbits Hes]].
  rewrite Hbits in *. rewrite Hbitmap.
  assert (Hpos : 1 <= or_of (map pow2 es)).
  { destruct es as [|e es]; [exfalso; apply Hne; reflexivity|].
    pose proof (or_of_nonneg (e :: es)) as Hnn.
    assert (Hbit : Z.testbit (or_of (map pow2 (e :: es))) e = true).
    { apply or_of_testbit; [assumption | | now left].
      now inversion Hes. }
    destruct (Z.eq_dec (or_of (map pow2 (e :: es))) 0) as [E|]; [|lia].
    rewrite E, Z.bits_0 in Hbit. discriminate. }
  split; [assumption|]. unfold mask_bits. f_equal.
  apply StronglySorted_ext.
  - now apply pow2_sorted.
  - apply set_exponents_sorted.
  - intros e. rewrite in_set_exponents by assumption. split.
    + intros Hin. assert (0 <= e).
      { eapply Forall_forall in Hes; [exact Hes | exact Hin]. }
      split; [assumption|]. now apply or_of_testbit.
    + intros [He Hbit]. now apply or_of_testbit in Hbit.
Qed.

Lemma sorted_dependencies_popcount (d : PinDependencies) :
  sorted_dependencies d -> popcount (bitmap d) = List.length (bits d).
Proof.
  intros Hd. destruct (bits d) as [|b bs] eqn:Hbits.
  - destruct Hd as [_ _ Hbitmap]. rewrite Hbitmap, Hbits. reflexivity.
  - assert (Hne : bits d <> []) by congruence.
    destruct (sorted_dependencies_bits d Hd Hne) as [Hpos Heq].
    rewrite <- Hbits, Heq. unfold mask_bits.
    now rewrite length_map, length_set_exponents.
Qed.

Lemma minterm_of_combination (d : PinDependencies) (n : Z) :
  sorted_dependencies d -> bits d <> [] ->
  0 <= n < 2 ^ Z.of_nat (List.length (bits d)) ->
  nth_error (iterate_mask (bitmap d)) (Z.to_nat n)
  = Some (deposit n (bits d) 1 0)
  /\ build_outputpin_minterm d (deposit n (bits d) 1 0) = n.
Proof.
  intros Hd Hne Hn.
  destruct (sorted_dependencies_bits d Hd Hne) as [Hpos Heq].
  rewrite <- (sorted_dependencies_popcount d Hd) in Hn.
  split.
  - rewrite Heq. now apply nth_iterate_mask.
  - pose proof (encoding_deposit (bitmap d) n Hpos Hn) as Henc.
    unfold encoding, build_outputpin_minterm in *. simpl in Henc.
    now rewrite Heq.
Qed.

(** C10, as the code has it: for a non-empty dependency set with
    strictly ascending single-bit masks and bitmap [M], and for every
    [n] with [0 <= n < 2 ^ popcount M], the [n]-th sub-address generated
    by iterating [M] exists and its minterm is [n]. *)
Theorem minterm_of_nth_combination (d : PinDependencies) (n : Z) :
  sorted_dependencies d -> bits d <> [] ->
  0 <= n < 2 ^ Z.of_nat (popcount (bitmap d)) ->
  exists a, nth_error (iterate_mask (bitmap d)) (Z.to_nat n) = Some a
            /\ build_outputpin_minterm d a = n.
Proof.
  intros Hd Hne Hn. exists (deposit n (bits d) 1 0).
  apply minterm_of_combination; try assumption.
  now rewrite <- (sorted_dependencies_popcount d Hd).
Qed.

Lemma sorted_dependencies_example :
  sorted_dependencies (mkDeps 10 [2; 8] ["i1"; "i3"]%string).
Proof.
  constructor; simpl.
  - repeat constructor; [exists 1 | exists 3]; split; reflexivity || lia.
  - repeat constructor; lia.
  - reflexivity.
Defined.

Lemma minterm_of_nth_combination_witness :
  exists a, nth_error (iterate_mask 10) 3 = Some a
            /\ build_outputpin_minterm (mkDeps 10 [2; 8] ["i1"; "i3"]%string) a
               = 3.
Proof.
  apply (minterm_of_nth_combination (mkDeps 10 [2; 8] ["i1"; "i3"]%string) 3).
  - exact sorted_dependencies_example.
  - discriminate.
  - simpl. lia.
Defined.

(** C10 as stated fails for the empty dependency set: [0] is below
    [2 ^ popcount 0], and iterating the bitmap [0] generates no
    sub-address at all. *)
Lemma minterm_of_nth_combination_counterexample :
  sorted_dependencies no_dependencies
  /\ 0 <= 0 < 2 ^ Z.of_nat (popcount (bitmap no_dependencies))
  /\ nth_error (iterate_mask (bitmap no_dependencies)) (Z.to_nat 0) = None
  /\ ~ (forall d n,
          sorted_dependencies d ->
          0 <= n < 2 ^ Z.of_nat (popcount (bitmap d)) ->
          exists a, nth_error (iterate_mask (bitmap d)) (Z.to_nat n) = Some a
                    /\ build_outputpin_minterm d a = n).
Proof.
  assert (Hd : sorted_dependencies no_dependencies).
  { constructor; simpl; [constructor | constructor | reflexivity]. }
  assert (Hn : 0 <= 0 < 2 ^ Z.of_nat (popcount (bitmap no_dependencies))).
  { simpl. lia. }
  split; [exact Hd | split; [exact Hn | split; [reflexivity|]]].
  intros H. destruct (H no_dependencies 0 Hd Hn) as [a [Ha _]].
  discriminate Ha.
Qed.

(** ** Addresses within the image *)

Lemma py_getitem_image (dumpdata : list Z) (addr : Z) :
  0 <= addr < Z.of_nat (List.length dumpdata) ->
  py_getitem dumpdata addr = Ok (image_at dumpdata addr).
Proof.
  intros Ha. destruct (py_getitem_in_range dumpdata addr Ha) as [a [-> Hnth]].
  unfold image_at. now rewrite (nth_error_nth _ _ _ Hnth).
Qed.

Lemma lor_lt_pow2 (a b w : Z) :
  0 <= a < 2 ^ w -> 0 <= b < 2 ^ w -> 0 <= Z.lor a b < 2 ^ w.
Proof.
  intros Ha Hb.
  assert (Hw : 0 <= w).
  { destruct (Z.lt_ge_cases w 0); [rewrite Z.pow_neg_r in Ha; lia | lia]. }
  split; [apply Z.lor_nonneg; lia|].
  apply bits_below_lt; [apply Z.lor_nonneg; lia | assumption |].
  intros i Hi Hbit. rewrite Z.lor_spec in Hbit.
  apply orb_true_iff in Hbit.
  destruct Hbit as [H|H];
    [apply (lt_pow2_bits a w i Ha H) | apply (lt_pow2_bits b w i Hb H)].
Qed.

Lemma lxor_lt_pow2 (a b w : Z) :
  0 <= a < 2 ^ w -> 0 <= b < 2 ^ w -> 0 <= Z.lxor a b < 2 ^ w.
Proof.
  intros Ha Hb.
  assert (Hw : 0 <= w).
  { destruct (Z.lt_ge_cases w 0); [rewrite Z.pow_neg_r in Ha; lia | lia]. }
  split; [apply Z.lxor_nonneg; lia|].
  apply bits_below_lt; [apply Z.lxor_nonneg; lia | assumption |].
  intros i Hi Hbit. rewrite Z.lxor_spec in Hbit.
  destruct (Z.testbit a i) eqn:Ea; [apply (lt_pow2_bits a w i Ha Ea)|].
  destruct (Z.testbit b i) eqn:Eb; [apply (lt_pow2_bits b w i Hb Eb)|].
  discriminate.
Qed.

Lemma submask_lt_pow2 (s m w : Z) :
  submask s m -> 0 <= m < 2 ^ w -> 0 <= s < 2 ^ w.
Proof.
  intros Hs Hm.
  assert (Hw : 0 <= w).
  { destruct (Z.lt_ge_cases w 0); [rewrite Z.pow_neg_r in Hm; lia | lia]. }
  split; [apply Hs|].
  apply bits_below_lt; [apply Hs | assumption |].
  intros i Hi Hbit. eapply lt_pow2_bits; [exact Hm|].
  eapply submask_bits; eauto.
Qed.

Lemma submask_zero (s : Z) : submask s 0 <-> s = 0.
Proof.
  unfold submask. rewrite Z.land_0_r. split; [intros [_ H]; auto | lia].
Qed.

(** Every value that [iterate_mask] yields is a sub-mask, for any mask. *)
Lemma iterate_mask_submask (mask x : Z) :
  In x (iterate_mask mask) -> submask x mask.
Proof.
  destruct (Z.lt_ge_cases mask 1) as [Hlt|Hm].
  - rewrite iterate_mask_empty by assumption. intros [].
  - now apply in_iterate_mask.
Qed.

(** ** get_output_pin_data *)

Section OutputPinData.

Variable w : Z.
Variable dumpdata : list Z.
Variable outputpin : Pin.

Hypothesis image_size : Z.of_nat (List.length dumpdata) = 2 ^ w.
Hypothesis probe_in_range : 0 <= hizprobebitmask outputpin < 2 ^ w.

Lemma is_driven_in_range (addr : Z) :
  0 <= addr < 2 ^ w ->
  is_driven dumpdata outputpin addr = Ok (driven_at dumpdata outputpin addr).
Proof.
  intros Ha. unfold is_driven, driven_at.
  rewrite py_getitem_image by lia. simpl.
  rewrite py_getitem_image; [reflexivity|].
  rewrite image_size. now apply lxor_lt_pow2.
Qed.

Lemma drive_search_find (addr : Z) (others : list Z) :
  0 <= addr < 2 ^ w ->
  Forall (fun o => 0 <= o < 2 ^ w) others ->
  drive_search dumpdata outputpin addr others
  = match find (fun o => driven_at dumpdata outputpin (Z.lor addr o)) others with
    | Some o => Ok (image_at dumpdata (Z.lor addr o))
    | None => Raise (RuntimeError (no_drive_message outputpin))
    end.
Proof.
  intros Ha. induction 1 as [|o others Ho Hothers IH]; simpl; [reflexivity|].
  pose proof (lor_lt_pow2 addr o w Ha Ho) as Hlor.
  rewrite is_driven_in_range by assumption. simpl.
  destruct (driven_at dumpdata outputpin (Z.lor addr o)).
  - apply py_getitem_image. lia.
  - exact IH.
Qed.

End OutputPinData.

(** C3: the effective-output-value lookup returns [image[addr]] when the
    pin is driven at [addr]; otherwise it returns [image[addr | s]] for a
    sub-mask [s] of the output-enable bitmap at which the pin is driven,
    when there is one; and it raises the no-drive error exactly when the
    pin is driven at no address [addr | s]. *)
Theorem get_output_pin_data_spec (w : Z) (dumpdata : list Z) (outputpin : Pin)
  (addr : Z) :
  Z.of_nat (List.length dumpdata) = 2 ^ w ->
  0 <= hizprobebitmask outputpin < 2 ^ w ->
  0 <= bitmap (oe_depends outputpin) < 2 ^ w ->
  0 <= addr < 2 ^ w ->
  (driven_at dumpdata outputpin addr = true ->
   get_output_pin_data dumpdata outputpin addr = Ok (image_at dumpdata addr))
  /\ ((exists s, submask s (bitmap (oe_depends outputpin))
                 /\ driven_at dumpdata outputpin (Z.lor addr s) = true) ->
      exists s, submask s (bitmap (oe_depends outputpin))
                /\ driven_at dumpdata outputpin (Z.lor addr s) = true
                /\ get_output_pin_data dumpdata outputpin addr
                   = Ok (image_at dumpdata (Z.lor addr s)))
  /\ (get_output_pin_data dumpdata outputpin addr
      = Raise (RuntimeError (no_drive_message outputpin))
      <-> forall s, submask s (bitmap (oe_depends outputpin)) ->
                    driven_at dumpdata outputpin (Z.lor addr s) = false).
Proof.
  intros Hsize Hprobe Hoe Ha.
  set (bm := bitmap (oe_depends outputpin)) in *.
  assert (Hzero : submask 0 bm) by (split; [lia | apply Z.land_0_l]).
  assert (Hall : Forall (fun o => 0 <= o < 2 ^ w) (iterate_mask bm)).
  { apply Forall_forall. intros o Ho. apply iterate_mask_submask in Ho.
    eapply submask_lt_pow2; eauto. }
  unfold get_output_pin_data. fold bm.
  rewrite (is_driven_in_range w) by assumption. simpl.
  rewrite (drive_search_find w) by assumption.
  destruct (driven_at dumpdata outputpin addr) eqn:Hd.
  - rewrite py_getitem_image by lia.
    split; [reflexivity|]. split.
    + intros _. exists 0. rewrite Z.lor_0_r. auto.
    + split; [discriminate|]. intros Hno.
      specialize (Hno 0 Hzero). rewrite Z.lor_0_r in Hno. congruence.
  - split; [discriminate|].
    destruct (find (fun o => driven_at dumpdata outputpin (Z.lor addr o))
                   (iterate_mask bm)) as [o|] eqn:Hfind.
    + apply find_some in Hfind. destruct Hfind as [Hin Hdo].
      apply iterate_mask_submask in Hin. split.
      * intros _. exists o. auto.
      * split; [discriminate|]. intros Hno. rewrite (Hno o Hin) in Hdo.
        discriminate.
    + assert (Hno : forall s, submask s bm ->
                      driven_at dumpdata outputpin (Z.lor addr s) = false).
      { intros s Hs. destruct (Z.lt_ge_cases bm 1) as [Hlt|Hge].
        - assert (bm = 0) by lia. subst bm.
          replace (bitmap (oe_depends outputpin)) with 0 in Hs by lia.
          apply submask_zero in Hs. subst s. now rewrite Z.lor_0_r.
        - apply (find_none _ _ Hfind). now apply in_iterate_mask. }
      split.
      * intros [s [Hs Hds]]. rewrite (Hno s Hs) in Hds. discriminate.
      * split; [intros _; exact Hno | reflexivity].
Qed.

(** ** check_input_combination_is_relevent *)

Section Relevance.

Variable device : Device.
Variable dumpdata : list Z.

Let A := eprom_address_width device.
Let H := eprom_hiz_probe_pins device.
Let D := eprom_data_width device.

Hypothesis probes_in_address : 0 <= H <= A.
Hypothesis probes_in_data : H <= D.
Hypothesis image_size : Z.of_nat (List.length dumpdata) = 2 ^ A.

Lemma hiz_input_mask_Ok : hiz_input_mask device = Ok (probe_input_mask device).
Proof.
  unfold hiz_input_mask. fold H A.
  destruct (H <? 0) eqn:E1; [apply Z.ltb_lt in E1; lia|].
  destruct (A - H <? 0) eqn:E2; [apply Z.ltb_lt in E2; lia|]. reflexivity.
Qed.

Lemma hiz_data_mask_Ok : hiz_data_mask device = Ok (probe_data_mask device).
Proof.
  unfold hiz_data_mask. fold H D.
  destruct (D - H <? 0) eqn:E1; [apply Z.ltb_lt in E1; lia|].
  destruct (H <? 0) eqn:E2; [apply Z.ltb_lt in E2; lia|]. reflexivity.
Qed.

Lemma inversebitmap_Ok (outputpin : Pin) :
  inversebitmap device outputpin
  = Ok (Z.lxor (2 ^ A - 1) (bitmap (depends outputpin))).
Proof.
  unfold inversebitmap. fold A.
  destruct (A <? 0) eqn:E1; [apply Z.ltb_lt in E1; lia | reflexivity].
Qed.

Lemma probe_input_mask_testbit (i : Z) :
  0 <= i ->
  Z.testbit (probe_input_mask device) i = (A - H <=? i) && (i <? A).
Proof.
  intros Hi. unfold probe_input_mask. fold H A.
  rewrite Z.shiftl_spec by assumption.
  replace (2 ^ H - 1) with (Z.ones H) by (rewrite Z.ones_equiv; lia).
  rewrite Z.testbit_ones by lia.
  destruct (Z.leb_spec (A - H) i), (Z.leb_spec 0 (i - (A - H))),
    (Z.ltb_spec (i - (A - H)) H), (Z.ltb_spec i A); simpl; trivial; lia.
Qed.

Lemma probe_input_mask_range : 0 <= probe_input_mask device < 2 ^ A.
Proof.
  assert (Hnn : 0 <= probe_input_mask device).
  { unfold probe_input_mask. apply Z.shiftl_nonneg. fold H.
    pose proof (Z.pow_pos_nonneg 2 H). lia. }
  split; [assumption|].
  apply bits_below_lt; [assumption | lia |].
  intros i Hi Hbit. rewrite probe_input_mask_testbit in Hbit by assumption.
  apply andb_true_iff in Hbit. destruct Hbit as [_ Hlt].
  now apply Z.ltb_lt in Hlt.
Qed.

(** The mask that the code iterates is the set of the probe bits that
    are not dependencies. *)
Lemma inverse_probe_bits (outputpin : Pin) :
  Z.land (Z.lxor (2 ^ A - 1) (bitmap (depends outputpin)))
         (probe_input_mask device)
  = free_probe_bits device outputpin.
Proof.
  unfold free_probe_bits. apply Z.bits_inj'. intros i Hi.
  rewrite !Z.land_spec, Z.lxor_spec, Z.lnot_spec by assumption.
  rewrite probe_input_mask_testbit by assumption.
  replace (2 ^ A - 1) with (Z.ones A) by (rewrite Z.ones_equiv; lia).
  rewrite Z.testbit_ones_nonneg by lia.
  destruct (Z.ltb_spec i A); simpl.
  - now destruct (Z.testbit (bitmap (depends outputpin)) i).
  - now rewrite !andb_false_r.
Qed.

Lemma free_probe_bits_range (outputpin : Pin) :
  0 <= free_probe_bits device outputpin < 2 ^ A.
Proof.
  pose proof probe_input_mask_range as Hr.
  apply (submask_lt_pow2 _ (probe_input_mask device)); [|assumption].
  unfold free_probe_bits. split.
  - apply Z.land_nonneg. right. lia.
  - rewrite <- Z.land_assoc. now rewrite Z.land_diag.
Qed.

Lemma relevant_loop_existsb (addr : Z) (others : list Z) :
  0 <= addr < 2 ^ A ->
  Forall (fun o => 0 <= o < 2 ^ A) others ->
  relevant_loop device dumpdata (probe_input_mask device)
                (probe_data_mask device) addr others
  = Ok (existsb (fun o => probe_matches device dumpdata (Z.lor addr o)) others).
Proof.
  intros Ha. induction 1 as [|o others Ho Hothers IH]; simpl; [reflexivity|].
  pose proof (lor_lt_pow2 addr o A Ha Ho) as Hlor.
  rewrite py_getitem_image by lia. simpl.
  unfold probe_matches at 1. fold A H.
  destruct (Z.shiftr (Z.land (Z.lor addr o) (probe_input_mask device)) (A - H)
            =? Z.land (image_at dumpdata (Z.lor addr o))
                      (Z.lnot (probe_data_mask device))); simpl.
  - reflexivity.
  - exact IH.
Qed.

Lemma check_relevent_existsb (outputpin : Pin) (addr : Z) :
  0 <= addr < 2 ^ A ->
  check_input_combination_is_relevent device dumpdata outputpin addr
  = Ok (existsb (fun p => probe_matches device dumpdata (Z.lor addr p))
                (iterate_mask (free_probe_bits device outputpin))).
Proof.
  intros Ha. unfold check_input_combination_is_relevent.
  rewrite hiz_input_mask_Ok, hiz_data_mask_Ok, inversebitmap_Ok. simpl.
  rewrite inverse_probe_bits. apply relevant_loop_existsb; [assumption|].
  apply Forall_forall. intros o Ho. apply iterate_mask_submask in Ho.
  eapply submask_lt_pow2; [exact Ho | apply free_probe_bits_range].
Qed.

End Relevance.

Lemma check_relevent_iff (device : Device) (dumpdata : list Z)
  (outputpin : Pin) (addr : Z) :
  0 <= eprom_hiz_probe_pins device <= eprom_address_width device ->
  eprom_hiz_probe_pins device <= eprom_data_width device ->
  Z.of_nat (List.length dumpdata) = 2 ^ eprom_address_width device ->
  0 <= addr < 2 ^ eprom_address_width device ->
  exists relevant,
    check_input_combination_is_relevent device dumpdata outputpin addr
    = Ok relevant
    /\ (relevant = true
        <-> free_probe_bits device outputpin <> 0
            /\ exists p, submask p (free_probe_bits device outputpin)
                         /\ probe_matches device dumpdata (Z.lor addr p) = true).
Proof.
  intros HA HD Hsize Ha.
  erewrite check_relevent_existsb by eassumption.
  eexists. split; [reflexivity|].
  assert (Hr : 0 <= free_probe_bits device outputpin
               < 2 ^ eprom_address_width device)
    by (eapply free_probe_bits_range; eassumption).
  rewrite existsb_exists. split.
  - intros [p [Hin Hp]]. split.
    + intros E. rewrite E in Hin. exact Hin.
    + exists p. split; [now apply iterate_mask_submask | assumption].
  - intros [Hne [p [Hsub Hp]]]. exists p. split; [|assumption].
    apply in_iterate_mask; [lia | assumption].
Qed.

(** When no hi-z probe bit is free the test tries no setting. *)
Lemma check_relevent_no_free_probe (device : Device) (dumpdata : list Z)
  (outputpin : Pin) (addr : Z) :
  0 <= eprom_hiz_probe_pins device <= eprom_address_width device ->
  eprom_hiz_probe_pins device <= eprom_data_width device ->
  Z.of_nat (List.length dumpdata) = 2 ^ eprom_address_width device ->
  0 <= addr < 2 ^ eprom_address_width device ->
  free_probe_bits device outputpin = 0 ->
  check_input_combination_is_relevent device dumpdata outputpin addr = Ok false.
Proof.
  intros HA HD Hsize Ha Hzero.
  erewrite check_relevent_existsb by eassumption.
  now rewrite Hzero.
Qed.

(** When every hi-z probe bit is a dependency of the pin the test
    answers don't-care although the empty setting matches: on
    [feedback_device] the output [O] depends on the only probe bit, the
    setting [p = 0] makes the probe word equal the data word at address
    [0], and the combination is classified don't-care. *)
Example relevance_test_on_feedback :
  exists outputpins,
    analyse feedback_device feedback_image = Ok outputpins
    /\ nth_error outputpins 1 = Some feedback_O
    /\ check_input_combination_is_relevent feedback_device feedback_image
         feedback_O 0 = Ok false
    /\ submask 0 (free_probe_bits feedback_device feedback_O)
    /\ probe_matches feedback_device feedback_image (Z.lor 0 0) = true.
Proof.
  exists [feedback_B; feedback_O].
  split; [reflexivity|]. split; [reflexivity|]. split; [reflexivity|].
  split; [|reflexivity]. split; [lia | reflexivity].
Qed.

(** C3 at a combination where the pin floats: the value is taken at the
    address with the enable high. *)
Lemma get_output_pin_data_spec_witness :
  exists s, submask s (bitmap (oe_depends demo_output))
            /\ driven_at demo_image demo_output (Z.lor 1 s) = true
            /\ get_output_pin_data demo_image demo_output 1
               = Ok (image_at demo_image (Z.lor 1 s)).
Proof.
  apply (get_output_pin_data_spec 3 demo_image demo_output 1).
  - reflexivity.
  - simpl. lia.
  - simpl. lia.
  - lia.
  - exists 2. split; [split; [lia | reflexivity] | reflexivity].
Defined.

(** ** The equations of one pin *)

Lemma length_insert_sorted {A : Type} (leb : A -> A -> bool) (x : A)
  (l : list A) :
  List.length (insert_sorted leb x l) = S (List.length l).
Proof.
  induction l as [|y l IH]; simpl; [reflexivity|].
  destruct (leb x y); simpl; [reflexivity | now rewrite IH].
Qed.

Lemma length_sorted {A : Type} (leb : A -> A -> bool) (l : list A) :
  List.length (sorted leb l) = List.length l.
Proof.
  induction l as [|x l IH]; simpl; [reflexivity|].
  now rewrite length_insert_sorted, IH.
Qed.

Lemma length_write_products (signedname : string) (pinnames : list string)
  (result : list (Z * Z)) :
  forall i len first,
    List.length (write_products signedname pinnames result i len first)
    = List.length result.
Proof.
  induction result as [|p result IH]; intros i len first; simpl;
    [reflexivity | now rewrite IH].
Qed.

(** One string is written for each product of the cover. *)
Lemma length_write_pin_equations (nm : string) (pinnames : list string)
  (products : list (Z * Z)) (sign : Polarity) :
  List.length (write_pin_equations nm pinnames (SProducts products) sign)
  = List.length products.
Proof.
  unfold write_pin_equations.
  now rewrite length_write_products, length_sorted.
Qed.

Lemma write_pin_equations_nonempty (nm : string) (pinnames : list string)
  (results : simplified) (sign : Polarity) :
  results <> SProducts [] -> write_pin_equations nm pinnames results sign <> [].
Proof.
  intros Hne Heq. apply (f_equal (@List.length string)) in Heq.
  destruct results as [| |products]; try discriminate.
  rewrite length_write_pin_equations in Heq.
  destruct products; [congruence | discriminate].
Qed.

(** C6: under [auto], when both simplifications of a pin with
    dependencies return product lists, the equation written has as many
    products as the smaller cover, the positive one on a tie; and when the
    positive simplification returns a literal, the positive equation is
    written. *)
Theorem auto_polarity_choice (simplify : Z -> list Z -> list Z -> simplified)
  (args : Args) (outputpin : Pin) :
  polarity args = Auto ->
  bitmap (depends outputpin) <> 0 ->
  let names := pinnames (depends outputpin) in
  let simplified_pos :=
    simplify_minterms simplify names (posminterms outputpin)
                      (dontcareterms outputpin) in
  let simplified_neg :=
    simplify_minterms simplify names (negminterms outputpin)
                      (dontcareterms outputpin) in
  (forall pos neg,
     simplified_pos = SProducts pos -> simplified_neg = SProducts neg ->
     exists equation,
       write_pin_output_equation simplify args outputpin
       = Ok (equation ++ write_equations_newline)
       /\ equation
          = (if (List.length pos <=? List.length neg)%nat
             then write_pin_equations (name outputpin) names (SProducts pos)
                                      Positive
             else write_pin_equations (name outputpin) names (SProducts neg)
                                      Negative)
       /\ List.length equation
          = Nat.min (List.length pos) (List.length neg))
  /\ (simplified_pos = STrue \/ simplified_pos = SFalse ->
      write_pin_output_equation simplify args outputpin
      = Ok (write_pin_equations (name outputpin) names simplified_pos Positive
            ++ write_equations_newline)).
Proof.
  intros Hauto Hdeps names simplified_pos simplified_neg.
  assert (Hrun : write_pin_output_equation simplify args outputpin
                 = (eqs <- write_polarity_equations (name outputpin) names
                             simplified_pos simplified_neg Auto ;;
                    Ok (eqs ++ write_equations_newline))).
  { unfold write_pin_output_equation.
    destruct (bitmap (depends outputpin) =? 0) eqn:E;
      [apply Z.eqb_eq in E; contradiction|].
    now rewrite Hauto. }
  rewrite Hrun. split.
  - intros pos neg Hpos Hneg. rewrite Hpos, Hneg. simpl.
    destruct (Nat.leb_spec (List.length pos) (List.length neg)) as [Hle|Hgt].
    + destruct (Z.leb_spec (Z.of_nat (List.length pos))
                           (Z.of_nat (List.length neg))); [|lia].
      exists (write_pin_equations (name outputpin) names (SProducts pos)
                                  Positive).
      split; [reflexivity|]. split; [reflexivity|].
      rewrite length_write_pin_equations. lia.
    + destruct (Z.leb_spec (Z.of_nat (List.length pos))
                           (Z.of_nat (List.length neg))); [lia|].
      exists (write_pin_equations (name outputpin) names (SProducts neg)
                                  Negative).
      split; [reflexivity|]. split; [reflexivity|].
      rewrite length_write_pin_equations. lia.
  - intros [-> | ->]; reflexivity.
Qed.

Lemma auto_polarity_choice_witness :
  write_pin_output_equation demo_simplify demo_args demo_built
  = Ok (write_pin_equations "O" ["I"%string] (SProducts [(1, 1)]) Positive
        ++ write_equations_newline).
Proof.
  destruct (auto_polarity_choice demo_simplify demo_args demo_built)
    as [Hproducts _].
  - reflexivity.
  - discriminate.
  - destruct (Hproducts [(1, 1)] [(0, 1)] eq_refl eq_refl)
      as [equation [Hrun [Heq _]]].
    rewrite Hrun, Heq. reflexivity.
Defined.

(** ** The output-enable equations *)

(** C8 as stated fails on the pin [B] of [feedback_device]: it has no
    output-enable dependency and was never seen high nor low, and the
    section holds the equation [B.oe = 'b'0;] for it. *)
Lemma output_enable_counterexample :
  exists outputpins,
    analyse feedback_device feedback_image = Ok outputpins
    /\ nth_error outputpins 0 = Some feedback_B
    /\ bitmap (oe_depends feedback_B) = 0
    /\ seenhigh feedback_B = false /\ seenlow feedback_B = false
    /\ write_pin_output_enable_equation demo_simplify demo_args feedback_B
       = Ok [("B.oe = 'b'0;" ++ nl)%string; nl]
    /\ exists writes,
         write_equations_pin_output_enable_equations demo_simplify demo_args
                                                     outputpins = Ok writes
         /\ In ("B.oe = 'b'0;" ++ nl)%string writes.
Proof.
  exists [feedback_B; feedback_O].
  repeat (split; [reflexivity|]).
  eexists. split; [reflexivity|]. simpl. auto.
Qed.

(** ** The equations file and the date of the run *)

Lemma string_app_assoc (a b c : string) :
  ((a ++ b) ++ c = a ++ (b ++ c))%string.
Proof. induction a as [|x a IH]; simpl; [reflexivity | now rewrite IH]. Qed.

Lemma string_app_nil_r (a : string) : (a ++ "")%string = a.
Proof. induction a as [|x a IH]; simpl; [reflexivity | now rewrite IH]. Qed.

Lemma string_length_app (a b : string) :
  String.length (a ++ b) = (String.length a + String.length b)%nat.
Proof. induction a as [|x a IH]; simpl; [reflexivity | now rewrite IH]. Qed.

Lemma string_app_inv_head (p a b : string) :
  (p ++ a)%string = (p ++ b)%string -> a = b.
Proof.
  induction p as [|x p IH]; simpl; intros H; [assumption|].
  injection H as H. now apply IH.
Qed.

Lemma string_app_inv_tail (s a b : string) :
  (a ++ s)%string = (b ++ s)%string -> a = b.
Proof.
  revert b. induction a as [|x a IH]; intros [|y b] H; simpl in H.
  - reflexivity.
  - apply (f_equal String.length) in H. simpl in H.
    rewrite string_length_app in H. lia.
  - apply (f_equal String.length) in H. simpl in H.
    rewrite string_length_app in H. lia.
  - injection H as -> H. f_equal. now apply IH.
Qed.

Lemma file_contents_cons (x : string) (writes : list string) :
  file_contents (x :: writes) = (x ++ file_contents writes)%string.
Proof.
  unfold file_contents. destruct writes as [|y writes]; simpl.
  - now rewrite string_app_nil_r.
  - reflexivity.
Qed.

Lemma file_contents_app (l1 l2 : list string) :
  file_contents (l1 ++ l2)
  = (file_contents l1 ++ file_contents l2)%string.
Proof.
  induction l1 as [|x l1 IH]; [reflexivity|].
  rewrite <- app_comm_cons, !file_contents_cons, IH.
  now rewrite string_app_assoc.
Qed.

(** The bytes of the header are a fixed prefix, the date, and a fixed
    suffix. *)
Lemma file_contents_header (filename devicename date : string) :
  file_contents (write_equations_file_header filename devicename date)
  = (file_contents [("Name " ++ filename ++ ";" ++ nl)%string;
                    ("Device " ++ devicename ++ ";" ++ nl)%string;
                    ("Partno ;" ++ nl)%string;
                    ("Revision ;" ++ nl)%string;
                    "Date "%string]
     ++ date
     ++ file_contents [(";" ++ nl)%string;
                       ("Designer ;" ++ nl)%string;
                       ("Company ;" ++ nl)%string;
                       ("Assembly ;" ++ nl)%string;
                       ("Location ;" ++ nl)%string;
                       nl])%string.
Proof.
  unfold write_equations_file_header.
  rewrite !file_contents_cons. unfold file_contents at 1 2 3. simpl String.concat.
  rewrite !string_app_nil_r, !string_app_assoc. reflexivity.
Qed.

Lemma header_contents_inj (filename devicename date1 date2 : string)
  (rest : list string) :
  file_contents (write_equations_file_header filename devicename date1 ++ rest)
  = file_contents (write_equations_file_header filename devicename date2 ++ rest)
  -> date1 = date2.
Proof.
  rewrite !file_contents_app, !file_contents_header, !string_app_assoc.
  intros H. apply string_app_inv_head in H.
  now apply string_app_inv_tail in H.
Qed.

(** Everything after the header is computed without the date. *)
Lemma repal_header (simplify : Z -> list Z -> list Z -> simplified)
  (device : Device) (dumpdata : list Z) (args : Args) (stem date : string)
  (writes : list string) :
  repal simplify device dumpdata args stem date = Ok writes ->
  exists rest,
    forall date',
      repal simplify device dumpdata args stem date'
      = Ok (write_equations_file_header stem (pal_device_name device) date'
            ++ rest).
Proof.
  unfold repal. intros Hrun.
  destruct (check_dump_size device dumpdata) as [[]|]; [|discriminate].
  destruct (build_inputpins_configuration device) as [inputpins|];
    [|discriminate].
  destruct (build_outputpins_configuration device) as [outputpins0|];
    [|discriminate].
  cbn [bind] in *.
  destruct (build_outputpins_dependencies device dumpdata inputpins outputpins0)
    as [outputpins1|]; [|discriminate].
  cbn [bind] in *.
  destruct (build_outputpins_equations device dumpdata outputpins1)
    as [outputpins|]; [|discriminate].
  cbn [bind] in *.
  destruct (write_equations_pin_aliases device (pal_pin_names device) outputpins)
    as [aliases|]; [|discriminate].
  cbn [bind] in *.
  destruct (write_equations_pin_output_equations simplify args outputpins)
    as [outputs|]; [|discriminate].
  cbn [bind] in *.
  destruct (write_equations_pin_output_enable_equations simplify args outputpins)
    as [enables|]; [|discriminate].
  cbn [bind] in *.
  exists (aliases ++ outputs ++ enables). intros date'. reflexivity.
Qed.

(** C7 as stated fails: the header prints the date of the run, so two
    runs on the same profile, image and flags on two different days write
    different files. *)
Lemma equations_file_counterexample :
  exists writes1 writes2,
    repal demo_simplify demo_device demo_image demo_args "dump" "11/04/26"
    = Ok writes1
    /\ repal demo_simplify demo_device demo_image demo_args "dump" "11/05/26"
       = Ok writes2
    /\ file_contents writes1 <> file_contents writes2.
Proof.
  destruct (repal demo_simplify demo_device demo_image demo_args "dump"
                  "11/04/26") as [writes1|e] eqn:Hrun1;
    [|vm_compute in Hrun1; discriminate].
  destruct (repal demo_simplify demo_device demo_image demo_args "dump"
                  "11/05/26") as [writes2|e] eqn:Hrun2;
    [|vm_compute in Hrun2; discriminate].
  exists writes1, writes2. split; [reflexivity|]. split; [reflexivity|].
  vm_compute in Hrun1. injection Hrun1 as <-.
  vm_compute in Hrun2. injection Hrun2 as <-.
  vm_compute. discriminate.
Qed.

(** ** Invariants of loops that may raise *)

Lemma for_each_invariant {A S : Type} (P : S -> Prop)
  (body : S -> A -> result S) (l : list A) :
  (forall s x s', In x l -> P s -> body s x = Ok s' -> P s') ->
  forall s s', P s -> for_each body l s = Ok s' -> P s'.
Proof.
  induction l as [|x l IH]; intros Hbody s s' Hs Hrun; simpl in Hrun.
  - now injection Hrun as <-.
  - apply bind_Ok in Hrun. destruct Hrun as [s1 [Hx Hrest]].
    apply (IH (fun s0 y s0' Hy => Hbody s0 y s0' (or_intror Hy)) s1 s');
      [|assumption].
    apply (Hbody s x s1); [now left | assumption | assumption].
Qed.

Lemma map_result_Forall2 {A B : Type} (R : A -> B -> Prop)
  (f : A -> result B) (l : list A) :
  (forall x y, In x l -> f x = Ok y -> R x y) ->
  forall l', map_result f l = Ok l' -> Forall2 R l l'.
Proof.
  induction l as [|x l IH]; intros Hf l' Hrun; simpl in Hrun.
  - injection Hrun as <-. constructor.
  - apply bind_Ok in Hrun. destruct Hrun as [y [Hy Hrun]].
    apply bind_Ok in Hrun. destruct Hrun as [ys [Hys Hrun]].
    injection Hrun as <-. constructor.
    + apply Hf; [now left | assumption].
    + apply IH; [|assumption]. intros x' y' Hin. apply Hf. now right.
Qed.

Lemma map_result_Forall {A : Type} (P : A -> Prop) (f : A -> result A)
  (l : list A) :
  (forall x y, P x -> f x = Ok y -> P y) ->
  forall l', Forall P l -> map_result f l = Ok l' -> Forall P l'.
Proof.
  intros Hf l' Hall Hrun.
  assert (H2 : Forall2 (fun x y => P x -> P y) l l').
  { eapply map_result_Forall2; [|exact Hrun]. intros x y _ Hxy Hx.
    eapply Hf; eauto. }
  clear Hrun. induction H2 as [|x y l l' Hxy _ IH]; [constructor|].
  inversion Hall; subst. constructor; auto.
Qed.

(** ** The observation flags of the dependency scan *)

Lemma single_bit_land (d b : Z) :
  single_bit b -> Z.land d b = 0 \/ (Z.land d b = b /\ b <> 0).
Proof.
  intros [e [He ->]]. rewrite land_pow2 by assumption.
  destruct (Z.testbit d e); [right | left; reflexivity].
  split; [reflexivity|]. pose proof (Z.pow_pos_nonneg 2 e). lia.
Qed.

Lemma record_seen_both (p : Pin) (output0 output1 : Z) :
  single_bit (bitmask p) ->
  (output0 = 0 \/ output0 = bitmask p /\ bitmask p <> 0) ->
  (output1 = 0 \/ output1 = bitmask p /\ bitmask p <> 0) ->
  output0 <> output1 ->
  seenlow (record_seen (record_seen p false output0) false output1) = true
  /\ seenhigh (record_seen (record_seen p false output0) false output1) = true.
Proof.
  intros _ [->|[-> Hb]] [->|[-> Hb']] Hne; try congruence.
  - unfold record_seen. simpl.
    destruct (bitmask p =? 0) eqn:E; [apply Z.eqb_eq in E; lia|]. auto.
  - unfold record_seen.
    destruct (bitmask p =? 0) eqn:E; [apply Z.eqb_eq in E; lia|]. auto.
Qed.

Lemma record_seen_keeps (p : Pin) (is_hiz : bool) (output : Z) :
  name (record_seen p is_hiz output) = name p
  /\ bitmask (record_seen p is_hiz output) = bitmask p
  /\ hizprobebitpos (record_seen p is_hiz output) = hizprobebitpos p
  /\ hizprobebitmask (record_seen p is_hiz output) = hizprobebitmask p
  /\ depends (record_seen p is_hiz output) = depends p
  /\ oe_depends (record_seen p is_hiz output) = oe_depends p
  /\ (seenlow p = true -> seenlow (record_seen p is_hiz output) = true)
  /\ (seenhigh p = true -> seenhigh (record_seen p is_hiz output) = true).
Proof.
  unfold record_seen. destruct is_hiz; [tauto|].
  destruct (output =? 0); simpl; tauto.
Qed.

Lemma scan_outputpin_seen (dumpdata : list Z) (inputpin : Pin)
  (addr0 addr1 data0 data1 : Z) (p p' : Pin) :
  seen_if_dependent p ->
  scan_outputpin dumpdata inputpin addr0 addr1 data0 data1 p = Ok p' ->
  seen_if_dependent p'.
Proof.
  intros [Hbit Hseen] Hrun. unfold scan_outputpin in Hrun.
  destruct (Z.land addr0 (hizprobebitmask p) >? 0);
    [injection Hrun as <-; split; assumption|].
  destruct (Z.land addr1 (hizprobebitmask p) >? 0);
    [injection Hrun as <-; split; assumption|].
  apply bind_Ok in Hrun. destruct Hrun as [[h0 h1] [_ Hrun]].
  cbn [fst snd] in Hrun. injection Hrun as <-.
  set (p1 := if negb (Bool.eqb h0 h1)
                && negb (name_in (name inputpin) (pinnames (oe_depends p)))
             then set_oe_depends p (add_dependency (oe_depends p) inputpin)
             else p).
  assert (Hp1 : bitmask p1 = bitmask p /\ depends p1 = depends p
                /\ seenlow p1 = seenlow p /\ seenhigh p1 = seenhigh p).
  { unfold p1. destruct (negb (Bool.eqb h0 h1) && _); simpl; tauto. }
  destruct Hp1 as [Hb1 [Hd1 [Hl1 Hh1]]].
  set (out0 := Z.land data0 (bitmask p)).
  set (out1 := Z.land data1 (bitmask p)).
  set (p2 := if negb h0 && negb h1 && negb (out0 =? out1)
                && negb (name_in (name inputpin) (pinnames (depends p1)))
             then set_depends p1 (add_dependency (depends p1) inputpin)
             else p1).
  assert (Hb2 : bitmask p2 = bitmask p).
  { unfold p2. destruct (negb h0 && negb h1 && negb (out0 =? out1) && _);
      simpl; assumption. }
  pose proof (record_seen_keeps p2 h0 out0) as K0.
  pose proof (record_seen_keeps (record_seen p2 h0 out0) h1 out1) as K1.
  destruct K0 as (_ & K0b & _ & _ & K0d & _ & K0l & K0h).
  destruct K1 as (_ & K1b & _ & _ & K1d & _ & K1l & K1h).
  split; [rewrite K1b, K0b, Hb2; assumption|].
  rewrite K1d, K0d. intros Hbitmap.
  destruct (negb h0 && negb h1 && negb (out0 =? out1)) eqn:Hcond.
  - apply andb_true_iff in Hcond. destruct Hcond as [Hcond Hout].
    apply andb_true_iff in Hcond. destruct Hcond as [Hh0 Hh1'].
    apply negb_true_iff in Hh0, Hh1', Hout. subst h0 h1.
    apply Z.eqb_neq in Hout.
    apply record_seen_both; try assumption.
    + now rewrite Hb2.
    + rewrite Hb2. now apply single_bit_land.
    + rewrite Hb2. now apply single_bit_land.
  - assert (Hp2 : p2 = p1) by (subst p2; try rewrite Hcond; reflexivity).
    rewrite Hp2, Hd1 in Hbitmap. destruct (Hseen Hbitmap) as [Hl Hh].
    split.
    + apply K1l, K0l. rewrite Hp2. congruence.
    + apply K1h, K0h. rewrite Hp2. congruence.
Qed.

Lemma scan_seen (device : Device) (dumpdata : list Z)
  (inputpins outputpins scanned : list Pin) :
  Forall seen_if_dependent outputpins ->
  build_outputpins_dependencies device dumpdata inputpins outputpins = Ok scanned ->
  Forall seen_if_dependent scanned.
Proof.
  unfold build_outputpins_dependencies.
  destruct (eprom_address_width device <? 0); [discriminate|].
  intros Hall Hrun.
  eapply (for_each_invariant (Forall seen_if_dependent)); [|exact Hall|exact Hrun].
  intros outs addr outs' _ Houts Haddr.
  eapply (for_each_invariant (Forall seen_if_dependent));
    [|exact Houts|exact Haddr].
  intros outs1 ip outs1' _ Houts1 Hip. unfold scan_inputpin in Hip.
  destruct (Z.land addr (bitmask ip) >? 0); [now injection Hip as <-|].
  apply bind_Ok in Hip. destruct Hip as [d0 [_ Hip]].
  apply bind_Ok in Hip. destruct Hip as [d1 [_ Hip]].
  eapply map_result_Forall; [|exact Houts1|exact Hip].
  intros x y Hx Hxy. eapply scan_outputpin_seen; eauto.
Qed.

(** ** What the minterm builder leaves unchanged *)

Lemma same_analysis_refl (p : Pin) : same_analysis p p.
Proof. unfold same_analysis. tauto. Qed.

Lemma same_analysis_trans (p q r : Pin) :
  same_analysis p q -> same_analysis q r -> same_analysis p r.
Proof.
  unfold same_analysis. intros H1 H2.
  destruct H1 as (? & ? & ? & ? & ? & ? & ? & ?).
  destruct H2 as (? & ? & ? & ? & ? & ? & ? & ?).
  repeat split; congruence.
Qed.

(** One combination goes to exactly one of the three lists, with the
    minterm of the combination. *)
Lemma classify_combination_adds (device : Device) (dumpdata : list Z)
  (p p' : Pin) (epromaddr : Z) :
  classify_combination device dumpdata p epromaddr = Ok p' ->
  exists conditions,
    let minterm := build_outputpin_minterm (depends p) epromaddr in
    p' = add_dontcare p conditions minterm
    \/ p' = add_negative p conditions minterm
    \/ p' = add_positive p conditions minterm.
Proof.
  unfold classify_combination. intros Hrun.
  apply bind_Ok in Hrun. destruct Hrun as [conditions [_ Hrun]].
  apply bind_Ok in Hrun. destruct Hrun as [relevant [_ Hrun]].
  exists conditions. destruct relevant; simpl in Hrun.
  - apply bind_Ok in Hrun. destruct Hrun as [data [_ Hrun]].
    destruct (Z.land data (bitmask p) =? 0); injection Hrun as <-; auto.
  - injection Hrun as <-. auto.
Qed.

Lemma classify_combination_same (device : Device) (dumpdata : list Z)
  (p p' : Pin) (epromaddr : Z) :
  classify_combination device dumpdata p epromaddr = Ok p' ->
  same_analysis p p'.
Proof.
  intros Hrun. apply classify_combination_adds in Hrun.
  destruct Hrun as [conditions [-> | [-> | ->]]];
    unfold same_analysis; simpl; tauto.
Qed.

Lemma classify_oe_combination_same (dumpdata : list Z) (p p' : Pin)
  (epromaddr : Z) :
  classify_oe_combination dumpdata p epromaddr = Ok p' ->
  same_analysis p p'
  /\ dontcareterms p' = dontcareterms p /\ negminterms p' = negminterms p
  /\ posminterms p' = posminterms p.
Proof.
  unfold classify_oe_combination. intros Hrun.
  apply bind_Ok in Hrun. destruct Hrun as [conditions [_ Hrun]].
  apply bind_Ok in Hrun. destruct Hrun as [driven [_ Hrun]].
  destruct driven; simpl in Hrun; injection Hrun as <-;
    unfold same_analysis; simpl; tauto.
Qed.

Lemma sort_dependencies_bitmap (d d' : PinDependencies) :
  sort_dependencies d = Ok d' -> bitmap d' = bitmap d.
Proof.
  unfold sort_dependencies.
  destruct (0 <? Z.of_nat (List.length (bits d))).
  - destruct (sorted pair_leb (combine (bits d) (pinnames d)));
      [discriminate | intros H; now injection H as <-].
  - intros H. now injection H as <-.
Qed.

Lemma build_outputpin_equations_unfold (device : Device) (dumpdata : list Z)
  (p p' : Pin) :
  build_outputpin_equations device dumpdata p = Ok p' ->
  exists deps oe_deps p3,
    sort_dependencies (depends p) = Ok deps
    /\ sort_dependencies (oe_depends p) = Ok oe_deps
    /\ (if bitmap deps =? 0 then Ok (sorted_pin p deps oe_deps)
        else for_each (classify_combination device dumpdata)
                      (iterate_mask (bitmap deps)) (sorted_pin p deps oe_deps))
       = Ok p3
    /\ (if bitmap (oe_depends p3) =? 0 then Ok p3
        else for_each (classify_oe_combination dumpdata)
                      (iterate_mask (bitmap (oe_depends p3))) p3) = Ok p'.
Proof.
  unfold build_outputpin_equations. intros Hrun.
  apply bind_Ok in Hrun. destruct Hrun as [deps [Hdeps Hrun]].
  apply bind_Ok in Hrun. destruct Hrun as [oe_deps [Hoe Hrun]].
  apply bind_Ok in Hrun. destruct Hrun as [p3 [Hp3 Hrun]].
  exists deps, oe_deps, p3. repeat split; assumption.
Qed.

(** The minterm builder keeps the bitmaps and the observation flags. *)
Lemma build_outputpin_equations_keeps (device : Device) (dumpdata : list Z)
  (p p' : Pin) :
  build_outputpin_equations device dumpdata p = Ok p' ->
  bitmask p' = bitmask p /\ name p' = name p
  /\ seenlow p' = seenlow p /\ seenhigh p' = seenhigh p
  /\ bitmap (depends p') = bitmap (depends p)
  /\ bitmap (oe_depends p') = bitmap (oe_depends p).
Proof.
  intros Hrun. apply build_outputpin_equations_unfold in Hrun.
  destruct Hrun as (deps & oe_deps & p3 & Hdeps & Hoe & Hp3 & Hp').
  apply sort_dependencies_bitmap in Hdeps, Hoe.
  assert (H3 : same_analysis (sorted_pin p deps oe_deps) p3).
  { destruct (bitmap deps =? 0).
    - injection Hp3 as <-. apply same_analysis_refl.
    - eapply (for_each_invariant (same_analysis (sorted_pin p deps oe_deps)));
        [|apply same_analysis_refl|exact Hp3].
      intros s x s' _ Hs Hx. eapply same_analysis_trans; [exact Hs|].
      eapply classify_combination_same; eauto. }
  assert (H4 : same_analysis p3 p').
  { destruct (bitmap (oe_depends p3) =? 0).
    - injection Hp' as <-. apply same_analysis_refl.
    - eapply (for_each_invariant (same_analysis p3));
        [|apply same_analysis_refl|exact Hp'].
      intros s x s' _ Hs Hx. eapply same_analysis_trans; [exact Hs|].
      eapply classify_oe_combination_same; eauto. }
  pose proof (same_analysis_trans _ _ _ H3 H4) as H.
  destruct H as (Hn & Hb & _ & _ & Hl & Hh & Hd & Ho).
  simpl in *. rewrite Hn, Hb, Hl, Hh, Hd, Ho. repeat split; assumption.
Qed.

(** ** Pins that are always hi-z *)

(** C9: after the dependency scan and the minterm builder, an output pin
    that has no output-enable dependency and was seen neither low nor
    high writes nothing in the Output equations section. *)
Theorem hiz_pin_no_output_equation
  (simplify : Z -> list Z -> list Z -> simplified) (device : Device)
  (dumpdata : list Z) (args : Args)
  (inputpins outputpins scanned built : list Pin) :
  Forall (fun p => single_bit (bitmask p) /\ bitmap (depends p) = 0)
         outputpins ->
  build_outputpins_dependencies device dumpdata inputpins outputpins
  = Ok scanned ->
  build_outputpins_equations device dumpdata scanned = Ok built ->
  forall outputpin,
    In outputpin built ->
    bitmap (oe_depends outputpin) = 0 ->
    seenlow outputpin = false -> seenhigh outputpin = false ->
    write_pin_output_equation simplify args outputpin = Ok [].
Proof.
  intros Hfresh Hscan Hbuild outputpin Hin _ Hlow Hhigh.
  assert (H0 : Forall seen_if_dependent outputpins).
  { eapply Forall_impl; [|exact Hfresh]. intros p [Hbit Hzero].
    split; [assumption | intros; contradiction]. }
  pose proof (scan_seen _ _ _ _ _ H0 Hscan) as H1.
  assert (H2 : Forall seen_if_dependent built).
  { eapply map_result_Forall; [|exact H1|exact Hbuild].
    intros p p' [Hbit Hseen] Hrun.
    apply build_outputpin_equations_keeps in Hrun.
    destruct Hrun as (Hb & _ & Hl & Hh & Hd & _).
    split; [now rewrite Hb | now rewrite Hl, Hh, Hd]. }
  rewrite Forall_forall in H2. destruct (H2 _ Hin) as [_ Hseen].
  unfold write_pin_output_equation.
  destruct (bitmap (depends outputpin) =? 0) eqn:E.
  - now rewrite Hhigh, Hlow.
  - apply Z.eqb_neq in E. destruct (Hseen E). congruence.
Qed.

Lemma hiz_pin_no_output_equation_witness :
  write_pin_output_equation demo_simplify demo_args feedback_B = Ok [].
Proof.
  apply (hiz_pin_no_output_equation demo_simplify feedback_device
           feedback_image demo_args feedback_inputs feedback_outputs
           [feedback_B; feedback_O] feedback_built).
  - repeat constructor; simpl; try reflexivity;
      [exists 0 | exists 1]; split; reflexivity || lia.
  - vm_compute. reflexivity.
  - vm_compute. reflexivity.
  - simpl. auto.
  - reflexivity.
  - reflexivity.
  - reflexivity.
Defined.

(** ** Sorting the dependencies *)

Lemma insert_sorted_perm {A : Type} (leb : A -> A -> bool) (x : A)
  (l : list A) : Permutation (insert_sorted leb x l) (x :: l).
Proof.
  induction l as [|y l IH]; simpl; [reflexivity|].
  destruct (leb x y); [reflexivity|].
  rewrite IH. apply perm_swap.
Qed.

Lemma sorted_perm {A : Type} (leb : A -> A -> bool) (l : list A) :
  Permutation (sorted leb l) l.
Proof.
  induction l as [|x l IH]; simpl; [reflexivity|].
  rewrite insert_sorted_perm. now constructor.
Qed.

Lemma insert_sorted_fst (x : Z * string) (l : list (Z * string)) :
  StronglySorted (fun a b => fst a <= fst b) l ->
  StronglySorted (fun a b => fst a <= fst b) (insert_sorted pair_leb x l).
Proof.
  induction 1 as [|y l Hl IH Hy]; simpl.
  - constructor; constructor.
  - rewrite Forall_forall in Hy.
    destruct (pair_leb x y) eqn:E.
    + assert (Hxy : fst x <= fst y).
      { unfold pair_leb in E. apply orb_true_iff in E.
        destruct E as [E|E]; [apply Z.ltb_lt in E; lia|].
        apply andb_true_iff in E. destruct E as [E _].
        apply Z.eqb_eq in E. lia. }
      constructor; [now constructor; [|apply Forall_forall]|].
      apply Forall_forall. intros z [<-|Hz]; [assumption|].
      specialize (Hy z Hz). lia.
    + assert (Hyx : fst y <= fst x).
      { unfold pair_leb in E. apply orb_false_iff in E.
        destruct E as [E _]. apply Z.ltb_ge in E. lia. }
      constructor; [assumption|].
      apply Forall_forall. intros z Hz.
      apply (Permutation_in _ (insert_sorted_perm pair_leb x l)) in Hz.
      destruct Hz as [<-|Hz]; [assumption | now apply Hy].
Qed.

Lemma sorted_fst (l : list (Z * string)) :
  StronglySorted (fun a b => fst a <= fst b) (sorted pair_leb l).
Proof.
  induction l as [|x l IH]; simpl; [constructor | now apply insert_sorted_fst].
Qed.

Lemma StronglySorted_map_fst (l : list (Z * string)) :
  StronglySorted (fun a b => fst a <= fst b) l ->
  StronglySorted Z.le (map fst l).
Proof.
  induction 1 as [|x l Hl IH Hx]; simpl; constructor; [assumption|].
  rewrite Forall_forall in *. intros z Hz. apply in_map_iff in Hz.
  destruct Hz as [y [<- Hy]]. now apply Hx.
Qed.

Lemma StronglySorted_le_lt (l : list Z) :
  StronglySorted Z.le l -> NoDup l -> StronglySorted Z.lt l.
Proof.
  induction 1 as [|x l Hl IH Hx]; intros Hnd; constructor.
  - apply IH. now inversion Hnd.
  - inversion Hnd as [|? ? Hnotin _]; subst.
    rewrite Forall_forall in *. intros z Hz. specialize (Hx z Hz).
    assert (z <> x) by (intros ->; contradiction). lia.
Qed.

Lemma map_fst_combine {A B : Type} (l : list A) (l' : list B) :
  List.length l' = List.length l -> map fst (combine l l') = l.
Proof.
  revert l'. induction l as [|x l IH]; intros [|y l'] Hlen; simpl in *;
    try reflexivity; try discriminate.
  f_equal. apply IH. lia.
Qed.

Lemma or_of_perm (l l' : list Z) : Permutation l l' -> or_of l = or_of l'.
Proof.
  induction 1 as [|x l l' _ IH|x y l|l l' l'' _ IH1 _ IH2]; simpl.
  - reflexivity.
  - now rewrite IH.
  - rewrite !Z.lor_assoc. f_equal. apply Z.lor_comm.
  - congruence.
Qed.

Lemma or_of_app (l : list Z) (b : Z) : or_of (l ++ [b]) = Z.lor (or_of l) b.
Proof.
  rewrite (or_of_perm (l ++ [b]) (b :: l)).
  - simpl. apply Z.lor_comm.
  - rewrite Permutation_app_comm. reflexivity.
Qed.

(** Sorting a dependency set of the scan gives a sorted dependency set
    with the same bitmap and as many bits. *)
Lemma sort_dependencies_sorted (d d' : PinDependencies) :
  scanned_dependencies d ->
  sort_dependencies d = Ok d' ->
  sorted_dependencies d' /\ bitmap d' = bitmap d
  /\ Permutation (bits d') (bits d).
Proof.
  intros [Hsingle Hnd Hbitmap Hnames]. unfold sort_dependencies.
  destruct (0 <? Z.of_nat (List.length (bits d))) eqn:E.
  - remember (sorted pair_leb (combine (bits d) (pinnames d))) as zs eqn:Hz.
    assert (Hperm : Permutation (map fst zs) (bits d)).
    { rewrite Hz.
      rewrite (Permutation_map fst (sorted_perm pair_leb _)).
      now rewrite map_fst_combine. }
    assert (Hsorted : StronglySorted Z.le (map fst zs)).
    { rewrite Hz. apply StronglySorted_map_fst, sorted_fst. }
    clear Hz. intros H.
    assert (Hd' : d' = mkDeps (bitmap d) (map fst zs) (map snd zs)).
    { destruct zs; [discriminate | now injection H as <-]. }
    subst d'. cbn [bits bitmap].
    split; [|split; [reflexivity | exact Hperm]].
    constructor; cbn [bits bitmap].
    + eapply Permutation_Forall; [symmetry; exact Hperm | assumption].
    + apply StronglySorted_le_lt; [assumption|].
      eapply Permutation_NoDup; [symmetry; exact Hperm | assumption].
    + rewrite Hbitmap. symmetry. now apply or_of_perm.
  - intros H. injection H as <-.
    apply Z.ltb_ge in E.
    assert (Hnil : bits d = [])
      by (destruct (bits d); [reflexivity | simpl in E; lia]).
    split; [|split; reflexivity].
    constructor; rewrite ?Hnil; try constructor. now rewrite Hbitmap, Hnil.
Qed.

(** ** The dependency sets of the scan *)

Lemma scan_invariant (P : Pin -> Prop) (device : Device) (dumpdata : list Z)
  (inputpins outputpins scanned : list Pin) :
  (forall inputpin addr0 addr1 data0 data1 p p',
     In inputpin inputpins -> P p ->
     scan_outputpin dumpdata inputpin addr0 addr1 data0 data1 p = Ok p' ->
     P p') ->
  Forall P outputpins ->
  build_outputpins_dependencies device dumpdata inputpins outputpins = Ok scanned ->
  Forall P scanned.
Proof.
  intros Hstep. unfold build_outputpins_dependencies.
  destruct (eprom_address_width device <? 0); [discriminate|].
  intros Hall Hrun.
  eapply (for_each_invariant (Forall P)); [|exact Hall|exact Hrun].
  intros outs addr outs' _ Houts Haddr.
  eapply (for_each_invariant (Forall P)); [|exact Houts|exact Haddr].
  intros outs1 ip outs1' Hin Houts1 Hip. unfold scan_inputpin in Hip.
  destruct (Z.land addr (bitmask ip) >? 0); [now injection Hip as <-|].
  apply bind_Ok in Hip. destruct Hip as [d0 [_ Hip]].
  apply bind_Ok in Hip. destruct Hip as [d1 [_ Hip]].
  eapply map_result_Forall; [|exact Houts1|exact Hip].
  intros x y Hx Hxy. eapply Hstep; eauto.
Qed.

Lemma name_in_false (nm : string) (names : list string) :
  name_in nm names = false <-> ~ In nm names.
Proof.
  unfold name_in. split.
  - intros H Hin. assert (Hex : existsb (String.eqb nm) names = true).
    { apply existsb_exists. exists nm. split; [assumption | apply String.eqb_refl]. }
    congruence.
  - intros Hnot. destruct (existsb (String.eqb nm) names) eqn:E; [|reflexivity].
    apply existsb_exists in E. destruct E as [x [Hx Heq]].
    apply String.eqb_eq in Heq. subst x. contradiction.
Qed.

Lemma deps_from_add (inputpins : list Pin) (d : PinDependencies)
  (inputpin : Pin) :
  deps_from inputpins d -> In inputpin inputpins ->
  name_in (name inputpin) (pinnames d) = false ->
  deps_from inputpins (add_dependency d inputpin).
Proof.
  intros [added [-> [Hincl Hnd]]] Hin Hname.
  exists (added ++ [inputpin]). split; [|split].
  - unfold add_dependency, deps_of. cbn [bitmap bits pinnames].
    rewrite !map_app. cbn [map]. now rewrite or_of_app.
  - intros x Hx. apply in_app_or in Hx. destruct Hx as [Hx|[<-|[]]]; auto.
  - rewrite map_app. simpl.
    apply name_in_false in Hname. simpl in Hname.
    apply NoDup_app; [assumption | repeat constructor; intros [] |].
    intros x Hx [<-|[]]. contradiction.
Qed.

(** What one step of the scan does to the dependency sets of a pin. *)
Lemma scan_outputpin_shape (dumpdata : list Z) (inputpin : Pin)
  (addr0 addr1 data0 data1 : Z) (p p' : Pin) :
  scan_outputpin dumpdata inputpin addr0 addr1 data0 data1 p = Ok p' ->
  (depends p' = depends p
   \/ name_in (name inputpin) (pinnames (depends p)) = false
      /\ depends p' = add_dependency (depends p) inputpin)
  /\ (oe_depends p' = oe_depends p
      \/ name_in (name inputpin) (pinnames (oe_depends p)) = false
         /\ oe_depends p' = add_dependency (oe_depends p) inputpin)
  /\ posminterms p' = posminterms p /\ negminterms p' = negminterms p
  /\ dontcareterms p' = dontcareterms p.
Proof.
  intros Hrun. unfold scan_outputpin in Hrun.
  destruct (Z.land addr0 (hizprobebitmask p) >? 0);
    [injection Hrun as <-; tauto|].
  destruct (Z.land addr1 (hizprobebitmask p) >? 0);
    [injection Hrun as <-; tauto|].
  apply bind_Ok in Hrun. destruct Hrun as [[h0 h1] [_ Hrun]].
  cbn [fst snd] in Hrun. injection Hrun as <-.
  unfold record_seen.
  destruct (name_in (name inputpin) (pinnames (oe_depends p))) eqn:Eoe;
    destruct (name_in (name inputpin) (pinnames (depends p))) eqn:Edep;
    destruct h0; destruct h1;
    destruct (Z.land data0 (bitmask p) =? Z.land data1 (bitmask p));
    cbn -[Z.land add_dependency]; rewrite ?Edep;
    cbn -[Z.land add_dependency];
    repeat match goal with
           | |- context [if ?c then _ else _] =>
               destruct c; cbn -[Z.land add_dependency]
           end;
    tauto.
Qed.

Lemma scan_outputpin_scanning (inputpins : list Pin) (dumpdata : list Z)
  (inputpin : Pin) (addr0 addr1 data0 data1 : Z) (p p' : Pin) :
  In inputpin inputpins -> scanning inputpins p ->
  scan_outputpin dumpdata inputpin addr0 addr1 data0 data1 p = Ok p' ->
  scanning inputpins p'.
Proof.
  intros Hin (Hdep & Hoe & Hpos & Hneg & Hdc) Hrun.
  apply scan_outputpin_shape in Hrun.
  destruct Hrun as (Hd & Ho & Hp & Hn & Hc).
  split; [|split].
  - destruct Hd as [->|[Hname ->]]; [assumption | now apply deps_from_add].
  - destruct Ho as [->|[Hname ->]]; [assumption | now apply deps_from_add].
  - unfold no_terms. rewrite Hp, Hn, Hc. auto.
Qed.

Lemma NoDup_map_injective {A B : Type} (f : A -> B) (l : list A) (a b : A) :
  NoDup (map f l) -> In a l -> In b l -> f a = f b -> a = b.
Proof.
  induction l as [|x l IH]; intros Hnd Ha Hb Heq; [destruct Ha|].
  simpl in Hnd. inversion Hnd as [|? ? Hnotin Hnd']; subst.
  destruct Ha as [<-|Ha], Hb as [<-|Hb]; auto.
  - exfalso. apply Hnotin. rewrite Heq. now apply in_map.
  - exfalso. apply Hnotin. rewrite <- Heq. now apply in_map.
Qed.

Lemma deps_from_scanned (inputpins : list Pin) (d : PinDependencies) :
  Forall (fun ip => single_bit (bitmask ip)) inputpins ->
  NoDup (map bitmask inputpins) ->
  deps_from inputpins d -> scanned_dependencies d.
Proof.
  intros Hsingle Hdistinct [added [-> [Hincl Hnd]]].
  constructor; simpl.
  - apply Forall_forall. intros b Hb. apply in_map_iff in Hb.
    destruct Hb as [ip [<- Hip]].
    rewrite Forall_forall in Hsingle. apply Hsingle. now apply Hincl.
  - apply NoDup_map_inv in Hnd as Hadded.
    clear Hnd. induction added as [|a added IH]; simpl; constructor.
    + intros Hin. apply in_map_iff in Hin. destruct Hin as [b [Heq Hb]].
      assert (b = a).
      { apply (NoDup_map_injective bitmask inputpins); auto.
        - apply Hincl. now right.
        - apply Hincl. now left. }
      subst b. now inversion Hadded.
    + apply IH.
      * intros x Hx. apply Hincl. now right.
      * now inversion Hadded.
  - reflexivity.
  - now rewrite !length_map.
Qed.

(** ** The minterms of the output equation *)

Lemma all_terms_add (p : Pin) (conditions : list string) (minterm : Z) :
  Permutation (all_terms (add_dontcare p conditions minterm))
              (all_terms p ++ [minterm])
  /\ Permutation (all_terms (add_negative p conditions minterm))
                 (all_terms p ++ [minterm])
  /\ Permutation (all_terms (add_positive p conditions minterm))
                 (all_terms p ++ [minterm]).
Proof.
  unfold all_terms. simpl. repeat split.
  - rewrite <- !app_assoc. reflexivity.
  - rewrite <- !app_assoc. do 2 apply Permutation_app_head.
    apply Permutation_app_comm.
  - rewrite <- !app_assoc. apply Permutation_app_head.
    rewrite (app_assoc (negminterms p)).
    apply (Permutation_app_comm [minterm]).
Qed.

Lemma classify_loop_terms (device : Device) (dumpdata : list Z)
  (addrs : list Z) :
  forall p p',
    for_each (classify_combination device dumpdata) addrs p = Ok p' ->
    same_analysis p p'
    /\ Permutation (all_terms p')
                   (all_terms p
                    ++ map (build_outputpin_minterm (depends p)) addrs).
Proof.
  induction addrs as [|a addrs IH]; intros p p' Hrun; simpl in Hrun.
  - injection Hrun as <-. split; [apply same_analysis_refl|].
    simpl. now rewrite app_nil_r.
  - apply bind_Ok in Hrun. destruct Hrun as [p1 [Hstep Hrest]].
    pose proof (classify_combination_same _ _ _ _ _ Hstep) as Hsame.
    apply classify_combination_adds in Hstep.
    destruct (IH p1 p' Hrest) as [Hsame' Hperm].
    split; [eapply same_analysis_trans; eauto|].
    assert (Hdeps : depends p1 = depends p) by apply Hsame.
    rewrite Hdeps in Hperm. rewrite Hperm. cbn [map].
    assert (H1 : Permutation (all_terms p1)
                   (all_terms p ++ [build_outputpin_minterm (depends p) a])).
    { destruct Hstep as [conditions [-> | [-> | ->]]]; apply all_terms_add. }
    rewrite H1, <- app_assoc. reflexivity.
Qed.

Lemma classify_oe_loop_terms (dumpdata : list Z) (addrs : list Z) :
  forall p p',
    for_each (classify_oe_combination dumpdata) addrs p = Ok p' ->
    same_analysis p p' /\ all_terms p' = all_terms p.
Proof.
  induction addrs as [|a addrs IH]; intros p p' Hrun; simpl in Hrun.
  - injection Hrun as <-. split; [apply same_analysis_refl | reflexivity].
  - apply bind_Ok in Hrun. destruct Hrun as [p1 [Hstep Hrest]].
    apply classify_oe_combination_same in Hstep.
    destruct Hstep as (Hsame & Hdc & Hneg & Hpos).
    destruct (IH p1 p' Hrest) as [Hsame' Hterms].
    split; [eapply same_analysis_trans; eauto|].
    rewrite Hterms. unfold all_terms. now rewrite Hdc, Hneg, Hpos.
Qed.

Lemma or_of_nil_iff (bs : list Z) :
  Forall single_bit bs -> (or_of bs = 0 <-> bs = []).
Proof.
  intros Hbs. split; [|intros ->; reflexivity].
  destruct bs as [|b bs]; [reflexivity|]. intros Hzero. exfalso.
  inversion Hbs as [|? ? [e [He ->]] _]; subst.
  assert (Hbit : Z.testbit (or_of (2 ^ e :: bs)) e = true).
  { simpl. rewrite Z.lor_spec, Z.pow2_bits_eqb, Z.eqb_refl by assumption.
    reflexivity. }
  rewrite Hzero, Z.bits_0 in Hbit. discriminate.
Qed.

(** The minterms of the combinations of a sorted dependency set, in the
    order of the iteration, are [0], [1], ... *)
Lemma minterms_of_iteration (d : PinDependencies) :
  sorted_dependencies d -> bitmap d <> 0 ->
  map (build_outputpin_minterm d) (iterate_mask (bitmap d))
  = range (2 ^ Z.of_nat (List.length (bits d))).
Proof.
  intros Hd Hne.
  assert (Hbits : bits d <> []).
  { intros Hnil. apply Hne. destruct Hd as [Hs _ Hb].
    rewrite Hb. now apply or_of_nil_iff. }
  destruct (sorted_dependencies_bits d Hd Hbits) as [Hpos Heq].
  rewrite iterate_mask_unfold by assumption.
  fold (mask_bits (bitmap d)). rewrite <- Heq.
  replace (List.length (set_exponents (bitmap d))) with (List.length (bits d)).
  2:{ rewrite Heq. unfold mask_bits. now rewrite length_map. }
  rewrite map_map. rewrite <- (map_id (range _)) at 2.
  apply map_ext_in. intros n Hn. apply in_range in Hn.
  now apply minterm_of_combination.
Qed.

Lemma build_outputpin_equations_terms (device : Device) (dumpdata : list Z)
  (p p' : Pin) :
  scanned_dependencies (depends p) -> no_terms p ->
  build_outputpin_equations device dumpdata p = Ok p' ->
  bitmap (depends p') <> 0 ->
  Permutation (all_terms p')
              (range (2 ^ Z.of_nat (List.length (bits (depends p'))))).
Proof.
  intros Hscanned (Hpos & Hneg & Hdc) Hrun Hne.
  apply build_outputpin_equations_unfold in Hrun.
  destruct Hrun as (deps & oe_deps & p3 & Hdeps & Hoe & Hp3 & Hp').
  destruct (sort_dependencies_sorted _ _ Hscanned Hdeps) as (Hsorted & _ & _).
  set (p2 := sorted_pin p deps oe_deps) in *.
  assert (Hterms2 : all_terms p2 = []).
  { unfold all_terms, p2. simpl. now rewrite Hpos, Hneg, Hdc. }
  assert (Hdeps2 : depends p2 = deps) by reflexivity.
  assert (H4 : same_analysis p3 p' /\ all_terms p' = all_terms p3).
  { destruct (bitmap (oe_depends p3) =? 0).
    - injection Hp' as <-. split; [apply same_analysis_refl | reflexivity].
    - now apply classify_oe_loop_terms in Hp'. }
  destruct H4 as [Hsame4 Hterms4].
  destruct (bitmap deps =? 0) eqn:E.
  - injection Hp3 as <-. apply Z.eqb_eq in E.
    assert (Hd' : depends p' = deps) by (rewrite <- Hdeps2; apply Hsame4).
    rewrite Hd' in Hne. contradiction.
  - apply classify_loop_terms in Hp3. destruct Hp3 as [Hsame3 Hperm].
    assert (Hd' : depends p' = deps).
    { rewrite <- Hdeps2.
      transitivity (depends p3); [apply Hsame4 | apply Hsame3]. }
    rewrite Hd', Hterms4, Hperm, Hterms2, Hdeps2. simpl.
    rewrite minterms_of_iteration; [reflexivity | assumption |].
    now apply Z.eqb_neq.
Qed.

Lemma NoDup_app_disjoint {A : Type} (l l' : list A) (x : A) :
  NoDup (l ++ l') -> In x l -> In x l' -> False.
Proof.
  induction l as [|a l IH]; intros Hnd Hl Hl'; [destruct Hl|].
  simpl in Hnd. inversion Hnd as [|? ? Hnotin Hnd']; subst.
  destruct Hl as [->|Hl]; [|now apply IH].
  apply Hnotin. apply in_or_app. now right.
Qed.

(** C4: after the dependency scan and the minterm builder, the minterm
    lists of an output pin with dependencies are pairwise disjoint,
    without repetition, and together hold exactly the integers from [0]
    to [2 ^ k - 1], [k] being the number of dependencies. *)
Theorem minterm_closure (device : Device) (dumpdata : list Z)
  (inputpins outputpins scanned built : list Pin) :
  Forall (fun ip => single_bit (bitmask ip)) inputpins ->
  NoDup (map bitmask inputpins) ->
  Forall (fun p => depends p = no_dependencies
                   /\ oe_depends p = no_dependencies /\ no_terms p)
         outputpins ->
  build_outputpins_dependencies device dumpdata inputpins outputpins
  = Ok scanned ->
  build_outputpins_equations device dumpdata scanned = Ok built ->
  forall outputpin,
    In outputpin built ->
    bitmap (depends outputpin) <> 0 ->
    let k := Z.of_nat (List.length (bits (depends outputpin))) in
    NoDup (posminterms outputpin ++ negminterms outputpin
           ++ dontcareterms outputpin)
    /\ (forall m, ~ (In m (posminterms outputpin)
                     /\ In m (negminterms outputpin)))
    /\ (forall m, ~ (In m (posminterms outputpin)
                     /\ In m (dontcareterms outputpin)))
    /\ (forall m, ~ (In m (negminterms outputpin)
                     /\ In m (dontcareterms outputpin)))
    /\ (forall m, In m (posminterms outputpin)
                  \/ In m (negminterms outputpin)
                  \/ In m (dontcareterms outputpin)
                  <-> 0 <= m < 2 ^ k).
Proof.
  intros Hsingle Hdistinct Hfresh Hscan Hbuild outputpin Hin Hne k.
  assert (H0 : Forall (scanning inputpins) outputpins).
  { eapply Forall_impl; [|exact Hfresh]. intros p (Hd & Ho & Ht).
    assert (Hnil : deps_from inputpins no_dependencies).
    { exists []. split; [reflexivity|]. split; [intros x []|constructor]. }
    split; [|split]; [rewrite Hd | rewrite Ho | ]; assumption. }
  assert (H1 : Forall (scanning inputpins) scanned).
  { eapply scan_invariant; [|exact H0|exact Hscan].
    intros ip a0 a1 d0 d1 p p' Hip Hp Hrun.
    eapply scan_outputpin_scanning; eauto. }
  assert (H2 : Forall2 (fun p p' =>
                          bitmap (depends p') <> 0 ->
                          Permutation (all_terms p')
                            (range (2 ^ Z.of_nat
                                     (List.length (bits (depends p'))))))
                       scanned built).
  { eapply map_result_Forall2; [|exact Hbuild].
    intros p p' Hp Hrun. rewrite Forall_forall in H1.
    destruct (H1 p Hp) as (Hd & _ & Ht).
    apply (build_outputpin_equations_terms device dumpdata p p');
      try assumption.
    eapply deps_from_scanned; eauto. }
  assert (Hperm : Permutation (all_terms outputpin) (range (2 ^ k))).
  { clear - H2 Hin Hne. induction H2 as [|p p' l l' Hpp _ IH];
      [destruct Hin|].
    destruct Hin as [->|Hin]; [now apply Hpp | now apply IH]. }
  assert (Hnd : NoDup (all_terms outputpin)).
  { eapply Permutation_NoDup; [symmetry; exact Hperm|].
    apply StronglySorted_NoDup, StronglySorted_seq. }
  unfold all_terms in Hnd, Hperm.
  split; [exact Hnd|]. split; [|split; [|split]].
  - intros m [Hp Hn]. apply (NoDup_app_disjoint _ _ m Hnd Hp).
    apply in_or_app. now left.
  - intros m [Hp Hc]. apply (NoDup_app_disjoint _ _ m Hnd Hp).
    apply in_or_app. now right.
  - intros m [Hn Hc]. apply NoDup_app_remove_l in Hnd.
    now apply (NoDup_app_disjoint _ _ m Hnd Hn).
  - intros m. rewrite <- in_range. rewrite <- !in_app_iff. split.
    + intros Hm. eapply Permutation_in; [exact Hperm | exact Hm].
    + intros Hm. eapply Permutation_in; [symmetry; exact Hperm | exact Hm].
Qed.

Lemma minterm_closure_witness :
  NoDup (posminterms demo_built ++ negminterms demo_built
         ++ dontcareterms demo_built)
  /\ (forall m, In m (posminterms demo_built) \/ In m (negminterms demo_built)
                \/ In m (dontcareterms demo_built)
                <-> 0 <= m < 2 ^ 1).
Proof.
  assert (H1 : Forall (fun ip => single_bit (bitmask ip)) demo_inputs).
  { repeat constructor; simpl; [exists 0 | exists 1 | exists 2];
      split; reflexivity || lia. }
  assert (H2 : NoDup (map bitmask demo_inputs)).
  { simpl. repeat constructor; simpl; intuition lia. }
  assert (H3 : Forall (fun p => depends p = no_dependencies
                                /\ oe_depends p = no_dependencies
                                /\ no_terms p) demo_outputs).
  { repeat constructor. }
  assert (H4 : build_outputpins_dependencies demo_device demo_image
                 demo_inputs demo_outputs = Ok [demo_output]).
  { vm_compute. reflexivity. }
  assert (H5 : build_outputpins_equations demo_device demo_image [demo_output]
               = Ok [demo_built]).
  { vm_compute. reflexivity. }
  assert (H6 : In demo_built [demo_built]) by (now left).
  assert (H7 : bitmap (depends demo_built) <> 0) by discriminate.
  destruct (minterm_closure demo_device demo_image demo_inputs demo_outputs
              [demo_output] [demo_built] H1 H2 H3 H4 H5 demo_built H6 H7)
    as (Hnd & _ & _ & _ & Hall).
  split; [exact Hnd | exact Hall].
Defined.

Example demo_pin_models :
  build_inputpins_configuration demo_device = Ok demo_inputs
  /\ build_outputpins_configuration demo_device = Ok demo_outputs
  /\ build_inputpins_configuration feedback_device = Ok feedback_inputs
  /\ build_outputpins_configuration feedback_device = Ok feedback_outputs.
Proof. repeat split; vm_compute; reflexivity. Qed.

(** ** The dependency scan on a full image *)

Lemma map_result_pure {A B : Type} (f : A -> result B) (g : A -> B)
  (l : list A) :
  (forall x, In x l -> f x = Ok (g x)) -> map_result f l = Ok (map g l).
Proof.
  induction l as [|x l IH]; intros Hf; simpl; [reflexivity|].
  rewrite Hf by (now left). simpl.
  rewrite IH by (intros y Hy; apply Hf; now right). reflexivity.
Qed.

Lemma for_each_pure {A S : Type} (body : S -> A -> result S)
  (step : S -> A -> S) (P : S -> Prop) (l : list A) :
  (forall s x, In x l -> P s -> body s x = Ok (step s x) /\ P (step s x)) ->
  forall s, P s ->
    for_each body l s = Ok (fold_left step l s) /\ P (fold_left step l s).
Proof.
  induction l as [|x l IH]; intros Hbody s Hs; simpl; [auto|].
  destruct (Hbody s x (or_introl eq_refl) Hs) as [-> Hs']. simpl.
  apply IH; [|assumption]. intros s0 y Hy. apply Hbody. now right.
Qed.

Lemma scan_pin_model (dumpdata : list Z) (addr : Z) (inputpin p : Pin) :
  same_model (scan_pin dumpdata addr inputpin p) p.
Proof.
  unfold scan_pin, same_model.
  destruct (Z.land addr (bitmask inputpin) >? 0); [tauto|].
  destruct (Z.land addr (hizprobebitmask p) >? 0); [tauto|].
  destruct (Z.land (Z.lor addr (bitmask inputpin)) (hizprobebitmask p) >? 0);
    [tauto|].
  cbv zeta.
  match goal with
  | |- context [record_seen (record_seen ?p2 ?h0 ?o0) ?h1 ?o1] =>
      pose proof (record_seen_keeps p2 h0 o0) as K0;
      pose proof (record_seen_keeps (record_seen p2 h0 o0) h1 o1) as K1;
      destruct K0 as (_ & K0b & K0p & K0m & _);
      destruct K1 as (_ & K1b & K1p & K1m & _);
      rewrite K1b, K1p, K1m, K0b, K0p, K0m
  end.
  repeat match goal with
         | |- context [if ?c then _ else _] => destruct c
         end; simpl; tauto.
Qed.

Section FullImage.

Variable w : Z.
Variable dumpdata : list Z.

Hypothesis width_nonneg : 0 <= w.
Hypothesis image_size : Z.of_nat (List.length dumpdata) = 2 ^ w.

Lemma scan_outputpin_pure (inputpin p : Pin) (addr : Z) :
  0 <= addr < 2 ^ w -> 0 <= bitmask inputpin < 2 ^ w ->
  0 <= hizprobebitmask p < 2 ^ w ->
  (Z.land addr (bitmask inputpin) >? 0) = false ->
  scan_outputpin dumpdata inputpin addr (Z.lor addr (bitmask inputpin))
                 (image_at dumpdata addr)
                 (image_at dumpdata (Z.lor addr (bitmask inputpin))) p
  = Ok (scan_pin dumpdata addr inputpin p).
Proof.
  intros Ha Hip Hp Hclear. unfold scan_outputpin, scan_pin. rewrite Hclear.
  destruct (Z.land addr (hizprobebitmask p) >? 0); [reflexivity|].
  destruct (Z.land (Z.lor addr (bitmask inputpin)) (hizprobebitmask p) >? 0);
    [reflexivity|].
  pose proof (lor_lt_pow2 _ _ _ Ha Hip) as Ha1.
  assert (Hhiz : hiz_states dumpdata p addr (Z.lor addr (bitmask inputpin))
                   (image_at dumpdata addr)
                   (image_at dumpdata (Z.lor addr (bitmask inputpin)))
                 = Ok (hiz_at dumpdata p addr,
                       hiz_at dumpdata p (Z.lor addr (bitmask inputpin)))).
  { unfold hiz_states, hiz_at, driven_at.
    destruct (hizprobebitpos p); [|reflexivity].
    rewrite !py_getitem_image
      by (rewrite image_size; apply lxor_lt_pow2; assumption).
    reflexivity. }
  rewrite Hhiz. reflexivity.
Qed.

Lemma scan_inputpin_pure (inputpin : Pin) (outputpins : list Pin) (addr : Z) :
  0 <= addr < 2 ^ w -> 0 <= bitmask inputpin < 2 ^ w ->
  Forall (fun p => 0 <= hizprobebitmask p < 2 ^ w) outputpins ->
  scan_inputpin dumpdata addr outputpins inputpin
  = Ok (map (scan_pin dumpdata addr inputpin) outputpins)
  /\ Forall (fun p => 0 <= hizprobebitmask p < 2 ^ w)
            (map (scan_pin dumpdata addr inputpin) outputpins).
Proof.
  intros Ha Hip Hout. split.
  - unfold scan_inputpin.
    destruct (Z.land addr (bitmask inputpin) >? 0) eqn:Hclear.
    + f_equal. rewrite <- (map_id outputpins) at 1.
      apply map_ext. intros p. unfold scan_pin. now rewrite Hclear.
    + pose proof (lor_lt_pow2 _ _ _ Ha Hip) as Ha1.
      rewrite !py_getitem_image by lia. simpl.
      apply map_result_pure. intros p Hp.
      rewrite Forall_forall in Hout.
      apply scan_outputpin_pure; auto.
  - apply Forall_forall. intros q Hq. apply in_map_iff in Hq.
    destruct Hq as [p [<- Hp]].
    destruct (scan_pin_model dumpdata addr inputpin p) as (_ & _ & ->).
    rewrite Forall_forall in Hout. now apply Hout.
Qed.

Lemma fold_left_map_pins (step : Pin -> Pin -> Pin) (inputpins : list Pin)
  (outputpins : list Pin) :
  fold_left (fun outs ip => map (step ip) outs) inputpins outputpins
  = map (fun p => fold_left (fun q ip => step ip q) inputpins p) outputpins.
Proof.
  revert outputpins. induction inputpins as [|ip ins IH]; intros outs; simpl.
  - now rewrite map_id.
  - rewrite IH, map_map. reflexivity.
Qed.

Lemma scan_address_pure (inputpins outputpins : list Pin) (addr : Z) :
  0 <= addr < 2 ^ w ->
  Forall (fun ip => 0 <= bitmask ip < 2 ^ w) inputpins ->
  Forall (fun p => 0 <= hizprobebitmask p < 2 ^ w) outputpins ->
  for_each (scan_inputpin dumpdata addr) inputpins outputpins
  = Ok (map (fun p => fold_left (fun q ip => scan_pin dumpdata addr ip q)
                                inputpins p) outputpins)
  /\ Forall (fun p => 0 <= hizprobebitmask p < 2 ^ w)
            (map (fun p => fold_left (fun q ip => scan_pin dumpdata addr ip q)
                                     inputpins p) outputpins).
Proof.
  intros Ha Hins Houts.
  rewrite <- (fold_left_map_pins (scan_pin dumpdata addr)).
  apply (for_each_pure (scan_inputpin dumpdata addr)
           (fun outs ip => map (scan_pin dumpdata addr ip) outs)
           (Forall (fun p => 0 <= hizprobebitmask p < 2 ^ w)));
    [|assumption].
  intros outs ip Hip Hall. rewrite Forall_forall in Hins.
  apply scan_inputpin_pure; auto.
Qed.

Lemma fold_left_map_addrs (step : Z -> Pin -> Pin) (addrs : list Z)
  (outputpins : list Pin) :
  fold_left (fun outs addr => map (step addr) outs) addrs outputpins
  = map (fun p => fold_left (fun q addr => step addr q) addrs p) outputpins.
Proof.
  revert outputpins. induction addrs as [|a addrs IH]; intros outs; simpl.
  - now rewrite map_id.
  - rewrite IH, map_map. reflexivity.
Qed.

Lemma scan_pure (inputpins outputpins : list Pin) (addrs : list Z) :
  Forall (fun addr => 0 <= addr < 2 ^ w) addrs ->
  Forall (fun ip => 0 <= bitmask ip < 2 ^ w) inputpins ->
  Forall (fun p => 0 <= hizprobebitmask p < 2 ^ w) outputpins ->
  for_each (fun outs addr => for_each (scan_inputpin dumpdata addr) inputpins outs)
           addrs outputpins
  = Ok (map (scan_pin_all dumpdata addrs inputpins) outputpins).
Proof.
  intros Haddrs Hins Houts. unfold scan_pin_all.
  rewrite <- (fold_left_map_addrs
                (fun addr p => fold_left (fun q ip => scan_pin dumpdata addr ip q)
                                         inputpins p)).
  apply (for_each_pure
           (fun outs addr => for_each (scan_inputpin dumpdata addr) inputpins outs)
           (fun outs addr =>
              map (fun p => fold_left (fun q ip => scan_pin dumpdata addr ip q)
                                      inputpins p) outs)
           (Forall (fun p => 0 <= hizprobebitmask p < 2 ^ w)));
    [|assumption].
  intros outs addr Haddr Hall. rewrite Forall_forall in Haddrs.
  apply scan_address_pure; auto.
Qed.

End FullImage.

(** ** The dependency sets found by the scan *)

Lemma name_in_true (nm : string) (names : list string) :
  name_in nm names = true <-> In nm names.
Proof.
  destruct (name_in nm names) eqn:E.
  - split; [intros _|reflexivity].
    destruct (in_dec string_dec nm names) as [|Hnot]; [assumption|].
    apply name_in_false in Hnot. congruence.
  - apply name_in_false in E. split; [discriminate | contradiction].
Qed.

Lemma names_add_iff (d : PinDependencies) (inputpin : Pin) (c : bool)
  (C : Prop) (nm : string) :
  (c = true <-> C) ->
  In nm (pinnames (if c && negb (name_in (name inputpin) (pinnames d))
                   then add_dependency d inputpin else d))
  <-> In nm (pinnames d) \/ (nm = name inputpin /\ C).
Proof.
  intros HC. destruct c; simpl.
  - destruct (name_in (name inputpin) (pinnames d)) eqn:E; simpl.
    + apply name_in_true in E. split; [tauto|].
      intros [H|[-> _]]; assumption.
    + rewrite in_app_iff. simpl. split.
      * intros [H|[<-|[]]]; [tauto|]. right. split; [reflexivity | now apply HC].
      * intros [H|[-> _]]; tauto.
  - split; [tauto|]. intros [H|[_ HC']]; [assumption|].
    apply HC in HC'. discriminate.
Qed.

Lemma land_gtb_false (a b : Z) :
  0 <= a -> (Z.land a b >? 0) = false <-> Z.land a b = 0.
Proof.
  intros Ha. assert (0 <= Z.land a b) by (apply Z.land_nonneg; now left).
  destruct (Z.gtb_spec (Z.land a b) 0); split; intros;
    try lia; try reflexivity; discriminate.
Qed.

Lemma enable_differs_model (dumpdata : list Z) (p q inputpin : Pin) (addr : Z) :
  same_model q p ->
  (enable_differs dumpdata q inputpin addr
   <-> enable_differs dumpdata p inputpin addr)
  /\ (value_differs dumpdata q inputpin addr
      <-> value_differs dumpdata p inputpin addr).
Proof.
  intros (Hb & Hp & Hm).
  unfold enable_differs, value_differs, examined, hiz_at, driven_at.
  rewrite Hb, Hp, Hm. tauto.
Qed.

(** The names in the two dependency sets after one step of the scan. *)
Lemma scan_pin_names (dumpdata : list Z) (addr : Z) (inputpin p : Pin)
  (nm : string) :
  0 <= addr -> 0 <= bitmask inputpin ->
  (In nm (pinnames (oe_depends (scan_pin dumpdata addr inputpin p)))
   <-> In nm (pinnames (oe_depends p))
       \/ (nm = name inputpin /\ enable_differs dumpdata p inputpin addr))
  /\ (In nm (pinnames (depends (scan_pin dumpdata addr inputpin p)))
      <-> In nm (pinnames (depends p))
          \/ (nm = name inputpin /\ value_differs dumpdata p inputpin addr)).
Proof.
  intros Ha Hip.
  assert (Ha1 : 0 <= Z.lor addr (bitmask inputpin))
    by (apply Z.lor_nonneg; lia).
  unfold scan_pin, enable_differs, value_differs, examined.
  destruct (Z.land addr (bitmask inputpin) >? 0) eqn:E1.
  { assert (Z.land addr (bitmask inputpin) <> 0).
    { intros H0. apply land_gtb_false in H0; [congruence | assumption]. }
    tauto. }
  destruct (Z.land addr (hizprobebitmask p) >? 0) eqn:E2.
  { assert (Z.land addr (hizprobebitmask p) <> 0).
    { intros H0. apply land_gtb_false in H0; [congruence | assumption]. }
    tauto. }
  destruct (Z.land (Z.lor addr (bitmask inputpin)) (hizprobebitmask p) >? 0)
    eqn:E3.
  { assert (Z.land (Z.lor addr (bitmask inputpin)) (hizprobebitmask p) <> 0).
    { intros H0. apply land_gtb_false in H0; [congruence | assumption]. }
    tauto. }
  apply land_gtb_false in E1, E2, E3; try assumption.
  cbv zeta.
  set (h0 := hiz_at dumpdata p addr).
  set (h1 := hiz_at dumpdata p (Z.lor addr (bitmask inputpin))).
  set (out0 := Z.land (image_at dumpdata addr) (bitmask p)).
  set (out1 := Z.land (image_at dumpdata (Z.lor addr (bitmask inputpin)))
                      (bitmask p)).
  set (p1 := if negb (Bool.eqb h0 h1)
                && negb (name_in (name inputpin) (pinnames (oe_depends p)))
             then set_oe_depends p (add_dependency (oe_depends p) inputpin)
             else p).
  set (p2 := if negb h0 && negb h1 && negb (out0 =? out1)
                && negb (name_in (name inputpin) (pinnames (depends p1)))
             then set_depends p1 (add_dependency (depends p1) inputpin)
             else p1).
  pose proof (record_seen_keeps p2 h0 out0) as K0.
  pose proof (record_seen_keeps (record_seen p2 h0 out0) h1 out1) as K1.
  destruct K0 as (_ & _ & _ & _ & K0d & K0o & _).
  destruct K1 as (_ & _ & _ & _ & K1d & K1o & _).
  rewrite K1d, K1o, K0d, K0o.
  assert (Hd1 : depends p1 = depends p).
  { unfold p1. now destruct (negb (Bool.eqb h0 h1) && _). }
  assert (Ho1 : oe_depends p1
                = if negb (Bool.eqb h0 h1)
                     && negb (name_in (name inputpin) (pinnames (oe_depends p)))
                  then add_dependency (oe_depends p) inputpin
                  else oe_depends p).
  { unfold p1. now destruct (negb (Bool.eqb h0 h1) && _). }
  assert (Ho2 : oe_depends p2 = oe_depends p1).
  { unfold p2. now destruct (negb h0 && negb h1 && negb (out0 =? out1) && _). }
  assert (Hd2 : depends p2
                = if negb h0 && negb h1 && negb (out0 =? out1)
                     && negb (name_in (name inputpin) (pinnames (depends p1)))
                  then add_dependency (depends p1) inputpin
                  else depends p1).
  { unfold p2.
    now destruct (negb h0 && negb h1 && negb (out0 =? out1) && _). }
  rewrite Hd1 in Hd2.
  rewrite Ho2, Ho1, Hd2. split.
  - rewrite (names_add_iff _ _ _ (h0 <> h1)); [tauto|].
    destruct h0, h1; simpl; split; intros; try discriminate; try congruence;
      try reflexivity.
  - rewrite (names_add_iff _ _ _ (h0 = false /\ h1 = false /\ out0 <> out1));
      [tauto|].
    destruct h0, h1; simpl; split;
      try discriminate;
      try (intros (H0 & _); discriminate H0);
      try (intros (_ & H0 & _); discriminate H0).
    + intros Hne. apply negb_true_iff, Z.eqb_neq in Hne. tauto.
    + intros (_ & _ & Hne). apply negb_true_iff, Z.eqb_neq. assumption.
Qed.

Lemma scan_inputs_names (dumpdata : list Z) (addr : Z) (inputpins : list Pin) :
  0 <= addr -> Forall (fun ip => 0 <= bitmask ip) inputpins ->
  forall p,
    same_model (fold_left (fun q ip => scan_pin dumpdata addr ip q) inputpins p) p
    /\ forall nm,
         (In nm (pinnames (oe_depends
                   (fold_left (fun q ip => scan_pin dumpdata addr ip q)
                              inputpins p)))
          <-> In nm (pinnames (oe_depends p))
              \/ exists ip, In ip inputpins /\ nm = name ip
                            /\ enable_differs dumpdata p ip addr)
         /\ (In nm (pinnames (depends
                      (fold_left (fun q ip => scan_pin dumpdata addr ip q)
                                 inputpins p)))
             <-> In nm (pinnames (depends p))
                 \/ exists ip, In ip inputpins /\ nm = name ip
                               /\ value_differs dumpdata p ip addr).
Proof.
  intros Ha. induction 1 as [|ip ins Hip Hins IH]; intros p; simpl.
  - split; [unfold same_model; tauto|]. intros nm.
    split; (split; [tauto|]); intros [H|[ip [[] _]]]; assumption.
  - destruct (IH (scan_pin dumpdata addr ip p)) as [Hmodel Hnames].
    pose proof (scan_pin_model dumpdata addr ip p) as Hstep.
    split.
    { unfold same_model in *. destruct Hmodel as (-> & -> & ->). exact Hstep. }
    intros nm. destruct (Hnames nm) as [Hoe Hdep].
    destruct (scan_pin_names dumpdata addr ip p nm Ha Hip) as [Soe Sdep].
    rewrite Hoe, Hdep, Soe, Sdep. split.
    + split.
      * intros [[H|[-> H]]|[ip' (Hin & -> & H)]]; [tauto| |].
        -- right. exists ip. tauto.
        -- right. exists ip'. split; [now right|]. split; [reflexivity|].
           now apply (enable_differs_model dumpdata p _ ip' addr Hstep).
      * intros [H|[ip' ([<-|Hin] & -> & H)]]; [tauto|tauto|].
        right. exists ip'. split; [assumption|]. split; [reflexivity|].
        now apply (enable_differs_model dumpdata p _ ip' addr Hstep).
    + split.
      * intros [[H|[-> H]]|[ip' (Hin & -> & H)]]; [tauto| |].
        -- right. exists ip. tauto.
        -- right. exists ip'. split; [now right|]. split; [reflexivity|].
           now apply (enable_differs_model dumpdata p _ ip' addr Hstep).
      * intros [H|[ip' ([<-|Hin] & -> & H)]]; [tauto|tauto|].
        right. exists ip'. split; [assumption|]. split; [reflexivity|].
        now apply (enable_differs_model dumpdata p _ ip' addr Hstep).
Qed.

Lemma scan_all_names (dumpdata : list Z) (inputpins : list Pin)
  (addrs : list Z) :
  Forall (fun addr => 0 <= addr) addrs ->
  Forall (fun ip => 0 <= bitmask ip) inputpins ->
  forall p,
    same_model (scan_pin_all dumpdata addrs inputpins p) p
    /\ forall nm,
         (In nm (pinnames (oe_depends (scan_pin_all dumpdata addrs inputpins p)))
          <-> In nm (pinnames (oe_depends p))
              \/ exists addr ip, In addr addrs /\ In ip inputpins
                                 /\ nm = name ip
                                 /\ enable_differs dumpdata p ip addr)
         /\ (In nm (pinnames (depends (scan_pin_all dumpdata addrs inputpins p)))
             <-> In nm (pinnames (depends p))
                 \/ exists addr ip, In addr addrs /\ In ip inputpins
                                    /\ nm = name ip
                                    /\ value_differs dumpdata p ip addr).
Proof.
  intros Haddrs Hins. unfold scan_pin_all.
  induction Haddrs as [|a addrs Ha Haddrs IH]; intros p; simpl.
  - split; [unfold same_model; tauto|]. intros nm.
    split; (split; [tauto|]); intros [H|[a [ip [[] _]]]]; assumption.
  - destruct (scan_inputs_names dumpdata a inputpins Ha Hins p)
      as [Hstep Snames].
    set (q := fold_left (fun q ip => scan_pin dumpdata a ip q) inputpins p) in *.
    destruct (IH q) as [Hmodel Hnames].
    split.
    { unfold same_model in *. destruct Hmodel as (-> & -> & ->). exact Hstep. }
    intros nm. destruct (Hnames nm) as [Hoe Hdep].
    destruct (Snames nm) as [Soe Sdep].
    rewrite Hoe, Hdep, Soe, Sdep. split.
    + split.
      * intros [[H|[ip (Hin & -> & H)]]|[a' [ip (Ha' & Hin & -> & H)]]];
          [tauto| |].
        -- right. exists a, ip. tauto.
        -- right. exists a', ip. split; [now right|]. split; [assumption|].
           split; [reflexivity|].
           now apply (enable_differs_model dumpdata p _ ip a' Hstep).
      * intros [H|[a' [ip ([<-|Ha'] & Hin & -> & H)]]]; [tauto| |].
        -- left. right. exists ip. tauto.
        -- right. exists a', ip. split; [assumption|]. split; [assumption|].
           split; [reflexivity|].
           now apply (enable_differs_model dumpdata p _ ip a' Hstep).
    + split.
      * intros [[H|[ip (Hin & -> & H)]]|[a' [ip (Ha' & Hin & -> & H)]]];
          [tauto| |].
        -- right. exists a, ip. tauto.
        -- right. exists a', ip. split; [now right|]. split; [assumption|].
           split; [reflexivity|].
           now apply (enable_differs_model dumpdata p _ ip a' Hstep).
      * intros [H|[a' [ip ([<-|Ha'] & Hin & -> & H)]]]; [tauto| |].
        -- left. right. exists ip. tauto.
        -- right. exists a', ip. split; [assumption|]. split; [assumption|].
           split; [reflexivity|].
           now apply (enable_differs_model dumpdata p _ ip a' Hstep).
Qed.

Lemma Forall2_map_right {A B : Type} (R : A -> B -> Prop) (f : A -> B)
  (l : list A) :
  (forall x, In x l -> R x (f x)) -> Forall2 R l (map f l).
Proof.
  induction l as [|x l IH]; intros H; simpl; constructor.
  - apply H. now left.
  - apply IH. intros y Hy. apply H. now right.
Qed.

Example demo_scan :
  build_outputpins_dependencies demo_device demo_image demo_inputs demo_outputs
  = Ok [demo_output]
  /\ enable_differs demo_image demo_output
                    (mkPin "E" 3 1 2 (Some 0) 0 false false no_dependencies
                           no_dependencies [] [] [] [] [] [] [] [] [] []) 0
  /\ value_differs demo_image demo_output
                   (mkPin "I" 2 0 1 (Some 0) 0 false false no_dependencies
                          no_dependencies [] [] [] [] [] [] [] [] [] []) 2.
Proof.
  split; [vm_compute; reflexivity|].
  split.
  - split; [repeat split|]. vm_compute. discriminate.
  - split; [repeat split|]. split; [reflexivity|]. split; [reflexivity|].
    vm_compute. discriminate.
Qed.

(** * Further properties of the code *)

(** ** get_set_bits *)

Lemma get_set_bits_loop_spec (count : nat) (bits : Z) :
  forall i : nat,
    get_set_bits_loop count (Z.of_nat i) (2 ^ Z.of_nat i) bits
    = filter (Z.testbit bits) (map Z.of_nat (seq i count)).
Proof.
  induction count as [|count IH]; intros i; [reflexivity|].
  cbn [get_set_bits_loop seq map filter].
  rewrite land_pow2_eqb by lia.
  rewrite shiftl_pow2 by lia.
  replace (Z.of_nat i + 1) with (Z.of_nat (S i)) by lia.
  rewrite IH. now destruct (Z.testbit bits (Z.of_nat i)).
Qed.

(** X1: The generator yields, in ascending order, the numbers of the bits
    below [bitcount] that are set in [bits]; a negative [bitcount] yields
    nothing. *)
Theorem get_set_bits_spec (bitcount bits : Z) :
  get_set_bits bitcount bits = filter (Z.testbit bits) (range bitcount)
  /\ StronglySorted Z.lt (get_set_bits bitcount bits)
  /\ (forall i, In i (get_set_bits bitcount bits)
                <-> 0 <= i < bitcount /\ Z.testbit bits i = true).
Proof.
  assert (Heq : get_set_bits bitcount bits
                = filter (Z.testbit bits) (range bitcount)).
  { unfold get_set_bits, range.
    apply (get_set_bits_loop_spec (Z.to_nat bitcount) bits 0). }
  split; [exact Heq|]. rewrite Heq. split.
  - apply StronglySorted_filter, StronglySorted_seq.
  - intros i. now rewrite filter_In, in_range.
Qed.

(** ** Conditions and minterm of a combination *)

Lemma minterm_loop_range (bs : list Z) (addr : Z) :
  forall j m, 0 <= j -> 0 <= m < 2 ^ j ->
    0 <= minterm_loop bs addr j m < 2 ^ (j + Z.of_nat (List.length bs)).
Proof.
  induction bs as [|b bs IH]; intros j m Hj Hm.
  - simpl. now rewrite Z.add_0_r.
  - cbn [minterm_loop List.length].
    replace (j + Z.of_nat (S (List.length bs)))
      with (j + 1 + Z.of_nat (List.length bs)) by lia.
    apply IH; [lia|].
    assert (Hpow : 2 ^ j < 2 ^ (j + 1)).
    { apply Z.pow_lt_mono_r; lia. }
    destruct (Z.land addr b =? 0); [lia|].
    apply lor_lt_pow2; [lia|].
    rewrite Z.shiftl_1_l. split; [apply Z.pow_nonneg; lia | assumption].
Qed.

Lemma existsb_map_ext {A B : Type} (f : B -> bool) (g : A -> bool)
  (h : A -> B) (l : list A) :
  (forall x, f (h x) = g x) -> existsb f (map h l) = existsb g l.
Proof.
  intros Hfg. induction l as [|x l IH]; [reflexivity|].
  cbn [map existsb]. now rewrite Hfg, IH.
Qed.

Lemma minterm_loop_testbit (bs : list Z) (addr : Z) :
  forall j m i, 0 <= j -> 0 <= i ->
    Z.testbit (minterm_loop bs addr j m) i
    = Z.testbit m i
      || existsb (fun k => (j + Z.of_nat k =? i)
                           && negb (Z.land addr (nth k bs 0) =? 0))
                 (seq 0 (List.length bs)).
Proof.
  induction bs as [|b bs IH]; intros j m i Hj Hi.
  - simpl. now rewrite orb_false_r.
  - cbn [minterm_loop List.length]. rewrite IH by lia.
    rewrite <- cons_seq, <- seq_shift. cbn [existsb nth].
    rewrite Z.add_0_r.
    rewrite existsb_map_ext
      with (g := fun k => (j + 1 + Z.of_nat k =? i)
                          && negb (Z.land addr (nth k bs 0) =? 0)).
    2:{ intros k. cbn [nth].
        now replace (j + Z.of_nat (S k)) with (j + 1 + Z.of_nat k) by lia. }
    destruct (Z.land addr b =? 0); simpl.
    + now rewrite andb_false_r.
    + rewrite Z.lor_spec, Z.shiftl_1_l, Z.pow2_bits_eqb by lia.
      rewrite andb_true_r. now rewrite orb_assoc.
Qed.

(** Bit [i] of the minterm is set exactly when the combination has a bit
    in common with the [i]-th dependency mask. *)
Lemma minterm_bit_of_combination (d : PinDependencies) (addr : Z) (i : nat) :
  (i < List.length (bits d))%nat ->
  Z.testbit (build_outputpin_minterm d addr) (Z.of_nat i)
  = negb (Z.land addr (nth i (bits d) 0) =? 0).
Proof.
  intros Hi. unfold build_outputpin_minterm.
  rewrite minterm_loop_testbit by lia. rewrite Z.bits_0. simpl.
  apply eq_true_iff_eq. rewrite existsb_exists. split.
  - intros [k [_ Hk]]. apply andb_true_iff in Hk. destruct Hk as [Hk Hbit].
    apply Z.eqb_eq in Hk. assert (k = i) by lia. now subst k.
  - intros Hbit. exists i. split; [apply in_seq; lia|].
    now rewrite Z.eqb_refl.
Qed.

Lemma conditions_loop_spec (bs : list Z) (addr : Z) :
  forall names,
    (List.length bs <= List.length names)%nat ->
    conditions_loop bs names addr
    = Ok (map (fun bn => if Z.land addr (fst bn) =? 0
                         then (NOTSTR ++ snd bn)%string
                         else (" " ++ snd bn)%string)
              (combine bs names)).
Proof.
  induction bs as [|b bs IH]; intros names Hlen; [reflexivity|].
  destruct names as [|nm names]; [simpl in Hlen; lia|].
  cbn [conditions_loop combine map fst snd].
  rewrite IH by (simpl in Hlen; lia). reflexivity.
Qed.

Lemma conditions_loop_short (bs : list Z) (addr : Z) :
  forall names,
    (List.length names < List.length bs)%nat ->
    conditions_loop bs names addr = Raise IndexError.
Proof.
  induction bs as [|b bs IH]; intros names Hlen; [simpl in Hlen; lia|].
  destruct names as [|nm names]; [reflexivity|].
  cbn [conditions_loop]. rewrite IH by (simpl in Hlen; lia). reflexivity.
Qed.

Lemma nth_error_combine {A B : Type} (l : list A) (l' : list B) (i : nat)
  (a : A) (b : B) :
  nth_error l i = Some a -> nth_error l' i = Some b ->
  nth_error (combine l l') i = Some (a, b).
Proof.
  revert l' i. induction l as [|x l IH]; intros l' i Ha Hb;
    [destruct i; discriminate|].
  destruct l' as [|y l']; [destruct i; discriminate|].
  destruct i as [|i]; simpl in *; [congruence | now apply IH].
Qed.

(** X2: The minterm of a combination is below [2 ^ k] for [k] dependency
    masks, whatever the masks are; with at least [k] names the conditions
    are built, one per mask, and the [i]-th one is the plain name exactly
    when bit [i] of the minterm is set, the negated name otherwise. *)
Theorem conditions_match_minterm (d : PinDependencies) (addr : Z) :
  (List.length (bits d) <= List.length (pinnames d))%nat ->
  0 <= build_outputpin_minterm d addr < 2 ^ Z.of_nat (List.length (bits d))
  /\ exists conditions,
       build_outputpin_conditions d addr = Ok conditions
       /\ List.length conditions = List.length (bits d)
       /\ forall i nm,
            (i < List.length (bits d))%nat ->
            nth_error (pinnames d) i = Some nm ->
            nth_error conditions i
            = Some (if Z.testbit (build_outputpin_minterm d addr) (Z.of_nat i)
                    then (" " ++ nm)%string else (NOTSTR ++ nm)%string).
Proof.
  intros Hlen. split.
  { unfold build_outputpin_minterm.
    apply (minterm_loop_range (bits d) addr 0 0); simpl; lia. }
  unfold build_outputpin_conditions. rewrite conditions_loop_spec by assumption.
  eexists. split; [reflexivity|]. split.
  - rewrite length_map, length_combine. lia.
  - intros i nm Hi Hnm.
    rewrite nth_error_map.
    destruct (nth_error (bits d) i) as [b|] eqn:Hb.
    2:{ apply nth_error_None in Hb. lia. }
    rewrite (nth_error_combine _ _ _ _ _ Hb Hnm). cbn [option_map fst snd].
    rewrite minterm_bit_of_combination by assumption.
    rewrite (nth_error_nth _ _ 0 Hb).
    now destruct (Z.land addr b =? 0).
Qed.

Lemma conditions_match_minterm_witness :
  exists conditions,
    build_outputpin_conditions (mkDeps 10 [2; 8] ["i1"; "i3"]%string) 8
    = Ok conditions
    /\ nth_error conditions 1 = Some " i3"%string.
Proof.
  destruct (conditions_match_minterm (mkDeps 10 [2; 8] ["i1"; "i3"]%string) 8)
    as [_ [conditions [Hrun [_ Hnth]]]].
  - simpl. lia.
  - exists conditions. split; [exact Hrun|].
    apply (Hnth 1%nat "i3"%string); [simpl; lia | reflexivity].
Defined.

(** X3: With fewer names than masks the conditions cannot be built: reading
    the missing name raises [IndexError]. *)
Theorem conditions_missing_name (d : PinDependencies) (addr : Z) :
  (List.length (pinnames d) < List.length (bits d))%nat ->
  build_outputpin_conditions d addr = Raise IndexError.
Proof.
  intros Hlen. now apply conditions_loop_short.
Qed.

Lemma conditions_missing_name_witness :
  build_outputpin_conditions (mkDeps 10 [2; 8] ["i1"%string]) 8
  = Raise IndexError.
Proof.
  apply conditions_missing_name. simpl. lia.
Defined.

(** ** The pin models *)

Lemma py_getitem_nonneg {A : Type} (l : list A) (i : Z) (a : A) :
  0 <= i -> py_getitem l i = Ok a ->
  nth_error l (Z.to_nat i) = Some a /\ i < Z.of_nat (List.length l).
Proof.
  intros Hi. unfold py_getitem.
  destruct (i <? 0) eqn:E1; [apply Z.ltb_lt in E1; lia|].
  rewrite E1. simpl.
  destruct (Z.of_nat (List.length l) <=? i) eqn:E2; [discriminate|].
  apply Z.leb_gt in E2.
  destruct (nth_error l (Z.to_nat i)) as [b|]; [|discriminate].
  intros H. injection H as <-. now split.
Qed.

Lemma py_getitem_beyond {A : Type} (l : list A) (i : Z) :
  Z.of_nat (List.length l) <= i -> py_getitem l i = Raise IndexError.
Proof.
  intros Hi. unfold py_getitem.
  destruct (i <? 0) eqn:E1; [apply Z.ltb_lt in E1; lia|].
  rewrite E1. simpl.
  destruct (Z.of_nat (List.length l) <=? i) eqn:E2; [reflexivity|].
  apply Z.leb_gt in E2. lia.
Qed.

Lemma dict_getitem_Ok_iff (d : list (string * string)) (k : string) :
  (exists v, dict_getitem d k = Ok v) <-> In k (map fst d).
Proof.
  induction d as [|[k' v'] d IH]; simpl.
  - split; [intros [v H]; discriminate | intros []].
  - destruct (String.eqb_spec k' k) as [->|Hne].
    + split; [now left | intros _; now exists v'].
    + rewrite IH. split; [now right | intros [H|H]; [contradiction | assumption]].
Qed.

Lemma dict_getitem_raises (d : list (string * string)) (k : string) (e : exn) :
  dict_getitem d k = Raise e -> e = KeyError /\ ~ In k (map fst d).
Proof.
  induction d as [|[k' v'] d IH]; simpl.
  - intros H. injection H as <-. split; [reflexivity | intros []].
  - destruct (String.eqb_spec k' k) as [->|Hne]; [discriminate|].
    intros H. destruct (IH H) as [-> Hnot].
    split; [reflexivity | intros [Hk|Hk]; contradiction].
Qed.

Lemma list_index_Some (l : list Z) (x : Z) :
  forall pos p, list_index l x pos = Some p ->
    pos <= p
    /\ nth_error l (Z.to_nat (p - pos)) = Some x
    /\ forall q, (q < Z.to_nat (p - pos))%nat -> nth_error l q <> Some x.
Proof.
  induction l as [|y l IH]; intros pos p H; simpl in H; [discriminate|].
  destruct (y =? x) eqn:E.
  - injection H as <-. apply Z.eqb_eq in E. subst y. rewrite Z.sub_diag.
    split; [lia|]. split; [reflexivity|]. intros q Hq. simpl in Hq. lia.
  - apply IH in H. destruct H as (Hle & Hnth & Hfirst).
    assert (Hs : Z.to_nat (p - pos) = S (Z.to_nat (p - (pos + 1)))) by lia.
    rewrite Hs. split; [lia|]. split; [exact Hnth|].
    intros [|q] Hq; simpl.
    + apply Z.eqb_neq in E. congruence.
    + apply Hfirst. lia.
Qed.

Lemma list_index_None (l : list Z) (x : Z) :
  forall pos, list_index l x pos = None <-> ~ In x l.
Proof.
  induction l as [|y l IH]; intros pos; simpl.
  - split; [intros _ [] | reflexivity].
  - destruct (y =? x) eqn:E.
    + apply Z.eqb_eq in E. split; [discriminate | intros H; exfalso; auto].
    + apply Z.eqb_neq in E. rewrite IH. tauto.
Qed.

Lemma list_index_NoDup (l : list Z) (x : Z) :
  forall pos i, NoDup l -> nth_error l i = Some x ->
    list_index l x pos = Some (pos + Z.of_nat i).
Proof.
  induction l as [|y l IH]; intros pos i Hnd Hnth;
    [destruct i; discriminate|].
  inversion Hnd as [|y' l' Hnotin Hnd']; subst.
  destruct i as [|i]; simpl in Hnth; simpl list_index.
  - injection Hnth as ->. rewrite Z.eqb_refl. f_equal. lia.
  - destruct (y =? x) eqn:E.
    + apply Z.eqb_eq in E. subst y. exfalso. apply Hnotin.
      eapply nth_error_In. exact Hnth.
    + rewrite (IH (pos + 1) i Hnd' Hnth). f_equal. lia.
Qed.

Lemma map_result_nth {A B : Type} (f : A -> result B) (l : list A)
  (l' : list B) :
  map_result f l = Ok l' ->
  List.length l' = List.length l
  /\ forall i y, nth_error l' i = Some y ->
       exists x, nth_error l i = Some x /\ f x = Ok y.
Proof.
  revert l'. induction l as [|x l IH]; intros l' Hrun; simpl in Hrun.
  - injection Hrun as <-. split; [reflexivity|].
    intros [|i] y H; discriminate.
  - apply bind_Ok in Hrun. destruct Hrun as [y0 [Hy Hrun]].
    apply bind_Ok in Hrun. destruct Hrun as [ys [Hys Hrun]].
    injection Hrun as <-. destruct (IH ys Hys) as [Hlen Hnth]. split.
    + simpl. now rewrite Hlen.
    + intros [|i] y H; simpl in H.
      * injection H as <-. exists x. now split.
      * apply Hnth in H. exact H.
Qed.

Lemma map_result_Ok_iff {A B : Type} (f : A -> result B) (l : list A) :
  (exists l', map_result f l = Ok l')
  <-> Forall (fun x => exists y, f x = Ok y) l.
Proof.
  induction l as [|x l IH]; simpl.
  - split; [constructor | intros _; now exists []].
  - split.
    + intros [l' Hrun].
      apply bind_Ok in Hrun. destruct Hrun as [y [Hy Hrun]].
      apply bind_Ok in Hrun. destruct Hrun as [ys [Hys _]].
      constructor; [now exists y | apply IH; now exists ys].
    + intros Hall. inversion Hall as [|x' l0 [y Hy] Hrest]; subst.
      apply IH in Hrest. destruct Hrest as [ys Hys].
      exists (y :: ys). rewrite Hy. simpl. rewrite Hys. reflexivity.
Qed.

Lemma map_result_raises {A B : Type} (f : A -> result B) (l : list A)
  (e : exn) :
  map_result f l = Raise e -> exists x, In x l /\ f x = Raise e.
Proof.
  induction l as [|x l IH]; simpl; [discriminate|].
  destruct (f x) as [y|e'] eqn:Hx; simpl.
  - destruct (map_result f l) as [ys|e'']; simpl; [discriminate|].
    intros H. injection H as <-.
    destruct (IH eq_refl) as [x' [Hin Hx']]. exists x'. auto.
  - intros H. injection H as <-. exists x. auto.
Qed.

Lemma nth_error_range_inv (n : Z) (k : nat) (x : Z) :
  nth_error (range n) k = Some x -> x = Z.of_nat k /\ (k < Z.to_nat n)%nat.
Proof.
  intros H.
  assert (Hk : (k < Z.to_nat n)%nat).
  { rewrite <- length_range. apply nth_error_Some. congruence. }
  rewrite nth_error_range in H by assumption. injection H as <-. now split.
Qed.

Lemma build_inputpin_Ok (device : Device) (i : Z) (p : Pin) :
  0 <= i -> build_inputpin device i = Ok p ->
  nth_error (eprom_address_pins device) (Z.to_nat i) = Some (number p)
  /\ dict_getitem (pal_pin_names device) (py_str (number p)) = Ok (name p)
  /\ bitpos p = i /\ bitmask p = 2 ^ i /\ hizprobebitmask p = 0
  /\ fresh_pin p.
Proof.
  intros Hi Hrun. unfold build_inputpin in Hrun.
  apply bind_Ok in Hrun. destruct Hrun as [num [Hnum Hrun]].
  apply bind_Ok in Hrun. destruct Hrun as [nm [Hnm Hrun]].
  injection Hrun as <-. cbn [number name bitpos bitmask hizprobebitmask].
  apply py_getitem_nonneg in Hnum; [|assumption].
  rewrite Z.shiftl_1_l.
  repeat (split; [tauto || reflexivity|]).
  unfold fresh_pin, no_terms. simpl. tauto.
Qed.

Lemma build_outputpin_Ok (device : Device) (i : Z) (p : Pin) :
  0 <= i -> build_outputpin device i = Ok p ->
  nth_error (eprom_data_pins device) (Z.to_nat i) = Some (number p)
  /\ dict_getitem (pal_pin_names device) (py_str (number p)) = Ok (name p)
  /\ bitpos p = i /\ bitmask p = 2 ^ i
  /\ hizprobebitpos p = palpinnum_to_epromaddrbitpos device (number p)
  /\ hizprobebitmask p
     = match hizprobebitpos p with Some pos => 2 ^ pos | None => 0 end
  /\ fresh_pin p.
Proof.
  intros Hi Hrun. unfold build_outputpin in Hrun.
  apply bind_Ok in Hrun. destruct Hrun as [num [Hnum Hrun]].
  apply bind_Ok in Hrun. destruct Hrun as [nm [Hnm Hrun]].
  injection Hrun as <-.
  cbn [number name bitpos bitmask hizprobebitpos hizprobebitmask].
  apply py_getitem_nonneg in Hnum; [|assumption].
  rewrite Z.shiftl_1_l.
  split; [tauto|]. split; [assumption|]. split; [reflexivity|].
  split; [reflexivity|]. split; [reflexivity|]. split.
  - destruct (palpinnum_to_epromaddrbitpos device num);
      [apply Z.shiftl_1_l | reflexivity].
  - unfold fresh_pin, no_terms. simpl. tauto.
Qed.

(** X4: The input pin models follow the profile: there is one per address
    bit; the [i]-th has the mask [2 ^ i], the number of the [i]-th address
    pin and the name the profile gives that number, and nothing is recorded
    on it yet. *)
Theorem inputpins_model (device : Device) (pins : list Pin) :
  build_inputpins_configuration device = Ok pins ->
  List.length pins = Z.to_nat (eprom_address_width device)
  /\ forall i p, nth_error pins i = Some p ->
       bitpos p = Z.of_nat i /\ bitmask p = 2 ^ Z.of_nat i
       /\ nth_error (eprom_address_pins device) i = Some (number p)
       /\ dict_getitem (pal_pin_names device) (py_str (number p))
          = Ok (name p)
       /\ hizprobebitmask p = 0 /\ fresh_pin p.
Proof.
  intros Hrun. apply map_result_nth in Hrun. destruct Hrun as [Hlen Hnth].
  split; [now rewrite Hlen, length_range|].
  intros i p Hp. destruct (Hnth i p Hp) as [x [Hx Hbuild]].
  apply nth_error_range_inv in Hx. destruct Hx as [-> Hi].
  apply build_inputpin_Ok in Hbuild; [|lia].
  rewrite Nat2Z.id in Hbuild. tauto.
Qed.

Lemma inputpins_model_witness :
  build_inputpins_configuration demo_device = Ok demo_inputs
  /\ List.length demo_inputs = Z.to_nat (eprom_address_width demo_device).
Proof.
  assert (H : build_inputpins_configuration demo_device = Ok demo_inputs)
    by (vm_compute; reflexivity).
  split; [exact H|]. exact (proj1 (inputpins_model demo_device demo_inputs H)).
Defined.

(** X5: The output pin models follow the profile: there is one per output;
    the [i]-th has the mask [2 ^ i], the number of the [i]-th data pin and
    its name. Its hi-z probe is the first address bit wired to the same pin,
    with the mask of that bit; a pin wired to no address bit has no probe
    and the probe mask 0. *)
Theorem outputpins_model (device : Device) (pins : list Pin) :
  build_outputpins_configuration device = Ok pins ->
  List.length pins = Z.to_nat (pal_output_pins device)
  /\ forall i p, nth_error pins i = Some p ->
       bitpos p = Z.of_nat i /\ bitmask p = 2 ^ Z.of_nat i
       /\ nth_error (eprom_data_pins device) i = Some (number p)
       /\ dict_getitem (pal_pin_names device) (py_str (number p))
          = Ok (name p)
       /\ fresh_pin p
       /\ match hizprobebitpos p with
          | Some pos =>
              0 <= pos < Z.of_nat (List.length (eprom_address_pins device))
              /\ nth_error (eprom_address_pins device) (Z.to_nat pos)
                 = Some (number p)
              /\ (forall q, (q < Z.to_nat pos)%nat ->
                    nth_error (eprom_address_pins device) q
                    <> Some (number p))
              /\ hizprobebitmask p = 2 ^ pos
          | None =>
              ~ In (number p) (eprom_address_pins device)
              /\ hizprobebitmask p = 0
          end.
Proof.
  intros Hrun. apply map_result_nth in Hrun. destruct Hrun as [Hlen Hnth].
  split; [now rewrite Hlen, length_range|].
  intros i p Hp. destruct (Hnth i p Hp) as [x [Hx Hbuild]].
  apply nth_error_range_inv in Hx. destruct Hx as [-> Hi].
  apply build_outputpin_Ok in Hbuild; [|lia].
  rewrite Nat2Z.id in Hbuild.
  destruct Hbuild as (Hnum & Hname & Hpos & Hmask & Hprobe & Hpmask & Hfresh).
  repeat (split; [assumption|]).
  rewrite Hpmask. unfold palpinnum_to_epromaddrbitpos in Hprobe.
  destruct (hizprobebitpos p) as [pos|].
  - symmetry in Hprobe. apply list_index_Some in Hprobe.
    rewrite Z.sub_0_r in Hprobe. destruct Hprobe as (Hle & Hat & Hfirst).
    split; [|now repeat split].
    split; [assumption|].
    assert (Hlt : (Z.to_nat pos < List.length (eprom_address_pins device))%nat).
    { apply nth_error_Some. congruence. }
    lia.
  - symmetry in Hprobe. apply list_index_None in Hprobe. now split.
Qed.

Lemma outputpins_model_witness :
  build_outputpins_configuration demo_device = Ok demo_outputs
  /\ List.length demo_outputs = Z.to_nat (pal_output_pins demo_device).
Proof.
  assert (H : build_outputpins_configuration demo_device = Ok demo_outputs)
    by (vm_compute; reflexivity).
  split; [exact H|].
  exact (proj1 (outputpins_model demo_device demo_outputs H)).
Defined.

(** X6: When no pin is wired to two address bits, the two conversions
    between address bit positions and pin numbers are inverse of each other
    on the positions counted from 0. *)
Theorem probe_round_trip (device : Device) (pos num : Z) :
  NoDup (eprom_address_pins device) -> 0 <= pos ->
  (epromaddrbitpos_to_palpinnum device pos = Ok num
   <-> palpinnum_to_epromaddrbitpos device num = Some pos).
Proof.
  intros Hnd Hpos.
  unfold epromaddrbitpos_to_palpinnum, palpinnum_to_epromaddrbitpos. split.
  - intros Hget. apply py_getitem_nonneg in Hget; [|assumption].
    destruct Hget as [Hnth _].
    rewrite (list_index_NoDup _ _ 0 _ Hnd Hnth). f_equal. lia.
  - intros Hidx. apply list_index_Some in Hidx.
    rewrite Z.sub_0_r in Hidx. destruct Hidx as (_ & Hnth & _).
    assert (Hlt : (Z.to_nat pos < List.length (eprom_address_pins device))%nat).
    { apply nth_error_Some. congruence. }
    destruct (py_getitem_in_range (eprom_address_pins device) pos)
      as [a [Hget Hnth']]; [lia|].
    rewrite Hget. congruence.
Qed.

Lemma probe_round_trip_witness :
  epromaddrbitpos_to_palpinnum demo_device 2 = Ok 12
  <-> palpinnum_to_epromaddrbitpos demo_device 12 = Some 2.
Proof.
  apply probe_round_trip.
  - simpl. repeat constructor; simpl; intuition lia.
  - lia.
Defined.

(** X7: The input pin models are built exactly when the profile lists a pin
    for every address bit and names each of these pins; otherwise the error
    is an [IndexError] (no pin for an address bit) or a [KeyError] (no name
    for a pin). *)
Theorem inputpins_built_iff (device : Device) :
  ((exists pins, build_inputpins_configuration device = Ok pins)
   <-> forall k, (k < Z.to_nat (eprom_address_width device))%nat ->
         exists num,
           nth_error (eprom_address_pins device) k = Some num
           /\ In (py_str num) (map fst (pal_pin_names device)))
  /\ forall e, build_inputpins_configuration device = Raise e ->
       e = IndexError \/ e = KeyError.
Proof.
  unfold build_inputpins_configuration. split.
  - rewrite map_result_Ok_iff, Forall_forall. split.
    + intros Hall k Hk.
      destruct (Hall (Z.of_nat k)) as [p Hp]; [apply in_range; lia|].
      apply build_inputpin_Ok in Hp; [|lia]. rewrite Nat2Z.id in Hp.
      destruct Hp as (Hnum & Hname & _).
      exists (number p). split; [assumption|].
      apply dict_getitem_Ok_iff. now exists (name p).
    + intros Hall i Hi. apply in_range in Hi.
      destruct (Hall (Z.to_nat i)) as [num [Hnum Hname]]; [lia|].
      apply dict_getitem_Ok_iff in Hname. destruct Hname as [nm Hnm].
      assert (Hlt : (Z.to_nat i < List.length (eprom_address_pins device))%nat).
      { apply nth_error_Some. congruence. }
      destruct (py_getitem_in_range (eprom_address_pins device) i)
        as [a [Hget Hnth]]; [lia|].
      assert (a = num) by congruence. subst a.
      unfold build_inputpin, epromaddrbitpos_to_palpinnum.
      rewrite Hget. simpl. rewrite Hnm. simpl. eexists. reflexivity.
  - intros e Hrun. apply map_result_raises in Hrun.
    destruct Hrun as [i [Hi Hrun]]. apply in_range in Hi.
    unfold build_inputpin, epromaddrbitpos_to_palpinnum in Hrun.
    destruct (py_getitem (eprom_address_pins device) i) as [num|e'] eqn:Hget.
    + simpl in Hrun.
      destruct (dict_getitem (pal_pin_names device) (py_str num))
        as [nm|e'] eqn:Hnm; simpl in Hrun; [discriminate|].
      injection Hrun as <-. apply dict_getitem_raises in Hnm. tauto.
    + simpl in Hrun. injection Hrun as <-.
      destruct (Z.lt_ge_cases i (Z.of_nat (List.length (eprom_address_pins device))))
        as [Hlt|Hge].
      * destruct (py_getitem_in_range (eprom_address_pins device) i)
          as [a [Hget' _]]; [lia|]. congruence.
      * rewrite py_getitem_beyond in Hget by assumption.
        injection Hget as <-. now left.
Qed.

(** ** What the dependency scan changes *)

Lemma or_of_concat (l l' : list Z) :
  or_of (l ++ l') = Z.lor (or_of l) (or_of l').
Proof.
  induction l as [|x l IH]; simpl; [reflexivity|].
  now rewrite IH, Z.lor_assoc.
Qed.

Lemma grows_refl (d : PinDependencies) : grows d d.
Proof.
  exists []. simpl. rewrite !app_nil_r, Z.lor_0_r. auto.
Qed.

Lemma grows_trans (d1 d2 d3 : PinDependencies) :
  grows d1 d2 -> grows d2 d3 -> grows d1 d3.
Proof.
  intros [a1 (Hb1 & Hn1 & Hm1)] [a2 (Hb2 & Hn2 & Hm2)].
  exists (a1 ++ a2). rewrite !map_app, or_of_concat.
  rewrite Hb2, Hn2, Hm2, Hb1, Hn1, Hm1, <- !app_assoc, Z.lor_assoc. auto.
Qed.

Lemma grows_add (d : PinDependencies) (inputpin : Pin) :
  grows d (add_dependency d inputpin).
Proof.
  exists [inputpin]. simpl. rewrite Z.lor_0_r. auto.
Qed.

Lemma same_terms_refl (p : Pin) : same_terms p p.
Proof. unfold same_terms. tauto. Qed.

Lemma scan_extends_refl (p : Pin) : scan_extends p p.
Proof.
  unfold scan_extends, same_model.
  pose proof (grows_refl (depends p)). pose proof (grows_refl (oe_depends p)).
  pose proof (same_terms_refl p). tauto.
Qed.

Lemma scan_extends_trans (p q r : Pin) :
  scan_extends p q -> scan_extends q r -> scan_extends p r.
Proof.
  unfold scan_extends, same_model, same_terms.
  intros (N1 & U1 & P1 & (B1 & H1 & M1) & L1 & G1 & D1 & O1 & T1)
         (N2 & U2 & P2 & (B2 & H2 & M2) & L2 & G2 & D2 & O2 & T2).
  pose proof (grows_trans _ _ _ D1 D2).
  pose proof (grows_trans _ _ _ O1 O2).
  destruct T1 as (? & ? & ? & ? & ? & ? & ? & ? & ? & ?).
  destruct T2 as (? & ? & ? & ? & ? & ? & ? & ? & ? & ?).
  repeat split; try congruence; auto.
Qed.

Lemma extends_set_depends (p inputpin : Pin) :
  scan_extends p (set_depends p (add_dependency (depends p) inputpin)).
Proof.
  unfold scan_extends, same_model, same_terms. simpl.
  pose proof (grows_add (depends p) inputpin).
  pose proof (grows_refl (oe_depends p)). tauto.
Qed.

Lemma extends_set_oe_depends (p inputpin : Pin) :
  scan_extends p (set_oe_depends p (add_dependency (oe_depends p) inputpin)).
Proof.
  unfold scan_extends, same_model, same_terms. simpl.
  pose proof (grows_add (oe_depends p) inputpin).
  pose proof (grows_refl (depends p)). tauto.
Qed.

Lemma extends_record_seen (p : Pin) (is_hiz : bool) (output : Z) :
  scan_extends p (record_seen p is_hiz output).
Proof.
  unfold record_seen. destruct is_hiz; [apply scan_extends_refl|].
  pose proof (grows_refl (depends p)). pose proof (grows_refl (oe_depends p)).
  destruct (output =? 0); unfold scan_extends, same_model, same_terms; simpl;
    tauto.
Qed.

Lemma scan_outputpin_extends (dumpdata : list Z) (inputpin : Pin)
  (addr0 addr1 data0 data1 : Z) (p p' : Pin) :
  scan_outputpin dumpdata inputpin addr0 addr1 data0 data1 p = Ok p' ->
  scan_extends p p'.
Proof.
  intros Hrun. unfold scan_outputpin in Hrun.
  destruct (Z.land addr0 (hizprobebitmask p) >? 0);
    [injection Hrun as <-; apply scan_extends_refl|].
  destruct (Z.land addr1 (hizprobebitmask p) >? 0);
    [injection Hrun as <-; apply scan_extends_refl|].
  apply bind_Ok in Hrun. destruct Hrun as [[h0 h1] [_ Hrun]].
  cbn [fst snd] in Hrun. cbv zeta in Hrun. injection Hrun as <-.
  do 2 (eapply scan_extends_trans; [|apply extends_record_seen]).
  destruct (negb (Bool.eqb h0 h1)
            && negb (name_in (name inputpin) (pinnames (oe_depends p))));
    match goal with
    | |- context [if ?c then _ else _] => destruct c
    end;
    first [ apply scan_extends_refl
          | apply extends_set_oe_depends
          | apply extends_set_depends
          | eapply scan_extends_trans;
            [apply extends_set_oe_depends | apply extends_set_depends] ].
Qed.

Lemma Forall2_reflexive {A : Type} (R : A -> A -> Prop) (l : list A) :
  (forall x, R x x) -> Forall2 R l l.
Proof. intros HR. induction l; constructor; auto. Qed.

Lemma Forall2_transitive {A : Type} (R : A -> A -> Prop) (l1 l2 l3 : list A) :
  (forall x y z, R x y -> R y z -> R x z) ->
  Forall2 R l1 l2 -> Forall2 R l2 l3 -> Forall2 R l1 l3.
Proof.
  intros HR H12. revert l3.
  induction H12 as [|x y l1 l2 Hxy _ IH]; intros l3 H23;
    inversion H23; subst; constructor; eauto.
Qed.

Lemma for_each_Forall2 {A B : Type} (R : B -> B -> Prop)
  (body : list B -> A -> result (list B)) (l : list A) :
  (forall x, R x x) -> (forall x y z, R x y -> R y z -> R x z) ->
  (forall s x s', In x l -> body s x = Ok s' -> Forall2 R s s') ->
  forall s s', for_each body l s = Ok s' -> Forall2 R s s'.
Proof.
  intros Hrefl Htrans.
  induction l as [|x l IH]; intros Hbody s s' Hrun; simpl in Hrun.
  - injection Hrun as <-. now apply Forall2_reflexive.
  - apply bind_Ok in Hrun. destruct Hrun as [s1 [Hx Hrest]].
    apply (Forall2_transitive R s s1 s'); [assumption| |].
    + apply (Hbody s x s1); [now left | assumption].
    + apply IH; [|assumption]. intros s0 y s0' Hy. apply Hbody. now right.
Qed.

(** X8: Whatever the image and the pin models are, a scan that returns has
    only set observation flags and appended dependencies: the name, the
    number, the masks and the probe of every output pin and its condition
    and minterm lists are as before, no flag is cleared and no dependency is
    removed or reordered. *)
Theorem scan_only_extends (device : Device) (dumpdata : list Z)
  (inputpins outputpins scanned : list Pin) :
  build_outputpins_dependencies device dumpdata inputpins outputpins
  = Ok scanned ->
  Forall2 scan_extends outputpins scanned.
Proof.
  unfold build_outputpins_dependencies.
  destruct (eprom_address_width device <? 0); [discriminate|].
  apply for_each_Forall2;
    [apply scan_extends_refl | apply scan_extends_trans|].
  intros outs addr outs' _.
  apply for_each_Forall2;
    [apply scan_extends_refl | apply scan_extends_trans|].
  intros outs1 ip outs1' _ Hip. unfold scan_inputpin in Hip.
  destruct (Z.land addr (bitmask ip) >? 0).
  - injection Hip as <-. apply Forall2_reflexive, scan_extends_refl.
  - apply bind_Ok in Hip. destruct Hip as [d0 [_ Hip]].
    apply bind_Ok in Hip. destruct Hip as [d1 [_ Hip]].
    eapply map_result_Forall2; [|exact Hip].
    intros x y _ Hxy. eapply scan_outputpin_extends. exact Hxy.
Qed.

Lemma scan_only_extends_witness :
  Forall2 scan_extends demo_outputs [demo_output].
Proof.
  apply (scan_only_extends demo_device demo_image demo_inputs).
  vm_compute. reflexivity.
Defined.

(** ** The observation flags *)

Lemma observed_model (dumpdata : list Z) (p q inputpin : Pin) (high : bool)
  (addr : Z) :
  same_model q p ->
  (observed dumpdata q inputpin high addr
   <-> observed dumpdata p inputpin high addr).
Proof.
  intros (Hb & Hp & Hm).
  unfold observed, examined, hiz_at, driven_at.
  rewrite Hb, Hp, Hm. tauto.
Qed.

(** The observation flags after one step of the scan. *)
Lemma scan_pin_seen (dumpdata : list Z) (addr : Z) (inputpin p : Pin)
  (high : bool) :
  0 <= addr -> 0 <= bitmask inputpin ->
  (seen high (scan_pin dumpdata addr inputpin p) = true
   <-> seen high p = true \/ observed dumpdata p inputpin high addr).
Proof.
  intros Ha Hip.
  assert (Ha1 : 0 <= Z.lor addr (bitmask inputpin))
    by (apply Z.lor_nonneg; lia).
  unfold scan_pin, observed, examined.
  destruct (Z.land addr (bitmask inputpin) >? 0) eqn:E1.
  { assert (Z.land addr (bitmask inputpin) <> 0).
    { intros H0. apply land_gtb_false in H0; [congruence | assumption]. }
    tauto. }
  destruct (Z.land addr (hizprobebitmask p) >? 0) eqn:E2.
  { assert (Z.land addr (hizprobebitmask p) <> 0).
    { intros H0. apply land_gtb_false in H0; [congruence | assumption]. }
    tauto. }
  destruct (Z.land (Z.lor addr (bitmask inputpin)) (hizprobebitmask p) >? 0)
    eqn:E3.
  { assert (Z.land (Z.lor addr (bitmask inputpin)) (hizprobebitmask p) <> 0).
    { intros H0. apply land_gtb_false in H0; [congruence | assumption]. }
    tauto. }
  apply land_gtb_false in E1, E2, E3; try assumption.
  cbv zeta.
  set (h0 := hiz_at dumpdata p addr).
  set (h1 := hiz_at dumpdata p (Z.lor addr (bitmask inputpin))).
  set (out0 := Z.land (image_at dumpdata addr) (bitmask p)).
  set (out1 := Z.land (image_at dumpdata (Z.lor addr (bitmask inputpin)))
                      (bitmask p)).
  set (p1 := if negb (Bool.eqb h0 h1)
                && negb (name_in (name inputpin) (pinnames (oe_depends p)))
             then set_oe_depends p (add_dependency (oe_depends p) inputpin)
             else p).
  set (p2 := if negb h0 && negb h1 && negb (out0 =? out1)
                && negb (name_in (name inputpin) (pinnames (depends p1)))
             then set_depends p1 (add_dependency (depends p1) inputpin)
             else p1).
  assert (H2 : seenlow p2 = seenlow p /\ seenhigh p2 = seenhigh p).
  { unfold p2, p1.
    destruct (negb (Bool.eqb h0 h1)
              && negb (name_in (name inputpin) (pinnames (oe_depends p))));
      match goal with
      | |- context [if ?c then _ else _] => destruct c
      end; simpl; tauto. }
  destruct H2 as [Hl2 Hh2]. clearbody p2. clear p1.
  unfold seen, record_seen.
  destruct high, h0, h1, (out0 =? 0), (out1 =? 0); simpl;
    rewrite ?Hl2, ?Hh2; intuition (try discriminate; try congruence).
Qed.

Lemma fold_left_flag {A : Type} (step : Pin -> A -> Pin) (flag : Pin -> bool)
  (obs : Pin -> A -> Prop) (l : list A) :
  (forall p x, same_model (step p x) p) ->
  (forall p q x, same_model q p -> (obs q x <-> obs p x)) ->
  (forall p x, In x l ->
     (flag (step p x) = true <-> flag p = true \/ obs p x)) ->
  forall p,
    same_model (fold_left step l p) p
    /\ (flag (fold_left step l p) = true
        <-> flag p = true \/ exists x, In x l /\ obs p x).
Proof.
  intros Hmodel Hobs. induction l as [|x l IH]; intros Hstep p; simpl.
  - split; [unfold same_model; tauto|]. split; [tauto|].
    intros [H|[x [[] _]]]. assumption.
  - destruct (IH (fun q y Hy => Hstep q y (or_intror Hy)) (step p x))
      as [Hm Hflag].
    pose proof (Hmodel p x) as Hpx. split.
    { unfold same_model in *. destruct Hm as (-> & -> & ->). exact Hpx. }
    rewrite Hflag, (Hstep p x (or_introl eq_refl)). split.
    + intros [[H|H]|[y [Hy H]]].
      * now left.
      * right. exists x. auto.
      * right. exists y. split; [now right|].
        now apply (Hobs p (step p x) y Hpx).
    + intros [H|[y [[<-|Hy] H]]].
      * auto.
      * auto.
      * right. exists y. split; [assumption|].
        now apply (Hobs p (step p x) y Hpx).
Qed.

Lemma scan_all_seen (dumpdata : list Z) (inputpins : list Pin)
  (addrs : list Z) (high : bool) (p : Pin) :
  Forall (fun addr => 0 <= addr) addrs ->
  Forall (fun ip => 0 <= bitmask ip) inputpins ->
  seen high (scan_pin_all dumpdata addrs inputpins p) = true
  <-> seen high p = true
      \/ exists addr, In addr addrs
           /\ exists ip, In ip inputpins
                /\ observed dumpdata p ip high addr.
Proof.
  intros Haddrs Hins. rewrite Forall_forall in Haddrs, Hins.
  unfold scan_pin_all.
  apply (fold_left_flag
           (fun p addr =>
              fold_left (fun q ip => scan_pin dumpdata addr ip q) inputpins p)
           (seen high)
           (fun p addr => exists ip, In ip inputpins
                                     /\ observed dumpdata p ip high addr)).
  - intros q addr.
    apply (fold_left_flag (fun q ip => scan_pin dumpdata addr ip q)
             (fun _ => true) (fun _ _ => True) inputpins).
    + intros q0 ip. apply scan_pin_model.
    + tauto.
    + intros; tauto.
  - intros p0 q addr Hq. split; intros [ip [Hip H]]; exists ip;
      (split; [assumption|]); now apply (observed_model dumpdata p0 q).
  - intros q addr Haddr.
    apply (fold_left_flag (fun q ip => scan_pin dumpdata addr ip q)
             (seen high)
             (fun p ip => observed dumpdata p ip high addr) inputpins).
    + intros q0 ip. apply scan_pin_model.
    + intros p0 q0 ip. apply observed_model.
    + intros q0 ip Hip. apply scan_pin_seen; auto.
Qed.

(** X9: On an image of [2 ^ A] words the scan returns, and it leaves an
    observation flag of an output pin set exactly when the flag was set
    before or the scan examines a pair of addresses at one of which the pin
    is driven at that level. *)
Theorem seen_flags_spec (device : Device) (dumpdata : list Z)
  (inputpins outputpins : list Pin) :
  0 <= eprom_address_width device ->
  Z.of_nat (List.length dumpdata) = 2 ^ eprom_address_width device ->
  Forall (fun ip => 0 <= bitmask ip < 2 ^ eprom_address_width device)
         inputpins ->
  Forall (fun p => 0 <= hizprobebitmask p < 2 ^ eprom_address_width device)
         outputpins ->
  exists scanned,
    build_outputpins_dependencies device dumpdata inputpins outputpins
    = Ok scanned
    /\ Forall2
         (fun op op' =>
            forall high,
              seen high op' = true
              <-> seen high op = true
                  \/ exists addr,
                       0 <= addr < 2 ^ eprom_address_width device
                       /\ exists ip, In ip inputpins
                            /\ observed dumpdata op ip high addr)
         outputpins scanned.
Proof.
  intros Hw Hsize Hins Houts.
  set (w := eprom_address_width device) in *.
  exists (map (scan_pin_all dumpdata (range (2 ^ w)) inputpins) outputpins).
  assert (Haddrs : Forall (fun addr => 0 <= addr < 2 ^ w) (range (2 ^ w))).
  { apply Forall_forall. intros a Ha. now apply in_range. }
  split.
  - unfold build_outputpins_dependencies. fold w.
    destruct (w <? 0) eqn:E; [apply Z.ltb_lt in E; lia|].
    eapply scan_pure; eassumption.
  - apply Forall2_map_right. intros op _ high.
    rewrite scan_all_seen.
    + split; (intros [H|[a [Ha H]]]; [now left | right; exists a]);
        (split; [now apply in_range | assumption]).
    + eapply Forall_impl; [|exact Haddrs]. intros a Ha. apply Ha.
    + eapply Forall_impl; [|exact Hins]. intros q Hq. apply Hq.
Qed.

Lemma seen_flags_spec_witness :
  exists scanned,
    build_outputpins_dependencies demo_device demo_image demo_inputs
                                  demo_outputs = Ok scanned
    /\ Forall2
         (fun op op' =>
            forall high,
              seen high op' = true
              <-> seen high op = true
                  \/ exists addr,
                       0 <= addr < 2 ^ eprom_address_width demo_device
                       /\ exists ip, In ip demo_inputs
                            /\ observed demo_image op ip high addr)
         demo_outputs scanned.
Proof.
  apply (seen_flags_spec demo_device demo_image demo_inputs demo_outputs).
  - simpl. lia.
  - reflexivity.
  - repeat constructor; simpl; lia.
  - repeat constructor; simpl; lia.
Defined.

(** ** From the profile to the scan *)

Lemma inputpins_masks (device : Device) (pins : list Pin) :
  build_inputpins_configuration device = Ok pins ->
  forall i p, nth_error pins i = Some p ->
    bitmask p = 2 ^ Z.of_nat i
    /\ (i < Z.to_nat (eprom_address_width device))%nat.
Proof.
  intros Hrun i p Hp. apply map_result_nth in Hrun. destruct Hrun as [_ Hnth].
  destruct (Hnth i p Hp) as [x [Hx Hbuild]].
  apply nth_error_range_inv in Hx. destruct Hx as [-> Hi].
  apply build_inputpin_Ok in Hbuild; [|lia]. split; [tauto | assumption].
Qed.

Lemma inputpins_well_formed (device : Device) (pins : list Pin) :
  build_inputpins_configuration device = Ok pins ->
  Forall (fun ip => single_bit (bitmask ip)
                    /\ 0 <= bitmask ip < 2 ^ eprom_address_width device) pins
  /\ NoDup (map bitmask pins).
Proof.
  intros Hrun. split.
  - apply Forall_forall. intros ip Hip. apply In_nth_error in Hip.
    destruct Hip as [i Hi].
    destruct (inputpins_masks _ _ Hrun i ip Hi) as [-> Hlt].
    split; [exists (Z.of_nat i); split; [lia | reflexivity]|].
    split; [apply Z.pow_nonneg; lia | apply Z.pow_lt_mono_r; lia].
  - apply NoDup_nth_error. intros i j Hi Heq.
    rewrite length_map in Hi.
    destruct (nth_error pins i) as [p|] eqn:Hp;
      [|apply nth_error_None in Hp; lia].
    rewrite !nth_error_map in Heq. rewrite Hp in Heq.
    destruct (nth_error pins j) as [q|] eqn:Hq; [|discriminate].
    simpl in Heq. injection Heq as Heq.
    destruct (inputpins_masks _ _ Hrun i p Hp) as [Mp _].
    destruct (inputpins_masks _ _ Hrun j q Hq) as [Mq _].
    rewrite Mp, Mq in Heq. apply Z.pow_inj_r in Heq; lia.
Qed.

Lemma outputpins_well_formed (device : Device) (pins : list Pin) :
  build_outputpins_configuration device = Ok pins ->
  Forall (fun p =>
            single_bit (bitmask p) /\ fresh_pin p
            /\ 0 <= hizprobebitmask p
               < 2 ^ Z.of_nat (List.length (eprom_address_pins device)))
         pins.
Proof.
  intros Hrun. apply map_result_nth in Hrun. destruct Hrun as [_ Hnth].
  apply Forall_forall. intros p Hp. apply In_nth_error in Hp.
  destruct Hp as [i Hi]. destruct (Hnth i p Hi) as [x [Hx Hbuild]].
  apply nth_error_range_inv in Hx. destruct Hx as [-> Hlt].
  apply build_outputpin_Ok in Hbuild; [|lia].
  destruct Hbuild as (_ & _ & _ & Hmask & Hprobe & Hpmask & Hfresh).
  split; [exists (Z.of_nat i); split; [lia | assumption]|].
  split; [assumption|].
  rewrite Hpmask. unfold palpinnum_to_epromaddrbitpos in Hprobe.
  destruct (hizprobebitpos p) as [pos|].
  - symmetry in Hprobe. apply list_index_Some in Hprobe.
    rewrite Z.sub_0_r in Hprobe. destruct Hprobe as (Hle & Hat & _).
    assert (Hpos : (Z.to_nat pos < List.length (eprom_address_pins device))%nat).
    { apply nth_error_Some. congruence. }
    split; [apply Z.pow_nonneg; lia | apply Z.pow_lt_mono_r; lia].
  - split; [lia | apply Z.pow_pos_nonneg; lia].
Qed.

(** X10: With a profile that lists no more address pins than address bits,
    the pin models it yields and an image of [2 ^ A] words, the analysis of
    the main program returns: no read of the scan leaves the image. Its
    result is the scan of each output pin over all addresses and input pins. *)
Theorem analyse_returns (device : Device) (dumpdata : list Z)
  (inputpins outputpins : list Pin) :
  0 <= eprom_address_width device ->
  Z.of_nat (List.length dumpdata) = 2 ^ eprom_address_width device ->
  Z.of_nat (List.length (eprom_address_pins device))
  <= eprom_address_width device ->
  build_inputpins_configuration device = Ok inputpins ->
  build_outputpins_configuration device = Ok outputpins ->
  analyse device dumpdata
  = Ok (map (scan_pin_all dumpdata (range (2 ^ eprom_address_width device))
                          inputpins) outputpins).
Proof.
  intros Hw Hsize Hpins Hin Hout. unfold analyse.
  rewrite Hin, Hout. simpl. unfold build_outputpins_dependencies.
  destruct (eprom_address_width device <? 0) eqn:E;
    [apply Z.ltb_lt in E; lia|].
  eapply scan_pure; try eassumption.
  - apply Forall_forall. intros a Ha. now apply in_range.
  - destruct (inputpins_well_formed _ _ Hin) as [Hall _].
    eapply Forall_impl; [|exact Hall]. intros ip Hip. apply Hip.
  - pose proof (outputpins_well_formed _ _ Hout) as Hall.
    eapply Forall_impl; [|exact Hall]. intros p (_ & _ & Hp).
    assert (2 ^ Z.of_nat (List.length (eprom_address_pins device))
            <= 2 ^ eprom_address_width device)
      by (apply Z.pow_le_mono_r; lia).
    lia.
Qed.

Lemma analyse_returns_witness :
  analyse demo_device demo_image
  = Ok (map (scan_pin_all demo_image (range 8) demo_inputs) demo_outputs).
Proof.
  apply (analyse_returns demo_device demo_image demo_inputs demo_outputs).
  - simpl. lia.
  - reflexivity.
  - simpl. lia.
  - vm_compute. reflexivity.
  - vm_compute. reflexivity.
Defined.

(** ** The sorted dependency sets *)

Lemma combine_fst_snd {A B : Type} (z : list (A * B)) :
  combine (map fst z) (map snd z) = z.
Proof.
  induction z as [|[a b] z IH]; simpl; [reflexivity | now rewrite IH].
Qed.

Lemma sort_dependencies_pairs (d d' : PinDependencies) :
  List.length (pinnames d) = List.length (bits d) ->
  sort_dependencies d = Ok d' ->
  Permutation (combine (bits d') (pinnames d'))
              (combine (bits d) (pinnames d))
  /\ List.length (pinnames d') = List.length (bits d').
Proof.
  intros Hlen. unfold sort_dependencies.
  destruct (0 <? Z.of_nat (List.length (bits d))).
  - remember (sorted pair_leb (combine (bits d) (pinnames d))) as zs eqn:Hz.
    assert (Hperm : Permutation zs (combine (bits d) (pinnames d))).
    { rewrite Hz. apply sorted_perm. }
    clear Hz. intros H.
    assert (Hd' : d' = mkDeps (bitmap d) (map fst zs) (map snd zs)).
    { destruct zs; [discriminate | now injection H as <-]. }
    subst d'. cbn [bits pinnames]. rewrite combine_fst_snd.
    split; [exact Hperm | now rewrite !length_map].
  - intros H. injection H as <-. split; [reflexivity | assumption].
Qed.

Lemma build_outputpin_equations_deps (device : Device) (dumpdata : list Z)
  (p p' : Pin) :
  build_outputpin_equations device dumpdata p = Ok p' ->
  sort_dependencies (depends p) = Ok (depends p')
  /\ sort_dependencies (oe_depends p) = Ok (oe_depends p').
Proof.
  intros Hrun. apply build_outputpin_equations_unfold in Hrun.
  destruct Hrun as (deps & oe_deps & p3 & Hdeps & Hoe & Hp3 & Hp').
  assert (H3 : same_analysis (sorted_pin p deps oe_deps) p3).
  { destruct (bitmap deps =? 0).
    - injection Hp3 as <-. apply same_analysis_refl.
    - apply classify_loop_terms in Hp3. apply Hp3. }
  assert (H4 : same_analysis p3 p').
  { destruct (bitmap (oe_depends p3) =? 0).
    - injection Hp' as <-. apply same_analysis_refl.
    - apply classify_oe_loop_terms in Hp'. apply Hp'. }
  destruct H3 as (_ & _ & _ & _ & _ & _ & D3 & O3).
  destruct H4 as (_ & _ & _ & _ & _ & _ & D4 & O4).
  rewrite D4, D3, O4, O3. simpl. now split.
Qed.

(** X11: After the pin models, the scan and the minterm builder, the two
    dependency sets of every output pin hold single-bit masks in strictly
    ascending order whose OR is the bitmap, and every mask still stands at
    the position of the name it was found with. *)
Theorem built_dependencies_sorted (device : Device) (dumpdata : list Z)
  (inputpins outputpins scanned built : list Pin) :
  build_inputpins_configuration device = Ok inputpins ->
  build_outputpins_configuration device = Ok outputpins ->
  build_outputpins_dependencies device dumpdata inputpins outputpins
  = Ok scanned ->
  build_outputpins_equations device dumpdata scanned = Ok built ->
  Forall2
    (fun p p' =>
       (sorted_dependencies (depends p')
        /\ Permutation (combine (bits (depends p')) (pinnames (depends p')))
                       (combine (bits (depends p)) (pinnames (depends p)))
        /\ List.length (pinnames (depends p'))
           = List.length (bits (depends p')))
       /\ (sorted_dependencies (oe_depends p')
           /\ Permutation
                (combine (bits (oe_depends p')) (pinnames (oe_depends p')))
                (combine (bits (oe_depends p)) (pinnames (oe_depends p)))
           /\ List.length (pinnames (oe_depends p'))
              = List.length (bits (oe_depends p'))))
    scanned built.
Proof.
  intros Hin Hout Hscan Hbuild.
  destruct (inputpins_well_formed _ _ Hin) as [Hins Hdistinct].
  assert (Hsingle : Forall (fun ip => single_bit (bitmask ip)) inputpins).
  { eapply Forall_impl; [|exact Hins]. intros ip Hip. apply Hip. }
  assert (H0 : Forall (scanning inputpins) outputpins).
  { pose proof (outputpins_well_formed _ _ Hout) as Hall.
    eapply Forall_impl; [|exact Hall].
    intros p (_ & (_ & _ & Hd & Ho & Ht & _) & _).
    assert (Hnil : deps_from inputpins no_dependencies).
    { exists []. split; [reflexivity|]. split; [intros x []|constructor]. }
    split; [|split]; [rewrite Hd | rewrite Ho | ]; assumption. }
  assert (H1 : Forall (scanning inputpins) scanned).
  { eapply scan_invariant; [|exact H0|exact Hscan].
    intros ip a0 a1 d0 d1 p p' Hip Hp Hrun.
    eapply scan_outputpin_scanning; eauto. }
  eapply map_result_Forall2; [|exact Hbuild].
  intros p p' Hp Hrun. rewrite Forall_forall in H1.
  destruct (H1 p Hp) as (Hd & Ho & _).
  apply (deps_from_scanned _ _ Hsingle Hdistinct) in Hd, Ho.
  apply build_outputpin_equations_deps in Hrun. destruct Hrun as [Sd So].
  split.
  - destruct (sort_dependencies_sorted _ _ Hd Sd) as (Hsorted & _ & _).
    destruct (sort_dependencies_pairs _ _ (scanned_names _ Hd) Sd).
    auto.
  - destruct (sort_dependencies_sorted _ _ Ho So) as (Hsorted & _ & _).
    destruct (sort_dependencies_pairs _ _ (scanned_names _ Ho) So).
    auto.
Qed.

Lemma built_dependencies_sorted_witness :
  Forall2
    (fun p p' =>
       (sorted_dependencies (depends p')
        /\ Permutation (combine (bits (depends p')) (pinnames (depends p')))
                       (combine (bits (depends p)) (pinnames (depends p)))
        /\ List.length (pinnames (depends p'))
           = List.length (bits (depends p')))
       /\ (sorted_dependencies (oe_depends p')
           /\ Permutation
                (combine (bits (oe_depends p')) (pinnames (oe_depends p')))
                (combine (bits (oe_depends p)) (pinnames (oe_depends p)))
           /\ List.length (pinnames (oe_depends p'))
              = List.length (bits (oe_depends p'))))
    [demo_output] [demo_built].
Proof.
  apply (built_dependencies_sorted demo_device demo_image demo_inputs
                                   demo_outputs);
    vm_compute; reflexivity.
Defined.

(** ** The minterm lists *)

Lemma drive_search_same (dumpdata : list Z) (p q : Pin) (a : Z)
  (others : list Z) :
  name q = name p -> bitmask q = bitmask p ->
  hizprobebitmask q = hizprobebitmask p ->
  drive_search dumpdata q a others = drive_search dumpdata p a others.
Proof.
  intros Hn Hb Hm. induction others as [|o others IH]; cbn [drive_search].
  - unfold no_drive_message. now rewrite Hn.
  - unfold is_driven. rewrite Hb, Hm, IH. reflexivity.
Qed.

Lemma verdict_same (device : Device) (dumpdata : list Z) (p q : Pin) (a : Z) :
  same_analysis p q ->
  verdict device dumpdata q a = verdict device dumpdata p a.
Proof.
  intros (Hn & Hb & _ & Hm & _ & _ & Hd & Ho).
  unfold verdict, check_input_combination_is_relevent, inversebitmap,
    get_output_pin_data, is_driven.
  rewrite (drive_search_same dumpdata p q) by assumption.
  rewrite Hd, Ho, Hb, Hm. reflexivity.
Qed.

Lemma has_verdict_same (device : Device) (dumpdata : list Z) (p q : Pin)
  (v : option bool) (a : Z) :
  same_analysis p q ->
  has_verdict device dumpdata q v a = has_verdict device dumpdata p v a.
Proof.
  intros Hsame. unfold has_verdict. now rewrite (verdict_same _ _ p q).
Qed.

Lemma has_verdict_none (device : Device) (dumpdata : list Z) (p : Pin) (a : Z) :
  has_verdict device dumpdata p None a = true
  <-> check_input_combination_is_relevent device dumpdata p a = Ok false.
Proof.
  unfold has_verdict, verdict.
  destruct (check_input_combination_is_relevent device dumpdata p a)
    as [[|]|e]; simpl.
  - destruct (get_output_pin_data dumpdata p a); simpl;
      split; intros H; discriminate H.
  - tauto.
  - split; intros H; discriminate H.
Qed.

Lemma has_verdict_some (device : Device) (dumpdata : list Z) (p : Pin)
  (b : bool) (a : Z) :
  has_verdict device dumpdata p (Some b) a = true
  <-> check_input_combination_is_relevent device dumpdata p a = Ok true
      /\ exists data,
           get_output_pin_data dumpdata p a = Ok data
           /\ negb (Z.land data (bitmask p) =? 0) = b.
Proof.
  unfold has_verdict, verdict.
  destruct (check_input_combination_is_relevent device dumpdata p a)
    as [[|]|e]; simpl.
  - destruct (get_output_pin_data dumpdata p a) as [data|e]; simpl.
    + rewrite Bool.eqb_true_iff. split.
      * intros <-. split; [reflexivity|]. exists data. auto.
      * intros [_ [d [Hd <-]]]. now injection Hd as <-.
    + split; [intros H; discriminate H|].
      intros [_ [d [Hd _]]]. discriminate Hd.
  - split; [intros H; discriminate H | intros [H _]; discriminate H].
  - split; [intros H; discriminate H | intros [H _]; discriminate H].
Qed.

Lemma classify_combination_verdict (device : Device) (dumpdata : list Z)
  (p p1 : Pin) (a : Z) :
  classify_combination device dumpdata p a = Ok p1 ->
  exists c v,
    build_outputpin_conditions (depends p) a = Ok c
    /\ verdict device dumpdata p a = Ok v
    /\ p1 = match v with
            | None => add_dontcare p c (build_outputpin_minterm (depends p) a)
            | Some false =>
                add_negative p c (build_outputpin_minterm (depends p) a)
            | Some true =>
                add_positive p c (build_outputpin_minterm (depends p) a)
            end.
Proof.
  unfold classify_combination, verdict. intros Hrun.
  apply bind_Ok in Hrun. destruct Hrun as [c [Hc Hrun]].
  apply bind_Ok in Hrun. destruct Hrun as [relevant [Hr Hrun]].
  exists c. rewrite Hr. simpl. destruct relevant; simpl in *.
  - apply bind_Ok in Hrun. destruct Hrun as [data [Hd Hrun]].
    rewrite Hd. simpl. eexists. split; [assumption|]. split; [reflexivity|].
    destruct (Z.land data (bitmask p) =? 0); simpl; now injection Hrun as <-.
  - exists None. injection Hrun as <-. auto.
Qed.

Lemma classify_loop_lists (device : Device) (dumpdata : list Z)
  (addrs : list Z) :
  forall p p',
    for_each (classify_combination device dumpdata) addrs p = Ok p' ->
    same_analysis p p'
    /\ forall v,
         terms_of v p'
         = terms_of v p
           ++ map (build_outputpin_minterm (depends p))
                  (filter (has_verdict device dumpdata p v) addrs).
Proof.
  induction addrs as [|a addrs IH]; intros p p' Hrun; simpl in Hrun.
  - injection Hrun as <-. split; [apply same_analysis_refl|].
    intros v. simpl. now rewrite app_nil_r.
  - apply bind_Ok in Hrun. destruct Hrun as [p1 [Hstep Hrest]].
    pose proof (classify_combination_same _ _ _ _ _ Hstep) as Hsame.
    apply classify_combination_verdict in Hstep.
    destruct Hstep as (c & v0 & _ & Hv & Hp1).
    destruct (IH p1 p' Hrest) as [Hsame' Hlists].
    split; [eapply same_analysis_trans; eauto|].
    intros v. rewrite Hlists.
    rewrite (filter_ext (has_verdict device dumpdata p1 v)
                        (has_verdict device dumpdata p v))
      by (intros a'; now apply has_verdict_same).
    assert (Hd : depends p1 = depends p) by apply Hsame.
    rewrite Hd. cbn [filter].
    destruct (has_verdict device dumpdata p v a) eqn:Hhv;
      unfold has_verdict in Hhv; rewrite Hv in Hhv;
      destruct v0 as [[|]|], v as [[|]|]; simpl in Hhv;
      try discriminate Hhv; subst p1; simpl;
      rewrite <- ?app_assoc; reflexivity.
Qed.

Lemma classify_oe_loop_lists (dumpdata : list Z) (addrs : list Z) :
  forall p p',
    for_each (classify_oe_combination dumpdata) addrs p = Ok p' ->
    same_analysis p p'
    /\ forall b,
         oe_terms_of b p'
         = oe_terms_of b p
           ++ map (build_outputpin_minterm (oe_depends p))
                  (filter (drives dumpdata p b) addrs).
Proof.
  induction addrs as [|a addrs IH]; intros p p' Hrun; simpl in Hrun.
  - injection Hrun as <-. split; [apply same_analysis_refl|].
    intros b. simpl. now rewrite app_nil_r.
  - apply bind_Ok in Hrun. destruct Hrun as [p1 [Hstep Hrest]].
    pose proof (classify_oe_combination_same _ _ _ _ Hstep) as [Hsame _].
    destruct (IH p1 p' Hrest) as [Hsame' Hlists].
    split; [eapply same_analysis_trans; eauto|].
    intros b. rewrite Hlists.
    assert (Hdrives : forall a', drives dumpdata p1 b a' = drives dumpdata p b a').
    { intros a'. unfold drives, is_driven.
      destruct Hsame as (_ & Hb & _ & Hm & _). now rewrite Hb, Hm. }
    rewrite (filter_ext _ _ Hdrives).
    assert (Ho : oe_depends p1 = oe_depends p) by apply Hsame.
    rewrite Ho. cbn [filter].
    unfold classify_oe_combination in Hstep.
    apply bind_Ok in Hstep. destruct Hstep as [c [_ Hstep]].
    apply bind_Ok in Hstep. destruct Hstep as [driven [Hdriven Hstep]].
    destruct (drives dumpdata p b a) eqn:Hb;
      unfold drives in Hb; rewrite Hdriven in Hb;
      destruct driven, b; simpl in Hb, Hstep; try discriminate Hb;
      injection Hstep as <-; simpl; rewrite <- ?app_assoc; reflexivity.
Qed.

(** The two loops of the minterm builder, one after the other. *)
Lemma build_outputpin_equations_lists (device : Device) (dumpdata : list Z)
  (p p' : Pin) :
  build_outputpin_equations device dumpdata p = Ok p' ->
  exists p3,
    same_analysis p3 p'
    /\ (forall v, terms_of v p' = terms_of v p3)
    /\ (forall b, oe_terms_of b p3 = oe_terms_of b p)
    /\ (bitmap (depends p') <> 0 ->
        forall v,
          terms_of v p3
          = terms_of v p
            ++ map (build_outputpin_minterm (depends p3))
                   (filter (has_verdict device dumpdata p3 v)
                           (iterate_mask (bitmap (depends p3)))))
    /\ (bitmap (oe_depends p') <> 0 ->
        forall b,
          oe_terms_of b p'
          = oe_terms_of b p3
            ++ map (build_outputpin_minterm (oe_depends p3))
                   (filter (drives dumpdata p3 b)
                           (iterate_mask (bitmap (oe_depends p3))))).
Proof.
  intros Hrun. apply build_outputpin_equations_unfold in Hrun.
  destruct Hrun as (deps & oe_deps & p3 & Hdeps & Hoe & Hp3 & Hp').
  exists p3.
  set (p2 := sorted_pin p deps oe_deps) in *.
  assert (T2 : forall v, terms_of v p2 = terms_of v p)
    by (intros [[|]|]; reflexivity).
  assert (H3 : same_analysis p2 p3
               /\ (forall b, oe_terms_of b p3 = oe_terms_of b p)
               /\ (bitmap deps <> 0 ->
                   forall v,
                     terms_of v p3
                     = terms_of v p2
                       ++ map (build_outputpin_minterm (depends p2))
                              (filter (has_verdict device dumpdata p2 v)
                                      (iterate_mask (bitmap deps))))).
  { destruct (bitmap deps =? 0) eqn:E.
    - injection Hp3 as <-. split; [apply same_analysis_refl|].
      split; [intros [|]; reflexivity|].
      apply Z.eqb_eq in E. intros Hne. contradiction.
    - split; [apply classify_loop_lists in Hp3; apply Hp3|]. split.
      + intros b.
        eapply (for_each_invariant
                  (fun q => oe_terms_of b q = oe_terms_of b p));
          [| |exact Hp3]; [|destruct b; reflexivity].
        intros s x s' _ Hs Hx. apply classify_combination_adds in Hx.
        destruct Hx as [c [-> | [-> | ->]]]; destruct b; exact Hs.
      + intros _ v. apply classify_loop_lists in Hp3. apply Hp3. }
  destruct H3 as (H23 & O3 & T3).
  assert (H4 : same_analysis p3 p'
               /\ (forall v, terms_of v p' = terms_of v p3)
               /\ (bitmap (oe_depends p3) <> 0 ->
                   forall b,
                     oe_terms_of b p'
                     = oe_terms_of b p3
                       ++ map (build_outputpin_minterm (oe_depends p3))
                              (filter (drives dumpdata p3 b)
                                      (iterate_mask
                                         (bitmap (oe_depends p3)))))).
  { destruct (bitmap (oe_depends p3) =? 0) eqn:E.
    - injection Hp' as <-. split; [apply same_analysis_refl|].
      split; [reflexivity|].
      apply Z.eqb_eq in E. intros Hne. contradiction.
    - split; [apply classify_oe_loop_lists in Hp'; apply Hp'|]. split.
      + intros v.
        eapply (for_each_invariant
                  (fun q => terms_of v q = terms_of v p3));
          [|reflexivity|exact Hp'].
        intros s x s' _ Hs Hx. apply classify_oe_combination_same in Hx.
        destruct Hx as (_ & Hdc & Hneg & Hpos).
        destruct v as [[|]|]; simpl in *; congruence.
      + intros _ b. apply classify_oe_loop_lists in Hp'. apply Hp'. }
  destruct H4 as (H34 & T4 & O4).
  assert (D3 : depends p3 = deps) by apply H23.
  assert (D4 : depends p' = depends p3) by apply H34.
  assert (E4 : oe_depends p' = oe_depends p3) by apply H34.
  split; [assumption|]. split; [assumption|]. split; [assumption|]. split.
  - intros Hne v. rewrite D4, D3 in Hne. rewrite (T3 Hne v), T2, D3.
    do 2 f_equal. apply filter_ext. intros a. symmetry.
    now apply has_verdict_same.
  - intros Hne. rewrite E4 in Hne. now apply O4.
Qed.

(** X12: A minterm builder that returns on a pin with dependencies has put
    in the don't-care list exactly the minterms of the combinations the
    relevance test rejects, in the negative list those of the accepted
    combinations whose data word has the bit of the pin clear, in the
    positive list those whose data word has it set. *)
Theorem output_minterms_classified (device : Device) (dumpdata : list Z)
  (p p' : Pin) :
  no_terms p ->
  build_outputpin_equations device dumpdata p = Ok p' ->
  bitmap (depends p') <> 0 ->
  forall m,
    (In m (dontcareterms p')
     <-> exists a,
           In a (iterate_mask (bitmap (depends p')))
           /\ build_outputpin_minterm (depends p') a = m
           /\ check_input_combination_is_relevent device dumpdata p' a
              = Ok false)
    /\ (In m (negminterms p')
        <-> exists a data,
              In a (iterate_mask (bitmap (depends p')))
              /\ build_outputpin_minterm (depends p') a = m
              /\ check_input_combination_is_relevent device dumpdata p' a
                 = Ok true
              /\ get_output_pin_data dumpdata p' a = Ok data
              /\ Z.land data (bitmask p') = 0)
    /\ (In m (posminterms p')
        <-> exists a data,
              In a (iterate_mask (bitmap (depends p')))
              /\ build_outputpin_minterm (depends p') a = m
              /\ check_input_combination_is_relevent device dumpdata p' a
                 = Ok true
              /\ get_output_pin_data dumpdata p' a = Ok data
              /\ Z.land data (bitmask p') <> 0).
Proof.
  intros (Hpos & Hneg & Hdc) Hrun Hne m.
  destruct (build_outputpin_equations_lists _ _ _ _ Hrun)
    as (p3 & H34 & T4 & _ & T3 & _).
  assert (Hlist : forall v,
            terms_of v p'
            = map (build_outputpin_minterm (depends p'))
                  (filter (has_verdict device dumpdata p' v)
                          (iterate_mask (bitmap (depends p'))))).
  { intros v. rewrite T4, (T3 Hne v).
    assert (Hnil : terms_of v p = []) by (destruct v as [[|]|]; assumption).
    rewrite Hnil. cbn [app].
    assert (D4 : depends p' = depends p3) by apply H34.
    rewrite D4. f_equal. apply filter_ext. intros a. symmetry.
    now apply has_verdict_same. }
  split; [|split].
  - change (dontcareterms p') with (terms_of None p').
    rewrite Hlist, in_map_iff. split.
    + intros [a [Hm Ha]]. apply filter_In in Ha. destruct Ha as [Ha Hv].
      exists a. split; [assumption|]. split; [assumption|].
      now apply has_verdict_none.
    + intros [a (Ha & Hm & Hc)]. exists a. split; [assumption|].
      apply filter_In. split; [assumption|]. now apply has_verdict_none.
  - change (negminterms p') with (terms_of (Some false) p').
    rewrite Hlist, in_map_iff. split.
    + intros [a [Hm Ha]]. apply filter_In in Ha. destruct Ha as [Ha Hv].
      apply has_verdict_some in Hv. destruct Hv as [Hc [data [Hd Hbit]]].
      exists a, data. apply negb_false_iff, Z.eqb_eq in Hbit. auto.
    + intros [a [data (Ha & Hm & Hc & Hd & Hbit)]]. exists a.
      split; [assumption|]. apply filter_In. split; [assumption|].
      apply has_verdict_some. split; [assumption|]. exists data.
      split; [assumption|]. now apply negb_false_iff, Z.eqb_eq.
  - change (posminterms p') with (terms_of (Some true) p').
    rewrite Hlist, in_map_iff. split.
    + intros [a [Hm Ha]]. apply filter_In in Ha. destruct Ha as [Ha Hv].
      apply has_verdict_some in Hv. destruct Hv as [Hc [data [Hd Hbit]]].
      exists a, data. apply negb_true_iff, Z.eqb_neq in Hbit. auto.
    + intros [a [data (Ha & Hm & Hc & Hd & Hbit)]]. exists a.
      split; [assumption|]. apply filter_In. split; [assumption|].
      apply has_verdict_some. split; [assumption|]. exists data.
      split; [assumption|]. now apply negb_true_iff, Z.eqb_neq.
Qed.

Lemma output_minterms_classified_witness :
  exists a data,
    In a (iterate_mask (bitmap (depends demo_built)))
    /\ build_outputpin_minterm (depends demo_built) a = 1
    /\ check_input_combination_is_relevent demo_device demo_image demo_built a
       = Ok true
    /\ get_output_pin_data demo_image demo_built a = Ok data
    /\ Z.land data (bitmask demo_built) <> 0.
Proof.
  destruct (output_minterms_classified demo_device demo_image demo_output
                                       demo_built) with (m := 1)
    as (_ & _ & [Hpos _]).
  - repeat split.
  - vm_compute. reflexivity.
  - simpl. lia.
  - apply Hpos. simpl. auto.
Defined.

(** X13: A minterm builder that returns on a pin with output-enable
    dependencies has put in the positive output-enable list exactly the
    minterms of the combinations at which toggling the hi-z probe leaves the
    bit of the pin unchanged, and in the negative list those at which it
    changes. *)
Theorem oe_minterms_classified (device : Device) (dumpdata : list Z)
  (p p' : Pin) :
  oeposminterms p = [] -> oenegminterms p = [] ->
  build_outputpin_equations device dumpdata p = Ok p' ->
  bitmap (oe_depends p') <> 0 ->
  forall (m : Z) (b : bool),
    In m (if b then oeposminterms p' else oenegminterms p')
    <-> exists a,
          In a (iterate_mask (bitmap (oe_depends p')))
          /\ build_outputpin_minterm (oe_depends p') a = m
          /\ is_driven dumpdata p' a = Ok b.
Proof.
  intros Hpos Hneg Hrun Hne m b.
  destruct (build_outputpin_equations_lists _ _ _ _ Hrun)
    as (p3 & H34 & _ & O3 & _ & O4).
  assert (E4 : oe_depends p' = oe_depends p3) by apply H34.
  assert (Hdriven : forall a, is_driven dumpdata p' a = is_driven dumpdata p3 a).
  { intros a. unfold is_driven.
    destruct H34 as (_ & Hb & _ & Hm & _). now rewrite Hb, Hm. }
  change (if b then oeposminterms p' else oenegminterms p')
    with (oe_terms_of b p').
  rewrite (O4 Hne b), O3.
  assert (Hnil : oe_terms_of b p = []) by (destruct b; assumption).
  rewrite Hnil. cbn [app]. rewrite E4, in_map_iff.
  assert (Hiff : forall a, drives dumpdata p3 b a = true
                           <-> is_driven dumpdata p' a = Ok b).
  { intros a. rewrite Hdriven. unfold drives.
    destruct (is_driven dumpdata p3 a) as [b'|e].
    - rewrite Bool.eqb_true_iff. split; [now intros -> | congruence].
    - split; intros H; discriminate H. }
  split.
  - intros [a [Hm Ha]]. apply filter_In in Ha. destruct Ha as [Ha Hd].
    exists a. split; [assumption|]. split; [assumption|]. now apply Hiff.
  - intros [a (Ha & Hm & Hd)]. exists a. split; [assumption|].
    apply filter_In. split; [assumption|]. now apply Hiff.
Qed.

Lemma oe_minterms_classified_witness :
  In 1 (oeposminterms demo_built)
  <-> exists a,
        In a (iterate_mask (bitmap (oe_depends demo_built)))
        /\ build_outputpin_minterm (oe_depends demo_built) a = 1
        /\ is_driven demo_image demo_built a = Ok true.
Proof.
  apply (oe_minterms_classified demo_device demo_image demo_output demo_built
                                eq_refl eq_refl)
    with (m := 1) (b := true).
  - vm_compute. reflexivity.
  - simpl. lia.
Defined.

(** ** The products of an equation *)

Lemma get_set_bits_filter (bitcount bits : Z) :
  get_set_bits bitcount bits
  = filter (Z.testbit bits) (map Z.of_nat (seq 0 (Z.to_nat bitcount))).
Proof.
  unfold get_set_bits.
  apply (get_set_bits_loop_spec (Z.to_nat bitcount) bits 0).
Qed.

Lemma product_symbols_loop (pinnames : list string) (bits mask : Z) :
  forall j : nat,
    product_symbols pinnames bits mask (2 ^ Z.of_nat j)
    = map (fun i => if Z.testbit bits i
                    then nth (Z.to_nat i - j) pinnames ""%string
                    else ("!" ++ nth (Z.to_nat i - j) pinnames "")%string)
          (filter (Z.testbit mask)
                  (map Z.of_nat (seq j (List.length pinnames)))).
Proof.
  induction pinnames as [|nm names IH]; intros j; [reflexivity|].
  cbn [product_symbols List.length seq map filter].
  rewrite !land_pow2_eqb by lia. rewrite shiftl_pow2 by lia.
  replace (Z.of_nat j + 1) with (Z.of_nat (S j)) by lia.
  rewrite IH.
  rewrite (map_ext_in
             (fun i => if Z.testbit bits i
                       then nth (Z.to_nat i - S j) names ""%string
                       else ("!" ++ nth (Z.to_nat i - S j) names "")%string)
             (fun i => if Z.testbit bits i
                       then nth (Z.to_nat i - j) (nm :: names) ""%string
                       else ("!" ++ nth (Z.to_nat i - j) (nm :: names) "")%string)).
  2:{ intros i Hi. apply filter_In in Hi. destruct Hi as [Hi _].
      apply in_map_iff in Hi. destruct Hi as [k [<- Hk]]. apply in_seq in Hk.
      rewrite Nat2Z.id. replace (k - j)%nat with (S (k - S j)) by lia.
      reflexivity. }
  destruct (Z.testbit mask (Z.of_nat j)); cbn [negb]; [|reflexivity].
  cbn [map]. rewrite Nat2Z.id, Nat.sub_diag. cbn [nth].
  now destruct (Z.testbit bits (Z.of_nat j)).
Qed.

(** X14: The literals written for a product are those of the pins whose
    numbers form its sort key, in the same order: pin [i] is written when
    bit [i] of the care mask is set, plain when bit [i] of the value is set
    and negated otherwise. *)
Theorem product_symbols_spec (pinnames : list string) (bits mask : Z) :
  product_symbols pinnames bits mask 1
  = map (fun i => if Z.testbit bits i
                  then nth (Z.to_nat i) pinnames ""%string
                  else ("!" ++ nth (Z.to_nat i) pinnames "")%string)
        (get_set_bits (Z.of_nat (List.length pinnames)) mask).
Proof.
  change 1 with (2 ^ Z.of_nat 0). rewrite product_symbols_loop.
  rewrite get_set_bits_filter, Nat2Z.id.
  apply map_ext. intros i. now rewrite Nat.sub_0_r.
Qed.

(** ** The order of the products *)

Lemma tuple_leb_total (a : list Z) :
  forall b, tuple_leb a b = true \/ tuple_leb b a = true.
Proof.
  induction a as [|x a IH]; intros [|y b]; simpl; auto.
  destruct (Z.lt_trichotomy x y) as [H|[H|H]].
  - left. apply orb_true_iff. left. now apply Z.ltb_lt.
  - subst y. rewrite Z.eqb_refl. cbn [andb].
    destruct (IH b) as [->| ->]; [left | right]; apply orb_true_r.
  - right. apply orb_true_iff. left. now apply Z.ltb_lt.
Qed.

Lemma tuple_leb_trans (a : list Z) :
  forall b c,
    tuple_leb a b = true -> tuple_leb b c = true -> tuple_leb a c = true.
Proof.
  induction a as [|x a IH]; intros [|y b] [|z c] H1 H2; simpl in *;
    try congruence.
  rewrite !orb_true_iff, !andb_true_iff, !Z.ltb_lt, !Z.eqb_eq in *.
  destruct H1 as [H1|[H1 H1']], H2 as [H2|[H2 H2']];
    [left; lia | left; lia | left; lia |].
  right. split; [lia|]. eapply IH; eauto.
Qed.

Lemma tuple_leb_antisym (a : list Z) :
  forall b, tuple_leb a b = true -> tuple_leb b a = true -> a = b.
Proof.
  induction a as [|x a IH]; intros [|y b] H1 H2; simpl in *;
    try congruence.
  rewrite !orb_true_iff, !andb_true_iff, !Z.ltb_lt, !Z.eqb_eq in *.
  destruct H1 as [H1|[H1 H1']], H2 as [H2|[H2 H2']]; try lia.
  subst y. f_equal. now apply IH.
Qed.

Section Sorting.

Context {A : Type} (leb : A -> A -> bool).

Hypothesis leb_total : forall x y, leb x y = true \/ leb y x = true.
Hypothesis leb_trans :
  forall x y z, leb x y = true -> leb y z = true -> leb x z = true.

Lemma insert_sorted_ordered (x : A) (l : list A) :
  StronglySorted (fun a b => leb a b = true) l ->
  StronglySorted (fun a b => leb a b = true) (insert_sorted leb x l).
Proof.
  induction 1 as [|y l Hl IH Hy]; simpl.
  - constructor; constructor.
  - destruct (leb x y) eqn:E.
    + constructor; [now constructor|].
      constructor; [assumption|].
      eapply Forall_impl; [|exact Hy]. intros z Hz. now apply (leb_trans x y z).
    + constructor; [assumption|].
      apply Forall_forall. intros z Hz.
      apply (Permutation_in _ (insert_sorted_perm leb x l)) in Hz.
      destruct Hz as [<-|Hz].
      * destruct (leb_total x y); [congruence | assumption].
      * rewrite Forall_forall in Hy. now apply Hy.
Qed.

Lemma sorted_ordered (l : list A) :
  StronglySorted (fun a b => leb a b = true) (sorted leb l).
Proof.
  induction l as [|x l IH]; simpl; [constructor|].
  now apply insert_sorted_ordered.
Qed.

End Sorting.

Lemma sorted_unique {A : Type} (R : A -> A -> Prop) (l1 : list A) :
  StronglySorted R l1 ->
  (forall x y, In x l1 -> In y l1 -> R x y -> R y x -> x = y) ->
  forall l2, StronglySorted R l2 -> Permutation l1 l2 -> l1 = l2.
Proof.
  induction 1 as [|x l1 Hs IH Hx]; intros Hanti l2 H2 Hperm.
  - apply Permutation_nil in Hperm. now subst.
  - destruct H2 as [|y l2 Hs2 Hy].
    + apply Permutation_sym, Permutation_nil in Hperm. discriminate.
    + assert (Hxy : x = y).
      { assert (Hxin : In x (y :: l2))
          by (eapply Permutation_in; [exact Hperm | now left]).
        assert (Hyin : In y (x :: l1))
          by (eapply Permutation_in; [symmetry; exact Hperm | now left]).
        destruct Hxin as [->|Hxin]; [reflexivity|].
        destruct Hyin as [->|Hyin]; [reflexivity|].
        rewrite Forall_forall in Hx, Hy.
        apply Hanti; [now left | now right | now apply Hx | now apply Hy]. }
      subst y. f_equal. apply IH.
      * intros a b Ha Hb. apply Hanti; now right.
      * assumption.
      * eapply Permutation_cons_inv. exact Hperm.
Qed.

(** X15: The equation written does not depend on the order in which the
    minimizer lists the products, as long as no two products care for the
    same set of pins; the sort is stable, so products with the same care set
    keep the order of the minimizer. *)
Theorem equations_order_independent (name : string) (pinnames : list string)
  (products1 products2 : list (Z * Z)) (polarity : Polarity) :
  Permutation products1 products2 ->
  NoDup (map (fun r => get_set_bits (Z.of_nat (List.length pinnames)) (snd r))
             products1) ->
  write_pin_equations name pinnames (SProducts products1) polarity
  = write_pin_equations name pinnames (SProducts products2) polarity.
Proof.
  intros Hperm Hkeys.
  set (key := fun r : Z * Z =>
                get_set_bits (Z.of_nat (List.length pinnames)) (snd r)) in *.
  set (leb := fun r1 r2 : Z * Z => tuple_leb (key r1) (key r2)).
  assert (Hsorted : forall l,
            StronglySorted (fun a b => leb a b = true) (sorted leb l)).
  { intros l. apply sorted_ordered.
    - intros x y. apply tuple_leb_total.
    - intros x y z. apply tuple_leb_trans. }
  assert (Heq : sorted leb products1 = sorted leb products2).
  { apply (sorted_unique (fun a b => leb a b = true)).
    - apply Hsorted.
    - intros x y Hx Hy Hxy Hyx.
      apply (Permutation_in _ (sorted_perm leb products1)) in Hx, Hy.
      apply (NoDup_map_injective key products1); try assumption.
      now apply tuple_leb_antisym.
    - apply Hsorted.
    - eapply Permutation_trans; [apply sorted_perm|].
      eapply Permutation_trans; [exact Hperm|].
      symmetry. apply sorted_perm. }
  exact (f_equal
           (fun result =>
              write_products
                (match polarity with
                 | Positive => name
                 | _ => (NOTSTR ++ name)%string
                 end)
                pinnames result 0 (Z.of_nat (List.length result)) true)
           Heq).
Qed.

Lemma equations_order_independent_witness :
  write_pin_equations "o" ["a"; "b"]%string (SProducts [(1, 1); (2, 3)])
                      Positive
  = write_pin_equations "o" ["a"; "b"]%string (SProducts [(2, 3); (1, 1)])
                        Positive.
Proof.
  apply equations_order_independent.
  - apply perm_swap.
  - vm_compute. repeat constructor; simpl; intuition discriminate.
Defined.

(** When two products care for the same pins the order of the minimizer
    shows in the file. *)
Example equations_order_dependent :
  Permutation [(1, 3); (2, 3)] [(2, 3); (1, 3)]
  /\ write_pin_equations "o" ["a"; "b"]%string (SProducts [(1, 3); (2, 3)])
                         Positive
     <> write_pin_equations "o" ["a"; "b"]%string (SProducts [(2, 3); (1, 3)])
                            Positive.
Proof.
  split; [apply perm_swap|]. vm_compute. discriminate.
Qed.

(** ** Errors of the output equations *)

Lemma write_polarity_equations_raises (name : string) (pinnames : list string)
  (pos neg : simplified) (polarity : Polarity) (e : exn) :
  write_polarity_equations name pinnames pos neg polarity = Raise e ->
  e = TypeError /\ polarity = Auto
  /\ (exists ps, pos = SProducts ps) /\ (neg = STrue \/ neg = SFalse).
Proof.
  destruct polarity, pos as [| |ps], neg as [| |ns]; simpl; intros H;
    try discriminate H;
    try (destruct (Z.of_nat (List.length ps) <=? Z.of_nat (List.length ns));
         discriminate H);
    injection H as <-; eauto 6.
Qed.

Lemma write_pin_output_equation_raises
  (simplify : Z -> list Z -> list Z -> simplified) (args : Args) (p : Pin)
  (e : exn) :
  write_pin_output_equation simplify args p = Raise e ->
  e = TypeError /\ polarity args = Auto /\ bitmap (depends p) <> 0
  /\ (exists ps,
        simplify_minterms simplify (pinnames (depends p)) (posminterms p)
                          (dontcareterms p) = SProducts ps)
  /\ (simplify_minterms simplify (pinnames (depends p)) (negminterms p)
                        (dontcareterms p) = STrue
      \/ simplify_minterms simplify (pinnames (depends p)) (negminterms p)
                           (dontcareterms p) = SFalse).
Proof.
  unfold write_pin_output_equation.
  destruct (bitmap (depends p) =? 0) eqn:E.
  - destruct (seenhigh p); [discriminate|].
    destruct (seenlow p); discriminate.
  - apply Z.eqb_neq in E. cbv zeta.
    destruct (write_polarity_equations _ _ _ _ _) as [eqs|e'] eqn:Hw; simpl;
      [discriminate|].
    intros H. injection H as <-.
    apply write_polarity_equations_raises in Hw. tauto.
Qed.

(** X16: The output equations are always written under the polarities
    [both], [positive] and [negative]. Under [auto] the writer can fail,
    with a [TypeError] only, and only on a pin with dependencies whose
    positive cover is a list of products while its negative cover is a
    literal. *)
Theorem output_equations_error
  (simplify : Z -> list Z -> list Z -> simplified) (args : Args)
  (outputpins : list Pin) :
  (polarity args <> Auto ->
   exists writes,
     write_equations_pin_output_equations simplify args outputpins
     = Ok writes)
  /\ forall e,
       write_equations_pin_output_equations simplify args outputpins
       = Raise e ->
       e = TypeError /\ polarity args = Auto
       /\ exists p ps,
            In p outputpins /\ bitmap (depends p) <> 0
            /\ simplify_minterms simplify (pinnames (depends p))
                                 (posminterms p) (dontcareterms p)
               = SProducts ps
            /\ (simplify_minterms simplify (pinnames (depends p))
                                  (negminterms p) (dontcareterms p) = STrue
                \/ simplify_minterms simplify (pinnames (depends p))
                                     (negminterms p) (dontcareterms p)
                   = SFalse).
Proof.
  unfold write_equations_pin_output_equations. split.
  - intros Hpol.
    assert (Hall : exists eqs,
               map_result (write_pin_output_equation simplify args) outputpins
               = Ok eqs).
    { apply map_result_Ok_iff, Forall_forall. intros p _.
      destruct (write_pin_output_equation simplify args p) as [w|e] eqn:Hp;
        [now exists w|].
      apply write_pin_output_equation_raises in Hp. tauto. }
    destruct Hall as [eqs ->]. simpl. eexists. reflexivity.
  - intros e Hrun.
    destruct (map_result (write_pin_output_equation simplify args) outputpins)
      as [eqs|e'] eqn:Hmap; simpl in Hrun; [discriminate|].
    injection Hrun as <-. apply map_result_raises in Hmap.
    destruct Hmap as [p [Hin Hp]].
    apply write_pin_output_equation_raises in Hp.
    destruct Hp as (He & Hpol & Hne & [ps Hpos] & Hneg).
    split; [assumption|]. split; [assumption|]. exists p, ps. tauto.
Qed.

Lemma output_equations_error_witness :
  exists writes,
    write_equations_pin_output_equations demo_simplify
      (mkArgs Positive Auto) [demo_built] = Ok writes.
Proof.
  apply (proj1 (output_equations_error demo_simplify (mkArgs Positive Auto)
                                       [demo_built])).
  simpl. discriminate.
Defined.

(** ** The pin mappings *)

Lemma write_pin_alias_cases (device : Device) (outputpins : list Pin)
  (item : string * string) :
  match palpinnum_to_epromdatabitpos device (fst item) with
  | Some idx =>
      if idx <? Z.of_nat (List.length outputpins)
      then exists line, write_pin_alias device outputpins item = Ok [line]
      else write_pin_alias device outputpins item = Raise IndexError
  | None => exists line, write_pin_alias device outputpins item = Ok [line]
  end.
Proof.
  destruct item as [number nm]. unfold write_pin_alias. cbn [fst].
  destruct (palpinnum_to_epromdatabitpos device number) as [idx|] eqn:Hidx;
    [|eexists; reflexivity].
  assert (Hle : 0 <= idx).
  { unfold palpinnum_to_epromdatabitpos in Hidx.
    destruct (py_int number); [|discriminate].
    apply list_index_Some in Hidx. tauto. }
  destruct (idx <? Z.of_nat (List.length outputpins)) eqn:E.
  - apply Z.ltb_lt in E.
    destruct (py_getitem_in_range outputpins idx) as [p [Hget _]]; [lia|].
    rewrite Hget. simpl. eexists. reflexivity.
  - apply Z.ltb_ge in E. now rewrite py_getitem_beyond by lia.
Qed.

Lemma length_concat_singletons {A B : Type} (l : list A) (ls : list (list B)) :
  Forall2 (fun _ x => List.length x = 1%nat) l ls ->
  List.length (List.concat ls) = List.length l.
Proof.
  induction 1 as [|a x l ls Hx _ IH]; simpl; [reflexivity|].
  rewrite length_app, Hx, IH. reflexivity.
Qed.

(** X17: For a profile that writes its pin numbers in ASCII characters,
    the pin mappings are written exactly when every named pin that is a
    data pin stands, in the list of data pins, at a position below the
    number of output pins; the only error is an [IndexError]. The section
    then holds one line per named pin between its title and an empty line. *)
Theorem pin_aliases_written (device : Device)
  (pinnames : list (string * string)) (outputpins : list Pin) :
  Forall (fun item => is_ascii (fst item) = true) pinnames ->
  ((exists lines,
      write_equations_pin_aliases device pinnames outputpins = Ok lines)
   <-> forall item idx,
         In item pinnames ->
         palpinnum_to_epromdatabitpos device (fst item) = Some idx ->
         idx < Z.of_nat (List.length outputpins))
  /\ (forall lines,
        write_equations_pin_aliases device pinnames outputpins = Ok lines ->
        List.length lines = (List.length pinnames + 4)%nat)
  /\ (forall e,
        write_equations_pin_aliases device pinnames outputpins = Raise e ->
        e = IndexError).
Proof.
  intros _. unfold write_equations_pin_aliases. split; [|split].
  - split.
    + intros [lines Hrun]. apply bind_Ok in Hrun.
      destruct Hrun as [ls [Hls _]].
      assert (Hall : Forall (fun x => exists y,
                               write_pin_alias device outputpins x = Ok y)
                            pinnames)
        by (apply map_result_Ok_iff; now exists ls).
      intros item idx Hin Hidx. rewrite Forall_forall in Hall.
      destruct (Hall item Hin) as [y Hy].
      pose proof (write_pin_alias_cases device outputpins item) as Hc.
      rewrite Hidx in Hc.
      destruct (idx <? Z.of_nat (List.length outputpins)) eqn:E;
        [now apply Z.ltb_lt in E | congruence].
    + intros Hall.
      assert (Hmap : exists ls,
                 map_result (write_pin_alias device outputpins) pinnames
                 = Ok ls).
      { apply map_result_Ok_iff, Forall_forall. intros item Hin.
        pose proof (write_pin_alias_cases device outputpins item) as Hc.
        destruct (palpinnum_to_epromdatabitpos device (fst item))
          as [idx|] eqn:Hidx.
        - specialize (Hall item idx Hin Hidx). apply Z.ltb_lt in Hall.
          rewrite Hall in Hc. destruct Hc as [line Hline]. eauto.
        - destruct Hc as [line Hline]. eauto. }
      destruct Hmap as [ls ->]. simpl. eexists. reflexivity.
  - intros lines Hrun. apply bind_Ok in Hrun.
    destruct Hrun as [ls [Hls Hrun]]. injection Hrun as <-.
    assert (H2 : Forall2 (fun _ x => List.length x = 1%nat) pinnames ls).
    { eapply map_result_Forall2; [|exact Hls]. intros item y _ Hy.
      pose proof (write_pin_alias_cases device outputpins item) as Hc.
      destruct (palpinnum_to_epromdatabitpos device (fst item)) as [idx|].
      - destruct (idx <? Z.of_nat (List.length outputpins));
          [|congruence].
        destruct Hc as [line Hline]. rewrite Hline in Hy.
        now injection Hy as <-.
      - destruct Hc as [line Hline]. rewrite Hline in Hy.
        now injection Hy as <-. }
    cbn [List.length].
    rewrite length_app, (length_concat_singletons _ _ H2). simpl. lia.
  - intros e Hrun.
    destruct (map_result (write_pin_alias device outputpins) pinnames)
      as [ls|e'] eqn:Hmap; simpl in Hrun; [discriminate|].
    injection Hrun as <-. apply map_result_raises in Hmap.
    destruct Hmap as [item [_ Hitem]].
    pose proof (write_pin_alias_cases device outputpins item) as Hc.
    destruct (palpinnum_to_epromdatabitpos device (fst item)) as [idx|].
    + destruct (idx <? Z.of_nat (List.length outputpins)).
      * destruct Hc as [line Hline]. congruence.
      * congruence.
    + destruct Hc as [line Hline]. congruence.
Qed.

Lemma pin_aliases_written_witness :
  exists lines,
    write_equations_pin_aliases demo_device (pal_pin_names demo_device)
                                [demo_built] = Ok lines
    /\ List.length lines
       = (List.length (pal_pin_names demo_device) + 4)%nat.
Proof.
  destruct (write_equations_pin_aliases demo_device (pal_pin_names demo_device)
                                        [demo_built]) as [lines|e] eqn:H;
    [|vm_compute in H; discriminate].
  exists lines. split; [reflexivity|].
  assert (Hkeys : Forall (fun item => is_ascii (fst item) = true)
                         (pal_pin_names demo_device))
    by (repeat constructor).
  exact (proj1 (proj2 (pin_aliases_written demo_device
                         (pal_pin_names demo_device) [demo_built] Hkeys))
               lines H).
Defined.

Lemma inputpins_built_iff_witness :
  exists pins, build_inputpins_configuration demo_device = Ok pins.
Proof.
  apply (proj1 (inputpins_built_iff demo_device)).
  intros k Hk. simpl in Hk.
  destruct k as [|[|[|k]]]; [| | |lia]; eexists; (split; [reflexivity|]);
    vm_compute; tauto.
Defined.

(** ** Reading the dump *)

Lemma read_loop_fuel_enough (databytes : Z) (byteorder : string) :
  forall fuel rest, (List.length rest < fuel)%nat ->
    exists r, read_loop fuel rest databytes byteorder = Some r.
Proof.
  induction fuel as [|fuel IH]; intros rest Hfuel; [lia|].
  cbn [read_loop]. unfold file_read.
  destruct (databytes <? -1); [eexists; reflexivity|].
  destruct (databytes =? -1).
  - destruct rest as [|b rest]; cbv beta iota; [eexists; reflexivity|].
    destruct (int_from_bytes (b :: rest) byteorder) as [w|e];
      [|eexists; reflexivity].
    destruct (IH []) as [r Hr]; [simpl in *; lia|].
    rewrite Hr. destruct r; eexists; reflexivity.
  - destruct (firstn (Z.to_nat databytes) rest) as [|d data] eqn:Hdata;
      cbv beta iota; [eexists; reflexivity|].
    destruct (int_from_bytes (d :: data) byteorder) as [w|e];
      [|eexists; reflexivity].
    destruct (IH (skipn (Z.to_nat databytes) rest)) as [r Hr].
    { rewrite length_skipn.
      assert (Hlen : List.length (firstn (Z.to_nat databytes) rest)
                     = S (List.length data)) by now rewrite Hdata.
      rewrite length_firstn in Hlen. lia. }
    rewrite Hr. destruct r; eexists; reflexivity.
Qed.

Lemma from_little_range (data : list Byte.byte) :
  0 <= from_little data < 256 ^ Z.of_nat (List.length data).
Proof.
  induction data as [|b data IH]; [simpl; lia|].
  cbn [from_little List.length]. rewrite Nat2Z.inj_succ, Z.pow_succ_r by lia.
  pose proof (Byte.to_N_bounded b). lia.
Qed.

Lemma int_from_bytes_valid (data : list Byte.byte) (byteorder : string) :
  valid_byteorder byteorder ->
  exists w, int_from_bytes data byteorder = Ok w
            /\ 0 <= w < 256 ^ Z.of_nat (List.length data).
Proof.
  intros [-> | ->]; unfold int_from_bytes; cbn [String.eqb Ascii.eqb Bool.eqb];
    eexists; (split; [reflexivity|]).
  - apply from_little_range.
  - rewrite <- (length_rev data). apply from_little_range.
Qed.

Lemma ceil_step (databytes len : Z) :
  0 < databytes -> 1 <= len ->
  (Z.max 0 (len - databytes) + databytes - 1) / databytes + 1
  = (len + databytes - 1) / databytes.
Proof.
  intros Hdb Hlen. destruct (Z.le_gt_cases databytes len) as [Hle|Hgt].
  - rewrite Z.max_r by lia.
    replace (len + databytes - 1)
      with (len - databytes + databytes - 1 + 1 * databytes) by lia.
    rewrite Z.div_add by lia. reflexivity.
  - rewrite Z.max_l by lia. rewrite (Z.div_small (0 + databytes - 1)) by lia.
    apply (Z.div_unique_pos _ databytes 1 (len - 1)); lia.
Qed.

Lemma ceil_iff (databytes len q : Z) :
  0 < databytes ->
  ((len + databytes - 1) / databytes = q
   <-> (q - 1) * databytes < len <= q * databytes).
Proof.
  intros Hdb.
  pose proof (Z.div_mod (len + databytes - 1) databytes ltac:(lia)) as Hdm.
  pose proof (Z.mod_pos_bound (len + databytes - 1) databytes Hdb) as Hmod.
  split.
  - intros Hq. rewrite Hq in Hdm. lia.
  - intros Hrange. symmetry.
    apply (Z.div_unique_pos _ databytes q (len + databytes - 1 - databytes * q));
      lia.
Qed.

Lemma read_loop_words (databytes : Z) (byteorder : string) :
  0 < databytes -> valid_byteorder byteorder ->
  forall fuel rest, (List.length rest < fuel)%nat ->
    exists words,
      read_loop fuel rest databytes byteorder = Some (Ok words)
      /\ Z.of_nat (List.length words)
         = (Z.of_nat (List.length rest) + databytes - 1) / databytes
      /\ Forall (fun w => 0 <= w < 256 ^ databytes) words.
Proof.
  intros Hdb Horder. induction fuel as [|fuel IH]; intros rest Hfuel; [lia|].
  cbn [read_loop]. unfold file_read.
  destruct (databytes <? -1) eqn:E1; [apply Z.ltb_lt in E1; lia|].
  destruct (databytes =? -1) eqn:E2; [apply Z.eqb_eq in E2; lia|].
  destruct rest as [|b rest].
  - rewrite firstn_nil. exists []. split; [reflexivity|].
    split; [|constructor]. simpl. symmetry. apply Z.div_small. lia.
  - destruct (firstn (Z.to_nat databytes) (b :: rest)) as [|d data] eqn:Hdata.
    { exfalso.
      assert (Hlen : List.length (firstn (Z.to_nat databytes) (b :: rest))
                     = 0%nat) by now rewrite Hdata.
      rewrite length_firstn in Hlen. simpl in Hlen. lia. }
    cbv beta iota.
    destruct (int_from_bytes_valid (d :: data) byteorder Horder)
      as [w [Hw Hrange]].
    rewrite Hw.
    assert (Hdlen : (List.length (d :: data) <= Z.to_nat databytes)%nat).
    { rewrite <- Hdata, length_firstn. lia. }
    destruct (IH (skipn (Z.to_nat databytes) (b :: rest)))
      as [ws (Hrun & Hlen & Hall)].
    { rewrite length_skipn. cbn [List.length] in *. lia. }
    rewrite Hrun. exists (w :: ws). split; [reflexivity|]. split.
    + cbn [List.length] in *. rewrite Nat2Z.inj_succ, Hlen, length_skipn.
      cbn [List.length].
      replace (Z.of_nat (S (List.length rest) - Z.to_nat databytes))
        with (Z.max 0 (Z.of_nat (S (List.length rest)) - databytes)) by lia.
      rewrite <- (ceil_step databytes (Z.of_nat (S (List.length rest))))
        by lia.
      lia.
    + constructor; [|assumption]. split; [lia|].
      eapply Z.lt_le_trans; [apply Hrange|]. apply Z.pow_le_mono_r; lia.
Qed.

Lemma read_eprom_dump_zero (device : Device) (byteorder : string)
  (file : list Byte.byte) :
  Z.quot (eprom_data_width device) 8 = 0 ->
  read_eprom_dump device byteorder file = Ok [].
Proof.
  intros Hdb. unfold read_eprom_dump. rewrite Hdb.
  cbn [read_loop]. unfold file_read. cbn. unfold check_dump_size.
  rewrite Hdb. cbn.
  destruct (eprom_address_width device <? 0); [reflexivity|].
  now rewrite Z.mul_0_r.
Qed.

Lemma read_eprom_dump_checked (device : Device) (byteorder : string)
  (file : list Byte.byte) :
  0 <= eprom_address_width device -> 0 < databytes_of device ->
  valid_byteorder byteorder ->
  exists words,
    read_loop (S (List.length file)) file (databytes_of device) byteorder
    = Some (Ok words)
    /\ Forall (fun w => 0 <= w < 256 ^ databytes_of device) words
    /\ (Z.of_nat (List.length words) = 2 ^ eprom_address_width device
        <-> (2 ^ eprom_address_width device - 1) * databytes_of device
            < Z.of_nat (List.length file)
            <= 2 ^ eprom_address_width device * databytes_of device)
    /\ read_eprom_dump device byteorder file
       = if Z.of_nat (List.length words) =? 2 ^ eprom_address_width device
         then Ok words
         else Raise (RuntimeError
                       ("File with "
                        ++ py_str (2 ^ eprom_address_width device
                                   * databytes_of device)
                        ++ " bytes expected")).
Proof.
  intros Hw Hdb Horder.
  destruct (read_loop_words _ _ Hdb Horder (S (List.length file)) file)
    as [words (Hrun & Hlen & Hall)]; [lia|].
  exists words. split; [exact Hrun|]. split; [exact Hall|]. split.
  - rewrite Hlen. now apply ceil_iff.
  - unfold read_eprom_dump. fold (databytes_of device). rewrite Hrun.
    cbn [bind]. unfold check_dump_size. fold (databytes_of device).
    destruct (eprom_address_width device <? 0) eqn:E;
      [apply Z.ltb_lt in E; lia|].
    cbv zeta.
    destruct (Z.of_nat (List.length words) =? 2 ^ eprom_address_width device)
      eqn:E1.
    + apply Z.eqb_eq in E1. rewrite E1, Z.eqb_refl. reflexivity.
    + apply Z.eqb_neq in E1.
      destruct (Z.of_nat (List.length words) * databytes_of device
                =? 2 ^ eprom_address_width device * databytes_of device)
        eqn:E2; [|reflexivity].
      apply Z.eqb_eq in E2. apply Z.mul_cancel_r in E2; [contradiction | lia].
Qed.



(** X19: A data width from 0 to 7 bits gives words of no byte: every read is
    empty, every dump is read as the empty list, and the size check passes
    whatever the size of the file is. *)
Theorem read_eprom_dump_narrow (device : Device) (byteorder : string)
  (file : list Byte.byte) :
  0 <= eprom_data_width device < 8 ->
  read_eprom_dump device byteorder file = Ok [].
Proof.
  intros Hwidth. apply read_eprom_dump_zero. now apply Z.quot_small.
Qed.

Lemma read_eprom_dump_narrow_witness :
  read_eprom_dump (mkDevice "narrow" 3 4 1 [2; 3; 12] [12] [] 1) "little"
                  (repeat Byte.x01 5)
  = Ok [].
Proof.
  apply read_eprom_dump_narrow. simpl. lia.
Defined.

(** ** Decoding what was dumped *)

Lemma byte_of_value (v : Z) :
  0 <= v < 256 -> Z.of_N (Byte.to_N (byte_of v)) = v.
Proof.
  intros Hv. unfold byte_of.
  destruct (Byte.of_N (Z.to_N v)) as [b|] eqn:E.
  - apply Byte.to_of_N in E. rewrite E. lia.
  - apply Byte.of_N_None_iff in E. lia.
Qed.

Lemma length_to_little (n : nat) : forall w, List.length (to_little n w) = n.
Proof.
  induction n as [|n IH]; intros w; simpl; [reflexivity | now rewrite IH].
Qed.

Lemma from_to_little (n : nat) :
  forall w, 0 <= w < 256 ^ Z.of_nat n -> from_little (to_little n w) = w.
Proof.
  induction n as [|n IH]; intros w Hw.
  - change (256 ^ Z.of_nat 0) with 1 in Hw. simpl. lia.
  - cbn [to_little from_little].
    rewrite byte_of_value by (apply Z.mod_pos_bound; lia).
    rewrite Nat2Z.inj_succ, Z.pow_succ_r in Hw by lia.
    rewrite IH.
    + pose proof (Z.div_mod w 256 ltac:(lia)). lia.
    + split; [apply Z.div_pos; lia | apply Z.div_lt_upper_bound; lia].
Qed.

Lemma length_word_bytes (byteorder : string) (n : nat) (w : Z) :
  List.length (word_bytes byteorder n w) = n.
Proof.
  unfold word_bytes. destruct (String.eqb byteorder "little");
    [|rewrite length_rev]; apply length_to_little.
Qed.

Lemma int_from_word_bytes (byteorder : string) (n : nat) (w : Z) :
  valid_byteorder byteorder -> 0 <= w < 256 ^ Z.of_nat n ->
  int_from_bytes (word_bytes byteorder n w) byteorder = Ok w.
Proof.
  intros [-> | ->] Hw; unfold int_from_bytes, word_bytes;
    cbn [String.eqb Ascii.eqb Bool.eqb]; [|rewrite rev_involutive];
    now rewrite from_to_little.
Qed.

Lemma firstn_skipn_exact {A : Type} (l l' : list A) (n : nat) :
  List.length l = n -> firstn n (l ++ l') = l /\ skipn n (l ++ l') = l'.
Proof.
  intros <-. induction l as [|a l [IH1 IH2]]; simpl; [now split|].
  split; [now rewrite IH1 | assumption].
Qed.

Lemma length_dump_of_ge (byteorder : string) (n : nat) (words : list Z) :
  (1 <= n)%nat ->
  (List.length words <= List.length (dump_of byteorder n words))%nat.
Proof.
  intros Hn. unfold dump_of. induction words as [|w words IH]; simpl; [lia|].
  rewrite length_app, length_word_bytes. lia.
Qed.

Lemma read_loop_dump (databytes : Z) (byteorder : string) :
  0 < databytes -> valid_byteorder byteorder ->
  forall words fuel,
    (List.length words < fuel)%nat ->
    Forall (fun w => 0 <= w < 256 ^ databytes) words ->
    read_loop fuel (dump_of byteorder (Z.to_nat databytes) words) databytes
              byteorder
    = Some (Ok words).
Proof.
  intros Hdb Horder.
  induction words as [|w words IH]; intros fuel Hfuel Hall;
    (destruct fuel as [|fuel]; [simpl in Hfuel; lia|]);
    cbn [read_loop]; unfold file_read;
    (destruct (databytes <? -1) eqn:E1; [apply Z.ltb_lt in E1; lia|]);
    (destruct (databytes =? -1) eqn:E2; [apply Z.eqb_eq in E2; lia|]).
  - unfold dump_of. cbn [map List.concat]. now rewrite firstn_nil.
  - inversion Hall as [|w' words' Hw Hall']; subst.
    unfold dump_of. cbn [map List.concat].
    fold (dump_of byteorder (Z.to_nat databytes) words).
    destruct (firstn_skipn_exact
                (word_bytes byteorder (Z.to_nat databytes) w)
                (dump_of byteorder (Z.to_nat databytes) words)
                (Z.to_nat databytes)
                (length_word_bytes _ _ _)) as [-> ->].
    pose proof (length_word_bytes byteorder (Z.to_nat databytes) w) as Hlen.
    remember (word_bytes byteorder (Z.to_nat databytes) w) as wb eqn:Hwb.
    destruct wb as [|d data]; [simpl in Hlen; lia|].
    cbv beta iota. rewrite Hwb.
    rewrite int_from_word_bytes;
      [|assumption | now rewrite Z2Nat.id by lia].
    rewrite IH; [reflexivity | simpl in Hfuel; lia | assumption].
Qed.

(** X20: The reader decodes what was dumped: the file that holds the [2 ^ A]
    words of an image, each on [databytes] bytes in the byte order of the
    profile, is read back as these words. *)
Theorem read_eprom_dump_round_trip (device : Device) (byteorder : string)
  (words : list Z) :
  0 <= eprom_address_width device -> 0 < databytes_of device ->
  valid_byteorder byteorder ->
  Z.of_nat (List.length words) = 2 ^ eprom_address_width device ->
  Forall (fun w => 0 <= w < 256 ^ databytes_of device) words ->
  read_eprom_dump device byteorder
    (dump_of byteorder (Z.to_nat (databytes_of device)) words)
  = Ok words.
Proof.
  intros Hw Hdb Horder Hlen Hall.
  unfold read_eprom_dump. fold (databytes_of device).
  rewrite read_loop_dump; try assumption.
  2:{ pose proof (length_dump_of_ge byteorder (Z.to_nat (databytes_of device))
                                    words ltac:(lia)). lia. }
  cbn [bind]. unfold check_dump_size. fold (databytes_of device).
  destruct (eprom_address_width device <? 0) eqn:E;
    [apply Z.ltb_lt in E; lia|].
  cbv zeta. now rewrite Hlen, Z.eqb_refl.
Qed.

Lemma read_eprom_dump_round_trip_witness :
  read_eprom_dump (mkDevice "wide" 1 16 1 [2] [12] [] 1) "big"
                  (dump_of "big" 2 [258; 772])
  = Ok [258; 772].
Proof.
  apply (read_eprom_dump_round_trip (mkDevice "wide" 1 16 1 [2] [12] [] 1)
                                    "big" [258; 772]).
  - simpl. lia.
  - vm_compute. reflexivity.
  - now right.
  - reflexivity.
  - repeat constructor; vm_compute; congruence.
Defined.

(** ** Selecting the device *)

Lemma find_first {A : Type} (f : A -> bool) (l : list A) (x : A) :
  find f l = Some x
  <-> exists before after,
        l = before ++ x :: after /\ f x = true
        /\ Forall (fun y => f y = false) before.
Proof.
  induction l as [|y l IH]; simpl.
  - split; [discriminate|]. intros (b & a & Hl & _). destruct b; discriminate.
  - destruct (f y) eqn:E.
    + split.
      * intros H. injection H as <-. exists [], l. auto.
      * intros (b & a & Hl & Hx & Hb). destruct b as [|z b]; simpl in Hl.
        -- now injection Hl as ->.
        -- injection Hl as -> _. inversion Hb; congruence.
    + rewrite IH. split; intros (b & a & Hl & Hx & Hb).
      * exists (y :: b), a. subst l. auto.
      * destruct b as [|z b]; simpl in Hl; injection Hl as Hy Hl.
        -- congruence.
        -- exists b, a. inversion Hb; auto.
Qed.

(** X21: Auto-detection returns the first profile, in the order of the
    profiles file, whose expected size is the size of the dump, and fails
    with a [RuntimeError] that names this size when there is none. A device
    type other than [auto] is looked up by name, whatever the size of the
    dump is. *)
Theorem select_device_spec (devices : list (string * Device))
  (devicetype : string) (dumpsize : Z) :
  (forall device,
     select_device devices "auto" dumpsize = Ok device
     <-> exists name before after,
           devices = before ++ (name, device) :: after
           /\ expected_size_is device dumpsize = true
           /\ Forall (fun item => expected_size_is (snd item) dumpsize = false)
                     before)
  /\ (Forall (fun item => expected_size_is (snd item) dumpsize = false) devices ->
      select_device devices "auto" dumpsize
      = Raise (RuntimeError
                 ("Device detection failed or bad dump, device with "
                  ++ py_str dumpsize ++ " 'eprom_filesize' expected")))
  /\ (devicetype <> "auto"%string ->
      forall othersize,
        select_device devices devicetype othersize
        = select_device devices devicetype dumpsize).
Proof.
  split; [|split].
  - intros device. unfold select_device. cbn [String.eqb Ascii.eqb Bool.eqb negb].
    destruct (find (fun item => expected_size_is (snd item) dumpsize) devices)
      as [item|] eqn:Hfind.
    + apply find_first in Hfind. destruct Hfind as (b & a & Hl & Hx & Hb).
      split.
      * intros H. injection H as <-. exists (fst item), b, a.
        now rewrite <- surjective_pairing.
      * intros (nm & b' & a' & Hl' & Hx' & Hb').
        assert (Hfind' : find (fun item => expected_size_is (snd item) dumpsize)
                              devices = Some (nm, device)).
        { apply find_first. exists b', a'. auto. }
        assert (Hfind : find (fun item => expected_size_is (snd item) dumpsize)
                             devices = Some item).
        { apply find_first. exists b, a. auto. }
        rewrite Hfind in Hfind'. now injection Hfind' as ->.
    + split; [discriminate|]. intros (nm & b & a & Hl & Hx & Hb).
      assert (Hfind' : find (fun item => expected_size_is (snd item) dumpsize)
                            devices = Some (nm, device)).
      { apply find_first. exists b, a. auto. }
      congruence.
  - intros Hall. unfold select_device.
    cbn [String.eqb Ascii.eqb Bool.eqb negb].
    destruct (find (fun item => expected_size_is (snd item) dumpsize) devices)
      as [item|] eqn:Hfind; [|reflexivity].
    apply find_some in Hfind. destruct Hfind as [Hin Hx].
    rewrite Forall_forall in Hall. rewrite (Hall item Hin) in Hx. discriminate.
  - intros Hname othersize. unfold select_device.
    destruct (String.eqb_spec devicetype "auto"); [contradiction|].
    reflexivity.
Qed.

Lemma select_device_spec_witness :
  select_device [("small"%string, feedback_device); ("demo"%string, demo_device)] "auto"%string 8
  = Ok demo_device.
Proof.
  apply (proj1 (select_device_spec
                  [("small"%string, feedback_device); ("demo"%string, demo_device)]
                  "auto"%string 8)).
  exists "demo"%string, [("small"%string, feedback_device)], [].
  split; [reflexivity|]. split; [reflexivity|].
  repeat constructor.
Defined.

(** X22: A dump whose device was found by auto-detection is accepted by the
    reader, for a profile with a non-negative address width and a valid byte
    order: the words read, times the bytes of a word, make up the size of
    the file. *)
Theorem auto_selected_device_reads (devices : list (string * Device))
  (file : list Byte.byte) (device : Device) (byteorder : string) :
  select_device devices "auto" (Z.of_nat (List.length file)) = Ok device ->
  0 <= eprom_address_width device -> valid_byteorder byteorder ->
  exists words,
    read_eprom_dump device byteorder file = Ok words
    /\ Z.of_nat (List.length words) * databytes_of device
       = Z.of_nat (List.length file).
Proof.
  intros Hsel Hw Horder. unfold select_device in Hsel.
  cbn [String.eqb Ascii.eqb Bool.eqb negb] in Hsel.
  destruct (find (fun item => expected_size_is (snd item)
                                (Z.of_nat (List.length file))) devices)
    as [item|] eqn:Hfind; [|discriminate].
  injection Hsel as <-. apply find_some in Hfind. destruct Hfind as [_ Hsize].
  unfold expected_size_is in Hsize.
  destruct (eprom_address_width (snd item) <? 0) eqn:E;
    [apply Z.ltb_lt in E; lia|].
  apply Z.eqb_eq in Hsize. fold (databytes_of (snd item)) in Hsize.
  pose proof (Z.pow_pos_nonneg 2 (eprom_address_width (snd item))
                               ltac:(lia) Hw) as Hpow.
  destruct (Z.lt_trichotomy (databytes_of (snd item)) 0) as [Hneg|[Hzero|Hpos]].
  - pose proof (Z.mul_pos_neg _ _ Hpow Hneg). lia.
  - exists []. split; [now apply read_eprom_dump_zero|].
    rewrite Hzero in *. lia.
  - destruct (read_eprom_dump_checked (snd item) byteorder file Hw Hpos Horder)
      as [words (_ & _ & Hiff & Hrun)].
    assert (Hlen : Z.of_nat (List.length words)
                   = 2 ^ eprom_address_width (snd item)).
    { apply Hiff. rewrite <- Hsize. split; [|lia].
      rewrite Z.mul_sub_distr_r. lia. }
    exists words. rewrite Hrun, Hlen, Z.eqb_refl. now split.
Qed.

Lemma auto_selected_device_reads_witness :
  exists words,
    read_eprom_dump demo_device "little" (repeat Byte.x01 8) = Ok words
    /\ Z.of_nat (List.length words) * databytes_of demo_device
       = Z.of_nat (List.length (repeat Byte.x01 8)).
Proof.
  apply (auto_selected_device_reads
           [("small"%string, feedback_device); ("demo"%string, demo_device)]).
  - vm_compute. reflexivity.
  - simpl. lia.
  - now left.
Defined.

(** ** Errors of the minterm builder *)

Lemma or_of_lt_pow2 (bs : list Z) (w : Z) :
  0 <= w -> Forall (fun b => 0 <= b < 2 ^ w) bs -> 0 <= or_of bs < 2 ^ w.
Proof.
  intros Hw. induction 1 as [|b bs Hb _ IH]; simpl.
  - split; [lia | apply Z.pow_pos_nonneg; lia].
  - now apply lor_lt_pow2.
Qed.

Lemma sort_dependencies_Ok (d : PinDependencies) :
  List.length (pinnames d) = List.length (bits d) ->
  exists d', sort_dependencies d = Ok d'.
Proof.
  intros Hlen. unfold sort_dependencies.
  destruct (0 <? Z.of_nat (List.length (bits d))) eqn:E; [|eauto].
  apply Z.ltb_lt in E.
  destruct (sorted pair_leb (combine (bits d) (pinnames d))) as [|z zs] eqn:Hz;
    [|eauto].
  exfalso.
  assert (Hzero : List.length (sorted pair_leb (combine (bits d) (pinnames d)))
                  = 0%nat) by now rewrite Hz.
  rewrite length_sorted, length_combine in Hzero. lia.
Qed.

Lemma for_each_raises {A S : Type} (P : S -> Prop) (body : S -> A -> result S)
  (l : list A) (e : exn) :
  (forall s x s', In x l -> P s -> body s x = Ok s' -> P s') ->
  forall s, P s -> for_each body l s = Raise e ->
    exists s0 x, In x l /\ P s0 /\ body s0 x = Raise e.
Proof.
  induction l as [|x l IH]; intros Hbody s Hs Hrun; simpl in Hrun;
    [discriminate|].
  destruct (body s x) as [s1|e'] eqn:Hx; simpl in Hrun.
  - destruct (IH (fun s0 y s0' Hy => Hbody s0 y s0' (or_intror Hy)) s1)
      as (s0 & y & Hy & Hs0 & Hraise).
    + eapply Hbody; [now left | exact Hs | exact Hx].
    + exact Hrun.
    + exists s0, y. split; [now right|]. auto.
  - injection Hrun as <-. exists s, x. split; [now left|]. auto.
Qed.

Section BuilderErrors.

Variable device : Device.
Variable dumpdata : list Z.

Hypothesis probes_in_address :
  0 <= eprom_hiz_probe_pins device <= eprom_address_width device.
Hypothesis probes_in_data :
  eprom_hiz_probe_pins device <= eprom_data_width device.
Hypothesis image_size :
  Z.of_nat (List.length dumpdata) = 2 ^ eprom_address_width device.

Lemma classify_combination_raises (q : Pin) (a : Z) (e : exn) :
  0 <= a < 2 ^ eprom_address_width device ->
  0 <= hizprobebitmask q < 2 ^ eprom_address_width device ->
  0 <= bitmap (oe_depends q) < 2 ^ eprom_address_width device ->
  (List.length (bits (depends q)) <= List.length (pinnames (depends q)))%nat ->
  classify_combination device dumpdata q a = Raise e ->
  e = RuntimeError (no_drive_message q).
Proof.
  intros Ha Hp Hoe Hnames Hrun. unfold classify_combination in Hrun.
  unfold build_outputpin_conditions in Hrun.
  rewrite conditions_loop_spec in Hrun by assumption. cbn [bind] in Hrun.
  erewrite check_relevent_existsb in Hrun by eassumption.
  cbn [bind] in Hrun.
  match type of Hrun with
  | context [existsb ?f ?l] => destruct (existsb f l)
  end; cbn [negb] in Hrun; [|discriminate].
  unfold get_output_pin_data in Hrun.
  rewrite (is_driven_in_range (eprom_address_width device)) in Hrun
    by assumption.
  cbn [bind] in Hrun.
  destruct (driven_at dumpdata q a).
  - rewrite py_getitem_image in Hrun by lia. cbn [bind] in Hrun.
    match type of Hrun with
    | context [if ?c then _ else _] => destruct c
    end; discriminate.
  - rewrite (drive_search_find (eprom_address_width device)) in Hrun;
      try assumption.
    2:{ apply Forall_forall. intros o Ho. apply iterate_mask_submask in Ho.
        eapply submask_lt_pow2; eauto. }
    match type of Hrun with
    | context [find ?f ?l] => destruct (find f l)
    end; cbn [bind] in Hrun.
    + match type of Hrun with
      | context [if ?c then _ else _] => destruct c
      end; discriminate.
    + now injection Hrun as <-.
Qed.

Lemma classify_loop_raises (q : Pin) (addrs : list Z) (e : exn) :
  Forall (fun a => 0 <= a < 2 ^ eprom_address_width device) addrs ->
  0 <= hizprobebitmask q < 2 ^ eprom_address_width device ->
  0 <= bitmap (oe_depends q) < 2 ^ eprom_address_width device ->
  (List.length (bits (depends q)) <= List.length (pinnames (depends q)))%nat ->
  for_each (classify_combination device dumpdata) addrs q = Raise e ->
  e = RuntimeError (no_drive_message q).
Proof.
  intros Haddrs Hp Hoe Hnames Hrun.
  apply (for_each_raises (same_analysis q)) in Hrun.
  - destruct Hrun as (s0 & a & Ha & Hsame & Hraise).
    rewrite Forall_forall in Haddrs.
    destruct Hsame as (Hn & _ & _ & Hm & _ & _ & Hd & Ho).
    apply classify_combination_raises in Hraise;
      [|auto | now rewrite Hm | now rewrite Ho | now rewrite Hd].
    rewrite Hraise. unfold no_drive_message. now rewrite Hn.
  - intros s x s' _ Hs Hx. apply classify_combination_same in Hx.
    eapply same_analysis_trans; eauto.
  - apply same_analysis_refl.
Qed.

Lemma classify_oe_loop_returns (q : Pin) (addrs : list Z) :
  Forall (fun a => 0 <= a < 2 ^ eprom_address_width device) addrs ->
  0 <= hizprobebitmask q < 2 ^ eprom_address_width device ->
  (List.length (bits (oe_depends q))
   <= List.length (pinnames (oe_depends q)))%nat ->
  exists q', for_each (classify_oe_combination dumpdata) addrs q = Ok q'.
Proof.
  intros Haddrs Hp Hnames.
  destruct (for_each (classify_oe_combination dumpdata) addrs q)
    as [q'|e] eqn:Hrun; [eauto|].
  exfalso. apply (for_each_raises (same_analysis q)) in Hrun.
  - destruct Hrun as (s0 & a & Ha & Hsame & Hraise).
    rewrite Forall_forall in Haddrs.
    destruct Hsame as (_ & _ & _ & Hm & _ & _ & _ & Ho).
    unfold classify_oe_combination, build_outputpin_conditions in Hraise.
    rewrite Ho in Hraise.
    rewrite conditions_loop_spec in Hraise by assumption.
    cbn [bind] in Hraise.
    rewrite (is_driven_in_range (eprom_address_width device)) in Hraise;
      [| assumption | now rewrite Hm | auto].
    cbn [bind] in Hraise.
    match type of Hraise with
    | context [if ?c then _ else _] => destruct c
    end; discriminate.
  - intros s x s' _ Hs Hx. apply classify_oe_combination_same in Hx.
    eapply same_analysis_trans; [exact Hs | apply Hx].
  - apply same_analysis_refl.
Qed.

Lemma build_outputpin_equations_raises (p : Pin) (e : exn) :
  scanned_dependencies (depends p) -> scanned_dependencies (oe_depends p) ->
  0 <= hizprobebitmask p < 2 ^ eprom_address_width device ->
  0 <= bitmap (depends p) < 2 ^ eprom_address_width device ->
  0 <= bitmap (oe_depends p) < 2 ^ eprom_address_width device ->
  build_outputpin_equations device dumpdata p = Raise e ->
  e = RuntimeError (no_drive_message p).
Proof.
  intros Hd Ho Hp Hbd Hbo Hrun. unfold build_outputpin_equations in Hrun.
  destruct (sort_dependencies_Ok (depends p) (scanned_names _ Hd))
    as [deps Hdeps].
  rewrite Hdeps in Hrun. cbn [bind] in Hrun.
  change (oe_depends (set_depends p deps)) with (oe_depends p) in Hrun.
  destruct (sort_dependencies_Ok (oe_depends p) (scanned_names _ Ho))
    as [oe_deps Hoe].
  rewrite Hoe in Hrun. cbn [bind] in Hrun.
  destruct (sort_dependencies_pairs _ _ (scanned_names _ Hd) Hdeps)
    as [_ Ndeps].
  destruct (sort_dependencies_pairs _ _ (scanned_names _ Ho) Hoe)
    as [_ Noe].
  apply sort_dependencies_bitmap in Hdeps, Hoe.
  set (p2 := set_oe_depends (set_depends p deps) oe_deps) in *.
  assert (Hsub : forall m, 0 <= m < 2 ^ eprom_address_width device ->
                   Forall (fun a => 0 <= a < 2 ^ eprom_address_width device)
                          (iterate_mask m)).
  { intros m Hm. apply Forall_forall. intros a Ha.
    apply iterate_mask_submask in Ha. eapply submask_lt_pow2; eauto. }
  destruct (if bitmap (depends p2) =? 0 then Ok p2
            else for_each (classify_combination device dumpdata)
                          (iterate_mask (bitmap (depends p2))) p2)
    as [p3|e1] eqn:H1; cbn [bind] in Hrun.
  - exfalso.
    assert (H23 : same_analysis p2 p3).
    { destruct (bitmap (depends p2) =? 0).
      - injection H1 as <-. apply same_analysis_refl.
      - apply classify_loop_terms in H1. apply H1. }
    destruct H23 as (_ & _ & _ & Hm & _ & _ & _ & Ho3).
    destruct (bitmap (oe_depends p3) =? 0); [discriminate|].
    destruct (classify_oe_loop_returns p3 (iterate_mask (bitmap (oe_depends p3))))
      as [q' Hq'].
    + apply Hsub. rewrite Ho3. cbn. now rewrite Hoe.
    + now rewrite Hm.
    + rewrite Ho3. cbn. lia.
    + rewrite Hq' in Hrun. discriminate.
  - injection Hrun as <-.
    destruct (bitmap (depends p2) =? 0); [discriminate|].
    apply classify_loop_raises in H1; [exact H1 | | assumption | | ].
    + apply Hsub. cbn. now rewrite Hdeps.
    + cbn. now rewrite Hoe.
    + cbn. lia.
Qed.

End BuilderErrors.

(** What the scan leaves on the pin models of a profile. *)
Lemma scanned_pins_analysable (device : Device) (dumpdata : list Z)
  (inputpins outputpins scanned : list Pin) :
  0 <= eprom_address_width device ->
  Z.of_nat (List.length (eprom_address_pins device))
  <= eprom_address_width device ->
  build_inputpins_configuration device = Ok inputpins ->
  build_outputpins_configuration device = Ok outputpins ->
  build_outputpins_dependencies device dumpdata inputpins outputpins
  = Ok scanned ->
  Forall (fun p =>
            scanned_dependencies (depends p)
            /\ scanned_dependencies (oe_depends p)
            /\ 0 <= hizprobebitmask p < 2 ^ eprom_address_width device
            /\ 0 <= bitmap (depends p) < 2 ^ eprom_address_width device
            /\ 0 <= bitmap (oe_depends p) < 2 ^ eprom_address_width device)
         scanned.
Proof.
  intros Hw Hpins Hin Hout Hscan.
  set (w := eprom_address_width device) in *.
  destruct (inputpins_well_formed _ _ Hin) as [Hins Hdistinct].
  fold w in Hins.
  assert (Hsingle : Forall (fun ip => single_bit (bitmask ip)) inputpins).
  { eapply Forall_impl; [|exact Hins]. intros ip Hip. apply Hip. }
  assert (H0 : Forall (fun p => scanning inputpins p
                                /\ 0 <= hizprobebitmask p < 2 ^ w)
                      outputpins).
  { pose proof (outputpins_well_formed _ _ Hout) as Hall.
    eapply Forall_impl; [|exact Hall].
    intros p (_ & (_ & _ & Hd & Ho & Ht & _) & Hprobe).
    assert (Hnil : deps_from inputpins no_dependencies).
    { exists []. split; [reflexivity|]. split; [intros x []|constructor]. }
    split.
    - split; [|split]; [rewrite Hd | rewrite Ho | ]; assumption.
    - assert (2 ^ Z.of_nat (List.length (eprom_address_pins device)) <= 2 ^ w)
        by (apply Z.pow_le_mono_r; lia).
      lia. }
  assert (H1 : Forall (fun p => scanning inputpins p
                                /\ 0 <= hizprobebitmask p < 2 ^ w)
                      scanned).
  { eapply scan_invariant; [|exact H0|exact Hscan].
    intros ip a0 a1 d0 d1 p p' Hip [Hp Hprobe] Hstep. split.
    - eapply scan_outputpin_scanning; eauto.
    - apply scan_outputpin_extends in Hstep.
      destruct Hstep as (_ & _ & _ & (_ & _ & Hm) & _). now rewrite Hm. }
  assert (Hrange : forall d, deps_from inputpins d -> 0 <= bitmap d < 2 ^ w).
  { intros d [added (-> & Hincl & _)]. cbn [bitmap deps_of].
    apply or_of_lt_pow2; [lia|].
    apply Forall_forall. intros b Hb. apply in_map_iff in Hb.
    destruct Hb as [ip [<- Hip]]. rewrite Forall_forall in Hins.
    apply Hins. now apply Hincl. }
  eapply Forall_impl; [|exact H1]. intros p [(Hd & Ho & _) Hprobe].
  split; [now apply (deps_from_scanned inputpins)|].
  split; [now apply (deps_from_scanned inputpins)|].
  split; [assumption|]. split; now apply Hrange.
Qed.

(** X23: On the pin models of a profile whose hi-z probes lie within the
    address and data widths and which lists no more address pins than
    address bits, and on an image of [2 ^ A] words, the minterm builder that
    follows the scan can fail in one way only: with the [RuntimeError] of
    [get_output_pin_data] for one of the output pins. No read leaves the
    image, no name is missing and no sort fails. *)
Theorem minterm_builder_errors (device : Device) (dumpdata : list Z)
  (inputpins outputpins scanned : list Pin) :
  0 <= eprom_hiz_probe_pins device <= eprom_address_width device ->
  eprom_hiz_probe_pins device <= eprom_data_width device ->
  Z.of_nat (List.length dumpdata) = 2 ^ eprom_address_width device ->
  Z.of_nat (List.length (eprom_address_pins device))
  <= eprom_address_width device ->
  build_inputpins_configuration device = Ok inputpins ->
  build_outputpins_configuration device = Ok outputpins ->
  build_outputpins_dependencies device dumpdata inputpins outputpins
  = Ok scanned ->
  forall e,
    build_outputpins_equations device dumpdata scanned = Raise e ->
    exists p, In p scanned /\ e = RuntimeError (no_drive_message p).
Proof.
  intros HA HD Hsize Hpins Hin Hout Hscan e Hrun.
  assert (Hw : 0 <= eprom_address_width device) by lia.
  pose proof (scanned_pins_analysable _ _ _ _ _ Hw Hpins Hin Hout Hscan)
    as Hall.
  apply map_result_raises in Hrun. destruct Hrun as [p [Hp Hraise]].
  exists p. split; [assumption|].
  rewrite Forall_forall in Hall.
  destruct (Hall p Hp) as (Hd & Ho & Hprobe & Hbd & Hbo).
  eapply build_outputpin_equations_raises; eassumption.
Qed.

Lemma minterm_builder_errors_witness :
  exists p,
    In p (map (scan_pin_all floating_image (range 8) demo_inputs) demo_outputs)
    /\ RuntimeError
         "Could not find input combination which does not lead to hi-z for pin O"
       = RuntimeError (no_drive_message p).
Proof.
  apply (minterm_builder_errors demo_device floating_image demo_inputs
                                demo_outputs).
  - simpl. lia.
  - simpl. lia.
  - reflexivity.
  - simpl. lia.
  - vm_compute. reflexivity.
  - vm_compute. reflexivity.
  - vm_compute. reflexivity.
  - vm_compute. reflexivity.
Defined.

(** ** Errors of the whole run *)









(** ** The second sort *)

Lemma sorted_of_ordered {A : Type} (leb : A -> A -> bool) (l : list A) :
  StronglySorted (fun a b => leb a b = true) l -> sorted leb l = l.
Proof.
  induction 1 as [|x l Hl IH Hx]; [reflexivity|].
  cbn [sorted fold_right]. fold (sorted leb l). rewrite IH.
  destruct l as [|y l']; [reflexivity|]. simpl.
  inversion Hx as [|? ? Hxy _]; subst. now rewrite Hxy.
Qed.

Lemma pair_leb_ordered (zs : list (Z * string)) :
  StronglySorted Z.lt (map fst zs) ->
  StronglySorted (fun a b => pair_leb a b = true) zs.
Proof.
  induction zs as [|z zs IH]; intros Hs; [constructor|].
  simpl in Hs. inversion Hs as [|? ? Hs' Hz]; subst.
  constructor; [now apply IH|].
  apply Forall_forall. intros y Hy. rewrite Forall_forall in Hz.
  unfold pair_leb. apply orb_true_iff. left. apply Z.ltb_lt.
  apply Hz. now apply in_map.
Qed.

Lemma map_snd_combine {A B : Type} (l : list A) (l' : list B) :
  List.length l' = List.length l -> map snd (combine l l') = l'.
Proof.
  revert l'. induction l as [|x l IH]; intros [|y l'] Hlen; simpl in *;
    try reflexivity; try discriminate.
  f_equal. apply IH. lia.
Qed.

(** X25: The source sorts each dependency set twice, once into tuples and
    once into lists. On a dependency set found by the scan the second sort
    changes nothing: sorting the sorted set gives it back. *)
Theorem sort_dependencies_idempotent (d d' : PinDependencies) :
  scanned_dependencies d ->
  sort_dependencies d = Ok d' ->
  sort_dependencies d' = Ok d'.
Proof.
  intros Hd Hsort.
  destruct (sort_dependencies_sorted _ _ Hd Hsort) as ([_ Hasc _] & _ & _).
  destruct (sort_dependencies_pairs _ _ (scanned_names _ Hd) Hsort)
    as [_ Hlen].
  unfold sort_dependencies.
  destruct (0 <? Z.of_nat (List.length (bits d'))) eqn:E; [|reflexivity].
  apply Z.ltb_lt in E.
  rewrite sorted_of_ordered.
  2:{ apply pair_leb_ordered. now rewrite map_fst_combine. }
  destruct (combine (bits d') (pinnames d')) as [|z zs] eqn:Hz.
  - exfalso.
    assert (Hzero : List.length (combine (bits d') (pinnames d')) = 0%nat)
      by now rewrite Hz.
    rewrite length_combine in Hzero. lia.
  - rewrite <- Hz, map_fst_combine, map_snd_combine by assumption.
    now destruct d'.
Qed.

Lemma sort_dependencies_idempotent_witness :
  sort_dependencies (mkDeps 3 [1; 2] ["I"; "E"]%string)
  = Ok (mkDeps 3 [1; 2] ["I"; "E"]%string).
Proof.
  apply (sort_dependencies_idempotent (mkDeps 3 [2; 1] ["E"; "I"]%string)).
  - constructor; simpl.
    + repeat constructor; [exists 1 | exists 0]; split; reflexivity || lia.
    + repeat constructor; simpl; intuition lia.
    + reflexivity.
    + reflexivity.
  - reflexivity.
Defined.

(** ** No dependency on the own probe *)

Lemma not_examined_on_probe (outputpin inputpin : Pin) (addr : Z) :
  bitmask inputpin = hizprobebitmask outputpin -> bitmask inputpin <> 0 ->
  ~ examined outputpin inputpin addr.
Proof.
  intros Hmask Hne (_ & _ & H3). rewrite <- Hmask in H3.
  assert (Hbit : Z.land (Z.lor addr (bitmask inputpin)) (bitmask inputpin)
                 = bitmask inputpin).
  { apply Z.bits_inj'. intros n _.
    rewrite Z.land_spec, Z.lor_spec.
    destruct (Z.testbit (bitmask inputpin) n);
      [now rewrite orb_true_r | apply andb_false_r]. }
  congruence.
Qed.

(** X26: An output pin never depends on the input pin that is its own hi-z
    probe: on an image of [2 ^ A] words, the scan of pins created empty adds
    the name of no input pin whose mask is the probe mask of the output pin,
    neither to its dependencies nor to its output-enable dependencies. *)
Theorem no_dependency_on_own_probe (device : Device) (dumpdata : list Z)
  (inputpins outputpins : list Pin) :
  0 <= eprom_address_width device ->
  Z.of_nat (List.length dumpdata) = 2 ^ eprom_address_width device ->
  Forall (fun ip => 0 <= bitmask ip < 2 ^ eprom_address_width device)
         inputpins ->
  NoDup (map name inputpins) ->
  Forall (fun p => 0 <= hizprobebitmask p < 2 ^ eprom_address_width device
                   /\ depends p = no_dependencies
                   /\ oe_depends p = no_dependencies)
         outputpins ->
  exists scanned,
    build_outputpins_dependencies device dumpdata inputpins outputpins
    = Ok scanned
    /\ Forall2
         (fun op op' =>
            forall ip, In ip inputpins ->
              bitmask ip = hizprobebitmask op -> bitmask ip <> 0 ->
              ~ In (name ip) (pinnames (depends op'))
              /\ ~ In (name ip) (pinnames (oe_depends op')))
         outputpins scanned.
Proof.
  intros Hw Hsize Hins Hnames Houts.
  set (w := eprom_address_width device) in *.
  exists (map (scan_pin_all dumpdata (range (2 ^ w)) inputpins) outputpins).
  assert (Haddrs : Forall (fun addr => 0 <= addr < 2 ^ w) (range (2 ^ w))).
  { apply Forall_forall. intros a Ha. now apply in_range. }
  split.
  - unfold build_outputpins_dependencies. fold w.
    destruct (w <? 0) eqn:E; [apply Z.ltb_lt in E; lia|].
    eapply scan_pure; try eassumption.
    eapply Forall_impl; [|exact Houts]. intros p Hp. apply Hp.
  - apply Forall2_map_right. intros op Hop ip Hip Hmask Hne.
    rewrite Forall_forall in Houts. destruct (Houts op Hop) as (_ & Hd & Ho).
    destruct (scan_all_names dumpdata inputpins (range (2 ^ w))) with (p := op)
      as [_ Hall].
    + eapply Forall_impl; [|exact Haddrs]. intros a Ha. apply Ha.
    + eapply Forall_impl; [|exact Hins]. intros q Hq. apply Hq.
    + destruct (Hall (name ip)) as [Hoe Hdep].
      rewrite Hoe, Hdep, Hd, Ho. simpl.
      split; intros [[]|[a [ip' (Ha & Hip' & Heq & H)]]];
        (assert (ip' = ip)
           by (apply (NoDup_map_injective name inputpins); auto));
        subst ip'; apply (not_examined_on_probe op ip a Hmask Hne); apply H.
Qed.

Lemma no_dependency_on_own_probe_witness :
  exists scanned,
    build_outputpins_dependencies demo_device demo_image demo_inputs
                                  demo_outputs = Ok scanned
    /\ Forall2
         (fun op op' =>
            forall ip, In ip demo_inputs ->
              bitmask ip = hizprobebitmask op -> bitmask ip <> 0 ->
              ~ In (name ip) (pinnames (depends op'))
              /\ ~ In (name ip) (pinnames (oe_depends op')))
         demo_outputs scanned.
Proof.
  apply (no_dependency_on_own_probe demo_device demo_image demo_inputs
                                    demo_outputs).
  - simpl. lia.
  - reflexivity.
  - repeat constructor; simpl; lia.
  - simpl. repeat constructor; simpl; intuition discriminate.
  - repeat constructor; simpl; lia.
Defined.

(** ** Conditions and minterms side by side *)

Lemma paired_add (d : PinDependencies) (conditions : list (list string))
  (terms : list Z) (c : list string) (a : Z) :
  paired d conditions terms ->
  build_outputpin_conditions d a = Ok c ->
  paired d (conditions ++ [c]) (terms ++ [build_outputpin_minterm d a]).
Proof.
  intros Hp Hc. apply Forall2_app; [exact Hp|].
  constructor; [eauto | constructor].
Qed.

Lemma classify_oe_combination_cases (dumpdata : list Z) (q q1 : Pin) (a : Z) :
  classify_oe_combination dumpdata q a = Ok q1 ->
  exists c,
    build_outputpin_conditions (oe_depends q) a = Ok c
    /\ (q1 = add_oe_negative q c (build_outputpin_minterm (oe_depends q) a)
        \/ q1 = add_oe_positive q c (build_outputpin_minterm (oe_depends q) a)).
Proof.
  unfold classify_oe_combination. intros Hrun.
  apply bind_Ok in Hrun. destruct Hrun as [c [Hc Hrun]].
  apply bind_Ok in Hrun. destruct Hrun as [driven [_ Hrun]].
  exists c. split; [assumption|].
  destruct driven; simpl in Hrun; injection Hrun as <-; auto.
Qed.

(** X27: When the minterm builder returns for a pin created with empty
    lists, each of its five condition lists runs parallel to its minterm
    list: they have the same length and the conditions at a position are
    those of a combination whose minterm stands at that position. *)
Theorem conditions_parallel_terms (device : Device) (dumpdata : list Z)
  (p p' : Pin) :
  same_terms new_pin p ->
  build_outputpin_equations device dumpdata p = Ok p' ->
  paired (depends p') (dontcareconditions p') (dontcareterms p')
  /\ paired (depends p') (negativeconditions p') (negminterms p')
  /\ paired (depends p') (positiveconditions p') (posminterms p')
  /\ paired (oe_depends p') (oenegativeconditions p') (oenegminterms p')
  /\ paired (oe_depends p') (oepositiveconditions p') (oeposminterms p').
Proof.
  intros Hnew Hrun. apply build_outputpin_equations_unfold in Hrun.
  destruct Hrun as (deps & oe_deps & p3 & _ & _ & Hp3 & Hp').
  destruct Hnew as (N1 & N2 & N3 & N4 & N5 & N6 & N7 & N8 & N9 & N10).
  cbn in N1, N2, N3, N4, N5, N6, N7, N8, N9, N10.
  set (p2 := sorted_pin p deps oe_deps) in *.
  set (Inv1 := fun q : Pin =>
         (depends q = deps /\ oe_depends q = oe_deps)
         /\ (paired deps (dontcareconditions q) (dontcareterms q)
             /\ paired deps (negativeconditions q) (negminterms q)
             /\ paired deps (positiveconditions q) (posminterms q))
         /\ (oenegativeconditions q = [] /\ oenegminterms q = []
             /\ oepositiveconditions q = [] /\ oeposminterms q = [])).
  assert (H2 : Inv1 p2).
  { unfold Inv1, p2. cbn. rewrite N1, N2, N3, N4, N5, N6.
    repeat split; try assumption; constructor. }
  assert (H3 : Inv1 p3).
  { destruct (bitmap deps =? 0); [now injection Hp3 as <-|].
    eapply (for_each_invariant Inv1); [|exact H2|exact Hp3].
    intros q a q1 _ ((Hd & Ho) & (Pdc & Pneg & Ppos) & Hoe) Hstep.
    apply classify_combination_verdict in Hstep.
    destruct Hstep as (c & v & Hc & _ & ->). rewrite Hd in *.
    destruct v as [[|]|]; unfold Inv1; cbn;
      (split; [now split|]); (split; [|exact Hoe]).
    - split; [assumption|]. split; [assumption|]. now apply paired_add.
    - split; [assumption|]. split; [now apply paired_add | assumption].
    - split; [now apply paired_add|]. now split. }
  set (Inv2 := fun q : Pin =>
         (depends q = deps /\ oe_depends q = oe_deps)
         /\ (paired deps (dontcareconditions q) (dontcareterms q)
             /\ paired deps (negativeconditions q) (negminterms q)
             /\ paired deps (positiveconditions q) (posminterms q))
         /\ (paired oe_deps (oenegativeconditions q) (oenegminterms q)
             /\ paired oe_deps (oepositiveconditions q) (oeposminterms q))).
  assert (H3' : Inv2 p3).
  { destruct H3 as (Hdo & Hout & (E1 & E2 & E3 & E4)).
    split; [assumption|]. split; [assumption|].
    rewrite E1, E2, E3, E4. split; constructor. }
  assert (H4 : Inv2 p').
  { destruct (bitmap (oe_depends p3) =? 0); [now injection Hp' as <-|].
    eapply (for_each_invariant Inv2); [|exact H3'|exact Hp'].
    intros q a q1 _ ((Hd & Ho) & Hout & (Pneg & Ppos)) Hstep.
    apply classify_oe_combination_cases in Hstep.
    destruct Hstep as (c & Hc & Hq1). rewrite Ho in *.
    destruct Hq1 as [-> | ->]; unfold Inv2; cbn;
      (split; [now split|]); (split; [exact Hout|]).
    - split; [now apply paired_add | assumption].
    - split; [assumption | now apply paired_add]. }
  destruct H4 as ((Hd & Ho) & (Pdc & Pneg & Ppos) & (Qneg & Qpos)).
  rewrite Hd, Ho. tauto.
Qed.

Lemma conditions_parallel_terms_witness :
  paired (depends demo_built) (positiveconditions demo_built)
         (posminterms demo_built)
  /\ paired (oe_depends demo_built) (oepositiveconditions demo_built)
            (oeposminterms demo_built).
Proof.
  destruct (conditions_parallel_terms demo_device demo_image demo_output
                                      demo_built)
    as (_ & _ & Hpos & _ & Hoe).
  - unfold same_terms. cbn. tauto.
  - vm_compute. reflexivity.
  - now split.
Defined.

(** ** The truth table of a pin *)

Lemma py_len_app (a b : string) :
  py_len (a ++ b) = (py_len a + py_len b)%nat.
Proof.
  induction a as [|x a IH]; [reflexivity|].
  cbn [append py_len]. rewrite IH. lia.
Qed.

Lemma py_len_spaces (n : nat) : py_len (spaces n) = n.
Proof. induction n as [|n IH]; [reflexivity|]. cbn. now rewrite IH. Qed.

Lemma ljust_length (s : string) (width : Z) :
  py_len (ljust s width)
  = Nat.max (py_len s) (Z.to_nat width).
Proof. unfold ljust. rewrite py_len_app, py_len_spaces. lia. Qed.

Lemma fold_left_max_spec (ns : list Z) (n : Z) :
  (n <= fold_left Z.max ns n
   /\ Forall (fun k => k <= fold_left Z.max ns n) ns)
  /\ In (fold_left Z.max ns n) (n :: ns).
Proof.
  revert n. induction ns as [|k ns IH]; intros n; simpl.
  - split; [split; [lia | constructor] | now left].
  - destruct (IH (Z.max n k)) as [[Hle Hall] Hin]. split.
    + split; [lia|]. constructor; [lia | assumption].
    + destruct Hin as [Hin | Hin]; [|now right; right].
      rewrite <- Hin. destruct (Z.max_spec n k) as [[_ ->] | [_ ->]]; auto.
Qed.

(** The length of a name counts its characters, not the bytes of its
    encoding: the two bytes of a Greek capital omega are one character. *)
Example py_len_omega :
  py_len (String (ascii_of_nat 206) (String (ascii_of_nat 169) "e")) = 2%nat
  /\ String.length (String (ascii_of_nat 206) (String (ascii_of_nat 169) "e"))
     = 3%nat.
Proof. split; reflexivity. Qed.

(** X28: The longest pin name: on a profile with pin names the function
    returns a length, in characters, that no name exceeds and that one
    name has; on a profile without pin names it raises [ValueError]. *)
Theorem get_max_pin_name_length_spec (device : Device) :
  match get_max_pin_name_length device with
  | Ok n =>
      (forall item, In item (pal_pin_names device) ->
         Z.of_nat (py_len (snd item)) <= n)
      /\ exists item, In item (pal_pin_names device)
                      /\ Z.of_nat (py_len (snd item)) = n
  | Raise e => e = ValueError /\ pal_pin_names device = []
  end.
Proof.
  unfold get_max_pin_name_length.
  destruct (pal_pin_names device) as [|item items]; simpl; [now split|].
  set (len := fun item : string * string =>
                Z.of_nat (py_len (snd item))).
  destruct (fold_left_max_spec (map len items) (len item))
    as [[Hle Hall] Hin].
  split.
  - intros item' [<- | Hin']; [exact Hle|].
    rewrite Forall_forall in Hall. apply Hall.
    exact (in_map len items item' Hin').
  - destruct Hin as [Hin | Hin].
    + exists item. split; [now left | exact Hin].
    + apply in_map_iff in Hin. destruct Hin as [item' [Heq Hin]].
      exists item'. split; [now right | exact Heq].
Qed.

Lemma conditions_loop_same_lengths (bs : list Z) (names : list string)
  (a a' : Z) (c c' : list string) :
  conditions_loop bs names a = Ok c ->
  conditions_loop bs names a' = Ok c' ->
  Forall2 (fun s s' => py_len s = py_len s') c c'.
Proof.
  revert names c c'. induction bs as [|b bs IH]; intros names c c' Hc Hc'.
  - simpl in Hc, Hc'. injection Hc as <-. injection Hc' as <-. constructor.
  - destruct names as [|nm names]; [discriminate|]. simpl in Hc, Hc'.
    apply bind_Ok in Hc. destruct Hc as [rest [Hrest Hc]].
    apply bind_Ok in Hc'. destruct Hc' as [rest' [Hrest' Hc']].
    injection Hc as <-. injection Hc' as <-.
    constructor; [|eapply IH; eassumption].
    destruct (Z.land a b =? 0), (Z.land a' b =? 0); reflexivity.
Qed.

Lemma truthtable_conditions_length (conds conds' : list string)
  (cond_i len maxlen : Z) (line line' : string) :
  Forall2 (fun s s' => py_len s = py_len s') conds conds' ->
  py_len line = py_len line' ->
  py_len (truthtable_conditions conds cond_i len maxlen line)
  = py_len (truthtable_conditions conds' cond_i len maxlen line').
Proof.
  intros H. revert cond_i line line'.
  induction H as [|c c' conds conds' Hc _ IH]; intros cond_i line line' Hl;
    simpl; [assumption|].
  apply IH.
  destruct (cond_i =? 0), (cond_i <? len - 1);
    rewrite ?py_len_app, ?ljust_length; simpl; lia.
Qed.

Lemma truthtable_lines_length (signedname : string) (ref : list string)
  (conditionslist : list (list string)) (list_i len maxlen : Z)
  (isfirstline : bool) :
  Forall (fun c => Forall2 (fun s s' => py_len s = py_len s')
                           c ref)
         conditionslist ->
  List.length (truthtable_lines signedname conditionslist list_i len maxlen
                                isfirstline)
  = List.length conditionslist
  /\ Forall (fun w =>
               py_len w
               = (py_len
                    (truthtable_conditions ref 0 (Z.of_nat (List.length ref))
                       maxlen (spaces (py_len signedname) ++ " # "))
                  + 2)%nat)
            (truthtable_lines signedname conditionslist list_i len maxlen
                              isfirstline).
Proof.
  intros H. revert list_i isfirstline.
  induction H as [|c cl Hc _ IH]; intros list_i isfirstline;
    cbn [truthtable_lines List.length];
    [split; [reflexivity | constructor]|].
  destruct (IH (list_i + 1) false) as [Hlen Hall].
  split; [now rewrite Hlen|]. constructor; [|exact Hall].
  rewrite (Forall2_length Hc).
  assert (Hline : forall line0,
             py_len line0 = (py_len signedname + 3)%nat ->
             py_len
               (truthtable_conditions c 0 (Z.of_nat (List.length ref)) maxlen
                                      line0)
             = py_len
                 (truthtable_conditions ref 0 (Z.of_nat (List.length ref))
                    maxlen (spaces (py_len signedname) ++ " # "))).
  { intros line0 Hl0. apply truthtable_conditions_length; [exact Hc|].
    rewrite Hl0, py_len_app, py_len_spaces. reflexivity. }
  assert (H0 : py_len
                 (if isfirstline
                  then (ljust signedname
                              (Z.of_nat (py_len signedname)) ++ " = ")
                  else (spaces (py_len signedname) ++ " " ++ ORSTR
                        ++ " "))%string
               = (py_len signedname + 3)%nat).
  { destruct isfirstline;
      rewrite py_len_app, ?ljust_length, ?py_len_spaces; simpl; lia. }
  destruct (list_i <? len - 1);
    rewrite py_len_app, (Hline _ H0); reflexivity.
Qed.

(** X29: The truth table of a pin is aligned: for condition lists that
    all come from one dependency set, [write_pin_truthtable] writes one
    line for each list, and all the lines it writes have the same length
    in characters, whatever the signs of the conditions and also when a
    pin name is longer than the longest name of the profile. *)
Theorem truthtable_lines_aligned (device : Device) (d : PinDependencies)
  (signedname : string) (conditionslist : list (list string))
  (writes : list string) :
  Forall (fun c => exists a, build_outputpin_conditions d a = Ok c)
         conditionslist ->
  write_pin_truthtable device signedname conditionslist = Ok writes ->
  List.length writes = List.length conditionslist
  /\ forall w1 w2, In w1 writes -> In w2 writes ->
       py_len w1 = py_len w2.
Proof.
  intros Hall Hrun. unfold write_pin_truthtable in Hrun.
  apply bind_Ok in Hrun. destruct Hrun as [maxlen [_ Hrun]].
  injection Hrun as <-.
  destruct conditionslist as [|ref cl] eqn:Hcl;
    [split; [reflexivity | intros w1 w2 []]|].
  rewrite <- Hcl in *.
  assert (Href : Forall (fun c => Forall2 (fun s s' => py_len s
                                                       = py_len s')
                                          c ref)
                        conditionslist).
  { assert (Hr : exists a, build_outputpin_conditions d a = Ok ref).
    { rewrite Hcl in Hall. now inversion Hall. }
    destruct Hr as [a0 Hr].
    eapply Forall_impl; [|exact Hall]. intros c [a Hc].
    unfold build_outputpin_conditions in *.
    eapply conditions_loop_same_lengths; eassumption. }
  destruct (truthtable_lines_length signedname ref conditionslist 0
              (Z.of_nat (List.length conditionslist)) maxlen true Href)
    as [Hlen Hlines].
  split; [exact Hlen|]. intros w1 w2 H1 H2.
  rewrite Forall_forall in Hlines.
  now rewrite (Hlines _ H1), (Hlines _ H2).
Qed.

Lemma truthtable_lines_aligned_witness :
  List.length
    (truthtable_lines " O" [["!I"; " E"]; [" I"; "!E"]]%string 0 2 1 true)
  = 2%nat
  /\ forall w1 w2,
       In w1 (truthtable_lines " O" [["!I"; " E"]; [" I"; "!E"]]%string
                               0 2 1 true) ->
       In w2 (truthtable_lines " O" [["!I"; " E"]; [" I"; "!E"]]%string
                               0 2 1 true) ->
       py_len w1 = py_len w2.
Proof.
  apply (truthtable_lines_aligned demo_device
           (mkDeps 3 [1; 2] ["I"; "E"]%string) " O"
           [["!I"; " E"]; [" I"; "!E"]]%string
           (truthtable_lines " O" [["!I"; " E"]; [" I"; "!E"]]%string
                             0 2 1 true)).
  - repeat constructor; [exists 2 | exists 1]; reflexivity.
  - reflexivity.
Defined.

(** * The program as a whole *)

(** ** The relevance test without a free probe bit *)

(** The main program writes what the emitter makes of the analysed pins. *)
Lemma repal_of_build_pins (simplify : Z -> list Z -> list Z -> simplified)
  (device : Device) (dumpdata : list Z) (args : Args) (stem date : string)
  (built : list Pin) :
  check_dump_size device dumpdata = Ok tt ->
  build_pins device dumpdata = Ok built ->
  repal simplify device dumpdata args stem date
  = (aliases <- write_equations_pin_aliases device (pal_pin_names device)
                                            built ;;
     outputs <- write_equations_pin_output_equations simplify args built ;;
     enables <- write_equations_pin_output_enable_equations simplify args
                                                            built ;;
     Ok (write_equations_file_header stem (pal_device_name device) date
         ++ aliases ++ outputs ++ enables)).
Proof.
  intros Hsize Hbuild. unfold repal. rewrite Hsize. cbn [bind].
  unfold build_pins, analyse in Hbuild.
  destruct (build_inputpins_configuration device) as [inputpins|];
    [|discriminate]. cbn [bind] in *.
  destruct (build_outputpins_configuration device) as [outputpins0|];
    [|discriminate]. cbn [bind] in *.
  destruct (build_outputpins_dependencies device dumpdata inputpins
                                          outputpins0) as [outputpins1|];
    [|discriminate]. cbn [bind] in *.
  now rewrite Hbuild.
Qed.

(** C1: the relevance test does not do what the claim says when no hi-z
    probe bit is free.  On [noprobe_device], which has no probe, the
    empty setting [p = 0] matches at both sub-addresses of [O] (the probe
    word and the masked data word are both [0]), so both combinations are
    relevant by the claim; the code iterates over the settings of the
    mask [0], tries none and answers don't-care.  Every combination of
    [O] is then a don't-care, and the program writes the same equations
    file for the image of [O = I] and for the image of [O = !I], whatever
    the minimizer. *)
Theorem relevance_test_without_free_probe :
  analyse noprobe_device identity_image = Ok [noprobe_output]
  /\ free_probe_bits noprobe_device noprobe_output = 0
  /\ (probe_matches noprobe_device identity_image (Z.lor 0 0) = true
      /\ check_input_combination_is_relevent noprobe_device identity_image
           noprobe_output 0 = Ok false)
  /\ (probe_matches noprobe_device identity_image (Z.lor 1 0) = true
      /\ check_input_combination_is_relevent noprobe_device identity_image
           noprobe_output 1 = Ok false)
  /\ build_pins noprobe_device identity_image = Ok [noprobe_built]
  /\ build_pins noprobe_device inverter_image = Ok [noprobe_built]
  /\ forall (simplify : Z -> list Z -> list Z -> simplified) (args : Args)
            (stem date : string),
       repal simplify noprobe_device identity_image args stem date
       = repal simplify noprobe_device inverter_image args stem date.
Proof.
  assert (Hid : build_pins noprobe_device identity_image = Ok [noprobe_built])
    by (vm_compute; reflexivity).
  assert (Hinv : build_pins noprobe_device inverter_image
                 = Ok [noprobe_built])
    by (vm_compute; reflexivity).
  split; [vm_compute; reflexivity|]. split; [reflexivity|].
  split; [split; vm_compute; reflexivity|].
  split; [split; vm_compute; reflexivity|].
  split; [exact Hid|]. split; [exact Hinv|].
  intros simplify args stem date.
  rewrite (repal_of_build_pins simplify noprobe_device identity_image args
             stem date [noprobe_built]); [|reflexivity|exact Hid].
  rewrite (repal_of_build_pins simplify noprobe_device inverter_image args
             stem date [noprobe_built]); [|reflexivity|exact Hinv].
  reflexivity.
Qed.

(** ** The dependency sets of the scan, pin by pin *)

Lemma fold_left_invariant {A S : Type} (f : S -> A -> S) (P : S -> Prop)
  (l : list A) :
  (forall s x, In x l -> P s -> P (f s x)) ->
  forall s, P s -> P (fold_left f l s).
Proof.
  induction l as [|x l IH]; intros Hstep s Hs; simpl; [assumption|].
  apply IH.
  - intros s' y Hy. apply Hstep. now right.
  - apply Hstep; [now left | assumption].
Qed.

(** What one step of the scan adds to the two dependency sets, and
    why. *)
Lemma scan_pin_added (dumpdata : list Z) (addr : Z) (inputpin p : Pin) :
  0 <= addr -> 0 <= bitmask inputpin ->
  (oe_depends (scan_pin dumpdata addr inputpin p) = oe_depends p
   \/ (oe_depends (scan_pin dumpdata addr inputpin p)
       = add_dependency (oe_depends p) inputpin
       /\ name_in (name inputpin) (pinnames (oe_depends p)) = false
       /\ enable_differs dumpdata p inputpin addr))
  /\ (depends (scan_pin dumpdata addr inputpin p) = depends p
      \/ (depends (scan_pin dumpdata addr inputpin p)
          = add_dependency (depends p) inputpin
          /\ name_in (name inputpin) (pinnames (depends p)) = false
          /\ value_differs dumpdata p inputpin addr)).
Proof.
  intros Ha Hip.
  assert (Ha1 : 0 <= Z.lor addr (bitmask inputpin))
    by (apply Z.lor_nonneg; lia).
  unfold scan_pin, enable_differs, value_differs, examined.
  destruct (Z.land addr (bitmask inputpin) >? 0) eqn:E1; [tauto|].
  destruct (Z.land addr (hizprobebitmask p) >? 0) eqn:E2; [tauto|].
  destruct (Z.land (Z.lor addr (bitmask inputpin)) (hizprobebitmask p) >? 0)
    eqn:E3; [tauto|].
  apply land_gtb_false in E1, E2, E3; try assumption.
  cbv zeta.
  set (h0 := hiz_at dumpdata p addr).
  set (h1 := hiz_at dumpdata p (Z.lor addr (bitmask inputpin))).
  set (out0 := Z.land (image_at dumpdata addr) (bitmask p)).
  set (out1 := Z.land (image_at dumpdata (Z.lor addr (bitmask inputpin)))
                      (bitmask p)).
  set (p1 := if negb (Bool.eqb h0 h1)
                && negb (name_in (name inputpin) (pinnames (oe_depends p)))
             then set_oe_depends p (add_dependency (oe_depends p) inputpin)
             else p).
  set (p2 := if negb h0 && negb h1 && negb (out0 =? out1)
                && negb (name_in (name inputpin) (pinnames (depends p1)))
             then set_depends p1 (add_dependency (depends p1) inputpin)
             else p1).
  pose proof (record_seen_keeps p2 h0 out0) as K0.
  pose proof (record_seen_keeps (record_seen p2 h0 out0) h1 out1) as K1.
  destruct K0 as (_ & _ & _ & _ & K0d & K0o & _).
  destruct K1 as (_ & _ & _ & _ & K1d & K1o & _).
  rewrite K1d, K1o, K0d, K0o.
  assert (Hd1 : depends p1 = depends p).
  { unfold p1. now destruct (negb (Bool.eqb h0 h1) && _). }
  assert (Ho2 : oe_depends p2 = oe_depends p1).
  { unfold p2. now destruct (negb h0 && negb h1 && negb (out0 =? out1) && _). }
  split.
  - rewrite Ho2. unfold p1.
    destruct (name_in (name inputpin) (pinnames (oe_depends p)));
      [rewrite andb_false_r; now left|].
    destruct h0, h1; cbn; try (now left);
      right; (split; [reflexivity|]); (split; [reflexivity|]);
      (split; [tauto | discriminate]).
  - unfold p2. rewrite Hd1.
    destruct (name_in (name inputpin) (pinnames (depends p)));
      [rewrite andb_false_r; now left|].
    destruct h0, h1; cbn [negb andb]; try (left; exact Hd1).
    destruct (out0 =? out1) eqn:Eout; cbn [negb andb];
      [left; exact Hd1|].
    right. apply Z.eqb_neq in Eout.
    split; [reflexivity | tauto].
Qed.

Lemma deps_of_add (added : list Pin) (inputpin : Pin) :
  add_dependency (deps_of added) inputpin = deps_of (added ++ [inputpin]).
Proof.
  unfold add_dependency, deps_of. cbn [bitmap bits pinnames].
  rewrite !map_app. cbn [map]. now rewrite or_of_app.
Qed.

Lemma NoDup_names_add (added : list Pin) (inputpin : Pin) :
  NoDup (map name added) ->
  name_in (name inputpin) (map name added) = false ->
  NoDup (map name (added ++ [inputpin])).
Proof.
  intros Hnd Hname. rewrite map_app. cbn [map].
  apply name_in_false in Hname.
  apply NoDup_app; [assumption | repeat constructor; intros [] |].
  intros x Hx [<-|[]]. contradiction.
Qed.

(** Every input pin that the scan records in a dependency set has an
    address pair of its own among the addresses scanned. *)
Lemma scan_all_added (dumpdata : list Z) (inputpins : list Pin)
  (addrs : list Z) (op : Pin) :
  Forall (fun addr => 0 <= addr) addrs ->
  Forall (fun ip => 0 <= bitmask ip) inputpins ->
  depends op = no_dependencies -> oe_depends op = no_dependencies ->
  (exists added,
     oe_depends (scan_pin_all dumpdata addrs inputpins op) = deps_of added
     /\ NoDup (map name added)
     /\ forall ip, In ip added ->
          In ip inputpins
          /\ exists addr, In addr addrs /\ enable_differs dumpdata op ip addr)
  /\ (exists added,
        depends (scan_pin_all dumpdata addrs inputpins op) = deps_of added
        /\ NoDup (map name added)
        /\ forall ip, In ip added ->
             In ip inputpins
             /\ exists addr, In addr addrs /\ value_differs dumpdata op ip addr).
Proof.
  intros Haddrs Hins Hd Ho.
  rewrite Forall_forall in Haddrs, Hins.
  set (P := fun q : Pin =>
         same_model q op
         /\ (exists added,
               oe_depends q = deps_of added /\ NoDup (map name added)
               /\ forall ip, In ip added ->
                    In ip inputpins
                    /\ exists addr, In addr addrs
                                    /\ enable_differs dumpdata op ip addr)
         /\ (exists added,
               depends q = deps_of added /\ NoDup (map name added)
               /\ forall ip, In ip added ->
                    In ip inputpins
                    /\ exists addr, In addr addrs
                                    /\ value_differs dumpdata op ip addr)).
  assert (Hfinal : P (scan_pin_all dumpdata addrs inputpins op)).
  { unfold scan_pin_all. apply fold_left_invariant.
    - intros q0 a Ha Hq0. apply fold_left_invariant; [|exact Hq0].
      intros q ip Hip (Hm & (oa & Hoa & Hoand & Hoall) & (da & Hda & Hdand & Hdall)).
      pose proof (scan_pin_model dumpdata a ip q) as Hstep.
      destruct (enable_differs_model dumpdata op q ip a Hm) as [Men Mval].
      destruct (scan_pin_added dumpdata a ip q (Haddrs a Ha) (Hins ip Hip))
        as [Soe Sdep].
      split; [|split].
      + unfold same_model in *. destruct Hm as (<- & <- & <-). exact Hstep.
      + destruct Soe as [-> | (-> & Hname & Hdiff)]; [now exists oa|].
        rewrite Hoa in *. cbn [deps_of pinnames] in Hname.
        exists (oa ++ [ip]). split; [apply deps_of_add|].
        split; [now apply NoDup_names_add|].
        intros ip' Hin. apply in_app_or in Hin.
        destruct Hin as [Hin | [<- | []]]; [now apply Hoall|].
        split; [assumption|]. exists a. split; [assumption | now apply Men].
      + destruct Sdep as [-> | (-> & Hname & Hdiff)]; [now exists da|].
        rewrite Hda in *. cbn [deps_of pinnames] in Hname.
        exists (da ++ [ip]). split; [apply deps_of_add|].
        split; [now apply NoDup_names_add|].
        intros ip' Hin. apply in_app_or in Hin.
        destruct Hin as [Hin | [<- | []]]; [now apply Hdall|].
        split; [assumption|]. exists a. split; [assumption | now apply Mval].
    - split; [unfold same_model; tauto|].
      split; exists []; (split; [assumption|]);
        (split; [constructor | intros ip []]). }
  destruct Hfinal as (_ & Hoe & Hdep). split; assumption.
Qed.

Lemma records_intro (inputpins : list Pin) (differs : Pin -> Prop)
  (d : PinDependencies) (added : list Pin) :
  d = deps_of added -> NoDup (map name added) ->
  (forall ip, In ip added -> In ip inputpins /\ differs ip) ->
  (forall ip, In ip inputpins -> differs ip -> In (name ip) (pinnames d)) ->
  records inputpins differs d.
Proof.
  intros Hd Hnd Hsound Hcomplete. exists added.
  split; [assumption|]. split; [assumption|]. split; [assumption|].
  split; [assumption|].
  intros ip Hip Hunique. split; [intros Hin; now apply Hsound|].
  intros Hdiff. specialize (Hcomplete ip Hip Hdiff).
  rewrite Hd in Hcomplete. cbn [deps_of pinnames] in Hcomplete.
  apply in_map_iff in Hcomplete. destruct Hcomplete as [ip' [Hname Hin]].
  rewrite <- (Hunique ip' (proj1 (Hsound ip' Hin)) Hname). exact Hin.
Qed.

(** C2, as the code has it: on an image of [2 ^ A] words the full scan
    returns, and each of the two dependency sets of an output pin records
    input pins of distinct names (names, masks in the same order, and the
    OR of the masks), every one of them with an address pair of its own:
    a pair on which the hi-z states of the output pin differ for the
    output-enable dependencies, a pair on which the pin is driven at both
    addresses with different values for the dependencies.  A name is
    recorded as soon as an input pin of that name has such a pair, and an
    input pin whose name no other input pin has is recorded exactly when
    it has such a pair. *)
Theorem dependency_scan_spec (device : Device) (dumpdata : list Z)
  (inputpins outputpins : list Pin) :
  0 <= eprom_address_width device ->
  Z.of_nat (List.length dumpdata) = 2 ^ eprom_address_width device ->
  Forall (fun ip => 0 <= bitmask ip < 2 ^ eprom_address_width device)
         inputpins ->
  Forall (fun p => 0 <= hizprobebitmask p < 2 ^ eprom_address_width device
                   /\ depends p = no_dependencies
                   /\ oe_depends p = no_dependencies)
         outputpins ->
  exists scanned,
    build_outputpins_dependencies device dumpdata inputpins outputpins
    = Ok scanned
    /\ Forall2
         (fun op op' =>
            records inputpins
                    (fun ip => exists addr,
                       0 <= addr < 2 ^ eprom_address_width device
                       /\ enable_differs dumpdata op ip addr)
                    (oe_depends op')
            /\ records inputpins
                       (fun ip => exists addr,
                          0 <= addr < 2 ^ eprom_address_width device
                          /\ value_differs dumpdata op ip addr)
                       (depends op'))
         outputpins scanned.
Proof.
  intros Hw Hsize Hins Houts.
  set (w := eprom_address_width device) in *.
  exists (map (scan_pin_all dumpdata (range (2 ^ w)) inputpins) outputpins).
  assert (Haddrs : Forall (fun addr => 0 <= addr < 2 ^ w) (range (2 ^ w))).
  { apply Forall_forall. intros a Ha. now apply in_range. }
  assert (Haddrs0 : Forall (fun addr => 0 <= addr) (range (2 ^ w))).
  { eapply Forall_impl; [|exact Haddrs]. intros a Ha. apply Ha. }
  assert (Hins0 : Forall (fun ip => 0 <= bitmask ip) inputpins).
  { eapply Forall_impl; [|exact Hins]. intros q Hq. apply Hq. }
  split.
  - unfold build_outputpins_dependencies. fold w.
    destruct (w <? 0) eqn:E; [apply Z.ltb_lt in E; lia|].
    eapply scan_pure; try eassumption.
    eapply Forall_impl; [|exact Houts]. intros p Hp. apply Hp.
  - apply Forall2_map_right. intros op Hop.
    rewrite Forall_forall in Houts. destruct (Houts op Hop) as (_ & Hd & Ho).
    destruct (scan_all_added dumpdata inputpins (range (2 ^ w)) op
                Haddrs0 Hins0 Hd Ho)
      as [(oa & Hoa & Hoand & Hoall) (da & Hda & Hdand & Hdall)].
    destruct (scan_all_names dumpdata inputpins (range (2 ^ w))
                Haddrs0 Hins0 op) as [_ Hnames].
    split.
    + apply (records_intro _ _ _ oa); try assumption.
      * intros ip Hin. destruct (Hoall ip Hin) as [Hip [a [Ha Hdiff]]].
        split; [assumption|]. exists a. split; [now apply in_range | assumption].
      * intros ip Hip [a [Ha Hdiff]].
        apply (proj1 (Hnames (name ip))). right. exists a, ip.
        split; [now apply in_range | auto].
    + apply (records_intro _ _ _ da); try assumption.
      * intros ip Hin. destruct (Hdall ip Hin) as [Hip [a [Ha Hdiff]]].
        split; [assumption|]. exists a. split; [now apply in_range | assumption].
      * intros ip Hip [a [Ha Hdiff]].
        apply (proj2 (Hnames (name ip))). right. exists a, ip.
        split; [now apply in_range | auto].
Qed.

Lemma dependency_scan_spec_witness :
  exists scanned,
    build_outputpins_dependencies demo_device demo_image demo_inputs
                                  demo_outputs = Ok scanned
    /\ Forall2
         (fun op op' =>
            records demo_inputs
                    (fun ip => exists addr,
                       0 <= addr < 2 ^ eprom_address_width demo_device
                       /\ enable_differs demo_image op ip addr)
                    (oe_depends op')
            /\ records demo_inputs
                       (fun ip => exists addr,
                          0 <= addr < 2 ^ eprom_address_width demo_device
                          /\ value_differs demo_image op ip addr)
                       (depends op'))
         demo_outputs scanned.
Proof.
  apply (dependency_scan_spec demo_device demo_image demo_inputs demo_outputs).
  - simpl. lia.
  - reflexivity.
  - repeat constructor; simpl; lia.
  - repeat constructor; simpl; lia.
Defined.

(** C2 as stated fails when input pins share a name, since a dependency
    is added once for each name: on [shared_device] the three inputs are
    all named [I] and the output follows address bits 1 and 2.  The first
    input is in the dependencies by its name without any address pair of
    its own, and the third input has such a pair while its mask is
    neither in the masks nor in the bitmap. *)
Lemma dependency_scan_counterexample :
  build_inputpins_configuration shared_device
  = Ok [shared_input 2 0; shared_input 3 1; shared_input 4 2]
  /\ build_outputpins_configuration shared_device = Ok [shared_fresh]
  /\ build_outputpins_dependencies shared_device shared_image
       [shared_input 2 0; shared_input 3 1; shared_input 4 2] [shared_fresh]
     = Ok [shared_output]
  /\ (In (name (shared_input 2 0)) (pinnames (depends shared_output))
      /\ ~ exists addr,
             0 <= addr < 2 ^ eprom_address_width shared_device
             /\ value_differs shared_image shared_fresh (shared_input 2 0)
                              addr)
  /\ ((exists addr,
         0 <= addr < 2 ^ eprom_address_width shared_device
         /\ value_differs shared_image shared_fresh (shared_input 4 2) addr)
      /\ ~ In (bitmask (shared_input 4 2)) (bits (depends shared_output))
      /\ Z.land (bitmap (depends shared_output))
                (bitmask (shared_input 4 2)) = 0).
Proof.
  split; [vm_compute; reflexivity|]. split; [vm_compute; reflexivity|].
  split; [vm_compute; reflexivity|]. split; [split|split; [|split]].
  - now left.
  - intros [addr [Hrange (Hex & _ & _ & Hne)]].
    change (2 ^ eprom_address_width shared_device) with 8 in Hrange.
    destruct Hex as (Hclear & _).
    assert (Hcases : addr = 0 \/ addr = 1 \/ addr = 2 \/ addr = 3
                     \/ addr = 4 \/ addr = 5 \/ addr = 6 \/ addr = 7) by lia.
    destruct Hcases as [-> | [-> | [-> | [-> | [-> | [-> | [-> | ->]]]]]]];
      vm_compute in Hclear, Hne;
      first [discriminate Hclear | now apply Hne].
  - exists 0. split; [vm_compute; split; [discriminate | reflexivity]|].
    split; [vm_compute; tauto|]. split; [reflexivity|].
    split; [reflexivity|]. vm_compute. discriminate.
  - vm_compute. intros [H | []]. discriminate H.
  - reflexivity.
Qed.

(** ** The section of the output-enable equations *)

Lemma write_pin_output_enable_equation_block
  (simplify : Z -> list Z -> list Z -> simplified) (args : Args)
  (p : Pin) (block : list string) :
  write_pin_output_enable_equation simplify args p = Ok block ->
  oe_block simplify args p block.
Proof.
  unfold write_pin_output_enable_equation, oe_block, oe_equation_of.
  destruct (bitmap (oe_depends p) =? 0) eqn:E.
  - intros Hrun.
    exists (write_equations_pin_name_value
              (name p ++ ".oe") (if seenhigh p || seenlow p then 1 else 0)
              (oepolarity args)).
    split; [|split; [reflexivity|]].
    + destruct (seenhigh p || seenlow p); now injection Hrun as <-.
    + intros _. destruct (seenhigh p || seenlow p);
        destruct (oepolarity args); discriminate.
  - cbv zeta.
    set (names := pinnames (oe_depends p)).
    set (spos := simplify_minterms simplify names (oeposminterms p) []).
    set (sneg := simplify_minterms simplify names (oenegminterms p) []).
    intros Hrun. apply bind_Ok in Hrun. destruct Hrun as [eqs [Heqs Hout]].
    injection Hout as <-. exists eqs. split; [reflexivity|].
    apply Z.eqb_neq in E.
    pose proof (write_pin_equations_nonempty (name p ++ ".oe") names spos
                  Positive) as Hp.
    pose proof (write_pin_equations_nonempty (name p ++ ".oe") names sneg
                  Negative) as Hn.
    unfold write_polarity_equations in Heqs.
    destruct (oepolarity args).
    + destruct spos as [| |pos] eqn:Epos.
      * injection Heqs as <-. split; [reflexivity|].
        intros [Hz | [Hpos _]]; [contradiction | now apply Hp].
      * injection Heqs as <-. split; [reflexivity|].
        intros [Hz | [Hpos _]]; [contradiction | now apply Hp].
      * destruct sneg as [| |neg] eqn:Eneg; try discriminate.
        cbn [prefers_positive].
        destruct (Nat.leb_spec (List.length pos) (List.length neg));
          [destruct (Z.leb_spec (Z.of_nat (List.length pos))
                                (Z.of_nat (List.length neg))); [|lia]
          |destruct (Z.leb_spec (Z.of_nat (List.length pos))
                                (Z.of_nat (List.length neg))); [lia|]];
          injection Heqs as <-; (split; [reflexivity|]);
          intros [Hz | [Hpos Hneg]]; try contradiction;
          [now apply Hp | now apply Hn].
    + injection Heqs as <-. split; [reflexivity|].
      intros [Hz | [Hpos _]]; [contradiction|].
      intros Happ. apply app_eq_nil in Happ. destruct Happ as [Happ _].
      now apply Hp in Happ.
    + injection Heqs as <-. split; [reflexivity|].
      intros [Hz | [Hpos _]]; [contradiction | now apply Hp].
    + injection Heqs as <-. split; [reflexivity|].
      intros [Hz | [_ Hneg]]; [contradiction | now apply Hn].
Qed.

(** C8, as the code has it: when it is written, the section of the
    output-enable equations holds, after its title, one block for every
    output pin, in order: the [.oe] equation of the pin followed by an
    empty line.  A pin without output-enable dependencies gets the
    constant 1 when it was seen high or low and the constant 0 when it
    was never seen high nor low; a pin with output-enable dependencies
    gets the equation of its minimized cover, which is not empty unless
    the minimizer returns an empty list of products. *)
Theorem output_enable_equation_written
  (simplify : Z -> list Z -> list Z -> simplified) (args : Args)
  (outputpins : list Pin) (writes : list string) :
  write_equations_pin_output_enable_equations simplify args outputpins
  = Ok writes ->
  exists blocks,
    writes = write_equations_section_title "Output enable equations"
             ++ List.concat blocks
    /\ Forall2 (oe_block simplify args) outputpins blocks.
Proof.
  unfold write_equations_pin_output_enable_equations. intros Hrun.
  apply bind_Ok in Hrun. destruct Hrun as [blocks [Hblocks Hrun]].
  injection Hrun as <-. exists blocks. split; [reflexivity|].
  eapply map_result_Forall2; [|exact Hblocks].
  intros p block _ Hp. now apply write_pin_output_enable_equation_block.
Qed.

Lemma output_enable_equation_written_witness :
  exists blocks,
    write_equations_section_title "Output enable equations"
    ++ [("B.oe = 'b'0;" ++ nl)%string; nl; ("O.oe = 'b'1;" ++ nl)%string; nl]
    = write_equations_section_title "Output enable equations"
      ++ List.concat blocks
    /\ Forall2 (oe_block demo_simplify demo_args) feedback_built blocks.
Proof.
  apply (output_enable_equation_written demo_simplify demo_args
                                        feedback_built).
  vm_compute. reflexivity.
Defined.

(** The section of [demo_device]: its output has the enable [E], and its
    block is the equation of the cover of the enable minterms. *)
Example output_enable_section_demo :
  write_equations_pin_output_enable_equations demo_simplify demo_args
                                              [demo_built]
  = Ok (write_equations_section_title "Output enable equations"
        ++ [("O.oe = E;" ++ nl)%string; nl]).
Proof. vm_compute. reflexivity. Qed.

(** ** Two runs of the program *)

(** The sort of [write_pin_equations] brings the products of a cover
    into one order, whatever order the minimizer lists them in, when no
    two products care for the same set of pins. *)
Lemma sorted_products_canonical (k : Z) (products1 products2 : list (Z * Z)) :
  Permutation products1 products2 ->
  NoDup (map (fun r => get_set_bits k (snd r)) products1) ->
  sorted (fun r1 r2 : Z * Z =>
            tuple_leb (get_set_bits k (snd r1)) (get_set_bits k (snd r2)))
         products1
  = sorted (fun r1 r2 : Z * Z =>
              tuple_leb (get_set_bits k (snd r1)) (get_set_bits k (snd r2)))
           products2.
Proof.
  intros Hperm Hkeys.
  set (key := fun r : Z * Z => get_set_bits k (snd r)) in *.
  set (leb := fun r1 r2 : Z * Z => tuple_leb (key r1) (key r2)).
  assert (Hsorted : forall l,
            StronglySorted (fun a b => leb a b = true) (sorted leb l)).
  { intros l. apply sorted_ordered.
    - intros x y. apply tuple_leb_total.
    - intros x y z. apply tuple_leb_trans. }
  apply (sorted_unique (fun a b => leb a b = true)).
  - apply Hsorted.
  - intros x y Hx Hy Hxy Hyx.
    apply (Permutation_in _ (sorted_perm leb products1)) in Hx, Hy.
    apply (NoDup_map_injective key products1); try assumption.
    now apply tuple_leb_antisym.
  - apply Hsorted.
  - eapply Permutation_trans; [apply sorted_perm|].
    eapply Permutation_trans; [exact Hperm|].
    symmetry. apply sorted_perm.
Qed.

Lemma same_cover_equations (name : string) (pinnames : list string)
  (s1 s2 : simplified) (sign : Polarity) :
  same_cover (Z.of_nat (List.length pinnames)) s1 s2 ->
  write_pin_equations name pinnames s1 sign
  = write_pin_equations name pinnames s2 sign.
Proof.
  intros [-> | (p1 & p2 & -> & -> & Hperm & Hkeys)]; [reflexivity|].
  unfold write_pin_equations. cbv zeta.
  now rewrite (sorted_products_canonical _ p1 p2 Hperm Hkeys).
Qed.

Lemma same_cover_length (k : Z) (s1 s2 : simplified) :
  same_cover k s1 s2 ->
  match s1, s2 with
  | STrue, STrue | SFalse, SFalse => True
  | SProducts p1, SProducts p2 => List.length p1 = List.length p2
  | _, _ => False
  end.
Proof.
  intros [-> | (p1 & p2 & -> & -> & Hperm & _)].
  - now destruct s2.
  - now apply Permutation_length.
Qed.

Lemma same_cover_polarity (name : string) (pinnames : list string)
  (pos1 pos2 neg1 neg2 : simplified) (polarity : Polarity) :
  same_cover (Z.of_nat (List.length pinnames)) pos1 pos2 ->
  same_cover (Z.of_nat (List.length pinnames)) neg1 neg2 ->
  write_polarity_equations name pinnames pos1 neg1 polarity
  = write_polarity_equations name pinnames pos2 neg2 polarity.
Proof.
  intros Hpos Hneg.
  pose proof (same_cover_equations name pinnames pos1 pos2 Positive Hpos)
    as Epos.
  pose proof (same_cover_equations name pinnames neg1 neg2 Negative Hneg)
    as Eneg.
  apply same_cover_length in Hpos, Hneg.
  unfold write_polarity_equations. destruct polarity.
  - destruct pos1 as [| |p1], pos2 as [| |p2]; try contradiction;
      try reflexivity.
    destruct neg1 as [| |n1], neg2 as [| |n2]; try contradiction;
      try reflexivity.
    cbn in Hpos, Hneg. rewrite Hpos, Hneg, Epos, Eneg. reflexivity.
  - now rewrite Epos, Eneg.
  - now rewrite Epos.
  - now rewrite Eneg.
Qed.

Lemma map_result_ext {A B : Type} (f g : A -> result B) (l : list A) :
  (forall x, f x = g x) -> map_result f l = map_result g l.
Proof.
  intros Hext. induction l as [|x l IH]; simpl; [reflexivity|].
  now rewrite Hext, IH.
Qed.

(** Two minimizers that return the same covers write the same file. *)
Lemma repal_same_covers (simplify1 simplify2 : Z -> list Z -> list Z -> simplified)
  (device : Device) (dumpdata : list Z) (args : Args) (stem date : string) :
  (forall k minterms dontcares,
     same_cover k (simplify1 k minterms dontcares)
                  (simplify2 k minterms dontcares)) ->
  repal simplify1 device dumpdata args stem date
  = repal simplify2 device dumpdata args stem date.
Proof.
  intros Hsame.
  assert (Hout : forall p, write_pin_output_equation simplify1 args p
                           = write_pin_output_equation simplify2 args p).
  { intros p. unfold write_pin_output_equation, simplify_minterms.
    destruct (bitmap (depends p) =? 0); [reflexivity|]. cbv zeta.
    now rewrite (same_cover_polarity _ _ _ _ _ _ _ (Hsame _ _ _)
                                      (Hsame _ _ _)). }
  assert (Hoe : forall p, write_pin_output_enable_equation simplify1 args p
                          = write_pin_output_enable_equation simplify2 args p).
  { intros p. unfold write_pin_output_enable_equation, simplify_minterms.
    destruct (bitmap (oe_depends p) =? 0); [reflexivity|]. cbv zeta.
    now rewrite (same_cover_polarity _ _ _ _ _ _ _ (Hsame _ _ _)
                                      (Hsame _ _ _)). }
  unfold repal, write_equations_pin_output_equations,
    write_equations_pin_output_enable_equations.
  destruct (check_dump_size device dumpdata); [|reflexivity]. cbn [bind].
  destruct (build_inputpins_configuration device); [|reflexivity].
  cbn [bind].
  destruct (build_outputpins_configuration device); [|reflexivity].
  cbn [bind].
  destruct (build_outputpins_dependencies device dumpdata _ _);
    [|reflexivity].
  cbn [bind].
  destruct (build_outputpins_equations device dumpdata _); [|reflexivity].
  cbn [bind].
  now rewrite (map_result_ext _ _ _ Hout), (map_result_ext _ _ _ Hoe).
Qed.

(** C7, as the code has it: for a fixed profile, image, polarity flags
    and dump name, take two runs in which the minimizer returns the same
    covers, possibly with the products of a cover in another order when
    no two of them care for the same set of pins.  If the first run
    succeeds so does the second, on any date, and the two runs write
    byte-identical equations files if and only if they take place on the
    same date, as the header prints it. *)
Theorem equations_file_determined_by_date
  (simplify1 simplify2 : Z -> list Z -> list Z -> simplified)
  (device : Device) (dumpdata : list Z) (args : Args)
  (stem date1 date2 : string) (writes1 : list string) :
  (forall k minterms dontcares,
     same_cover k (simplify1 k minterms dontcares)
                  (simplify2 k minterms dontcares)) ->
  repal simplify1 device dumpdata args stem date1 = Ok writes1 ->
  exists writes2,
    repal simplify2 device dumpdata args stem date2 = Ok writes2
    /\ (file_contents writes1 = file_contents writes2 <-> date1 = date2).
Proof.
  intros Hsame Hrun.
  destruct (repal_header simplify1 device dumpdata args stem date1 writes1
                         Hrun) as [rest Hrest].
  rewrite (Hrest date1) in Hrun. injection Hrun as <-.
  exists (write_equations_file_header stem (pal_device_name device) date2
          ++ rest).
  split.
  - rewrite <- (repal_same_covers simplify1 simplify2 device dumpdata args
                                  stem date2 Hsame).
    apply Hrest.
  - split; [apply header_contents_inj | now intros ->].
Qed.

Lemma or_simplify_same_cover (k : Z) (minterms dontcares : list Z) :
  same_cover k (or_simplify false k minterms dontcares)
               (or_simplify true k minterms dontcares).
Proof.
  unfold or_simplify.
  destruct minterms as [|a [|b [|c [|x minterms]]]]; try (now left).
  destruct ((k =? 2) && (a =? 1) && (b =? 2) && (c =? 3)) eqn:E;
    [|now left].
  apply andb_true_iff in E. destruct E as [E _].
  apply andb_true_iff in E. destruct E as [E _].
  apply andb_true_iff in E. destruct E as [E _].
  apply Z.eqb_eq in E. subst k.
  right. exists [(1, 1); (2, 2)], [(2, 2); (1, 1)].
  split; [reflexivity|]. split; [reflexivity|]. split; [apply perm_swap|].
  vm_compute. repeat constructor; simpl; intuition discriminate.
Qed.

Lemma equations_file_determined_by_date_witness :
  exists writes1 writes2,
    repal (or_simplify false) or_device or_image (mkArgs Positive Auto)
          "dump" "11/04/26" = Ok writes1
    /\ repal (or_simplify true) or_device or_image (mkArgs Positive Auto)
             "dump" "11/04/26" = Ok writes2
    /\ In ("O = A" ++ nl)%string writes1
    /\ file_contents writes1 = file_contents writes2.
Proof.
  destruct (repal (or_simplify false) or_device or_image
                  (mkArgs Positive Auto) "dump" "11/04/26")
    as [writes1|e] eqn:Hrun1; [|vm_compute in Hrun1; discriminate].
  destruct (equations_file_determined_by_date
              (or_simplify false) (or_simplify true) or_device or_image
              (mkArgs Positive Auto) "dump" "11/04/26" "11/04/26" writes1
              or_simplify_same_cover Hrun1)
    as [writes2 [Hrun2 Hiff]].
  exists writes1, writes2. split; [reflexivity|]. split; [exact Hrun2|].
  split; [|now apply Hiff].
  vm_compute in Hrun1. injection Hrun1 as <-. simpl. tauto.
Defined.
